(** * ArchyTask: the outline engine of [media/main.js] and the Markdown
      reader and writer of [src/parser.ts], embedded and verified.

    Conventions of the embedding.
    - JavaScript numbers used as indices are [Z] ([-1] is the "none" value of
      the source); arrays are [list]s in array order ([push] appends at the
      end, [shift] removes the head, [pop] removes the last element).
    - A JavaScript [Set] of indices is a duplicate-free [list Z] in insertion
      order; the source sorts it before every use that depends on order.
    - Strings are lists of code units below 256 ([list ascii]).
    - Item ids are the strings [Date.now() + random] in the source; here they
      are natural numbers drawn from a counter kept in the state, which keeps
      the one property the code relies on: a freshly generated id is new.
    - An operation of the source that would throw a [TypeError] (reading a
      property of [undefined]) or a [ReferenceError] returns [None]; the
      half-updated globals it would leave behind are not modelled.
    - DOM rendering, scrolling, animation, notifications and the messages
      posted to the extension host are not part of the state and are left
      out of the state functions; statements of the source that only drive
      them are dropped.  What the end of a title edit sends out (the message
      [updateItems] and the toasts) is modelled beside the state, as the
      list of [Output]s of the call, in the last section of the embedding.
      [isPreSelected], [ignoreBlur] and the settings, which no list
      operation reads, are left out.  The note of the inspector is not being
      edited while another handler runs, so [renderInspector] never saves a
      note on the side. *)

From Stdlib Require Import ZArith List Bool Lia Ascii String Arith Permutation.
Import ListNotations.
Open Scope Z_scope.

(** ** Strings *)

Definition str : Type := list ascii.

Definition lit (s : string) : str := list_ascii_of_string s.

Fixpoint str_eqb (a b : str) : bool :=
  match a, b with
  | [], [] => true
  | x :: a', y :: b' => Ascii.eqb x y && str_eqb a' b'
  | _, _ => false
  end.

(** White space of [String.prototype.trim] and of the regular-expression
    class [\s], among the code units below 256: tab, line feed, vertical tab,
    form feed, carriage return, space and no-break space. *)
Definition is_space (c : ascii) : bool :=
  let n := nat_of_ascii c in
  ((9 <=? n)%nat && (n <=? 13)%nat) || (n =? 32)%nat || (n =? 160)%nat.

Fixpoint trimStart (l : str) : str :=
  match l with
  | [] => []
  | c :: r => if is_space c then trimStart r else l
  end.

Definition trim (l : str) : str := rev (trimStart (rev (trimStart l))).

(** ** Constants *)

Module Constants.
Definition MAX_HISTORY_SIZE : Z := 50.
Definition INDENT_PARENT : Z := 0.
Definition INDENT_CHILD : Z := 1.
Definition INDENT_MAX : Z := 1.
End Constants.

(** ** Items *)

Definition Id : Type := nat.

Inductive ItemType : Type := todo | heading.

Definition ItemType_eqb (a b : ItemType) : bool :=
  match a, b with
  | todo, todo | heading, heading => true
  | _, _ => false
  end.

(** [isChecked] of a heading built by the parser is absent in the source
    (falsy); it is [false] here. *)
Record Item : Type := mkItem {
  id : Id;
  type : ItemType;
  title : str;
  indent : Z;
  isChecked : bool;
  note : str
}.

Definition set_indent (v : Z) (it : Item) : Item :=
  mkItem (id it) (type it) (title it) v (isChecked it) (note it).
Definition set_isChecked (v : bool) (it : Item) : Item :=
  mkItem (id it) (type it) (title it) (indent it) v (note it).
Definition set_id (v : Id) (it : Item) : Item :=
  mkItem v (type it) (title it) (indent it) (isChecked it) (note it).
Definition set_title (v : str) (it : Item) : Item :=
  mkItem (id it) (type it) v (indent it) (isChecked it) (note it).
Definition set_note (v : str) (it : Item) : Item :=
  mkItem (id it) (type it) (title it) (indent it) (isChecked it) v.

Definition is_heading (it : Item) : bool := ItemType_eqb (type it) heading.

(** ** The error monad of the embedding *)

Definition bind {A B : Type} (m : option A) (k : A -> option B) : option B :=
  match m with
  | Some a => k a
  | None => None
  end.

Notation "x <- m ;; k" := (bind m (fun x => k))
  (at level 61, m at next level, right associativity).
Notation "' p <- m ;; k" := (bind m (fun p => k))
  (at level 61, p pattern, m at next level, right associativity).

(** ** Arrays indexed by JavaScript numbers *)

Definition len {A : Type} (l : list A) : Z := Z.of_nat (List.length l).

(** [l[i]]: [None] is [undefined]. *)
Definition get {A : Type} (l : list A) (i : Z) : option A :=
  if i <? 0 then None else nth_error l (Z.to_nat i).

Definition take {A : Type} (i : Z) (l : list A) : list A := firstn (Z.to_nat i) l.
Definition drop {A : Type} (i : Z) (l : list A) : list A := skipn (Z.to_nat i) l.

(** [l.slice(a, b)] for [0 <= a]. *)
Definition slice {A : Type} (l : list A) (a b : Z) : list A :=
  take (b - a) (drop a l).

(** [l.splice(i, n)] for [0 <= i]: the array after removal. *)
Definition splice_remove {A : Type} (l : list A) (i n : Z) : list A :=
  take i l ++ drop (i + Z.max 0 n) l.

(** [l.splice(i, 0, ...xs)] for [0 <= i]. *)
Definition splice_insert {A : Type} (l : list A) (i : Z) (xs : list A) : list A :=
  take i l ++ xs ++ drop i l.

Fixpoint findIndex_from {A : Type} (p : A -> bool) (l : list A) (i : Z) : Z :=
  match l with
  | [] => -1
  | x :: r => if p x then i else findIndex_from p r (i + 1)
  end.

Definition findIndex {A : Type} (p : A -> bool) (l : list A) : Z :=
  findIndex_from p l 0.

(** Length of the longest prefix of [l] whose elements satisfy [p]: the
    counting loops of the source that [break] at the first failure. *)
Fixpoint run_length {A : Type} (p : A -> bool) (l : list A) : Z :=
  match l with
  | [] => 0
  | x :: r => if p x then 1 + run_length p r else 0
  end.

(** ** Index sets *)

Definition IndexSet : Type := list Z.

Definition has (i : Z) (s : IndexSet) : bool := existsb (Z.eqb i) s.
Definition add (i : Z) (s : IndexSet) : IndexSet := if has i s then s else s ++ [i].
Definition delete (i : Z) (s : IndexSet) : IndexSet := filter (fun j => negb (Z.eqb i j)) s.
Definition size (s : IndexSet) : Z := len s.

Fixpoint insert_sorted (le : Z -> Z -> bool) (x : Z) (l : list Z) : list Z :=
  match l with
  | [] => [x]
  | y :: r => if le x y then x :: y :: r else y :: insert_sorted le x r
  end.

(** [Array.from(s).sort((a, b) => a - b)] and [... => b - a]. *)
Definition sort_asc (l : list Z) : list Z := fold_right (insert_sorted Z.leb) [] l.
Definition sort_desc (l : list Z) : list Z := fold_right (insert_sorted Z.geb) [] l.

(** [Math.min(...s)] and [Math.max(...s)]; [None] is [Infinity] / [-Infinity]. *)
Definition min_of (s : IndexSet) : option Z :=
  match s with
  | [] => None
  | x :: r => Some (fold_left Z.min r x)
  end.
Definition max_of (s : IndexSet) : option Z :=
  match s with
  | [] => None
  | x :: r => Some (fold_left Z.max r x)
  end.

(** [for (i = a; i <= b; i++)] as the list of the values of [i]. *)
Definition range (a b : Z) : list Z :=
  map (fun k => a + Z.of_nat k) (seq 0 (Z.to_nat (b + 1 - a))).

(** ** Global state of the webview *)

Record Snapshot : Type := mkSnapshot {
  snap_items : list Item;
  snap_archivedItems : list Item
}.

Record State : Type := mkState {
  items : list Item;
  archivedItems : list Item;
  archivedSelectedIndices : IndexSet;
  archivedActiveIndex : Z;
  archivedAnchorIndex : Z;
  history : list Snapshot;
  future : list Snapshot;
  activeIndex : Z;
  anchorIndex : Z;
  selectedIndices : IndexSet;
  editingId : option Id;
  isNewItem : bool;
  isUndoingRedoing : bool;
  isArchiveHidden : bool;
  clipboard : list Item;
  isArchiveActive : bool;
  isArchiveHeaderSelected : bool;
  nextId : Id
}.

Definition set_items (v : list Item) (s : State) : State :=
  mkState v (archivedItems s) (archivedSelectedIndices s) (archivedActiveIndex s) (archivedAnchorIndex s) (history s) (future s) (activeIndex s) (anchorIndex s) (selectedIndices s) (editingId s) (isNewItem s) (isUndoingRedoing s) (isArchiveHidden s) (clipboard s) (isArchiveActive s) (isArchiveHeaderSelected s) (nextId s).

Definition set_archivedItems (v : list Item) (s : State) : State :=
  mkState (items s) v (archivedSelectedIndices s) (archivedActiveIndex s) (archivedAnchorIndex s) (history s) (future s) (activeIndex s) (anchorIndex s) (selectedIndices s) (editingId s) (isNewItem s) (isUndoingRedoing s) (isArchiveHidden s) (clipboard s) (isArchiveActive s) (isArchiveHeaderSelected s) (nextId s).

Definition set_archivedSelectedIndices (v : IndexSet) (s : State) : State :=
  mkState (items s) (archivedItems s) v (archivedActiveIndex s) (archivedAnchorIndex s) (history s) (future s) (activeIndex s) (anchorIndex s) (selectedIndices s) (editingId s) (isNewItem s) (isUndoingRedoing s) (isArchiveHidden s) (clipboard s) (isArchiveActive s) (isArchiveHeaderSelected s) (nextId s).

Definition set_archivedActiveIndex (v : Z) (s : State) : State :=
  mkState (items s) (archivedItems s) (archivedSelectedIndices s) v (archivedAnchorIndex s) (history s) (future s) (activeIndex s) (anchorIndex s) (selectedIndices s) (editingId s) (isNewItem s) (isUndoingRedoing s) (isArchiveHidden s) (clipboard s) (isArchiveActive s) (isArchiveHeaderSelected s) (nextId s).

Definition set_archivedAnchorIndex (v : Z) (s : State) : State :=
  mkState (items s) (archivedItems s) (archivedSelectedIndices s) (archivedActiveIndex s) v (history s) (future s) (activeIndex s) (anchorIndex s) (selectedIndices s) (editingId s) (isNewItem s) (isUndoingRedoing s) (isArchiveHidden s) (clipboard s) (isArchiveActive s) (isArchiveHeaderSelected s) (nextId s).

Definition set_history (v : list Snapshot) (s : State) : State :=
  mkState (items s) (archivedItems s) (archivedSelectedIndices s) (archivedActiveIndex s) (archivedAnchorIndex s) v (future s) (activeIndex s) (anchorIndex s) (selectedIndices s) (editingId s) (isNewItem s) (isUndoingRedoing s) (isArchiveHidden s) (clipboard s) (isArchiveActive s) (isArchiveHeaderSelected s) (nextId s).

Definition set_future (v : list Snapshot) (s : State) : State :=
  mkState (items s) (archivedItems s) (archivedSelectedIndices s) (archivedActiveIndex s) (archivedAnchorIndex s) (history s) v (activeIndex s) (anchorIndex s) (selectedIndices s) (editingId s) (isNewItem s) (isUndoingRedoing s) (isArchiveHidden s) (clipboard s) (isArchiveActive s) (isArchiveHeaderSelected s) (nextId s).

Definition set_activeIndex (v : Z) (s : State) : State :=
  mkState (items s) (archivedItems s) (archivedSelectedIndices s) (archivedActiveIndex s) (archivedAnchorIndex s) (history s) (future s) v (anchorIndex s) (selectedIndices s) (editingId s) (isNewItem s) (isUndoingRedoing s) (isArchiveHidden s) (clipboard s) (isArchiveActive s) (isArchiveHeaderSelected s) (nextId s).

Definition set_anchorIndex (v : Z) (s : State) : State :=
  mkState (items s) (archivedItems s) (archivedSelectedIndices s) (archivedActiveIndex s) (archivedAnchorIndex s) (history s) (future s) (activeIndex s) v (selectedIndices s) (editingId s) (isNewItem s) (isUndoingRedoing s) (isArchiveHidden s) (clipboard s) (isArchiveActive s) (isArchiveHeaderSelected s) (nextId s).

Definition set_selectedIndices (v : IndexSet) (s : State) : State :=
  mkState (items s) (archivedItems s) (archivedSelectedIndices s) (archivedActiveIndex s) (archivedAnchorIndex s) (history s) (future s) (activeIndex s) (anchorIndex s) v (editingId s) (isNewItem s) (isUndoingRedoing s) (isArchiveHidden s) (clipboard s) (isArchiveActive s) (isArchiveHeaderSelected s) (nextId s).

Definition set_editingId (v : option Id) (s : State) : State :=
  mkState (items s) (archivedItems s) (archivedSelectedIndices s) (archivedActiveIndex s) (archivedAnchorIndex s) (history s) (future s) (activeIndex s) (anchorIndex s) (selectedIndices s) v (isNewItem s) (isUndoingRedoing s) (isArchiveHidden s) (clipboard s) (isArchiveActive s) (isArchiveHeaderSelected s) (nextId s).

Definition set_isNewItem (v : bool) (s : State) : State :=
  mkState (items s) (archivedItems s) (archivedSelectedIndices s) (archivedActiveIndex s) (archivedAnchorIndex s) (history s) (future s) (activeIndex s) (anchorIndex s) (selectedIndices s) (editingId s) v (isUndoingRedoing s) (isArchiveHidden s) (clipboard s) (isArchiveActive s) (isArchiveHeaderSelected s) (nextId s).

Definition set_isUndoingRedoing (v : bool) (s : State) : State :=
  mkState (items s) (archivedItems s) (archivedSelectedIndices s) (archivedActiveIndex s) (archivedAnchorIndex s) (history s) (future s) (activeIndex s) (anchorIndex s) (selectedIndices s) (editingId s) (isNewItem s) v (isArchiveHidden s) (clipboard s) (isArchiveActive s) (isArchiveHeaderSelected s) (nextId s).

Definition set_isArchiveHidden (v : bool) (s : State) : State :=
  mkState (items s) (archivedItems s) (archivedSelectedIndices s) (archivedActiveIndex s) (archivedAnchorIndex s) (history s) (future s) (activeIndex s) (anchorIndex s) (selectedIndices s) (editingId s) (isNewItem s) (isUndoingRedoing s) v (clipboard s) (isArchiveActive s) (isArchiveHeaderSelected s) (nextId s).

Definition set_clipboard (v : list Item) (s : State) : State :=
  mkState (items s) (archivedItems s) (archivedSelectedIndices s) (archivedActiveIndex s) (archivedAnchorIndex s) (history s) (future s) (activeIndex s) (anchorIndex s) (selectedIndices s) (editingId s) (isNewItem s) (isUndoingRedoing s) (isArchiveHidden s) v (isArchiveActive s) (isArchiveHeaderSelected s) (nextId s).

Definition set_isArchiveActive (v : bool) (s : State) : State :=
  mkState (items s) (archivedItems s) (archivedSelectedIndices s) (archivedActiveIndex s) (archivedAnchorIndex s) (history s) (future s) (activeIndex s) (anchorIndex s) (selectedIndices s) (editingId s) (isNewItem s) (isUndoingRedoing s) (isArchiveHidden s) (clipboard s) v (isArchiveHeaderSelected s) (nextId s).

Definition set_isArchiveHeaderSelected (v : bool) (s : State) : State :=
  mkState (items s) (archivedItems s) (archivedSelectedIndices s) (archivedActiveIndex s) (archivedAnchorIndex s) (history s) (future s) (activeIndex s) (anchorIndex s) (selectedIndices s) (editingId s) (isNewItem s) (isUndoingRedoing s) (isArchiveHidden s) (clipboard s) (isArchiveActive s) v (nextId s).

Definition set_nextId (v : Id) (s : State) : State :=
  mkState (items s) (archivedItems s) (archivedSelectedIndices s) (archivedActiveIndex s) (archivedAnchorIndex s) (history s) (future s) (activeIndex s) (anchorIndex s) (selectedIndices s) (editingId s) (isNewItem s) (isUndoingRedoing s) (isArchiveHidden s) (clipboard s) (isArchiveActive s) (isArchiveHeaderSelected s) v.


(** The webview as first loaded: every list empty, nothing selected, the
    archive section collapsed. *)
Definition initialState : State :=
  mkState [] [] [] (-1) (-1) [] [] (-1) (-1) [] None false false true []
          false false 0%nat.

(** ** ItemUtils *)

Module ItemUtils.

Definition generateId (s : State) : Id * State :=
  (nextId s, set_nextId (S (nextId s)) s).

Definition isArchive (i : Item) : bool :=
  is_heading i && str_eqb (title i) (lit "Archive").

Definition findArchiveIndex (itemList : list Item) : Z :=
  findIndex isArchive itemList.

Definition isArchiveHeading (item : option Item) : bool :=
  match item with
  | Some i => isArchive i
  | None => false
  end.

(** The loop test shared by [getChildCount], [getItemWithChildren] and
    [getBlockCount]: the item is still a child of the block's root. *)
Definition continuesBlock (i : Item) : bool :=
  negb ((indent i <=? Constants.INDENT_PARENT) || is_heading i).

Definition getChildCount (itemList : list Item) (parentIndex : Z) : Z :=
  if (parentIndex <? 0) || (parentIndex >=? len itemList) then 0
  else match get itemList parentIndex with
       | None => 0
       | Some parentItem =>
         if negb (indent parentItem =? Constants.INDENT_PARENT) || is_heading parentItem
         then 0
         else run_length continuesBlock (drop (parentIndex + 1) itemList)
       end.

(** Returns the pair [(items, count)] of the source's object. *)
Definition getItemWithChildren (itemList : list Item) (index : Z) : list Item * Z :=
  if (index <? 0) || (index >=? len itemList) then ([], 0)
  else match get itemList index with
       | None => ([], 0)
       | Some item =>
         let count :=
           if is_heading item then
             1 + run_length (fun i => negb (is_heading i)) (drop (index + 1) itemList)
           else if indent item =? Constants.INDENT_PARENT then
             1 + run_length continuesBlock (drop (index + 1) itemList)
           else 1 in
         (slice itemList index (index + count), count)
       end.

(** [for (i = n - 1; i >= 0; i--)]: the first item above with indent 0
    decides; a heading that is not at indent 0 stops the scan.  Every
    index below [childIndex] is in range, so no read is [undefined]. *)
Fixpoint isParentSelected_scan (itemList : list Item) (n : nat) (selectedSet : IndexSet)
  : bool :=
  match n with
  | O => false
  | S i =>
    match nth_error itemList i with
    | None => false
    | Some it =>
      if indent it =? Constants.INDENT_PARENT then has (Z.of_nat i) selectedSet
      else if is_heading it then false
      else isParentSelected_scan itemList i selectedSet
    end
  end.

Definition isParentSelected (itemList : list Item) (childIndex : Z) (selectedSet : IndexSet)
  : bool :=
  match get itemList childIndex with
  | None => false
  | Some item =>
    if negb (indent item =? Constants.INDENT_CHILD) then false
    else isParentSelected_scan itemList (Z.to_nat childIndex) selectedSet
  end.

Fixpoint collect_loop (itemList : list Item) (selectedSet : IndexSet)
         (excludeHeadings : bool) (sortedIndices : list Z) : list Item :=
  match sortedIndices with
  | [] => []
  | index :: rest =>
    let tl := collect_loop itemList selectedSet excludeHeadings rest in
    match get itemList index with
    | None => tl
    | Some item =>
      if excludeHeadings && is_heading item then tl
      else if (indent item =? Constants.INDENT_CHILD)
              && isParentSelected itemList index selectedSet then tl
      else item :: tl
    end
  end.

Definition collectItemsToProcess (itemList : list Item) (selectedSet : IndexSet)
           (excludeHeadings : bool) : list Item :=
  collect_loop itemList selectedSet excludeHeadings (sort_asc selectedSet).

(** [JSON.parse(JSON.stringify(item))] is the identity on the six fields
    of an item; with [generateNewIds] every copy takes a fresh id. *)
Fixpoint deepCopyItems_new (itemList : list Item) (s : State) : list Item * State :=
  match itemList with
  | [] => ([], s)
  | item :: rest =>
    let '(i, s1) := generateId s in
    let '(copies, s2) := deepCopyItems_new rest s1 in
    (set_id i item :: copies, s2)
  end.

Definition deepCopyItems (itemList : list Item) (generateNewIds : bool) (s : State)
  : list Item * State :=
  if generateNewIds then deepCopyItems_new itemList s else (itemList, s).

Fixpoint hasParentAbove_scan (itemList : list Item) (n : nat) : option bool :=
  match n with
  | O => Some false
  | S i =>
    it <- nth_error itemList i ;;
    if (indent it =? Constants.INDENT_PARENT) && negb (is_heading it) then Some true
    else if is_heading it then Some false
    else hasParentAbove_scan itemList i
  end.

Definition hasParentAbove (itemList : list Item) (position : Z) : option bool :=
  hasParentAbove_scan itemList (Z.to_nat position).

Definition adjustOrphanedIndent (itemsToInsert targetList : list Item) (insertPosition : Z)
  : option (list Item) :=
  match itemsToInsert with
  | [] => Some []
  | first :: rest =>
    if negb (indent first =? Constants.INDENT_CHILD) then Some itemsToInsert
    else if insertPosition =? 0 then Some (set_indent Constants.INDENT_PARENT first :: rest)
    else
      above <- hasParentAbove targetList insertPosition ;;
      Some (if above : bool then itemsToInsert
            else set_indent Constants.INDENT_PARENT first :: rest)
  end.

End ItemUtils.

(** ** HistoryManager *)

Module HistoryManager.

Definition snapshot (s : State) : Snapshot :=
  mkSnapshot (items s) (archivedItems s).

(** [history.push(state); if (history.length > MAX) history.shift()]. *)
Definition push_capped (h : list Snapshot) (x : Snapshot) : list Snapshot :=
  let h' := h ++ [x] in
  if len h' >? Constants.MAX_HISTORY_SIZE then tl h' else h'.

Definition save (s : State) : State :=
  if isUndoingRedoing s then s
  else set_future [] (set_history (push_capped (history s) (snapshot s)) s).

Definition popLast (s : State) : State :=
  if len (history s) >? 0 then set_history (removelast (history s)) s else s.

Definition _validateSelection (s : State) : State :=
  let s := if activeIndex s >=? len (items s)
           then set_activeIndex (if len (items s) >? 0 then len (items s) - 1 else -1) s
           else s in
  let s := set_selectedIndices [] s in
  let s := if activeIndex s >=? 0
           then set_anchorIndex (activeIndex s) (set_selectedIndices [activeIndex s] s)
           else s in
  let s := if archivedActiveIndex s >=? len (archivedItems s)
           then set_archivedActiveIndex
                  (if len (archivedItems s) >? 0 then len (archivedItems s) - 1 else -1) s
           else s in
  let s := set_archivedSelectedIndices
             (filter (fun idx => idx <? len (archivedItems s)) (archivedSelectedIndices s)) s in
  if archivedActiveIndex s >=? 0 then set_archivedAnchorIndex (archivedActiveIndex s) s
  else match min_of (archivedSelectedIndices s) with
       | Some m => set_archivedAnchorIndex m (set_archivedActiveIndex m s)
       | None => set_archivedAnchorIndex (-1) s
       end.

(** Returns the flag of the source together with the new state; the guard
    [isUndoingRedoing] is raised for the duration of the call only. *)
Definition undo (s : State) : bool * State :=
  if isUndoingRedoing s then (false, s)
  else match rev (history s) with
       | [] => (false, s)
       | previousState :: older =>
         let s1 := set_future (future s ++ [snapshot s]) s in
         let s2 := set_history (rev older) s1 in
         let s3 := set_archivedItems (snap_archivedItems previousState)
                     (set_items (snap_items previousState) s2) in
         (true, _validateSelection s3)
       end.

Definition redo (s : State) : bool * State :=
  if isUndoingRedoing s then (false, s)
  else match rev (future s) with
       | [] => (false, s)
       | nextState :: older =>
         let s1 := set_history (history s ++ [snapshot s]) s in
         let s2 := set_future (rev older) s1 in
         let s3 := set_archivedItems (snap_archivedItems nextState)
                     (set_items (snap_items nextState) s2) in
         (true, _validateSelection s3)
       end.

Definition canUndo (s : State) : bool := len (history s) >? 0.
Definition canRedo (s : State) : bool := len (future s) >? 0.

End HistoryManager.

(** ** SelectionManager *)

Module SelectionManager.

(** The captured pair [(selectedIds, activeItemId)]. *)
Definition captureState (itemList : list Item) (s : State) : list Id * option Id :=
  (flat_map (fun index => match get itemList index with
                          | Some it => [id it]
                          | None => []
                          end) (selectedIndices s),
   if activeIndex s >=? 0
   then option_map id (get itemList (activeIndex s))
   else None).

Definition has_id (i : Id) (ids : list Id) : bool := existsb (Nat.eqb i) ids.

(** Indices of the items of [itemList] whose id is in [ids], ascending. *)
Fixpoint indices_of_ids (itemList : list Item) (ids : list Id) (idx : Z) : IndexSet :=
  match itemList with
  | [] => []
  | it :: rest =>
    if has_id (id it) ids then idx :: indices_of_ids rest ids (idx + 1)
    else indices_of_ids rest ids (idx + 1)
  end.

Definition restoreState (itemList : list Item) (capturedState : list Id * option Id)
           (s : State) : State :=
  let '(selectedIds, activeItemId) := capturedState in
  let s := set_selectedIndices (indices_of_ids itemList selectedIds 0) s in
  match activeItemId with
  | Some a =>
    let newActiveIndex := findIndex (fun i => Nat.eqb (id i) a) itemList in
    if negb (newActiveIndex =? -1) then set_activeIndex newActiveIndex s else s
  | None => s
  end.

Definition clear (s : State) : State :=
  set_anchorIndex (-1) (set_activeIndex (-1) (set_selectedIndices [] s)).

Definition setSingle (index : Z) (s : State) : State :=
  set_anchorIndex index
    (set_activeIndex index
       (set_selectedIndices (if index >=? 0 then [index] else []) s)).

Definition validate (itemList : list Item) (s : State) : State :=
  if activeIndex s >=? len itemList then clear s else s.

End SelectionManager.

(** ** MoveUtils *)

Module MoveUtils.

Fixpoint expand_loop (itemList : list Item) (indices : list Z) (acc : IndexSet)
  : option IndexSet :=
  match indices with
  | [] => Some acc
  | idx :: rest =>
    item <- get itemList idx ;;
    let acc :=
      if (indent item =? Constants.INDENT_PARENT) && negb (is_heading item)
      then let n := run_length (fun i => indent i =? Constants.INDENT_CHILD)
                               (drop (idx + 1) itemList) in
           fold_left (fun a i => add i a) (range (idx + 1) (idx + n)) acc
      else acc in
    expand_loop itemList rest acc
  end.

Definition expandSelectionWithChildren (indices : list Z) (itemList : list Item)
  : option (list Z) :=
  expanded <- expand_loop itemList indices
                (fold_left (fun a i => add i a) indices []) ;;
  Some (sort_asc expanded).

Fixpoint isContiguous (indices : list Z) : bool :=
  match indices with
  | a :: ((b :: _) as rest) => if negb (b =? a + 1) then false else isContiguous rest
  | _ => true
  end.

Definition getBlockCount (itemList : list Item) (startIndex : Z) : option Z :=
  item <- get itemList startIndex ;;
  Some (if is_heading item then
          1 + run_length (fun i => negb (is_heading i)) (drop (startIndex + 1) itemList)
        else if indent item =? Constants.INDENT_PARENT then
          1 + run_length ItemUtils.continuesBlock (drop (startIndex + 1) itemList)
        else 1).

Definition updateSelectionByIds (itemList : list Item) (movingIds : list Id) (s : State)
  : State :=
  set_selectedIndices (SelectionManager.indices_of_ids itemList movingIds 0) s.

Fixpoint checkMovedIntoArchive_loop (itemList : list Item) (movingIds : list Id)
         (inArchive : bool) : bool :=
  match itemList with
  | [] => false
  | item :: rest =>
    if ItemUtils.isArchive item then checkMovedIntoArchive_loop rest movingIds true
    else if inArchive && SelectionManager.has_id (id item) movingIds then true
    else checkMovedIntoArchive_loop rest movingIds inArchive
  end.

Definition checkMovedIntoArchive (itemList : list Item) (movingIds : list Id)
           (archiveHidden : bool) : bool :=
  if negb archiveHidden then false
  else checkMovedIntoArchive_loop itemList movingIds false.

End MoveUtils.

(** ** Selecting an item of the active list *)

(** [selectedIndices.add(i)] for every [i] of [idxs] whose item is not a
    heading; reading past the array throws. *)
Fixpoint add_non_headings (itemList : list Item) (idxs : list Z) (sel : IndexSet)
  : option IndexSet :=
  match idxs with
  | [] => Some sel
  | i :: rest =>
    it <- get itemList i ;;
    add_non_headings itemList rest (if is_heading it then sel else add i sel)
  end.

(** First index of [idxs] that holds a heading. *)
Fixpoint first_heading (itemList : list Item) (idxs : list Z) : option (option Z) :=
  match idxs with
  | [] => Some None
  | i :: rest =>
    it <- get itemList i ;;
    if is_heading it then Some (Some i) else first_heading itemList rest
  end.

Definition findSelectionEndpoint (targetIndex : Z) (s : State) : option Z :=
  if anchorIndex s <? targetIndex then
    h <- first_heading (items s) (range (anchorIndex s + 1) targetIndex) ;;
    Some (match h with Some i => i - 1 | None => targetIndex end)
  else if anchorIndex s >? targetIndex then
    h <- first_heading (items s) (rev (range targetIndex (anchorIndex s - 1))) ;;
    Some (match h with Some i => i + 1 | None => targetIndex end)
  else Some targetIndex.

Definition handleExtendSelection (index : Z) (isKeyboard : bool) (s : State) : option State :=
  if isKeyboard then
    let s := if anchorIndex s =? -1 then set_anchorIndex index s else s in
    let start := Z.min (anchorIndex s) index in
    let end_ := Z.max (anchorIndex s) index in
    sel <- add_non_headings (items s) (range start end_) [] ;;
    Some (set_activeIndex index (set_selectedIndices sel s))
  else
    let s := if anchorIndex s =? -1
             then set_anchorIndex (match min_of (selectedIndices s) with
                                   | Some m => m
                                   | None => index
                                   end) s
             else s in
    s <- (if anchorIndex s >=? 0 then
            a <- get (items s) (anchorIndex s) ;;
            Some (if is_heading a
                  then set_selectedIndices (delete (anchorIndex s) (selectedIndices s)) s
                  else s)
          else Some s) ;;
    actualEnd <- findSelectionEndpoint index s ;;
    let selStart := Z.min (anchorIndex s) actualEnd in
    let selEnd := Z.max (anchorIndex s) actualEnd in
    sel <- add_non_headings (items s) (range selStart selEnd) (selectedIndices s) ;;
    Some (set_activeIndex actualEnd (set_selectedIndices sel s)).

Definition handleToggleSelection (index : Z) (s : State) : option State :=
  it <- get (items s) index ;;
  if negb (is_heading it) then
    if has index (selectedIndices s) then
      let s' := set_selectedIndices (delete index (selectedIndices s)) s in
      Some (if activeIndex s =? index then set_activeIndex (-1) s' else s')
    else
      Some (set_anchorIndex index
              (set_activeIndex index
                 (set_selectedIndices (add index (selectedIndices s)) s)))
  else Some (SelectionManager.setSingle index s).

Definition selectItem (index : Z) (toggle extend isKeyboard : bool) (s : State)
  : option State :=
  if (index <? 0) || (index >=? len (items s)) then Some (SelectionManager.clear s)
  else if extend then handleExtendSelection index isKeyboard s
  else if toggle then handleToggleSelection index s
  else Some (SelectionManager.setSingle index s).

(** [selectItem(index)]: the two flags default to [false], and the call
    cannot throw. *)
Definition selectItem1 (index : Z) (s : State) : State :=
  if (index <? 0) || (index >=? len (items s)) then SelectionManager.clear s
  else SelectionManager.setSingle index s.

(** [l[i] = f(l[i])] for an index in range; other indices leave [l] as it is. *)
Definition update {A : Type} (l : list A) (i : Z) (f : A -> A) : list A :=
  match get l i with
  | Some x => take i l ++ f x :: drop (i + 1) l
  | None => l
  end.

(** ** IndentManager *)

Module IndentManager.

Definition canChangeIndent (s : State) (item : Item) (index delta newIndent : Z)
  : option bool :=
  if is_heading item then Some false
  else if (newIndent <? Constants.INDENT_PARENT) || (newIndent >? Constants.INDENT_MAX)
  then Some false
  else if delta >? 0 then
    if index =? 0 then Some false
    else
      prev <- get (items s) (index - 1) ;;
      Some (negb (is_heading prev))
  else Some true.

Fixpoint changeIndent_loop (delta : Z) (indices : list Z) (s : State) : option State :=
  match indices with
  | [] => Some s
  | index :: rest =>
    item <- get (items s) index ;;
    let newIndent := indent item + delta in
    ok <- canChangeIndent s item index delta newIndent ;;
    changeIndent_loop delta rest
      (if ok : bool
       then set_items (update (items s) index (set_indent newIndent)) s
       else s)
  end.

Definition changeIndent (delta : Z) (s : State) : option State :=
  changeIndent_loop delta (sort_asc (selectedIndices s)) s.

End IndentManager.

(** ** DeleteManager *)

Inductive DeletedType : Type := parent | child.

Definition deletedType_of (it : Item) : DeletedType :=
  if indent it =? Constants.INDENT_PARENT then parent else child.

Definition is_parent_type (t : DeletedType) : bool :=
  match t with parent => true | child => false end.

Definition add_all (idxs : list Z) (acc : IndexSet) : IndexSet :=
  fold_left (fun a i => add i a) idxs acc.

Module DeleteManager.

Fixpoint collect_loop (itemList : list Item) (sortedIndices : list Z) (acc : IndexSet)
  : option IndexSet :=
  match sortedIndices with
  | [] => Some acc
  | index :: rest =>
    if has index acc then collect_loop itemList rest acc
    else
      item <- get itemList index ;;
      let acc := add index acc in
      let acc :=
        if (indent item =? Constants.INDENT_PARENT) && negb (is_heading item)
        then let n := run_length
                        (fun i => negb ((indent i =? Constants.INDENT_PARENT) || is_heading i))
                        (drop (index + 1) itemList) in
             add_all (range (index + 1) (index + n)) acc
        else acc in
      collect_loop itemList rest acc
  end.

Definition collectIndicesToDelete (indices : IndexSet) (s : State) : option IndexSet :=
  collect_loop (items s) (sort_asc indices) [].

(** The array of types is built by [unshift] over the descending indices,
    so it lists the types in ascending index order. *)
Fixpoint types_of (itemList : list Item) (ascending : list Z) : option (list DeletedType) :=
  match ascending with
  | [] => Some []
  | index :: rest =>
    item <- get itemList index ;;
    tl <- types_of itemList rest ;;
    Some (deletedType_of item :: tl)
  end.

Definition deleteByIndices (indicesToDelete : IndexSet) (s : State)
  : option (list Z * list DeletedType * State) :=
  let sortedDeleteIndices := sort_desc indicesToDelete in
  deletedTypes <- types_of (items s) (rev sortedDeleteIndices) ;;
  let items' := fold_left (fun l index => splice_remove l index 1)
                          sortedDeleteIndices (items s) in
  Some (sortedDeleteIndices, deletedTypes, set_items items' s).

(** The first three statements of [adjustCursorAfterDeletion]. *)
Definition clampCursor (itemList : list Item) (referenceIndex : Z) : Z :=
  let adjustedIndex := Z.min referenceIndex (len itemList - 1) in
  if (adjustedIndex <? 0) && (len itemList >? 0) then 0 else adjustedIndex.

(** The recursive call of the source passes an empty [deletedTypes], for
    which neither case applies: it returns the clamped index. *)
Definition adjustCursorAfterDeletion (itemList : list Item) (referenceIndex : Z)
           (deletedTypes : list DeletedType) : Z :=
  let adjustedIndex := clampCursor itemList referenceIndex in
  match get itemList adjustedIndex with
  | None => adjustedIndex
  | Some item =>
    let deletedParent := existsb is_parent_type deletedTypes in
    let deletedChild := existsb (fun t => negb (is_parent_type t)) deletedTypes in
    if deletedParent && negb deletedChild && is_heading item then
      if adjustedIndex >? 0 then adjustedIndex - 1 else adjustedIndex
    else if deletedChild && negb deletedParent
            && (is_heading item || (indent item =? Constants.INDENT_PARENT)) then
      clampCursor itemList (adjustedIndex - 1)
    else adjustedIndex
  end.

Definition resetSelectionAfterDelete (referenceIndex : Z) (deletedTypes : list DeletedType)
           (s : State) : State :=
  let a := adjustCursorAfterDeletion (items s) referenceIndex deletedTypes in
  let s := set_activeIndex a (set_selectedIndices [] s) in
  if a >=? 0 then set_anchorIndex a (set_selectedIndices [a] s)
  else set_anchorIndex (-1) s.

Definition deleteSingle (index : Z) (s : State) : State :=
  match get (items s) index with
  | None => s
  | Some item =>
    let s := set_items (splice_remove (items s) index 1) s in
    let s := resetSelectionAfterDelete index [deletedType_of item] s in
    selectItem1 (activeIndex s) s
  end.

Definition deleteMultiple (s : State) : option State :=
  if size (selectedIndices s) =? 0 then Some s
  else
    indicesToDelete <- collectIndicesToDelete (selectedIndices s) s ;;
    '(sortedDeleteIndices, deletedTypes, s) <- deleteByIndices indicesToDelete s ;;
    let minDeletedIndex := last sortedDeleteIndices 0 in
    let s := resetSelectionAfterDelete minDeletedIndex deletedTypes s in
    Some (selectItem1 (activeIndex s) s).

End DeleteManager.

(** ** ArchiveDeleteManager *)

Module ArchiveDeleteManager.

Fixpoint collect_loop (archived : list Item) (sortedIndices : list Z) (acc : IndexSet)
  : option IndexSet :=
  match sortedIndices with
  | [] => Some acc
  | index :: rest =>
    if has index acc then collect_loop archived rest acc
    else
      item <- get archived index ;;
      let acc := add index acc in
      let acc :=
        if indent item =? Constants.INDENT_PARENT
        then let n := run_length (fun i => negb (indent i =? Constants.INDENT_PARENT))
                                 (drop (index + 1) archived) in
             add_all (range (index + 1) (index + n)) acc
        else acc in
      collect_loop archived rest acc
  end.

Definition collectIndicesToDelete (indices : IndexSet) (s : State) : option IndexSet :=
  collect_loop (archivedItems s) (sort_asc indices) [].

Definition deleteByIndices (indicesToDelete : IndexSet) (s : State) : Z * State :=
  let sortedDeleteIndices := sort_desc indicesToDelete in
  (last sortedDeleteIndices 0,
   set_archivedItems
     (fold_left (fun l index => splice_remove l index 1)
                sortedDeleteIndices (archivedItems s)) s).

Definition resetSelectionAfterDelete (minDeletedIndex : Z) (s : State) : State :=
  let s := set_archivedSelectedIndices [] s in
  if len (archivedItems s) >? 0 then
    let newActiveIndex := Z.min minDeletedIndex (len (archivedItems s) - 1) in
    set_archivedAnchorIndex newActiveIndex
      (set_archivedSelectedIndices [newActiveIndex]
         (set_archivedActiveIndex newActiveIndex s))
  else
    set_isArchiveActive false
      (set_isArchiveHeaderSelected true
         (set_archivedAnchorIndex (-1) (set_archivedActiveIndex (-1) s))).

Definition deleteMultiple (s : State) : option State :=
  if size (archivedSelectedIndices s) =? 0 then Some s
  else
    indicesToDelete <- collectIndicesToDelete (archivedSelectedIndices s) s ;;
    let '(minDeletedIndex, s) := deleteByIndices indicesToDelete s in
    Some (resetSelectionAfterDelete minDeletedIndex s).

End ArchiveDeleteManager.

Definition deleteArchivedItems (s : State) : option State :=
  ArchiveDeleteManager.deleteMultiple s.

Definition saveState (s : State) : State := HistoryManager.save s.

Definition deleteItem (index : Z) (s : State) : State := DeleteManager.deleteSingle index s.
Definition deleteItems (s : State) : option State := DeleteManager.deleteMultiple s.
Definition changeIndent (delta : Z) (s : State) : option State :=
  IndentManager.changeIndent delta s.

(** ** Editing a title *)

Definition startEditing (i : Id) (isNew : bool) (s : State) : State :=
  set_isNewItem isNew (set_editingId (Some i) s).

Module EditingManager.

Definition _resetEditingState (s : State) : State :=
  set_isNewItem false (set_editingId None s).

Definition _cancelNewItem (itemIndex : Z) (s : State) : State :=
  _resetEditingState (HistoryManager.popLast (deleteItem itemIndex s)).

Definition _saveTitle (itemIndex : Z) (newTitle : str) (s : State) : option State :=
  it <- get (items s) itemIndex ;;
  let s :=
    if negb (str_eqb (title it) newTitle) then
      let s := if negb (isNewItem s) then HistoryManager.save s else s in
      set_items (update (items s) itemIndex (set_title newTitle)) s
    else s in
  Some (_resetEditingState s).

Definition saveEdit (itemIndex : Z) (newTitle : str) (s : State) : option State :=
  if str_eqb newTitle [] && isNewItem s then Some (_cancelNewItem itemIndex s)
  else if str_eqb newTitle [] then
    Some (_resetEditingState (deleteItem itemIndex (HistoryManager.save s)))
  else _saveTitle itemIndex newTitle s.

Definition cancelEdit (itemIndex : Z) (s : State) : State :=
  if isNewItem s then _cancelNewItem itemIndex s else _resetEditingState s.

End EditingManager.

(** [stopEditing(save)]; [value] is the content of the edit input. *)
Definition stopEditing (save : bool) (value : str) (s : State) : option State :=
  if isUndoingRedoing s then Some s
  else match editingId s with
       | None => Some s
       | Some e =>
         let itemIndex := findIndex (fun i => Nat.eqb (id i) e) (items s) in
         if itemIndex =? -1 then Some (set_editingId None s)
         else
           let newTitle := trim value in
           if save then EditingManager.saveEdit itemIndex newTitle s
           else Some (EditingManager.cancelEdit itemIndex s)
       end.

(** ** Adding an item *)

(** The upward scan of [addItem] for a heading created on a child:
    [for (i = n - 1; i >= 0; i--)], the first item with indent 0 or of type
    heading; 0 when there is none. *)
Fixpoint addItem_scan (itemList : list Item) (n : nat) : option Z :=
  match n with
  | O => Some 0
  | S i =>
    it <- nth_error itemList i ;;
    if indent it =? 0 then Some (Z.of_nat i)
    else if is_heading it then Some (Z.of_nat i)
    else addItem_scan itemList i
  end.

Definition addItem (ty : ItemType) (insertIndex indent_ : option Z) (s : State)
  : option State :=
  let s := saveState s in
  let '(newId, s) := ItemUtils.generateId s in
  let newItem := mkItem newId ty [] 0 false [] in
  insertIndex <-
    match insertIndex with
    | Some i => Some i
    | None =>
      if activeIndex s >=? 0 then
        match ty with
        | heading =>
          a <- get (items s) (activeIndex s) ;;
          if indent a =? 1 then addItem_scan (items s) (Z.to_nat (activeIndex s))
          else Some (activeIndex s)
        | todo => Some (activeIndex s + 1)
        end
      else Some (len (items s))
    end ;;
  let archiveIndex := findIndex ItemUtils.isArchive (items s) in
  if ItemType_eqb ty heading && negb (archiveIndex =? -1) && (insertIndex >? archiveIndex)
  then Some s
  else
    let newIndent :=
      match indent_ with
      | None =>
        match ty with
        | heading => 0
        | todo =>
          match (if activeIndex s >=? 0 then get (items s) (activeIndex s) else None) with
          | Some selectedItem =>
            if indent selectedItem =? 0 then
              match (if activeIndex s + 1 <? len (items s)
                     then get (items s) (activeIndex s + 1) else None) with
              | Some next => if indent next =? 1 then 1 else 0
              | None => 0
              end
            else indent selectedItem
          | None => 0
          end
        end
      | Some i => i
      end in
    let newIndent :=
      match ty with
      | heading => 0
      | todo => if newIndent >? 1 then 1 else newIndent
      end in
    let newItem := set_indent newIndent newItem in
    let s := set_items (splice_insert (items s) insertIndex [newItem]) s in
    let s := selectItem1 insertIndex s in
    Some (startEditing (id newItem) true s).

(** ** Moving items up and down *)

Inductive Direction : Type := up | down.

Definition ids_of (l : list Item) : list Id := map id l.

(** [for (i = n - 1; i >= 0; i--)]: the first index whose item satisfies
    [p], or [dflt] when the loop runs out. *)
Fixpoint scan_up (p : Item -> bool) (itemList : list Item) (n : nat) (dflt : Z) : option Z :=
  match n with
  | O => Some dflt
  | S i =>
    it <- nth_error itemList i ;;
    if p it then Some (Z.of_nat i) else scan_up p itemList i dflt
  end.

(** The check at the end of [moveSingleDown]: the nearest heading above
    [newPosition] is the Archive heading while the archive is collapsed.
    The source then calls [selectArchiveHeading], which is not defined
    anywhere: a [ReferenceError]. *)
Fixpoint lands_in_hidden_archive (itemList : list Item) (n : nat) (archiveHidden : bool)
  : option bool :=
  match n with
  | O => Some false
  | S i =>
    it <- nth_error itemList i ;;
    if is_heading it then Some (str_eqb (title it) (lit "Archive") && archiveHidden)
    else lands_in_hidden_archive itemList i archiveHidden
  end.

Definition moveSingleUp (item : Item) (originalIndex count : Z) (movingItems : list Item)
           (s : State) : option State :=
  if originalIndex =? 0 then Some s
  else
    let targetIndex := originalIndex - 1 in
    if indent item =? Constants.INDENT_CHILD then
      target <- get (items s) targetIndex ;;
      if negb (indent target =? Constants.INDENT_CHILD) then Some s
      else
        let s := set_items (splice_remove (items s) originalIndex 1) s in
        let s := set_items (splice_insert (items s) targetIndex [item]) s in
        Some (selectItem1 targetIndex s)
    else
      siblingIndex <-
        scan_up (fun candidate =>
                   if is_heading item then is_heading candidate
                   else indent candidate =? Constants.INDENT_PARENT)
                (items s) (Z.to_nat originalIndex) (-1) ;;
      if negb (siblingIndex =? -1) then
        let s := set_items (splice_remove (items s) originalIndex count) s in
        let s := set_items (splice_insert (items s) siblingIndex movingItems) s in
        Some (selectItem1 siblingIndex s)
      else Some s.

Definition moveSingleDown (item : Item) (originalIndex count : Z) (movingItems : list Item)
           (s : State) : option State :=
  let nextIndex := originalIndex + count in
  if nextIndex >=? len (items s) then Some s
  else
    nextItem <- get (items s) nextIndex ;;
    if ItemUtils.isArchive nextItem then Some s
    else if indent item =? Constants.INDENT_CHILD then
      if negb (indent nextItem =? Constants.INDENT_CHILD) then Some s
      else
        let s := set_items (splice_remove (items s) originalIndex 1) s in
        let s := set_items (splice_insert (items s) (originalIndex + 1) [item]) s in
        Some (selectItem1 (originalIndex + 1) s)
    else
      let nextBlockCount :=
        if is_heading nextItem && is_heading item then
          1 + run_length (fun i => negb (is_heading i)) (drop (nextIndex + 1) (items s))
        else if indent nextItem =? Constants.INDENT_PARENT then
          1 + run_length ItemUtils.continuesBlock (drop (nextIndex + 1) (items s))
        else 1 in
      let s := set_items (splice_remove (items s) originalIndex count) s in
      let s := set_items (splice_insert (items s) (originalIndex + nextBlockCount)
                                        movingItems) s in
      let newPosition := originalIndex + nextBlockCount in
      inArchive <- lands_in_hidden_archive (items s) (Z.to_nat newPosition)
                                           (isArchiveHidden s) ;;
      if inArchive : bool then None else Some (selectItem1 newPosition s).

Definition moveSingleItem (direction : Direction) (s : State) : option State :=
  item <- get (items s) (activeIndex s) ;;
  let originalIndex := activeIndex s in
  count <- MoveUtils.getBlockCount (items s) originalIndex ;;
  let movingItems := slice (items s) originalIndex (originalIndex + count) in
  match direction with
  | up => moveSingleUp item originalIndex count movingItems s
  | down => moveSingleDown item originalIndex count movingItems s
  end.

Definition moveMultipleUp (start count : Z) (movingItems : list Item) (movingIds : list Id)
           (s : State) : option State :=
  if start =? 0 then Some s
  else
    let targetIndex := start - 1 in
    targetItem <- get (items s) targetIndex ;;
    first <- get (items s) start ;;
    swapStart <-
      (if indent first =? Constants.INDENT_PARENT then
         if indent targetItem =? Constants.INDENT_CHILD then
           r <- scan_up (fun i => (indent i =? Constants.INDENT_PARENT) || is_heading i)
                        (items s) (Z.to_nat (targetIndex + 1)) targetIndex ;;
           Some (Some r)
         else Some (Some targetIndex)
       else if negb (indent targetItem =? Constants.INDENT_CHILD) then Some None
       else Some (Some targetIndex)) ;;
    match swapStart with
    | None => Some s
    | Some swapStart =>
      let swapCount := start - swapStart in
      let s := set_items (splice_remove (items s) start count) s in
      let s := set_items (splice_insert (items s) swapStart movingItems) s in
      let s := MoveUtils.updateSelectionByIds (items s) movingIds s in
      Some (set_activeIndex (activeIndex s - swapCount) s)
    end.

Definition moveMultipleDown (start count : Z) (movingItems : list Item) (movingIds : list Id)
           (s : State) : option State :=
  if start + count >=? len (items s) then Some s
  else
    nextItem <- get (items s) (start + count) ;;
    if existsb ItemUtils.isArchive (drop (start + count) (items s)) then Some s
    else
      first <- get (items s) start ;;
      let swapCount :=
        if indent first =? Constants.INDENT_PARENT then
          Some (1 + run_length
                      (fun i => negb ((indent i =? Constants.INDENT_PARENT) || is_heading i))
                      (drop (start + count + 1) (items s)))
        else if negb (indent nextItem =? Constants.INDENT_CHILD) then None
        else Some 1 in
      match swapCount with
      | None => Some s
      | Some swapCount =>
        let s := set_items (splice_remove (items s) start count) s in
        let s := set_items (splice_insert (items s) (start + swapCount) movingItems) s in
        let s := MoveUtils.updateSelectionByIds (items s) movingIds s in
        let s := set_activeIndex (activeIndex s + swapCount) s in
        if MoveUtils.checkMovedIntoArchive (items s) movingIds (isArchiveHidden s)
        then None
        else Some s
      end.

Definition moveMultipleItems (direction : Direction) (s : State) : option State :=
  let indices := sort_asc (selectedIndices s) in
  finalIndices <- MoveUtils.expandSelectionWithChildren indices (items s) ;;
  let start := hd 0 finalIndices in
  first <- get (items s) start ;;
  if (indent first =? Constants.INDENT_CHILD)
     && existsb (fun idx => match get (items s) idx with
                            | Some it => indent it =? Constants.INDENT_PARENT
                            | None => false
                            end) finalIndices
  then Some s
  else if negb (MoveUtils.isContiguous finalIndices) then Some s
  else
    let count := len finalIndices in
    let movingItems := slice (items s) start (start + count) in
    let movingIds := ids_of movingItems in
    match direction with
    | up => moveMultipleUp start count movingItems movingIds s
    | down => moveMultipleDown start count movingItems movingIds s
    end.

Definition moveItem (direction : Direction) (s : State) : option State :=
  if activeIndex s <? 0 then Some s
  else if ItemUtils.isArchiveHeading (get (items s) (activeIndex s)) then Some s
  else
    let s := saveState s in
    if size (selectedIndices s) >? 1 then moveMultipleItems direction s
    else moveSingleItem direction s.

(** ** Clipboard *)

Definition index_of_id (itemList : list Item) (i : Id) : Z :=
  findIndex (fun x => Nat.eqb (id x) i) itemList.

(** The loop shared by copy, cut and duplicate: every item to process is
    looked up by id and replaced by its block. *)
Definition blocks_of (itemList itemsToProcess : list Item) : list Item :=
  flat_map (fun item =>
              let index := index_of_id itemList (id item) in
              if index =? -1 then []
              else fst (ItemUtils.getItemWithChildren itemList index))
           itemsToProcess.

Definition copyItems (s : State) : State :=
  if size (selectedIndices s) =? 0 then s
  else
    let itemsToProcess := ItemUtils.collectItemsToProcess (items s) (selectedIndices s) true in
    set_clipboard (blocks_of (items s) itemsToProcess) s.

Definition cutItems (s : State) : option State :=
  if size (selectedIndices s) =? 0 then Some s
  else
    let itemsToProcess := ItemUtils.collectItemsToProcess (items s) (selectedIndices s) true in
    let s := set_clipboard (blocks_of (items s) itemsToProcess) s in
    deleteItems (saveState s).

(** The insert position of [pasteItems], before and after the clamp. *)
Definition paste_rawIndex (s : State) : option Z :=
  if activeIndex s >=? 0 then
    activeItem <- get (items s) (activeIndex s) ;;
    if indent activeItem =? Constants.INDENT_PARENT
    then Some (activeIndex s + 1 + ItemUtils.getChildCount (items s) (activeIndex s))
    else Some (activeIndex s + 1)
  else Some (len (items s)).

Definition paste_insertIndex (s : State) : option Z :=
  insertIndex <- paste_rawIndex s ;;
  let archiveIndex := ItemUtils.findArchiveIndex (items s) in
  Some (if negb (archiveIndex =? -1) && (insertIndex >? archiveIndex)
        then archiveIndex else insertIndex).

(** Inserting [newItems] at [insertIndex] and selecting them, the common
    end of paste and duplicate; the closing [selectItem(insertIndex)]
    replaces the multi-selection by a single one. *)
Definition insert_and_select (insertIndex : Z) (newItems : list Item) (s : State) : State :=
  let s := set_items (splice_insert (items s) insertIndex newItems) s in
  let s := set_selectedIndices (range insertIndex (insertIndex + len newItems - 1)) s in
  let s := set_anchorIndex insertIndex (set_activeIndex insertIndex s) in
  selectItem1 insertIndex s.

Definition pasteItems (s : State) : option State :=
  if len (clipboard s) =? 0 then Some s
  else
    let s := saveState s in
    insertIndex <- paste_insertIndex s ;;
    let '(pastedItems, s) := ItemUtils.deepCopyItems (clipboard s) true s in
    pastedItems <- ItemUtils.adjustOrphanedIndent pastedItems (items s) insertIndex ;;
    Some (insert_and_select insertIndex pastedItems s).

Definition duplicateItems (s : State) : option State :=
  match max_of (selectedIndices s) with
  | None => Some s
  | Some maxIndex =>
    let s := saveState s in
    let insertIndex := maxIndex + 1 + ItemUtils.getChildCount (items s) maxIndex in
    let itemsToProcess := ItemUtils.collectItemsToProcess (items s) (selectedIndices s) true in
    let itemsToDuplicate := blocks_of (items s) itemsToProcess in
    let '(duplicatedItems, s) := ItemUtils.deepCopyItems itemsToDuplicate true s in
    duplicatedItems <- ItemUtils.adjustOrphanedIndent duplicatedItems (items s) insertIndex ;;
    Some (insert_and_select insertIndex duplicatedItems s)
  end.

(** ** Archive and restore *)

(** Stable sort of the items to move, descending by their current index. *)
Fixpoint insert_by_index_desc (itemList : list Item) (x : Item) (l : list Item) : list Item :=
  match l with
  | [] => [x]
  | y :: r =>
    if index_of_id itemList (id y) - index_of_id itemList (id x) <=? 0
    then x :: y :: r
    else y :: insert_by_index_desc itemList x r
  end.

Definition sort_by_index_desc (itemList l : list Item) : list Item :=
  fold_right (insert_by_index_desc itemList) [] l.

(** The [forEach] of [moveToArchive]: returns the remaining active list and
    the moved items, already checked. *)
Fixpoint archive_loop (itemsToMove itemList movedItems : list Item)
  : list Item * list Item :=
  match itemsToMove with
  | [] => (itemList, movedItems)
  | item :: rest =>
    let index := index_of_id itemList (id item) in
    if index =? -1 then archive_loop rest itemList movedItems
    else
      let '(movingItems, count) := ItemUtils.getItemWithChildren itemList index in
      archive_loop rest (splice_remove itemList index count)
                   (movedItems ++ map (set_isChecked true) movingItems)
  end.

(** A selection that is empty takes the active item, the opening of
    archive and of the two moves to a heading. *)
Definition select_active_if_empty (s : State) : State :=
  if (size (selectedIndices s) =? 0) && (activeIndex s >=? 0)
  then set_selectedIndices (add (activeIndex s) (selectedIndices s)) s
  else s.

Definition moveToArchive (s : State) : option State :=
  let s := select_active_if_empty s in
  if size (selectedIndices s) =? 0 then Some s
  else
    let s := saveState s in
    let itemsToMove := ItemUtils.collectItemsToProcess (items s) (selectedIndices s) true in
    match itemsToMove, min_of (selectedIndices s) with
    | [], _ | _, None => Some s
    | _ :: _, Some minMovedIndex =>
      deletedTypes <- DeleteManager.types_of (items s) (selectedIndices s) ;;
      let itemsToMove := sort_by_index_desc (items s) itemsToMove in
      let '(items', movedItems) := archive_loop itemsToMove (items s) [] in
      let s := set_items items' s in
      let s := set_archivedItems (movedItems ++ archivedItems s) s in
      let s := set_activeIndex
                 (if (minMovedIndex >=? len (items s)) && (len (items s) >? 0)
                  then len (items s) - 1
                  else if len (items s) >? 0 then minMovedIndex else -1) s in
      let s := set_activeIndex
                 (DeleteManager.adjustCursorAfterDeletion (items s) (activeIndex s)
                                                          deletedTypes) s in
      let s := set_selectedIndices (if activeIndex s >=? 0 then [activeIndex s] else []) s in
      Some (set_anchorIndex (-1) s)
    end.

Definition is_parent_indent (i : Item) : bool := indent i =? Constants.INDENT_PARENT.

(** The first loop of [moveFromArchive]. *)
Fixpoint restore_collect (archived : list Item) (sortedIndices : list Z) (acc : IndexSet)
  : option IndexSet :=
  match sortedIndices with
  | [] => Some acc
  | index :: rest =>
    if has index acc then restore_collect archived rest acc
    else
      item <- get archived index ;;
      let family p :=
        add_all (range (p + 1)
                       (p + run_length (fun i => negb (is_parent_indent i))
                                       (drop (p + 1) archived)))
                (add p acc) in
      if is_parent_indent item then restore_collect archived rest (family index)
      else
        parentIndex <- scan_up is_parent_indent archived (Z.to_nat index) (-1) ;;
        if negb (parentIndex =? -1)
        then restore_collect archived rest (family parentIndex)
        else restore_collect archived rest (add index acc)
    end.

(** The second loop: removal in descending index order; [movedItems] is
    in the order of removal. *)
Fixpoint restore_remove (indicesToRemove : list Z) (archived movedItems : list Item)
  : list Item * list Item :=
  match indicesToRemove with
  | [] => (archived, movedItems)
  | index :: rest =>
    match (if (index >=? 0) && (index <? len archived) then get archived index else None) with
    | Some item =>
      restore_remove rest (splice_remove archived index 1)
                     (movedItems ++ [set_isChecked false item])
    | None => restore_remove rest archived movedItems
    end
  end.

Definition moveFromArchive (s : State) : option State :=
  if size (archivedSelectedIndices s) =? 0 then Some s
  else
    let s := saveState s in
    indicesToRestore <- restore_collect (archivedItems s)
                          (sort_asc (archivedSelectedIndices s)) [] ;;
    let indicesToRemove := sort_desc indicesToRestore in
    let '(archived', movedItems) := restore_remove indicesToRemove (archivedItems s) [] in
    let s := set_archivedItems archived' s in
    let s := set_items (items s ++ rev movedItems) s in
    let s := set_isArchiveActive false (set_archivedSelectedIndices [] s) in
    let startIndex := len (items s) - len movedItems in
    let s := set_selectedIndices (range startIndex (startIndex + len movedItems - 1)) s in
    Some (set_anchorIndex startIndex (set_activeIndex startIndex s)).

(** ** Moving to the next and to the previous heading *)

(** A lone child leaving its section is promoted; the source reads the
    indent from the captured item, which is the object found by its id. *)
Definition promote_root (movingItems : list Item) : list Item :=
  match movingItems with
  | [] => []
  | root :: rest =>
    if indent root =? Constants.INDENT_CHILD
    then set_indent Constants.INDENT_PARENT root :: rest
    else movingItems
  end.

(** One turn of the [forEach] of [moveToNextHeading]: [None] when the item
    is skipped, the new list otherwise. *)
Definition next_heading_step (itemList : list Item) (item : Item) : option (list Item) :=
  let index := index_of_id itemList (id item) in
  if index =? -1 then None
  else
    let '(movingItems, count) := ItemUtils.getItemWithChildren itemList index in
    let rel := findIndex is_heading (drop (index + count) itemList) in
    if rel =? -1 then None
    else
      let nextHeadingIndex := index + count + rel in
      if ItemUtils.isArchiveHeading (get itemList nextHeadingIndex) then None
      else
        let movingItems := promote_root movingItems in
        let itemList := splice_remove itemList index count in
        let newHeadingIndex := nextHeadingIndex - count in
        let insertIndex := newHeadingIndex + 1 in
        Some (splice_insert itemList insertIndex movingItems).

(** Indices of the headings among the first [n] items, nearest first. *)
Fixpoint headingsAbove (itemList : list Item) (n : nat) : list Z :=
  match n with
  | O => []
  | S i =>
    match nth_error itemList i with
    | Some it => if is_heading it then Z.of_nat i :: headingsAbove itemList i
                 else headingsAbove itemList i
    | None => headingsAbove itemList i
    end
  end.

Definition prev_heading_step (itemList : list Item) (item : Item) : option (list Item) :=
  let index := index_of_id itemList (id item) in
  if index =? -1 then None
  else
    let '(movingItems, count) := ItemUtils.getItemWithChildren itemList index in
    let insertIndex :=
      match headingsAbove itemList (Z.to_nat index) with
      | [] => 0
      | [h] => h + 1
      | _ :: h :: _ => h + 1
      end in
    if insertIndex =? index then None
    else
      let movingItems := promote_root movingItems in
      let itemList := splice_remove itemList index count in
      Some (splice_insert itemList insertIndex movingItems).

(** The [forEach] itself, with the flag [anyMoved]. *)
Fixpoint heading_loop (step : list Item -> Item -> option (list Item))
         (itemsToMove itemList : list Item) (anyMoved : bool) : list Item * bool :=
  match itemsToMove with
  | [] => (itemList, anyMoved)
  | item :: rest =>
    match step itemList item with
    | Some itemList' => heading_loop step rest itemList' true
    | None => heading_loop step rest itemList anyMoved
    end
  end.

Definition moveToHeading (step : list Item -> Item -> option (list Item))
           (checkArchive : bool) (s : State) : option State :=
  let s := select_active_if_empty s in
  if size (selectedIndices s) =? 0 then Some s
  else
    let s := saveState s in
    let capturedState := SelectionManager.captureState (items s) s in
    let itemsToMove :=
      rev (ItemUtils.collectItemsToProcess (items s) (selectedIndices s) true) in
    let '(items', anyMoved) := heading_loop step itemsToMove (items s) false in
    let s := set_items items' s in
    if negb anyMoved then Some s
    else
      let s := SelectionManager.restoreState (items s) capturedState s in
      if checkArchive
         && MoveUtils.checkMovedIntoArchive_loop (items s) (fst capturedState) false
         && isArchiveHidden s
      then None
      else Some s.

Definition moveToNextHeading (s : State) : option State :=
  moveToHeading next_heading_step true s.

Definition moveToPrevHeading (s : State) : option State :=
  moveToHeading prev_heading_step false s.

(** ** Undo, redo and the smaller handlers *)

Definition undo (s : State) : State := snd (HistoryManager.undo s).
Definition redo (s : State) : State := snd (HistoryManager.redo s).

(** [KeyboardHandler.handleSpace], past its archive guard. *)
Definition toggleChecked (s : State) : State :=
  if size (selectedIndices s) =? 0 then s
  else
    let s := saveState s in
    let isTodoAt index := match get (items s) index with
                          | Some it => ItemType_eqb (type it) todo
                          | None => false
                          end in
    let hasUnchecked :=
      existsb (fun index => match get (items s) index with
                            | Some it => ItemType_eqb (type it) todo && negb (isChecked it)
                            | None => false
                            end) (selectedIndices s) in
    set_items
      (fold_left (fun l index => if isTodoAt index
                                 then update l index (set_isChecked hasUnchecked)
                                 else l)
                 (selectedIndices s) (items s)) s.

(** The checkbox of the item at [index] of the active list is clicked. *)
Definition clickCheckbox (index : Z) (s : State) : State :=
  set_items (update (items s) index (fun it => set_isChecked (negb (isChecked it)) it)) s.

(** The [onTab] callback of the edit input. *)
Definition editTab (isShift : bool) (value : str) (s : State) : option State :=
  match editingId s with
  | None => Some s
  | Some e =>
    let index := index_of_id (items s) e in
    item <- get (items s) index ;;
    let s := set_items (update (items s) index (set_title value)) s in
    let newIndent := indent item + (if isShift then -1 else 1) in
    if (newIndent >=? Constants.INDENT_PARENT) && (newIndent <=? Constants.INDENT_MAX) then
      if negb isShift then
        match (if index >? 0 then get (items s) (index - 1) else None) with
        | Some prev =>
          Some (if negb (is_heading prev)
                then set_items (update (items s) index (set_indent newIndent)) s
                else s)
        | None => Some s
        end
      else Some (set_items (update (items s) index (set_indent newIndent)) s)
    else Some s
  end.

(** The [onEnter] callback: the raw value is stored, then the edit is
    committed. *)
Definition editEnter (value : str) (s : State) : option State :=
  match editingId s with
  | None => Some s
  | Some e =>
    let index := index_of_id (items s) e in
    stopEditing true value (set_items (update (items s) index (set_title value)) s)
  end.

(** [stopEditingNote(true)] with [newValue] typed in the inspector, the
    active item's note having been [noteOriginalValue] when editing began. *)
Definition saveNote (noteOriginalValue newValue : str) (s : State) : State :=
  match (if (activeIndex s >=? 0) && (activeIndex s <? len (items s))
         then get (items s) (activeIndex s) else None) with
  | None => s
  | Some _ =>
    let newValue := if len (trim newValue) =? 0 then [] else newValue in
    if negb (str_eqb newValue noteOriginalValue) then
      let s := set_items (update (items s) (activeIndex s) (set_note noteOriginalValue)) s in
      let s := saveState s in
      set_items (update (items s) (activeIndex s) (set_note newValue)) s
    else s
  end.

(** The [mousedown] handler of an item of the active list. *)
Definition clickItem (index : Z) (toggle extend : bool) (s : State) : option State :=
  let s := set_isArchiveHeaderSelected false
             (set_isArchiveActive false
                (set_archivedAnchorIndex (-1)
                   (set_archivedActiveIndex (-1)
                      (set_archivedSelectedIndices [] s)))) in
  if extend then selectItem index false true false s
  else if toggle then selectItem index true false false s
  else selectItem index false false false s.

Inductive ClickMode : Type := plainClick | shiftClick | cmdClick.

(** The [mousedown] handler of an archived item. *)
Definition clickArchivedItem (index : Z) (mode : ClickMode) (s : State) : State :=
  let s := set_isArchiveHeaderSelected false
             (set_isArchiveActive true
                (set_anchorIndex (-1)
                   (set_activeIndex (-1) (set_selectedIndices [] s)))) in
  match mode with
  | shiftClick =>
    let s := if archivedAnchorIndex s =? -1
             then set_archivedAnchorIndex
                    (match min_of (archivedSelectedIndices s) with
                     | Some m => m
                     | None => index
                     end) s
             else s in
    let start := Z.min (archivedAnchorIndex s) index in
    let end_ := Z.max (archivedAnchorIndex s) index in
    set_archivedActiveIndex index
      (set_archivedSelectedIndices (add_all (range start end_) (archivedSelectedIndices s)) s)
  | cmdClick =>
    if has index (archivedSelectedIndices s) then
      let s' := set_archivedSelectedIndices (delete index (archivedSelectedIndices s)) s in
      if archivedActiveIndex s =? index
      then set_archivedActiveIndex (match min_of (archivedSelectedIndices s') with
                                    | Some m => m
                                    | None => -1
                                    end) s'
      else s'
    else
      set_archivedAnchorIndex index
        (set_archivedActiveIndex index
           (set_archivedSelectedIndices (add index (archivedSelectedIndices s)) s))
  | plainClick =>
    set_archivedAnchorIndex index
      (set_archivedActiveIndex index (set_archivedSelectedIndices [index] s))
  end.

(** The ['update'] message from the extension host. *)
Definition loadOutline (newItems newArchived : list Item) (s : State) : State :=
  let s := set_archivedItems newArchived (set_items newItems s) in
  let s := if activeIndex s >=? len (items s) then SelectionManager.clear s else s in
  set_isArchiveHeaderSelected false
    (set_isArchiveActive false
       (set_archivedAnchorIndex (-1)
          (set_archivedActiveIndex (-1) (set_archivedSelectedIndices [] s)))).

(** The ['clearArchiveConfirmed'] message. *)
Definition clearArchive (s : State) : State :=
  let s := saveState s in
  set_archivedAnchorIndex (-1)
    (set_archivedActiveIndex (-1)
       (set_archivedSelectedIndices [] (set_archivedItems [] s))).

(** ** The Markdown reader and writer ([src/parser.ts]) *)

Definition nl : ascii := ascii_of_nat 10.
Definition cr : ascii := ascii_of_nat 13.
Definition tab : ascii := ascii_of_nat 9.

Fixpoint startsWith (prefix s : str) : bool :=
  match prefix, s with
  | [], _ => true
  | p :: prefix', c :: s' => Ascii.eqb p c && startsWith prefix' s'
  | _ :: _, [] => false
  end.

(** [s.split(sep)] for a one-character separator: never empty. *)
Fixpoint split (sep : ascii) (s : str) : list str :=
  match s with
  | [] => [[]]
  | c :: r =>
    if Ascii.eqb c sep then [] :: split sep r
    else match split sep r with
         | [] => [[c]]
         | first :: others => (c :: first) :: others
         end
  end.

(** [parts.join(sep)]. *)
Fixpoint join (sep : str) (parts : list str) : str :=
  match parts with
  | [] => []
  | [p] => p
  | p :: rest => p ++ sep ++ join sep rest
  end.

(** The longest prefix of white space and the rest. *)
Fixpoint span_space (s : str) : str * str :=
  match s with
  | [] => ([], [])
  | c :: r => if is_space c then let '(w, rest) := span_space r in (c :: w, rest)
              else ([], s)
  end.

(** [.] of a regular expression without the [s] flag. *)
Definition is_line_terminator (c : ascii) : bool := Ascii.eqb c nl || Ascii.eqb c cr.

(** The regular expression of the todo line, matched against the whole
    line: a white-space prefix (group 1), a dash, one white-space
    character, an opening bracket, a space or an [x] (group 2), a closing
    bracket, one white-space character, and the rest of the line free of
    line terminators (group 3).  The character after the prefix must be a
    dash, which is not white space, so the greedy prefix is the only
    candidate. *)
Definition matchTodo (line : str) : option (str * ascii * str) :=
  let '(indentStr, rest) := span_space line in
  match rest with
  | dash :: s1 :: lb :: mark :: rb :: s2 :: titleStr =>
    if Ascii.eqb dash "-" && is_space s1 && Ascii.eqb lb "["
       && (Ascii.eqb mark " " || Ascii.eqb mark "x")
       && Ascii.eqb rb "]" && is_space s2
       && forallb (fun c => negb (is_line_terminator c)) titleStr
    then Some (indentStr, mark, titleStr)
    else None
  | _ => None
  end.

(** Which list holds [lastItem], the item pushed last. *)
Inductive LastItem : Type := noItem | lastOfItems | lastOfArchived.

Record ParseState : Type := mkParseState {
  p_items : list Item;
  p_archivedItems : list Item;
  p_currentNote : list str;
  p_collectingNote : bool;
  p_lastItem : LastItem;
  p_inArchiveSection : bool;
  p_nextId : Id
}.

(** [lastItem.note = v]: the item is the last element of its list. *)
Definition set_last_note (v : str) (l : list Item) : list Item :=
  match rev l with
  | [] => l
  | x :: r => rev r ++ [set_note v x]
  end.

Definition todo_indent (indentStr : str) : Z :=
  let indent :=
    if existsb (Ascii.eqb tab) indentStr
    then len (split tab indentStr) - 1
    else len indentStr / 4 in
  if indent >? 1 then 1 else indent.

(** One turn of the loop over the lines.  The position counter
    [currentIndex] only fills the field [index] of an item, which nothing
    reads; both are left out. *)
Definition parse_line (st : ParseState) (line : str) : ParseState :=
  let trimmedLine := trim line in
  let '(mkParseState its arch cur coll lastI inArch nid) := st in
  if startsWith (lit "```plane") trimmedLine then
    mkParseState its arch [] true lastI inArch nid
  else if coll then
    if startsWith (lit "```") trimmedLine then
      let v := join [nl] cur in
      match lastI with
      | noItem => mkParseState its arch cur false lastI inArch nid
      | lastOfItems => mkParseState (set_last_note v its) arch cur false lastI inArch nid
      | lastOfArchived => mkParseState its (set_last_note v arch) cur false lastI inArch nid
      end
    else mkParseState its arch (cur ++ [trim line]) coll lastI inArch nid
  else if startsWith (lit "## ") trimmedLine then
    let title := trim (drop 3 trimmedLine) in
    if str_eqb title (lit "Archive") then
      mkParseState its arch cur coll lastI true nid
    else
      let heading_ := mkItem nid heading title 0 false [] in
      mkParseState (its ++ [heading_]) arch cur coll lastOfItems false (S nid)
  else
    match matchTodo line with
    | Some (indentStr, mark, titleStr) =>
      let isChecked_ := Ascii.eqb mark "x" in
      let indent_ := todo_indent indentStr in
      let todo_ := mkItem nid todo titleStr indent_ isChecked_ [] in
      if inArch then
        mkParseState its (arch ++ [set_isChecked true todo_]) cur coll
                     lastOfArchived inArch (S nid)
      else
        mkParseState (its ++ [todo_]) arch cur coll lastOfItems inArch (S nid)
    | None => st
    end.

Definition parse_init (nid : Id) : ParseState :=
  mkParseState [] [] [] false noItem false nid.

Definition parse_lines (lines : list str) (st : ParseState) : ParseState :=
  fold_left parse_line lines st.

(** [parseMarkdown(content)]; [nid] is the supply of fresh ids. *)
Definition parseMarkdown (content : str) (nid : Id) : ParseState :=
  parse_lines (split nl content) (parse_init nid).

(** ['\t'.repeat(n)] throws a [RangeError] on a negative count. *)
Definition repeat_tab (n : Z) : option str :=
  if n <? 0 then None else Some (repeat tab (Z.to_nat n)).

Definition note_block (item : Item) : str :=
  if len (trim (note item)) >? 0 then
    lit "    ```plane" ++ [nl]
    ++ fold_left (fun result line => result ++ lit "    " ++ line ++ [nl])
                 (split nl (note item)) []
    ++ lit "    ```" ++ [nl]
  else [].

Definition stringify_active (item : Item) : option str :=
  match type item with
  | heading => Some (lit "## " ++ title item ++ [nl] ++ note_block item)
  | todo =>
    indentStr <- repeat_tab (indent item) ;;
    let check := if isChecked item then lit "x" else lit " " in
    Some (indentStr ++ lit "- [" ++ check ++ lit "] " ++ title item ++ [nl]
          ++ note_block item)
  end.

Definition stringify_archived (item : Item) : option str :=
  match type item with
  | heading => Some (note_block item)
  | todo =>
    indentStr <- repeat_tab (indent item) ;;
    Some (indentStr ++ lit "- [x] " ++ title item ++ [nl] ++ note_block item)
  end.

(** [result += ...] over a list of items. *)
Fixpoint stringify_loop (f : Item -> option str) (l : list Item) (result : str)
  : option str :=
  match l with
  | [] => Some result
  | item :: rest =>
    piece <- f item ;;
    stringify_loop f rest (result ++ piece)
  end.

Definition stringifyItems (itemList archived : list Item) : option str :=
  result <- stringify_loop stringify_active itemList [] ;;
  if len archived >? 0 then
    stringify_loop stringify_archived archived (result ++ lit "## Archive" ++ [nl])
  else Some result.

(** ** KeyboardHandler: the handlers that change the lists *)

Module KeyboardHandler.

Definition handleArrowRight_cmd (shiftKey : bool) (s : State) : option State :=
  if isArchiveActive s then Some s
  else if shiftKey then moveToArchive s
  else moveToNextHeading s.

Definition handleArrowLeft_cmd (shiftKey : bool) (s : State) : option State :=
  if shiftKey then moveFromArchive s
  else if negb (isArchiveActive s) then moveToPrevHeading s
  else Some s.

Definition handleArrow_cmd (direction : Direction) (s : State) : option State :=
  if negb (isArchiveActive s) && negb (isArchiveHeaderSelected s)
  then moveItem direction s
  else Some s.

(** [handleEnter] on the key that creates an item. *)
Definition handleEnter_new (s : State) : option State :=
  if isArchiveHeaderSelected s then Some (set_isArchiveHidden (negb (isArchiveHidden s)) s)
  else if isArchiveActive s then Some s
  else if activeIndex s >=? 0 then addItem todo (Some (activeIndex s + 1)) None s
  else addItem todo None None s.

(** [handleEnter] on the key that edits the active item. *)
Definition handleEnter_edit (s : State) : option State :=
  if isArchiveHeaderSelected s then Some (set_isArchiveHidden (negb (isArchiveHidden s)) s)
  else if isArchiveActive s then Some s
  else if activeIndex s >=? 0 then
    it <- get (items s) (activeIndex s) ;;
    Some (startEditing (id it) false s)
  else Some s.

Definition handleSpace (s : State) : State :=
  if isArchiveActive s then s else toggleChecked s.

Definition handleDelete (s : State) : option State :=
  if isArchiveActive s then
    if size (archivedSelectedIndices s) >? 0 then deleteArchivedItems (saveState s)
    else Some s
  else if size (selectedIndices s) >? 0 then deleteItems (saveState s)
  else Some s.

Definition handleTab (shiftKey : bool) (s : State) : option State :=
  if isArchiveActive s then Some s
  else if size (selectedIndices s) >? 0
  then changeIndent (if shiftKey then -1 else 1) (saveState s)
  else Some s.

(** [handleKeydown] lets the edit input handle the keys while a title is
    being edited. *)
Definition handleKeydown (handler : State -> option State) (s : State) : option State :=
  match editingId s with
  | Some _ => Some s
  | None => handler s
  end.

End KeyboardHandler.

(** ** The events of the webview *)

(** Selection and focus, the part of the state that arrow keys, select-all
    and the archive header change without touching any list. *)
Record Focus : Type := mkFocus {
  f_activeIndex : Z;
  f_anchorIndex : Z;
  f_selectedIndices : IndexSet;
  f_archivedActiveIndex : Z;
  f_archivedAnchorIndex : Z;
  f_archivedSelectedIndices : IndexSet;
  f_isArchiveActive : bool;
  f_isArchiveHeaderSelected : bool;
  f_isArchiveHidden : bool
}.

Definition set_focus (f : Focus) (s : State) : State :=
  mkState (items s) (archivedItems s) (f_archivedSelectedIndices f)
          (f_archivedActiveIndex f) (f_archivedAnchorIndex f) (history s) (future s)
          (f_activeIndex f) (f_anchorIndex f) (f_selectedIndices f) (editingId s)
          (isNewItem s) (isUndoingRedoing s) (f_isArchiveHidden f) (clipboard s)
          (f_isArchiveActive f) (f_isArchiveHeaderSelected f) (nextId s).

Inductive Event : Type :=
| ClickAddTodo
| ClickAddHeading
| KeyNewItem
| KeyEditItem
| DoubleClick (index : Z)
| EditEnter (value : str)
| EditBlur (value : str)
| EditEscape (value : str)
| EditTab (isShift : bool) (value : str)
| KeyTab (shiftKey : bool)
| KeyDelete
| KeySpace
| KeyMove (direction : Direction)
| KeyMoveToNextHeading
| KeyMoveToPrevHeading
| KeyArchive
| KeyRestore
| KeyUndo
| KeyRedo
| KeyCopy
| KeyCut
| KeyPaste
| KeyDuplicate
| ClickCheckbox (index : Z)
| ClickItem (index : Z) (toggle extend : bool)
| ClickArchiveHeader
| ClickArchivedItem (index : Z) (mode : ClickMode)
| Navigate (f : Focus)
| SaveNote (noteOriginalValue newValue : str)
| MsgUpdate (content : str)
| MsgClearArchiveConfirmed.

(** What each event runs; an event on an element that is not rendered (an
    archived item while the archive is collapsed, the archive header of an
    empty archive, an index past the list) cannot happen and has no
    successor state.  [Navigate] stands for the arrow keys without
    modifier, select-all and the archive header: it may set the selection
    and focus to anything.  [MsgUpdate] carries the text of the file, which
    the extension host reads with [parseMarkdown]. *)
Definition handle (e : Event) (s : State) : option State :=
  let key := KeyboardHandler.handleKeydown in
  match e with
  | ClickAddTodo => addItem todo None None s
  | ClickAddHeading => addItem heading None None s
  | KeyNewItem => key KeyboardHandler.handleEnter_new s
  | KeyEditItem => key KeyboardHandler.handleEnter_edit s
  | DoubleClick index =>
    it <- get (items s) index ;;
    Some (startEditing (id it) false s)
  | EditEnter value => editEnter value s
  | EditBlur value => stopEditing true value s
  | EditEscape value => stopEditing false value s
  | EditTab isShift value => editTab isShift value s
  | KeyTab shiftKey => key (KeyboardHandler.handleTab shiftKey) s
  | KeyDelete => key KeyboardHandler.handleDelete s
  | KeySpace => key (fun s => Some (KeyboardHandler.handleSpace s)) s
  | KeyMove direction => key (KeyboardHandler.handleArrow_cmd direction) s
  | KeyMoveToNextHeading => key (KeyboardHandler.handleArrowRight_cmd false) s
  | KeyMoveToPrevHeading => key (KeyboardHandler.handleArrowLeft_cmd false) s
  | KeyArchive => key (KeyboardHandler.handleArrowRight_cmd true) s
  | KeyRestore => key (KeyboardHandler.handleArrowLeft_cmd true) s
  | KeyUndo => key (fun s => Some (undo s)) s
  | KeyRedo => key (fun s => Some (redo s)) s
  | KeyCopy => key (fun s => Some (copyItems s)) s
  | KeyCut => key cutItems s
  | KeyPaste => key pasteItems s
  | KeyDuplicate => key duplicateItems s
  | ClickCheckbox index =>
    _ <- get (items s) index ;;
    Some (clickCheckbox index s)
  | ClickItem index toggle extend =>
    _ <- get (items s) index ;;
    clickItem index toggle extend s
  | ClickArchiveHeader =>
    if len (archivedItems s) >? 0
    then Some (set_isArchiveHidden (negb (isArchiveHidden s)) s)
    else None
  | ClickArchivedItem index mode =>
    if isArchiveHidden s then None
    else
      _ <- get (archivedItems s) index ;;
      Some (clickArchivedItem index mode s)
  | Navigate f => Some (set_focus f s)
  | SaveNote noteOriginalValue newValue => Some (saveNote noteOriginalValue newValue s)
  | MsgUpdate content =>
    let st := parseMarkdown content (nextId s) in
    Some (loadOutline (p_items st) (p_archivedItems st) (set_nextId (p_nextId st) s))
  | MsgClearArchiveConfirmed => Some (clearArchive s)
  end.

Fixpoint run (events : list Event) (s : State) : option State :=
  match events with
  | [] => Some s
  | e :: rest => s' <- handle e s ;; run rest s'
  end.

(** The states the webview can be in, started empty. *)
Definition reachable (s : State) : Prop :=
  exists events, run events initialState = Some s.

(** ** What the webview lets out when a title edit ends *)

(** The two things a user or the extension host gets to see of an
    operation: the message [updateItems] that [render(notify)] posts to the
    host when [notify] is set, which makes the host write the file, and the
    toast of [showNotification]. *)
Inductive Output : Type :=
| updateItems (itemList archived : list Item)
| notification (message : str).

(** [render(notify)]: the rest of [render] builds the DOM. *)
Definition render_out (notify : bool) (s : State) : list Output :=
  if notify then [updateItems (items s) (archivedItems s)] else [].

(** [DeleteManager.deleteSingle(index, notify)]: [render(notify)] runs
    after the splice and the new selection; the closing [selectItem] updates
    the selection classes and the inspector only. *)
Definition deleteSingle_out (index : Z) (notify : bool) (s : State) : list Output :=
  match get (items s) index with
  | None => []
  | Some item =>
    let s := set_items (splice_remove (items s) index 1) s in
    let s := DeleteManager.resetSelectionAfterDelete index [deletedType_of item] s in
    render_out notify s
  end.

(** [EditingManager._cancelNewItem]: [deleteItem(itemIndex, false)]. *)
Definition _cancelNewItem_out (itemIndex : Z) (s : State) : list Output :=
  deleteSingle_out itemIndex false s.

(** [EditingManager._saveTitle] ends with [render(true)]. *)
Definition _saveTitle_out (itemIndex : Z) (newTitle : str) (s : State)
  : option (list Output) :=
  s' <- EditingManager._saveTitle itemIndex newTitle s ;;
  Some (render_out true s').

Definition saveEdit_out (itemIndex : Z) (newTitle : str) (s : State)
  : option (list Output) :=
  if str_eqb newTitle [] && isNewItem s then Some (_cancelNewItem_out itemIndex s)
  else if str_eqb newTitle [] then
    Some (deleteSingle_out itemIndex true (HistoryManager.save s))
  else _saveTitle_out itemIndex newTitle s.

(** [EditingManager.cancelEdit]: [render(false)] for an existing item. *)
Definition cancelEdit_out (itemIndex : Z) (s : State) : list Output :=
  if isNewItem s then _cancelNewItem_out itemIndex s
  else render_out false (EditingManager._resetEditingState s).

Definition stopEditing_out (save : bool) (value : str) (s : State)
  : option (list Output) :=
  if isUndoingRedoing s then Some []
  else match editingId s with
       | None => Some []
       | Some e =>
         let itemIndex := findIndex (fun i => Nat.eqb (id i) e) (items s) in
         if itemIndex =? -1 then Some []
         else
           let newTitle := trim value in
           if save then saveEdit_out itemIndex newTitle s
           else Some (cancelEdit_out itemIndex s)
       end.

(** The [onEnter] callback. *)
Definition editEnter_out (value : str) (s : State) : option (list Output) :=
  match editingId s with
  | None => Some []
  | Some e =>
    let index := index_of_id (items s) e in
    stopEditing_out true value (set_items (update (items s) index (set_title value)) s)
  end.
(** ** Snapshotting operations and repeated undo *)

(** The past stack after one more entry [x]: [x] is the newest entry, and
    the oldest one is gone when the stack already held the maximum. *)
Definition with_newest (h : list Snapshot) (x : Snapshot) : list Snapshot :=
  (if len h <? Constants.MAX_HISTORY_SIZE then h else tl h) ++ [x].

(** An operation took [s] to [s'] and took its snapshot first, as the
    specification asks of every operation: the past stack of [s'] is the one
    of [s] with the two lists of [s] as its newest entry, and the operation
    was not part of an undo or a redo.  The lists and the selection of [s']
    are whatever the operation made of them. *)
Definition saved_first (s s' : State) : Prop :=
  history s' = with_newest (history s) (mkSnapshot (items s) (archivedItems s))
  /\ isUndoingRedoing s' = false.

(** [op1; ...; opN] started in [s], each taking its snapshot first:
    [after] lists the states after each. *)
Fixpoint snapshot_chain (s : State) (after : list State) : Prop :=
  match after with
  | [] => True
  | s1 :: rest => saved_first s s1 /\ snapshot_chain s1 rest
  end.

(** The state after the first [k] operations. *)
Definition state_after (k : nat) (s : State) (after : list State) : State :=
  last (firstn k after) s.

Fixpoint undo_n (n : nat) (s : State) : State :=
  match n with
  | O => s
  | S k => undo_n k (snd (HistoryManager.undo s))
  end.

(** The snapshots pushed along the chain, oldest first. *)
Fixpoint pushed (s : State) (after : list State) : list Snapshot :=
  match after with
  | [] => []
  | s1 :: rest => mkSnapshot (items s) (archivedItems s) :: pushed s1 rest
  end.

(** The last [n] elements of a list. *)
Definition lastn {A : Type} (n : nat) (l : list A) : list A :=
  skipn (List.length l - n) l.

(** ** Properties stated by the specification *)

(** No todo with indent 1 is the first item of a section: none at index 0
    of the list, none right after a heading.  [atStart] tells whether the
    previous position was the start of the list or a heading. *)
Fixpoint noChildAtSectionStart_from (atStart : bool) (l : list Item) : bool :=
  match l with
  | [] => true
  | it :: rest =>
    negb (atStart && ItemType_eqb (type it) todo && (indent it =? 1))
    && noChildAtSectionStart_from (is_heading it) rest
  end.

Definition noChildAtSectionStart (l : list Item) : bool :=
  noChildAtSectionStart_from true l.

(** Two todos are created and titled, the second is made a child of the
    first and archived on its own, the first is deleted, and the archived
    child is restored. *)
Definition orphan_restore_trace : list Event :=
  [ClickAddTodo; EditEnter (lit "x");
   KeyNewItem; EditEnter (lit "y");
   KeyTab false;
   KeyArchive;
   KeyDelete;
   ClickArchiveHeader; ClickArchivedItem 0 plainClick;
   KeyRestore].

Definition all_checked (l : list Item) : Prop :=
  Forall (fun i => isChecked i = true) l.

Definition all_unchecked (l : list Item) : Prop :=
  Forall (fun i => isChecked i = false) l.

(** Whether the [forEach] of a move to a heading moves anything: the flag
    [anyMoved] of the source at the end of the loop. *)
Definition anyMoved (step : list Item -> Item -> option (list Item)) (s : State) : bool :=
  let s := select_active_if_empty s in
  snd (heading_loop step
         (rev (ItemUtils.collectItemsToProcess (items s) (selectedIndices s) true))
         (items s) false).

(** A list with one todo, selected: the next heading does not exist and
    the todo is already at the top, so neither move to a heading moves it. *)
Definition lone_todo_state : State :=
  set_selectedIndices [0]
    (set_anchorIndex 0
       (set_activeIndex 0
          (set_items [mkItem 0%nat todo (lit "x") 0 false []]
             (set_nextId 1%nat initialState)))).

(** A todo is created and titled "x": it is the only item, active and
    selected, and no title is being edited. *)
Definition lone_todo_trace : list Event :=
  [ClickAddTodo; EditEnter (lit "x")].

(** Two todos are created, a heading is added between them and titled
    "Archive", and the first todo is clicked: the heading that follows the
    selected todo is the Archive heading. *)
Definition before_archive_trace : list Event :=
  [ClickAddTodo; EditEnter (lit "x");
   KeyNewItem; EditEnter (lit "y");
   ClickAddHeading; EditEnter (lit "Archive");
   ClickItem 0 false false].

(** A todo is created and titled "b", then opened for editing again. *)
Definition rename_trace : list Event :=
  [ClickAddTodo; EditEnter (lit "b"); KeyEditItem].

(** Two todos are created and the second creation is undone: one todo is
    left, at the top of the list, and redo is available. *)
Definition undone_trace : list Event :=
  [ClickAddTodo; EditEnter (lit "x"); KeyNewItem; EditEnter (lit "y"); KeyUndo].

Definition undone_state : State :=
  match run undone_trace initialState with
  | Some s => s
  | None => initialState
  end.

(** The rejections of [moveItem] that come after its snapshot: the
    expanded multi-selection is not contiguous; its topmost item is a child
    while an item of indent 0 is selected with it; the block to move already
    starts at the top of the list (moving up) or ends at its bottom (moving
    down). *)
Inductive MoveRejected (direction : Direction) (s : State) : Prop :=
| reject_noncontiguous (finalIndices : list Z) (first : Item) :
    size (selectedIndices s) > 1 ->
    MoveUtils.expandSelectionWithChildren (sort_asc (selectedIndices s)) (items s)
    = Some finalIndices ->
    get (items s) (hd 0 finalIndices) = Some first ->
    MoveUtils.isContiguous finalIndices = false ->
    MoveRejected direction s
| reject_ownership (finalIndices : list Z) (first : Item) :
    size (selectedIndices s) > 1 ->
    MoveUtils.expandSelectionWithChildren (sort_asc (selectedIndices s)) (items s)
    = Some finalIndices ->
    get (items s) (hd 0 finalIndices) = Some first ->
    indent first = Constants.INDENT_CHILD ->
    existsb (fun idx => match get (items s) idx with
                        | Some it => indent it =? Constants.INDENT_PARENT
                        | None => false
                        end) finalIndices = true ->
    MoveRejected direction s
| reject_top_single (item : Item) :
    size (selectedIndices s) <= 1 ->
    direction = up ->
    activeIndex s = 0 ->
    get (items s) 0 = Some item ->
    MoveRejected direction s
| reject_bottom_single (item : Item) (count : Z) :
    size (selectedIndices s) <= 1 ->
    direction = down ->
    get (items s) (activeIndex s) = Some item ->
    MoveUtils.getBlockCount (items s) (activeIndex s) = Some count ->
    activeIndex s + count >= len (items s) ->
    MoveRejected direction s
| reject_top_multi (finalIndices : list Z) (first : Item) :
    size (selectedIndices s) > 1 ->
    direction = up ->
    MoveUtils.expandSelectionWithChildren (sort_asc (selectedIndices s)) (items s)
    = Some finalIndices ->
    get (items s) (hd 0 finalIndices) = Some first ->
    hd 0 finalIndices = 0 ->
    MoveRejected direction s
| reject_bottom_multi (finalIndices : list Z) (first : Item) :
    size (selectedIndices s) > 1 ->
    direction = down ->
    MoveUtils.expandSelectionWithChildren (sort_asc (selectedIndices s)) (items s)
    = Some finalIndices ->
    get (items s) (hd 0 finalIndices) = Some first ->
    hd 0 finalIndices + len finalIndices >= len (items s) ->
    MoveRejected direction s.

(** ** The insert position of Paste, in the words of the specification *)

(** The data model's indent: 0 or 1. *)
Definition indent_ok (it : Item) : Prop := indent it = 0 \/ indent it = 1.

(** A parent is a todo of indent 0, a child a todo of indent 1. *)
Definition is_parent (it : Item) : Prop := type it = todo /\ indent it = 0.
Definition is_child (it : Item) : Prop := type it = todo /\ indent it = 1.

(** [p] is the position after the block of the parent at [a]: the items
    from [a + 1] up to [p] are children, and the item at [p], when there is
    one, is not. *)
Definition after_block (l : list Item) (a p : Z) : Prop :=
  a < p <= len l
  /\ (forall j, a < j < p -> exists it, get l j = Some it /\ is_child it)
  /\ (forall it, get l p = Some it -> ~ is_child it).

(** The Archive heading: the first heading titled "Archive". *)
Definition is_archive_sentinel (it : Item) : Prop :=
  type it = heading /\ title it = lit "Archive".

Definition archive_heading_at (l : list Item) (k : Z) : Prop :=
  (exists it, get l k = Some it /\ is_archive_sentinel it)
  /\ forall j it, j < k -> get l j = Some it -> ~ is_archive_sentinel it.

Definition no_archive_heading (l : list Item) : Prop :=
  forall j it, get l j = Some it -> ~ is_archive_sentinel it.

(** Where the clones are meant to go: after the block of the active item
    when it is a parent, right after the active item otherwise, at the end
    of the list when no item is active. *)
Definition paste_target (l : list Item) (a q : Z) : Prop :=
  if a <? 0 then q = len l
  else exists active,
      get l a = Some active
      /\ ((is_parent active /\ after_block l a q)
          \/ (~ is_parent active /\ q = a + 1)).

(** The insert position of Paste: the target, or the index of the Archive
    heading when the target lies after that heading, so that the clones
    come before it. *)
Definition spec_paste_position (l : list Item) (a p : Z) : Prop :=
  exists q,
    paste_target l a q
    /\ ((no_archive_heading l /\ p = q)
        \/ exists k, archive_heading_at l k /\ p = Z.min q k).

(** [copy] is [original] under another id. *)
Definition clone_of (original copy : Item) : Prop :=
  copy = set_id (id copy) original.

(** A parent with two children, a further todo and a heading; the parent
    is active and a todo is on the clipboard. *)
Definition family_state : State :=
  set_clipboard [mkItem 9%nat todo (lit "X") 0 false []]
    (set_selectedIndices [0]
       (set_anchorIndex 0
          (set_activeIndex 0
             (set_items [mkItem 0%nat todo (lit "p") 0 false [];
                         mkItem 1%nat todo (lit "c") 1 false [];
                         mkItem 2%nat todo (lit "d") 1 true [];
                         mkItem 3%nat todo (lit "q") 0 false [];
                         mkItem 4%nat heading (lit "H") 0 false []]
                (set_nextId 10%nat initialState))))).

(** Ids handed out so far are below the counter. *)
Definition ids_below_counter (s : State) : Prop :=
  Forall (fun i => (id i < nextId s)%nat) (items s).

(** Fifty todos created and titled one after the other: the past stack
    is full. *)
Definition full_history_trace : list Event :=
  List.concat (repeat [ClickAddTodo; EditEnter (lit "a")] 50).

(** The archive of a snapshot holds checked items only. *)
Definition snapshot_checked (sn : Snapshot) : Prop :=
  all_checked (snap_archivedItems sn).

(** The invariant behind "archived items are checked": it covers the
    archives kept in the two stacks, which undo and redo bring back. *)
Definition archive_checked (s : State) : Prop :=
  all_checked (archivedItems s)
  /\ Forall snapshot_checked (history s)
  /\ Forall snapshot_checked (future s).

(** ** Documents in the form the writer produces *)

(** A note that is written out is made of trimmed lines, none of which
    begins with a code fence; a blank note is not written at all. *)
Definition note_ok (n : str) : bool :=
  (len (trim n) =? 0)
  || forallb (fun line => str_eqb (trim line) line && negb (startsWith (lit "```") line))
             (split nl n).

Definition heading_ok (it : Item) : bool :=
  negb (str_eqb (title it) [])
  && str_eqb (trim (title it)) (title it)
  && negb (existsb (Ascii.eqb nl) (title it))
  && negb (str_eqb (title it) (lit "Archive")).

Definition todo_ok (it : Item) : bool :=
  ((indent it =? 0) || (indent it =? 1))
  && forallb (fun c => negb (is_line_terminator c)) (title it).

Definition active_ok (it : Item) : bool :=
  match type it with
  | heading => heading_ok it
  | todo => todo_ok it
  end && note_ok (note it).

Definition archived_ok (it : Item) : bool :=
  ItemType_eqb (type it) todo && todo_ok it && note_ok (note it).

(** Lists whose serialization the reader takes back unchanged. *)
Definition canonical (itemList archived : list Item) : bool :=
  forallb active_ok itemList && forallb archived_ok archived.

(** Documents made of heading lines, todo lines and note blocks only, on
    which reading and writing back changes the text. *)
Definition doc_unchecked_archived : str :=
  lit "## Archive" ++ [nl] ++ lit "- [ ] a" ++ [nl].
Definition doc_empty_note : str :=
  lit "- [ ] a" ++ [nl] ++ lit "    ```plane" ++ [nl] ++ lit "    ```" ++ [nl].
Definition doc_space_indent : str :=
  lit "- [ ] a" ++ [nl] ++ lit "    - [ ] b" ++ [nl].
Definition doc_no_final_newline : str := lit "- [ ] a".
Definition doc_indented_note : str :=
  lit "- [ ] a" ++ [nl] ++ lit "    ```plane" ++ [nl] ++ lit "      b" ++ [nl]
      ++ lit "    ```" ++ [nl].
Definition doc_empty_archive : str :=
  lit "## A" ++ [nl] ++ lit "## Archive" ++ [nl].

Definition roundtrip (text : str) : option str :=
  let st := parseMarkdown text 0%nat in
  stringifyItems (p_items st) (p_archivedItems st).

(** The lines the writer emits, without their line feeds. *)
Definition unlines (ls : list str) : str := flat_map (fun l => l ++ [nl]) ls.

Definition note_lines (it : Item) : list str :=
  if len (trim (note it)) >? 0
  then lit "    ```plane" :: map (app (lit "    ")) (split nl (note it)) ++ [lit "    ```"]
  else [].

Definition active_lines (it : Item) : list str :=
  match type it with
  | heading => lit "## " ++ title it
  | todo => repeat tab (Z.to_nat (indent it)) ++ lit "- ["
                   ++ (if isChecked it then lit "x" else lit " ") ++ lit "] " ++ title it
  end :: note_lines it.

Definition archived_lines (it : Item) : list str :=
  match type it with
  | heading => []
  | todo => [repeat tab (Z.to_nat (indent it)) ++ lit "- [x] " ++ title it]
  end ++ note_lines it.

Definition doc_lines (itemList archived : list Item) : list str :=
  flat_map active_lines itemList
  ++ match archived with
     | [] => []
     | _ :: _ => lit "## Archive" :: flat_map archived_lines archived
     end.

(** An item as the reader rebuilds it from its lines: a new id, the note
    of a blank note empty, a heading unchecked and at indent 0. *)
Definition reread (nid : Id) (archivedSection : bool) (it : Item) : Item :=
  mkItem nid (type it) (title it)
         (match type it with
          | heading => 0
          | todo => indent it
          end)
         (match type it with
          | heading => false
          | todo => archivedSection || isChecked it
          end)
         (if len (trim (note it)) >? 0 then note it else []).

Fixpoint reread_all (nid : Id) (archivedSection : bool) (l : list Item) : list Item :=
  match l with
  | [] => []
  | it :: rest => reread nid archivedSection it :: reread_all (S nid) archivedSection rest
  end.

Definition no_nl (l : str) : Prop := forallb (fun c => negb (Ascii.eqb c nl)) l = true.

(** ** Concrete states and documents used as instances *)

Definition scenario_archive_state : State :=
  set_selectedIndices [1]
    (set_anchorIndex 1
       (set_activeIndex 1
          (set_items [mkItem 0%nat heading (lit "A") 0 false [];
                      mkItem 1%nat todo (lit "x") 0 false [];
                      mkItem 2%nat todo (lit "y") 1 false []]
             (set_nextId 3%nat initialState)))).

Definition two_todos_state : State :=
  set_selectedIndices [1]
    (set_anchorIndex 1
       (set_activeIndex 1
          (set_items [mkItem 0%nat todo (lit "x") 0 false [];
                      mkItem 1%nat todo (lit "y") 0 false []]
             (set_nextId 2%nat initialState)))).

Definition clipboard_state : State :=
  set_clipboard [mkItem 1%nat todo (lit "X") 0 false []]
    (set_items [mkItem 0%nat heading (lit "H") 0 false []]
       (set_nextId 2%nat initialState)).

(** A second todo created below the lone one, its title being edited. *)
Definition second_todo_state : State :=
  match addItem todo (Some 1) None lone_todo_state with
  | Some s => s
  | None => lone_todo_state
  end.

Definition new_todo_state : State :=
  match addItem todo None None initialState with
  | Some s => s
  | None => initialState
  end.

Definition archive_one_trace : list Event :=
  [ClickAddTodo; EditEnter (lit "x"); KeyArchive].

Definition sample_items : list Item :=
  [mkItem 0%nat heading (lit "A") 0 false [];
   mkItem 1%nat todo (lit "x") 0 false (lit "remember");
   mkItem 2%nat todo (lit "y") 1 true []].

Definition sample_archived : list Item :=
  [mkItem 3%nat todo (lit "z") 0 true []].

Definition sample_text : str :=
  lit "## A" ++ [nl] ++ lit "- [ ] x" ++ [nl]
      ++ lit "    ```plane" ++ [nl] ++ lit "    remember" ++ [nl] ++ lit "    ```" ++ [nl]
      ++ [tab] ++ lit "- [x] y" ++ [nl]
      ++ lit "## Archive" ++ [nl] ++ lit "- [x] z" ++ [nl].
(** ** Further properties of the code: definitions *)

(** A line kept for the note being collected: trimmed, not a code fence,
    on one line. *)
Definition kept_note_line (l : str) : Prop :=
  trim l = l /\ startsWith (lit "```") l = false /\ no_nl l.

(** What the reader keeps true line after line. *)
Definition parse_inv (st : ParseState) : Prop :=
  forallb active_ok (p_items st) = true
  /\ forallb archived_ok (p_archivedItems st) = true
  /\ Forall kept_note_line (p_currentNote st).

(** The two stacks of [HistoryManager] together stay within the cap, and
    the guard flag is down between handlers. *)
Definition history_bounded (s : State) : Prop :=
  isUndoingRedoing s = false
  /\ len (history s) + len (future s) <= Constants.MAX_HISTORY_SIZE.

(** The selection [_validateSelection] leaves behind. *)
Definition selection_valid (s : State) : Prop :=
  activeIndex s < len (items s)
  /\ (if activeIndex s >=? 0
      then selectedIndices s = [activeIndex s] /\ anchorIndex s = activeIndex s
      else selectedIndices s = [])
  /\ archivedActiveIndex s < len (archivedItems s)
  /\ Forall (fun idx => idx < len (archivedItems s)) (archivedSelectedIndices s).

(** [l'] is [l] with one block of [n] items starting at [a] taken out and
    put back at some position, or [l] itself. *)
Definition block_moved (l l' : list Item) : Prop :=
  l' = l
  \/ exists a n j, 0 <= a /\ 0 <= n
                   /\ l' = splice_insert (splice_remove l a n) j (slice l a (a + n)).

(** The second of two todos moved above the first. *)
Definition two_todos_moved : State :=
  match moveItem up two_todos_state with
  | Some s => s
  | None => two_todos_state
  end.

(** The state after the archive scenario, and the same with the first
    archived item clicked. *)
Definition scenario_archived : State :=
  match moveToArchive scenario_archive_state with
  | Some s => s
  | None => scenario_archive_state
  end.

Definition scenario_archive_selected : State :=
  clickArchivedItem 0 plainClick (set_isArchiveHidden false scenario_archived).

Definition scenario_restored : State :=
  match moveFromArchive scenario_archive_selected with
  | Some s => s
  | None => scenario_archive_selected
  end.

(** A todo followed by a heading, the todo selected, and the state after
    the todo was moved below the heading. *)
Definition todo_then_heading_state : State :=
  set_selectedIndices [0]
    (set_anchorIndex 0
       (set_activeIndex 0
          (set_items [mkItem 0%nat todo (lit "x") 0 false [];
                      mkItem 1%nat heading (lit "A") 0 false []]
             (set_nextId 2%nat initialState)))).

Definition todo_then_heading_moved : State :=
  match moveToNextHeading todo_then_heading_state with
  | Some s => s
  | None => todo_then_heading_state
  end.

(** [new] is [old], or the todo [old] under another indent, 0 or 1. *)
Definition indent_changed (old new : Item) : Prop :=
  new = old
  \/ (type old = todo /\ new = set_indent (indent new) old /\ indent_ok new).

(** The second of two todos indented under the first. *)
Definition two_todos_indented : State :=
  match changeIndent 1 two_todos_state with
  | Some s => s
  | None => two_todos_state
  end.

(** The cursor after a deletion: on an item of the list, which is the
    only selected one, or nowhere when the list is empty. *)
Definition cursor_valid (s : State) : Prop :=
  if len (items s) =? 0
  then activeIndex s = -1 /\ selectedIndices s = []
  else 0 <= activeIndex s < len (items s)
       /\ selectedIndices s = [activeIndex s]
       /\ anchorIndex s = activeIndex s.

(** ** Select-all *)


(** A heading between two pairs of todos, the last todo active. *)
Definition two_sections_state : State :=
  set_selectedIndices [4]
    (set_anchorIndex 4
       (set_activeIndex 4
          (set_items [mkItem 0%nat todo (lit "a") 0 false [];
                      mkItem 1%nat todo (lit "b") 1 false [];
                      mkItem 2%nat heading (lit "H") 0 false [];
                      mkItem 3%nat todo (lit "c") 0 false [];
                      mkItem 4%nat todo (lit "d") 0 false []]
             (set_nextId 5%nat initialState)))).

Definition two_sections_extended : State :=
  match handleExtendSelection 3 true two_sections_state with
  | Some s => s
  | None => two_sections_state
  end.


(** The second of two todos being renamed. *)
Definition renaming_state : State := startEditing 1%nat false two_todos_state.

(** ** The indent invariant *)

Definition indents_ok (l : list Item) : Prop := Forall indent_ok l.

Definition snapshot_indents_ok (sn : Snapshot) : Prop :=
  indents_ok (snap_items sn) /\ indents_ok (snap_archivedItems sn).

(** Every item the webview holds has indent 0 or 1: in the two lists, on
    the clipboard and in the snapshots of both stacks, from which undo,
    redo and paste bring items back. *)
Definition state_indents_ok (s : State) : Prop :=
  indents_ok (items s)
  /\ indents_ok (archivedItems s)
  /\ indents_ok (clipboard s)
  /\ Forall snapshot_indents_ok (history s)
  /\ Forall snapshot_indents_ok (future s).

(** The part of the state the invariant reads. *)
Definition data_view (s : State)
  : list Item * list Item * list Item * list Snapshot * list Snapshot :=
  (items s, archivedItems s, clipboard s, history s, future s).

(** The same without the active list. *)
Definition rest_view (s : State)
  : list Item * list Item * list Snapshot * list Snapshot :=
  (archivedItems s, clipboard s, history s, future s).

(** ** Deleting a selection *)

(** The items of [l] whose index is not in [idxs], in their order; [i] is
    the index of the head of [l]. *)
Fixpoint remove_indices (idxs : IndexSet) (i : Z) (l : list Item) : list Item :=
  match l with
  | [] => []
  | x :: r =>
    if has i idxs then remove_indices idxs (i + 1) r
    else x :: remove_indices idxs (i + 1) r
  end.

(** [i] is a child of the parent todo at [p]: it lies in the run of items
    after [p] that are neither of indent 0 nor headings. *)
Definition child_of (l : list Item) (p i : Z) : Prop :=
  exists parentItem,
    get l p = Some parentItem
    /\ indent parentItem = Constants.INDENT_PARENT /\ is_heading parentItem = false
    /\ p < i <= p + run_length (fun it => negb ((indent it =? Constants.INDENT_PARENT)
                                                || is_heading it))
                               (drop (p + 1) l).

(** Strictly descending. *)
Fixpoint descending (l : list Z) : Prop :=
  match l with
  | [] => True
  | x :: r => Forall (fun y => y < x) r /\ descending r
  end.

(** The archive scenario's state after Delete instead of Archive. *)
Definition scenario_deleted : State :=
  match deleteItems scenario_archive_state with
  | Some s => s
  | None => scenario_archive_state
  end.


(** * Theorems *)

(** ** History: undoing a run of snapshotting operations *)

Lemma len_app {A : Type} (l1 l2 : list A) : len (l1 ++ l2) = len l1 + len l2.
Proof. unfold len. rewrite length_app. lia. Qed.

Lemma len_nonneg {A : Type} (l : list A) : 0 <= len l.
Proof. unfold len. lia. Qed.

Lemma validateSelection_snapshot (s : State) :
  HistoryManager.snapshot (HistoryManager._validateSelection s) = HistoryManager.snapshot s
  /\ history (HistoryManager._validateSelection s) = history s
  /\ future (HistoryManager._validateSelection s) = future s
  /\ isUndoingRedoing (HistoryManager._validateSelection s) = isUndoingRedoing s.
Proof.
  unfold HistoryManager._validateSelection, HistoryManager.snapshot.
  repeat match goal with
         | |- context [if ?c then _ else _] => destruct c
         | |- context [match ?c with Some _ => _ | None => _ end] => destruct c
         end; simpl; auto.
Qed.

Lemma undo_pops (s : State) (h : list Snapshot) (x : Snapshot) :
  isUndoingRedoing s = false ->
  history s = h ++ [x] ->
  let s' := snd (HistoryManager.undo s) in
  HistoryManager.snapshot s' = x /\ history s' = h /\ isUndoingRedoing s' = false.
Proof.
  intros Hflag Hh. unfold HistoryManager.undo. rewrite Hflag, Hh, rev_app_distr.
  cbn [rev app snd].
  match goal with |- context [HistoryManager._validateSelection ?t] =>
    destruct (validateSelection_snapshot t) as (E1 & E2 & _ & E4) end.
  rewrite E1, E2, E4. cbn. rewrite rev_involutive. destruct x; auto.
Qed.

Lemma undo_empty (s : State) :
  history s = [] -> snd (HistoryManager.undo s) = s.
Proof.
  intros Hh. unfold HistoryManager.undo. rewrite Hh.
  destruct (isUndoingRedoing s); reflexivity.
Qed.

Lemma undo_n_empty (n : nat) (s : State) :
  history s = [] -> undo_n n s = s.
Proof.
  induction n as [|n IH]; intros Hh; [reflexivity|].
  cbn [undo_n]. rewrite undo_empty by assumption. auto.
Qed.

Lemma undo_n_add (n m : nat) (s : State) :
  undo_n (n + m) s = undo_n m (undo_n n s).
Proof.
  revert s. induction n as [|n IH]; intros s; [reflexivity|].
  cbn [undo_n Nat.add]. apply IH.
Qed.

(** Undoing as many times as there are entries in a suffix of the past
    stack lands on the oldest snapshot of that suffix. *)
Lemma undo_n_suffix (hs : list Snapshot) :
  forall (x : Snapshot) (h : list Snapshot) (s : State),
    isUndoingRedoing s = false ->
    history s = h ++ x :: hs ->
    let s' := undo_n (S (List.length hs)) s in
    HistoryManager.snapshot s' = x /\ history s' = h /\ isUndoingRedoing s' = false.
Proof.
  induction hs as [|y hs IH] using rev_ind; intros x h s Hflag Hh.
  - cbn [List.length undo_n]. apply undo_pops; assumption.
  - rewrite length_app, Nat.add_comm. cbn [List.length Nat.add undo_n].
    destruct (undo_pops s (h ++ x :: hs) y Hflag) as (_ & E2 & E3).
    { rewrite Hh, <- app_assoc. reflexivity. }
    apply IH; assumption.
Qed.

Lemma lastn_all {A : Type} (n : nat) (l : list A) :
  (List.length l <= n)%nat -> lastn n l = l.
Proof.
  intros H. unfold lastn. replace (List.length l - n)%nat with 0%nat by lia. reflexivity.
Qed.

Lemma lastn_length {A : Type} (n : nat) (l : list A) :
  List.length (lastn n l) = Nat.min n (List.length l).
Proof. unfold lastn. rewrite length_skipn. lia. Qed.

Lemma lastn_app_lastn {A : Type} (n : nat) (l p : list A) :
  lastn n (lastn n l ++ p) = lastn n (l ++ p).
Proof.
  unfold lastn.
  assert (E : skipn (List.length l - n) l ++ p = skipn (List.length l - n) (l ++ p)).
  { rewrite skipn_app.
    replace (List.length l - n - List.length l)%nat with 0%nat by lia.
    reflexivity. }
  rewrite E, skipn_skipn, length_skipn, !length_app.
  f_equal. lia.
Qed.

Lemma push_capped_lastn (h : list Snapshot) (x : Snapshot) :
  (List.length h <= 50)%nat ->
  HistoryManager.push_capped h x = lastn 50 (h ++ [x]).
Proof.
  intros Hlen. unfold HistoryManager.push_capped, Constants.MAX_HISTORY_SIZE, len, lastn.
  rewrite length_app. cbn [List.length].
  destruct (Z.gtb_spec (Z.of_nat (List.length h + 1)) 50) as [Hgt|Hle].
  - replace (List.length h + 1 - 50)%nat with 1%nat by lia.
    destruct (h ++ [x]); reflexivity.
  - replace (List.length h + 1 - 50)%nat with 0%nat by lia. reflexivity.
Qed.

(** [history.push(state)] followed by the [shift()] at the cap: the pushed
    entry is the newest one, the oldest one leaves a full stack. *)
Lemma push_capped_newest (h : list Snapshot) (x : Snapshot) :
  HistoryManager.push_capped h x = with_newest h x.
Proof.
  unfold HistoryManager.push_capped, with_newest, Constants.MAX_HISTORY_SIZE.
  rewrite len_app. unfold len at 2. cbn [List.length].
  destruct (Z.gtb_spec (len h + Z.of_nat 1) 50); destruct (Z.ltb_spec (len h) 50);
    try lia; [|reflexivity].
  destruct h as [|y h]; [unfold len in *; cbn in *; lia|reflexivity].
Qed.

Lemma pushed_length (after : list State) :
  forall s, List.length (pushed s after) = List.length after.
Proof. induction after as [|s1 r IH]; intros s; cbn; auto. Qed.

Lemma last_cons {A : Type} (x d : A) (l : list A) : last (x :: l) d = last l x.
Proof.
  revert x d. induction l as [|y l IH]; intros x d; [reflexivity|].
  change (last (x :: y :: l) d) with (last (y :: l) d). rewrite !IH. reflexivity.
Qed.

Lemma pushed_skipn (k : nat) :
  forall (after : list State) (s : State),
    skipn k (pushed s after) = pushed (state_after k s after) (skipn k after).
Proof.
  unfold state_after. induction k as [|k IH]; intros after s; [reflexivity|].
  destruct after as [|s1 r]; [reflexivity|].
  cbn [pushed skipn firstn]. rewrite last_cons. apply IH.
Qed.

Lemma chain_history (after : list State) :
  forall s,
    snapshot_chain s after ->
    isUndoingRedoing s = false ->
    (List.length (history s) <= 50)%nat ->
    history (last after s) = lastn 50 (history s ++ pushed s after)
    /\ isUndoingRedoing (last after s) = false.
Proof.
  induction after as [|s1 r IH]; intros s Hc Hflag Hlen.
  - cbn. rewrite app_nil_r, lastn_all by assumption. auto.
  - destruct Hc as ((Hh & Hf) & Hr). rewrite last_cons. cbn [pushed].
    rewrite <- push_capped_newest, push_capped_lastn in Hh by assumption.
    destruct (IH s1 Hr Hf) as (I1 & I2).
    + rewrite Hh, lastn_length. lia.
    + split; [|assumption].
      rewrite I1, Hh, lastn_app_lastn, <- app_assoc. reflexivity.
Qed.

Lemma snapshot_lists (s s0 : State) :
  HistoryManager.snapshot s = mkSnapshot (items s0) (archivedItems s0) ->
  items s = items s0 /\ archivedItems s = archivedItems s0.
Proof. unfold HistoryManager.snapshot. intros H. injection H as -> ->. auto. Qed.

(** The history law for operations that take their snapshot first.  After
    N of them, N calls of [undo()] bring [items] and [archivedItems] back to
    their values before the first operation when N is at most 50; when N
    exceeds 50 the calls stop at the lists that preceded the last 50
    operations, and the past stack is then empty. *)
Lemma history_law (s : State) (after : list State) :
  snapshot_chain s after ->
  isUndoingRedoing s = false ->
  len (history s) <= Constants.MAX_HISTORY_SIZE ->
  let N := List.length after in
  let s' := undo_n N (last after s) in
  (len after <= Constants.MAX_HISTORY_SIZE ->
   items s' = items s /\ archivedItems s' = archivedItems s)
  /\ (len after > Constants.MAX_HISTORY_SIZE ->
      items s' = items (state_after (N - 50) s after)
      /\ archivedItems s' = archivedItems (state_after (N - 50) s after)
      /\ HistoryManager.canUndo s' = false).
Proof.
  intros Hc Hflag Hlen N s'. unfold Constants.MAX_HISTORY_SIZE, len in *.
  assert (Hlen' : (List.length (history s) <= 50)%nat) by lia.
  destruct (chain_history after s Hc Hflag Hlen') as (Hh & Hf).
  pose proof (pushed_length after s) as HP.
  split; intros HN.
  - destruct after as [|s1 r]; [split; reflexivity|].
    cbn [pushed] in Hh, HP. cbn [List.length] in HN, HP.
    remember (pushed s1 r) as hs eqn:Ehs.
    assert (E : lastn 50 (history s ++ mkSnapshot (items s) (archivedItems s) :: hs)
                = skipn (List.length (history s) + S (List.length hs) - 50) (history s)
                        ++ mkSnapshot (items s) (archivedItems s) :: hs).
    { unfold lastn. rewrite skipn_app, length_app. cbn [List.length].
      replace (List.length (history s) + S (List.length hs) - 50
               - List.length (history s))%nat with 0%nat by lia.
      reflexivity. }
    rewrite E in Hh.
    destruct (undo_n_suffix hs _ _ (last (s1 :: r) s) Hf Hh) as (R & _ & _).
    apply snapshot_lists.
    subst s' N. cbn [List.length]. injection HP as HP. rewrite <- HP. exact R.
  - assert (E : lastn 50 (history s ++ pushed s after)
                = pushed (state_after (N - 50) s after) (skipn (N - 50) after)).
    { unfold lastn. rewrite skipn_app, length_app, HP.
      rewrite (skipn_all2 (history s)) by (fold N; lia).
      replace (List.length (history s) + List.length after - 50
               - List.length (history s))%nat with (N - 50)%nat by (subst N; lia).
      cbn [app]. apply pushed_skipn. }
    rewrite E in Hh.
    assert (HL : List.length (skipn (N - 50) after) = 50%nat)
      by (rewrite length_skipn; subst N; lia).
    destruct (skipn (N - 50) after) as [|s1 r] eqn:Es; [discriminate|].
    cbn [pushed] in Hh. cbn [List.length] in HL.
    destruct (undo_n_suffix _ _ [] (last after s) Hf Hh) as (R1 & R2 & _).
    rewrite pushed_length in R1, R2.
    replace (S (List.length r)) with 50%nat in R1, R2 by lia.
    assert (Es' : s' = undo_n 50 (last after s)).
    { subst s'. replace N with (50 + (N - 50))%nat by lia.
      rewrite undo_n_add. apply undo_n_empty. assumption. }
    rewrite Es'. apply snapshot_lists in R1. destruct R1 as (R1 & R1').
    split; [assumption|]. split; [assumption|].
    unfold HistoryManager.canUndo. rewrite R2. reflexivity.
Qed.

(** C2. The history law fails on the code for a title committed with Enter.
    The [onEnter] callback stores the raw input in the item before
    [stopEditing(true)] runs, so when the input differs from its trimmed
    form [_saveTitle] pushes exactly one snapshot, taken of the list that
    already carries the raw title.  A todo titled "b" is renamed with the
    input " b2 ": one entry is pushed, and one [undo()] brings back a todo
    titled " b2 ", not the todo titled "b" that preceded the rename. *)
Theorem enter_commit_breaks_history_law :
  exists s s',
    run rename_trace initialState = Some s
    /\ handle (EditEnter (lit " b2 ")) s = Some s'
    /\ items s = [mkItem 0%nat todo (lit "b") 0 false []]
    /\ archivedItems s = []
    /\ isUndoingRedoing s = false
    /\ items s' = [mkItem 0%nat todo (lit "b2") 0 false []]
    /\ history s' = history s ++ [mkSnapshot [mkItem 0%nat todo (lit " b2 ") 0 false []] []]
    /\ len (history s') = 2
    /\ items (undo_n 1 s') = [mkItem 0%nat todo (lit " b2 ") 0 false []]
    /\ items (undo_n 1 s') <> items s.
Proof.
  destruct (run rename_trace initialState) as [s|] eqn:E;
    [|vm_compute in E; discriminate].
  destruct (handle (EditEnter (lit " b2 ")) s) as [s'|] eqn:E1;
    [|vm_compute in E; injection E as <-; vm_compute in E1; discriminate].
  exists s, s'.
  vm_compute in E. injection E as <-.
  vm_compute in E1. injection E1 as <-.
  split; [reflexivity|]. split; [reflexivity|].
  repeat (split; [vm_compute; reflexivity|]).
  vm_compute. discriminate.
Qed.

(** ** The orphan-child invariant and restore from the archive *)

(** C1. The invariant fails on a reachable state: a child archived on its
    own keeps indent 1 in the archive, and [moveFromArchive] appends it with
    that indent to an active list that has become empty, so the list starts
    with a todo of indent 1. *)
Theorem restore_orphan_child_at_section_start :
  exists s,
    run orphan_restore_trace initialState = Some s
    /\ reachable s
    /\ items s = [mkItem 1%nat todo (lit "y") 1 false []]
    /\ noChildAtSectionStart (items s) = false.
Proof.
  destruct (run orphan_restore_trace initialState) as [s|] eqn:E;
    [|vm_compute in E; discriminate].
  exists s. split; [reflexivity|]. split; [exists orphan_restore_trace; exact E|].
  vm_compute in E. injection E as E. subst s. split; reflexivity.
Qed.

(** The insert paths that do guard the invariant: what
    [adjustOrphanedIndent] hands to paste and duplicate never starts with a
    child when the insert position is the top of the list or follows a
    heading. *)
Lemma adjustOrphanedIndent_repairs (toInsert target : list Item) (pos : Z)
      (first : Item) (rest : list Item) :
  ItemUtils.adjustOrphanedIndent toInsert target pos = Some (first :: rest) ->
  pos = 0 \/ (exists h, nth_error target (Z.to_nat pos - 1) = Some h
                        /\ is_heading h = true /\ 0 < pos) ->
  indent first <> Constants.INDENT_CHILD.
Proof.
  intros H Hpos. unfold ItemUtils.adjustOrphanedIndent in H.
  destruct toInsert as [|x xs]; [discriminate|].
  destruct (Z.eqb_spec (indent x) Constants.INDENT_CHILD) as [E|E]; cbn [negb] in H.
  - destruct (Z.eqb_spec pos 0) as [E0|E0].
    + injection H as <- _. cbn. discriminate.
    + destruct Hpos as [?|(h & Hn & Hh & Hp)]; [contradiction|].
      unfold ItemUtils.hasParentAbove in H.
      replace (Z.to_nat pos) with (S (Z.to_nat pos - 1)) in H by lia.
      cbn [ItemUtils.hasParentAbove_scan] in H. rewrite Hn in H. cbn [bind] in H.
      rewrite Hh in H. cbn [negb] in H. rewrite andb_false_r in H. cbn [bind] in H.
      injection H as <- _. cbn. discriminate.
  - injection H as <- _. assumption.
Qed.

(** ** Archive: the scenario of the specification *)

Lemma save_fields (s : State) :
  items (saveState s) = items s
  /\ archivedItems (saveState s) = archivedItems s
  /\ selectedIndices (saveState s) = selectedIndices s
  /\ activeIndex (saveState s) = activeIndex s
  /\ clipboard (saveState s) = clipboard s
  /\ nextId (saveState s) = nextId s
  /\ isArchiveHidden (saveState s) = isArchiveHidden s
  /\ editingId (saveState s) = editingId s
  /\ isNewItem (saveState s) = isNewItem s
  /\ isUndoingRedoing (saveState s) = isUndoingRedoing s.
Proof.
  unfold saveState, HistoryManager.save.
  destruct (isUndoingRedoing s) eqn:E; cbn; rewrite ?E; repeat split; reflexivity.
Qed.

(** C3. With the active list [heading A; todo x (indent 0); todo y
    (indent 1)] and index 1 selected, Archive leaves [heading A] in the
    active list and puts [x; y], both checked, in that order in front of
    whatever the archive held. *)
Theorem archive_scenario
        (idA idx idy : Id) (cA cx cy : bool) (nA nx ny : str)
        (prior : list Item) (s : State) :
  idA <> idx ->
  items s = [mkItem idA heading (lit "A") 0 cA nA;
             mkItem idx todo (lit "x") 0 cx nx;
             mkItem idy todo (lit "y") 1 cy ny] ->
  selectedIndices s = [1] ->
  archivedItems s = prior ->
  exists s',
    moveToArchive s = Some s'
    /\ items s' = [mkItem idA heading (lit "A") 0 cA nA]
    /\ archivedItems s' = [mkItem idx todo (lit "x") 0 true nx;
                           mkItem idy todo (lit "y") 1 true ny] ++ prior.
Proof.
  intros Hid Hitems Hsel Harch.
  assert (EA : Nat.eqb idA idx = false) by (apply Nat.eqb_neq; assumption).
  destruct s; cbn in Hitems, Hsel, Harch; subst.
  unfold moveToArchive, select_active_if_empty, saveState, HistoryManager.save.
  destruct isUndoingRedoing0; cbv -[Nat.eqb];
    rewrite EA, Nat.eqb_refl; cbv;
    (eexists; split; [reflexivity|]; split; reflexivity).
Qed.

(** ** Moves to a heading that move nothing *)

Lemma heading_loop_true step (l itemList : list Item) :
  snd (heading_loop step l itemList true) = true.
Proof.
  revert itemList. induction l as [|x l IH]; intros itemList; [reflexivity|].
  cbn. destruct (step itemList x); apply IH.
Qed.

Lemma heading_loop_false step (l itemList : list Item) :
  snd (heading_loop step l itemList false) = false ->
  fst (heading_loop step l itemList false) = itemList.
Proof.
  revert itemList. induction l as [|x l IH]; intros itemList H; [reflexivity|].
  cbn in *. destruct (step itemList x).
  - rewrite heading_loop_true in H. discriminate.
  - apply IH. assumption.
Qed.

Lemma heading_move_nothing step (chk : bool) (s : State) :
  isUndoingRedoing s = false ->
  anyMoved step s = false ->
  exists s',
    moveToHeading step chk s = Some s'
    /\ items s' = items s
    /\ archivedItems s' = archivedItems s
    /\ (if (size (selectedIndices s) =? 0) && (activeIndex s <? 0)
        then history s' = history s /\ future s' = future s
        else history s'
             = with_newest (history s) (mkSnapshot (items s) (archivedItems s))
             /\ future s' = []).
Proof.
  intros Hflag Hany. unfold anyMoved in Hany. unfold moveToHeading. cbv zeta.
  unfold saveState, HistoryManager.save.
  set (s0 := select_active_if_empty s) in *.
  assert (E0 : items s0 = items s /\ archivedItems s0 = archivedItems s
               /\ history s0 = history s /\ future s0 = future s
               /\ isUndoingRedoing s0 = false
               /\ HistoryManager.snapshot s0 = HistoryManager.snapshot s).
  { subst s0. unfold select_active_if_empty.
    unfold HistoryManager.snapshot.
    destruct ((size (selectedIndices s) =? 0) && (activeIndex s >=? 0)); cbn;
      repeat split; auto. }
  destruct E0 as (Ei & Ea & Eh & Ef & Eu & Es).
  assert (Esel : (size (selectedIndices s0) =? 0)
                 = ((size (selectedIndices s) =? 0) && (activeIndex s <? 0))).
  { unfold s0, select_active_if_empty, size, add.
    pose proof (len_nonneg (selectedIndices s)) as Hn.
    destruct (Z.eqb_spec (len (selectedIndices s)) 0) as [E1|E1];
      destruct (Z.geb_spec (activeIndex s) 0) as [Hge|Hlt];
      destruct (Z.ltb_spec (activeIndex s) 0) as [Hl|Hl]; try lia; cbn [andb].
    - assert (E : selectedIndices s = []).
      { destruct (selectedIndices s); [reflexivity|]. unfold len in E1. cbn in E1. lia. }
      rewrite E. reflexivity.
    - apply Z.eqb_eq. assumption.
    - apply Z.eqb_neq. assumption.
    - apply Z.eqb_neq. assumption. }
  rewrite Esel.
  destruct ((size (selectedIndices s) =? 0) && (activeIndex s <? 0)).
  - exists s0. repeat split; assumption.
  - rewrite Eu. cbn [items selectedIndices set_future set_history].
    destruct (heading_loop step
                (rev (ItemUtils.collectItemsToProcess (items s0) (selectedIndices s0) true))
                (items s0) false) as [items' moved] eqn:EL.
    cbn [snd] in Hany. subst moved. cbn [negb].
    pose proof (heading_loop_false step
                  (rev (ItemUtils.collectItemsToProcess (items s0) (selectedIndices s0) true))
                  (items s0)) as HF.
    rewrite EL in HF. cbn in HF. specialize (HF eq_refl). subst items'.
    eexists. split; [reflexivity|]. cbn. rewrite Es, Eh, Ea, Ei, push_capped_newest. auto.
Qed.

(** C5. A move to a heading that moves nothing is not a no-op on the
    code: [saveState()] runs before the items are examined and nothing takes
    the entry back, so the past stack is one entry longer while both lists
    are as they were.  On a list that holds one todo, which has no next
    heading and is already in place for a move to the previous heading, and
    on a list where the heading after the selected todo is the Archive
    heading, the snapshot of the unchanged lists stays as the newest entry
    of the past stack. *)
Theorem move_to_heading_dangling_snapshot :
  (exists s,
      run lone_todo_trace initialState = Some s
      /\ anyMoved next_heading_step s = false
      /\ anyMoved prev_heading_step s = false
      /\ (exists s',
             handle KeyMoveToNextHeading s = Some s'
             /\ items s' = items s
             /\ archivedItems s' = archivedItems s
             /\ history s' = history s ++ [mkSnapshot (items s) (archivedItems s)]
             /\ history s' <> history s)
      /\ (exists s',
             handle KeyMoveToPrevHeading s = Some s'
             /\ items s' = items s
             /\ archivedItems s' = archivedItems s
             /\ history s' = history s ++ [mkSnapshot (items s) (archivedItems s)]
             /\ history s' <> history s))
  /\ (exists s s',
         run before_archive_trace initialState = Some s
         /\ items s = [mkItem 0%nat todo (lit "x") 0 false [];
                       mkItem 2%nat heading (lit "Archive") 0 false [];
                       mkItem 1%nat todo (lit "y") 0 false []]
         /\ selectedIndices s = [0]
         /\ anyMoved next_heading_step s = false
         /\ handle KeyMoveToNextHeading s = Some s'
         /\ items s' = items s
         /\ archivedItems s' = archivedItems s
         /\ history s' = history s ++ [mkSnapshot (items s) (archivedItems s)]
         /\ history s' <> history s).
Proof.
  split.
  - destruct (run lone_todo_trace initialState) as [s|] eqn:E;
      [|vm_compute in E; discriminate].
    exists s. vm_compute in E. injection E as <-.
    split; [reflexivity|]. split; [reflexivity|]. split; [reflexivity|].
    split; eexists; (split; [vm_compute; reflexivity|]);
      repeat (split; [reflexivity|]); discriminate.
  - destruct (run before_archive_trace initialState) as [s|] eqn:E;
      [|vm_compute in E; discriminate].
    destruct (handle KeyMoveToNextHeading s) as [s'|] eqn:E1;
      [|vm_compute in E; injection E as <-; vm_compute in E1; discriminate].
    exists s, s'. vm_compute in E. injection E as <-.
    vm_compute in E1. injection E1 as <-.
    repeat (split; [reflexivity|]). discriminate.
Qed.

(** The same for every state: when the loop of a move to the next or to
    the previous heading moves no item, both lists stay as they were, and
    with a selection or an active item the snapshot taken before the loop is
    the newest entry of the past stack and the future stack is empty. *)
Lemma move_to_heading_zero_moved (s : State) :
  isUndoingRedoing s = false ->
  (anyMoved next_heading_step s = false ->
   exists s',
     moveToNextHeading s = Some s'
     /\ items s' = items s
     /\ archivedItems s' = archivedItems s
     /\ (if (size (selectedIndices s) =? 0) && (activeIndex s <? 0)
         then history s' = history s /\ future s' = future s
         else history s'
              = with_newest (history s) (mkSnapshot (items s) (archivedItems s))
              /\ future s' = []))
  /\ (anyMoved prev_heading_step s = false ->
      exists s',
        moveToPrevHeading s = Some s'
        /\ items s' = items s
        /\ archivedItems s' = archivedItems s
        /\ (if (size (selectedIndices s) =? 0) && (activeIndex s <? 0)
            then history s' = history s /\ future s' = future s
            else history s'
                 = with_newest (history s) (mkSnapshot (items s) (archivedItems s))
                 /\ future s' = [])).
Proof.
  intros Hflag. split; intros Hany.
  - apply heading_move_nothing; assumption.
  - apply heading_move_nothing; assumption.
Qed.

(** ** What the operations leave alone *)

(** The part of the state that only snapshots, undo, redo, archive and
    restore change. *)
Definition stacks_view (s : State) : list Item * list Snapshot * list Snapshot * bool :=
  (archivedItems s, history s, future s, isUndoingRedoing s).

Ltac break_match_hyp H :=
  repeat match type of H with
         | context [match ?x with _ => _ end] => destruct x eqn:?; try discriminate H
         end.

Ltac break_all :=
  repeat match goal with
         | H : Some _ = Some _ |- _ => injection H as H; subst
         | H : None = Some _ |- _ => discriminate H
         | H : Some _ = None |- _ => discriminate H
         | H : context [match ?x with _ => _ end] |- _ => destruct x eqn:?
         end.

Ltac break_match_goal :=
  repeat match goal with
         | |- context [match ?x with _ => _ end] => destruct x eqn:?
         end.

(** Closes [f s = Some s' -> stacks_view s' = stacks_view s] for an [f]
    that is a composition of field updates under tests. *)
Ltac frame_option f :=
  let H := fresh "H" in
  intros H; unfold f, bind in H; cbv zeta in H; break_match_hyp H;
  try (injection H as H); subst; try reflexivity.

Lemma selectItem1_view index s : stacks_view (selectItem1 index s) = stacks_view s.
Proof. unfold selectItem1. break_match_goal; reflexivity. Qed.

Lemma selectItem1_items index s : items (selectItem1 index s) = items s.
Proof. unfold selectItem1. break_match_goal; reflexivity. Qed.

Lemma moveSingleUp_view item originalIndex count movingItems s s' :
  moveSingleUp item originalIndex count movingItems s = Some s' ->
  stacks_view s' = stacks_view s.
Proof. frame_option moveSingleUp; rewrite selectItem1_view; reflexivity. Qed.

Lemma moveSingleDown_view item originalIndex count movingItems s s' :
  moveSingleDown item originalIndex count movingItems s = Some s' ->
  stacks_view s' = stacks_view s.
Proof. frame_option moveSingleDown; rewrite selectItem1_view; reflexivity. Qed.

Lemma moveMultipleUp_view start count movingItems movingIds s s' :
  moveMultipleUp start count movingItems movingIds s = Some s' ->
  stacks_view s' = stacks_view s.
Proof. frame_option moveMultipleUp. Qed.

Lemma moveMultipleDown_view start count movingItems movingIds s s' :
  moveMultipleDown start count movingItems movingIds s = Some s' ->
  stacks_view s' = stacks_view s.
Proof. frame_option moveMultipleDown. Qed.

Lemma moveSingleItem_view direction s s' :
  moveSingleItem direction s = Some s' -> stacks_view s' = stacks_view s.
Proof.
  intros H. unfold moveSingleItem, bind in H. break_match_hyp H.
  - eapply moveSingleUp_view; eassumption.
  - eapply moveSingleDown_view; eassumption.
Qed.

Lemma moveMultipleItems_view direction s s' :
  moveMultipleItems direction s = Some s' -> stacks_view s' = stacks_view s.
Proof.
  intros H. unfold moveMultipleItems, bind in H. cbv zeta in H.
  destruct (MoveUtils.expandSelectionWithChildren (sort_asc (selectedIndices s)) (items s));
    [|discriminate].
  destruct (get (items s) (hd 0 l)); [|discriminate].
  destruct (_ && _); [injection H as H; subst; reflexivity|].
  destruct (negb _); [injection H as H; subst; reflexivity|].
  destruct direction.
  - eapply moveMultipleUp_view; eassumption.
  - eapply moveMultipleDown_view; eassumption.
Qed.

Lemma save_view (s : State) :
  isUndoingRedoing s = false ->
  stacks_view (saveState s)
  = (archivedItems s,
     HistoryManager.push_capped (history s) (HistoryManager.snapshot s), [], false).
Proof.
  intros H. unfold saveState, HistoryManager.save, stacks_view. rewrite H. cbn.
  rewrite H. reflexivity.
Qed.

(** Every move that gets past the first two guards of [moveItem] pushes a
    snapshot and empties the future stack, whether or not it then moves. *)
Lemma moveItem_view direction s s' :
  isUndoingRedoing s = false ->
  0 <= activeIndex s ->
  ItemUtils.isArchiveHeading (get (items s) (activeIndex s)) = false ->
  moveItem direction s = Some s' ->
  stacks_view s'
  = (archivedItems s,
     HistoryManager.push_capped (history s) (HistoryManager.snapshot s), [], false).
Proof.
  intros Hflag Hact Harch H. unfold moveItem in H.
  destruct (Z.ltb_spec (activeIndex s) 0); [lia|]. rewrite Harch in H. cbv zeta in H.
  rewrite <- (save_view s Hflag).
  destruct (size (selectedIndices (saveState s)) >? 1).
  - eapply moveMultipleItems_view; eassumption.
  - eapply moveSingleItem_view; eassumption.
Qed.

(** Operations of the source that take their snapshot first. *)
Lemma moveItem_saved_first direction s s' :
  isUndoingRedoing s = false ->
  0 <= activeIndex s ->
  ItemUtils.isArchiveHeading (get (items s) (activeIndex s)) = false ->
  moveItem direction s = Some s' ->
  saved_first s s'.
Proof.
  intros Hflag Hact Harch H.
  pose proof (moveItem_view direction s s' Hflag Hact Harch H) as V.
  unfold stacks_view in V. injection V as _ Vh _ Vu.
  rewrite push_capped_newest in Vh. split; assumption.
Qed.

(** ** Rejected moves *)

Lemma moveMultipleItems_rejected direction s :
  size (selectedIndices s) > 1 ->
  MoveRejected direction s ->
  moveMultipleItems direction s = Some s.
Proof.
  intros Hsize R. unfold moveMultipleItems, bind. cbv zeta.
  destruct R as [fi first _ He Hg Hc | fi first _ He Hg Hi Hx
                 | item Hs | item count Hs
                 | fi first _ Hd He Hg Hz | fi first _ Hd He Hg Hz]; try lia;
    rewrite He, Hg.
  - destruct (_ && _); [reflexivity|]. rewrite Hc. reflexivity.
  - rewrite Hi, Hx. reflexivity.
  - destruct (_ && _); [reflexivity|]. destruct (negb _); [reflexivity|].
    subst direction. unfold moveMultipleUp. rewrite Hz. reflexivity.
  - destruct (_ && _); [reflexivity|]. destruct (negb _); [reflexivity|].
    subst direction. unfold moveMultipleDown.
    destruct (Z.geb_spec (hd 0 fi + len fi) (len (items s))); [reflexivity|lia].
Qed.

Lemma moveSingleItem_rejected direction s :
  size (selectedIndices s) <= 1 ->
  MoveRejected direction s ->
  moveSingleItem direction s = Some s.
Proof.
  intros Hsize R. unfold moveSingleItem, bind.
  destruct R as [fi first Hs | fi first Hs
                 | item _ Hd Ha Hg | item count _ Hd Hg Hb Hge
                 | fi first Hs | fi first Hs]; try lia.
  - rewrite Ha, Hg. unfold MoveUtils.getBlockCount, bind. rewrite Hg.
    subst direction. reflexivity.
  - rewrite Hg, Hb. subst direction. unfold moveSingleDown.
    destruct (Z.geb_spec (activeIndex s + count) (len (items s))); [reflexivity|lia].
Qed.

(** C10. A move that is rejected after the first two guards of
    [moveItem] (not-contiguous multi-selection, ownership conflict, block
    at the top or bottom boundary) leaves both lists as they were, yet the
    past stack has a new newest entry, the snapshot of the unchanged lists
    taken before the checks (the oldest entry is gone when the stack was
    full), so undo is available; the future stack is empty, so redo is no
    longer available. *)
Theorem rejected_move_leaves_snapshot (direction : Direction) (s : State) :
  isUndoingRedoing s = false ->
  0 <= activeIndex s ->
  ItemUtils.isArchiveHeading (get (items s) (activeIndex s)) = false ->
  MoveRejected direction s ->
  exists s',
    moveItem direction s = Some s'
    /\ items s' = items s
    /\ archivedItems s' = archivedItems s
    /\ history s'
       = (if len (history s) <? Constants.MAX_HISTORY_SIZE
          then history s else tl (history s))
         ++ [mkSnapshot (items s) (archivedItems s)]
    /\ HistoryManager.canUndo s' = true
    /\ future s' = []
    /\ HistoryManager.canRedo s' = false.
Proof.
  intros Hflag Hact Harch R.
  assert (R' : MoveRejected direction (saveState s)).
  { destruct (save_fields s) as (Ei & _ & Es & Ea & _).
    destruct R; [eapply reject_noncontiguous | eapply reject_ownership
                 | eapply reject_top_single | eapply reject_bottom_single
                 | eapply reject_top_multi | eapply reject_bottom_multi];
      rewrite ?Ei, ?Es, ?Ea; eassumption. }
  assert (E : moveItem direction s = Some (saveState s)).
  { unfold moveItem. destruct (Z.ltb_spec (activeIndex s) 0); [lia|].
    rewrite Harch. cbv zeta.
    destruct (Z.gtb_spec (size (selectedIndices (saveState s))) 1).
    - apply moveMultipleItems_rejected; [lia|assumption].
    - apply moveSingleItem_rejected; [lia|assumption]. }
  exists (saveState s). split; [assumption|].
  pose proof (save_view s Hflag) as V. unfold stacks_view in V.
  injection V as Va Vh Vf _. rewrite push_capped_newest in Vh.
  destruct (save_fields s) as (Ei & _).
  split; [assumption|]. split; [assumption|]. split; [exact Vh|].
  split.
  - unfold HistoryManager.canUndo. rewrite Vh. unfold with_newest. rewrite len_app.
    pose proof (len_nonneg (if len (history s) <? Constants.MAX_HISTORY_SIZE
                            then history s else tl (history s))).
    change (len [HistoryManager.snapshot s]) with 1.
    apply Z.gtb_lt. lia.
  - unfold HistoryManager.canRedo. rewrite Vf. auto.
Qed.

(** ** Arrays *)

Lemma get_split {A : Type} (l : list A) (i : Z) (x : A) :
  get l i = Some x ->
  exists l1 l2, l = l1 ++ x :: l2 /\ len l1 = i /\ take i l = l1 /\ drop (i + 1) l = l2.
Proof.
  unfold get, take, drop, len. destruct (Z.ltb_spec i 0) as [|Hi]; [discriminate|].
  intros H. destruct (nth_error_split l (Z.to_nat i) H) as (l1 & l2 & E & L).
  exists l1, l2. subst l. repeat split.
  - lia.
  - rewrite <- L. rewrite firstn_app, Nat.sub_diag, firstn_all. cbn. apply app_nil_r.
  - replace (Z.to_nat (i + 1)) with (S (List.length l1)) by lia.
    rewrite skipn_app. replace (S (List.length l1) - List.length l1)%nat with 1%nat by lia.
    rewrite skipn_all2 by lia. reflexivity.
Qed.

Lemma get_middle {A : Type} (l1 l2 : list A) (x : A) :
  get (l1 ++ x :: l2) (len l1) = Some x.
Proof.
  unfold get, len. destruct (Z.ltb_spec (Z.of_nat (List.length l1)) 0); [lia|].
  rewrite Nat2Z.id. rewrite nth_error_app2 by lia. rewrite Nat.sub_diag. reflexivity.
Qed.

Lemma update_split {A : Type} (l1 l2 : list A) (x : A) (f : A -> A) :
  update (l1 ++ x :: l2) (len l1) f = l1 ++ f x :: l2.
Proof.
  unfold update. rewrite get_middle. unfold take, drop, len.
  rewrite Nat2Z.id. replace (Z.to_nat (Z.of_nat (List.length l1) + 1))
    with (S (List.length l1)) by lia.
  rewrite firstn_app, Nat.sub_diag, firstn_all. cbn [firstn]. rewrite app_nil_r.
  rewrite skipn_app. replace (S (List.length l1) - List.length l1)%nat with 1%nat by lia.
  rewrite skipn_all2 by lia. reflexivity.
Qed.

Lemma get_update_same {A : Type} (l : list A) (i : Z) (x : A) (f : A -> A) :
  get l i = Some x -> get (update l i f) i = Some (f x).
Proof.
  intros H. destruct (get_split l i x H) as (l1 & l2 & -> & <- & _).
  rewrite update_split. apply get_middle.
Qed.

Lemma update_update {A : Type} (l : list A) (i : Z) (x : A) (f g : A -> A) :
  get l i = Some x -> update (update l i f) i g = update l i (fun y => g (f y)).
Proof.
  intros H. destruct (get_split l i x H) as (l1 & l2 & -> & <- & _).
  rewrite !update_split. reflexivity.
Qed.

Lemma update_fixed {A : Type} (l : list A) (i : Z) (x : A) (f : A -> A) :
  get l i = Some x -> f x = x -> update l i f = l.
Proof.
  intros H E. destruct (get_split l i x H) as (l1 & l2 & -> & <- & _).
  rewrite update_split, E. reflexivity.
Qed.

(** ** Indent and outdent *)

(** C8. On a single selected item (indent 0 or 1) for which the increase
    is allowed (not a heading, new indent within [0,1], index not 0,
    preceding item not a heading), Indent(+1) raises the indent by one and
    Indent(-1) after it gives back the list as it was. *)
Theorem indent_then_outdent (s : State) (i : Z) (item prev : Item) :
  selectedIndices s = [i] ->
  get (items s) i = Some item ->
  indent item = 0 \/ indent item = 1 ->
  is_heading item = false ->
  0 <= indent item + 1 <= 1 ->
  i <> 0 ->
  get (items s) (i - 1) = Some prev ->
  is_heading prev = false ->
  exists s1 s2,
    changeIndent 1 s = Some s1
    /\ get (items s1) i = Some (set_indent (indent item + 1) item)
    /\ changeIndent (-1) s1 = Some s2
    /\ items s2 = items s
    /\ get (items s2) i = Some item.
Proof.
  intros Hsel Hget Hdata Hhead Hnew Hi Hprev Hph.
  assert (H0 : indent item = 0) by lia.
  set (s1 := set_items (update (items s) i (set_indent (indent item + 1))) s).
  assert (E1 : changeIndent 1 s = Some s1).
  { unfold changeIndent, IndentManager.changeIndent. rewrite Hsel.
    cbn [sort_asc fold_right insert_sorted IndentManager.changeIndent_loop].
    unfold bind. rewrite Hget. cbv beta iota zeta.
    unfold IndentManager.canChangeIndent, bind. rewrite Hhead, H0, Hprev, Hph.
    destruct (Z.eqb_spec i 0); [contradiction|]. unfold s1. rewrite H0. reflexivity. }
  assert (G1 : get (items s1) i = Some (set_indent (indent item + 1) item)).
  { unfold s1. cbn [items set_items]. apply get_update_same. assumption. }
  set (s2 := set_items (update (items s1) i (set_indent (indent item + 1 + -1))) s1).
  assert (E2 : changeIndent (-1) s1 = Some s2).
  { unfold changeIndent, IndentManager.changeIndent.
    replace (selectedIndices s1) with [i] by (symmetry; exact Hsel).
    cbn [sort_asc fold_right insert_sorted IndentManager.changeIndent_loop].
    unfold bind. rewrite G1. cbv beta iota zeta.
    unfold IndentManager.canChangeIndent, bind.
    replace (is_heading (set_indent (indent item + 1) item)) with (is_heading item)
      by reflexivity.
    rewrite Hhead. cbn [indent set_indent]. unfold s2. rewrite H0. reflexivity. }
  assert (I2 : items s2 = items s).
  { unfold s2, s1. cbn [items set_items]. rewrite (update_update _ _ _ _ _ Hget).
    apply (update_fixed _ _ _ _ Hget). destruct item. cbn in *. subst. reflexivity. }
  exists s1, s2. repeat split; try assumption. rewrite I2. assumption.
Qed.

(** ** Paste *)

Lemma run_length_bounds {A : Type} (p : A -> bool) (l : list A) :
  0 <= run_length p l <= len l.
Proof.
  unfold len. induction l as [|x l IH]; cbn [run_length List.length]; [lia|].
  destruct (p x); lia.
Qed.

Lemma len_drop {A : Type} (i : Z) (l : list A) :
  0 <= i <= len l -> len (drop i l) = len l - i.
Proof. unfold len, drop. intros H. rewrite length_skipn. lia. Qed.

Lemma findIndex_from_bounds {A : Type} (p : A -> bool) (l : list A) (i : Z) :
  findIndex_from p l i = -1 \/ i <= findIndex_from p l i < i + len l.
Proof.
  unfold len. revert i. induction l as [|x l IH]; intros i; cbn [findIndex_from List.length].
  - left. reflexivity.
  - destruct (p x); [right; lia|]. destruct (IH (i + 1)) as [E|E]; [left; assumption|right; lia].
Qed.

Lemma findIndex_bounds {A : Type} (p : A -> bool) (l : list A) :
  findIndex p l = -1 \/ 0 <= findIndex p l < len l.
Proof. unfold findIndex. apply (findIndex_from_bounds p l 0). Qed.

Lemma get_Some_bounds {A : Type} (l : list A) (i : Z) (x : A) :
  get l i = Some x -> 0 <= i < len l.
Proof.
  unfold get, len. destruct (Z.ltb_spec i 0); [discriminate|]. intros G.
  assert (Z.to_nat i < List.length l)%nat by (apply nth_error_Some; congruence). lia.
Qed.

Lemma get_in_range {A : Type} (l : list A) (i : Z) :
  0 <= i < len l -> exists x, get l i = Some x.
Proof.
  unfold get, len. intros H. destruct (Z.ltb_spec i 0); [lia|].
  destruct (nth_error l (Z.to_nat i)) eqn:E; [eauto|].
  apply nth_error_None in E. lia.
Qed.

Lemma getChildCount_bounds (l : list Item) (i : Z) :
  0 <= i < len l -> 0 <= ItemUtils.getChildCount l i <= len l - (i + 1).
Proof.
  intros H. unfold ItemUtils.getChildCount.
  destruct (_ || _); [lia|]. destruct (get l i); [|lia].
  destruct (_ || _); [lia|].
  pose proof (run_length_bounds ItemUtils.continuesBlock (drop (i + 1) l)) as B.
  rewrite len_drop in B by lia. lia.
Qed.

Lemma getChildCount_heading (l : list Item) (i : Z) (it : Item) :
  get l i = Some it -> is_heading it = true -> ItemUtils.getChildCount l i = 0.
Proof.
  intros G Hh. unfold ItemUtils.getChildCount. rewrite G, Hh.
  destruct (_ || _); [reflexivity|]. rewrite orb_true_r. reflexivity.
Qed.

Lemma hasParentAbove_total (l : list Item) (n : nat) :
  (n <= List.length l)%nat -> exists b, ItemUtils.hasParentAbove_scan l n = Some b.
Proof.
  induction n as [|n IH]; intros H; cbn [ItemUtils.hasParentAbove_scan]; [eauto|].
  destruct (nth_error l n) eqn:E; [|apply nth_error_None in E; lia].
  unfold bind. destruct (_ && _); [eauto|]. destruct (is_heading i); [eauto|].
  apply IH. lia.
Qed.

Lemma adjustOrphanedIndent_total (toInsert target : list Item) (pos : Z) :
  0 <= pos <= len target ->
  exists r, ItemUtils.adjustOrphanedIndent toInsert target pos = Some r
            /\ List.length r = List.length toInsert.
Proof.
  intros H. unfold ItemUtils.adjustOrphanedIndent.
  destruct toInsert as [|first rest]; [eauto|].
  destruct (negb _); [eauto|]. destruct (pos =? 0); [eauto|].
  unfold ItemUtils.hasParentAbove.
  destruct (hasParentAbove_total target (Z.to_nat pos)) as (b & E).
  { unfold len in H. lia. }
  rewrite E. cbn [bind]. destruct b; eauto.
Qed.

Lemma deepCopyItems_new_spec (l : list Item) :
  forall s,
    let r := ItemUtils.deepCopyItems_new l s in
    Forall2 clone_of l (fst r)
    /\ items (snd r) = items s
    /\ stacks_view (snd r) = stacks_view s
    /\ activeIndex (snd r) = activeIndex s
    /\ clipboard (snd r) = clipboard s.
Proof.
  induction l as [|x l IH]; intros s; cbn [ItemUtils.deepCopyItems_new].
  - cbn. auto.
  - unfold ItemUtils.generateId.
    specialize (IH (set_nextId (S (nextId s)) s)).
    destruct (ItemUtils.deepCopyItems_new l (set_nextId (S (nextId s)) s)) as [copies s2].
    cbn [fst snd] in *. destruct IH as (F & I & V & Ac & C).
    repeat split; try assumption.
    constructor; [|assumption]. unfold clone_of. reflexivity.
Qed.

Lemma str_eqb_eq (a b : str) : str_eqb a b = true <-> a = b.
Proof.
  revert b. induction a as [|x a IH]; intros [|y b]; cbn; split; intros H;
    try discriminate; try reflexivity.
  - apply andb_prop in H. destruct H as [H1 H2].
    apply Ascii.eqb_eq in H1. apply IH in H2. subst. reflexivity.
  - injection H as -> ->. rewrite Ascii.eqb_refl. cbn. apply IH. reflexivity.
Qed.

Lemma get_skip {A : Type} (l : list A) (i j : Z) :
  0 <= i -> 0 <= j -> get (drop i l) j = get l (i + j).
Proof.
  intros Hi Hj. unfold get, drop.
  destruct (Z.ltb_spec j 0); [lia|]. destruct (Z.ltb_spec (i + j) 0); [lia|].
  rewrite nth_error_skipn. f_equal. lia.
Qed.

Lemma get_cons_succ {A : Type} (x : A) (l : list A) (j : Z) :
  0 <= j -> get (x :: l) (j + 1) = get l j.
Proof.
  intros Hj. unfold get.
  destruct (Z.ltb_spec (j + 1) 0); [lia|]. destruct (Z.ltb_spec j 0); [lia|].
  replace (Z.to_nat (j + 1)) with (S (Z.to_nat j)) by lia. reflexivity.
Qed.

Lemma get_negative {A : Type} (l : list A) (j : Z) : j < 0 -> get l j = None.
Proof. intros H. unfold get. destruct (Z.ltb_spec j 0); [reflexivity|lia]. Qed.

(** The counting loops: every counted item passes the test, and the first
    item that is not counted, when there is one, fails it. *)
Lemma run_length_ends {A : Type} (p : A -> bool) (l : list A) :
  (forall j x, 0 <= j < run_length p l -> get l j = Some x -> p x = true)
  /\ (forall x, get l (run_length p l) = Some x -> p x = false).
Proof.
  induction l as [|y l (IH1 & IH2)]; cbn [run_length].
  - split; [intros j x Hj; lia|]. intros x G. discriminate G.
  - pose proof (run_length_bounds p l) as B. destruct (p y) eqn:Py.
    + split.
      * intros j x Hj G. destruct (Z.eq_dec j 0) as [->|N].
        -- cbn in G. injection G as <-. exact Py.
        -- replace j with (j - 1 + 1) in G by lia. rewrite get_cons_succ in G by lia.
           apply (IH1 (j - 1)); [lia|exact G].
      * intros x G. replace (1 + run_length p l) with (run_length p l + 1) in G by lia.
        rewrite get_cons_succ in G by lia. apply IH2. exact G.
    + split; [intros j x Hj; lia|]. intros x G. cbn in G. injection G as <-. exact Py.
Qed.

(** [findIndex]: the first index whose item passes the test, or -1. *)
Lemma findIndex_from_first {A : Type} (p : A -> bool) (l : list A) :
  forall base,
    let r := findIndex_from p l base in
    (r = -1 /\ forall j x, get l j = Some x -> p x = false)
    \/ (base <= r < base + len l
        /\ (exists x, get l (r - base) = Some x /\ p x = true)
        /\ forall j x, j < r - base -> get l j = Some x -> p x = false).
Proof.
  induction l as [|y l IH]; intros base; cbn [findIndex_from].
  - left. split; [reflexivity|]. intros j x G. unfold get in G.
    destruct (j <? 0); [discriminate|]. destruct (Z.to_nat j); discriminate.
  - destruct (p y) eqn:Py.
    + right. unfold len. cbn [List.length]. split; [lia|]. rewrite Z.sub_diag. split.
      * exists y. split; [reflexivity|exact Py].
      * intros j x Hj G. rewrite get_negative in G by lia. discriminate.
    + destruct (IH (base + 1)) as [(E & F)|(B & (x & Gx & Px) & Hbefore)].
      * left. split; [exact E|]. intros j x G.
        destruct (Z_lt_le_dec j 0) as [Hn|Hn]; [rewrite get_negative in G by lia; discriminate|].
        destruct (Z.eq_dec j 0) as [->|N]; [cbn in G; injection G as <-; exact Py|].
        replace j with (j - 1 + 1) in G by lia. rewrite get_cons_succ in G by lia.
        eapply F. exact G.
      * right. unfold len in *. cbn [List.length]. split; [lia|]. split.
        -- exists x. split; [|exact Px].
           replace (findIndex_from p l (base + 1) - base)
             with (findIndex_from p l (base + 1) - (base + 1) + 1) by lia.
           rewrite get_cons_succ by lia. exact Gx.
        -- intros j z Hj G.
           destruct (Z_lt_le_dec j 0) as [Hn|Hn];
             [rewrite get_negative in G by lia; discriminate|].
           destruct (Z.eq_dec j 0) as [->|N]; [cbn in G; injection G as <-; exact Py|].
           replace j with (j - 1 + 1) in G by lia. rewrite get_cons_succ in G by lia.
           eapply (Hbefore (j - 1)); [lia|exact G].
Qed.

Lemma findIndex_first {A : Type} (p : A -> bool) (l : list A) :
  (findIndex p l = -1 /\ forall j x, get l j = Some x -> p x = false)
  \/ (0 <= findIndex p l < len l
      /\ (exists x, get l (findIndex p l) = Some x /\ p x = true)
      /\ forall j x, j < findIndex p l -> get l j = Some x -> p x = false).
Proof.
  unfold findIndex. destruct (findIndex_from_first p l 0) as [H|(B & (x & G & P) & F)].
  - left. exact H.
  - right. rewrite Z.sub_0_r in G, F. split; [lia|]. split; [eauto|exact F].
Qed.

Lemma isArchive_sentinel (it : Item) :
  ItemUtils.isArchive it = true <-> is_archive_sentinel it.
Proof.
  unfold ItemUtils.isArchive, is_archive_sentinel, is_heading.
  rewrite andb_true_iff, str_eqb_eq. destruct (type it); cbn; intuition congruence.
Qed.

(** [findArchiveIndex] finds the Archive heading when the list has one. *)
Lemma findArchiveIndex_spec (l : list Item) :
  (ItemUtils.findArchiveIndex l = -1 /\ no_archive_heading l)
  \/ (0 <= ItemUtils.findArchiveIndex l < len l
      /\ archive_heading_at l (ItemUtils.findArchiveIndex l)).
Proof.
  unfold ItemUtils.findArchiveIndex.
  destruct (findIndex_first ItemUtils.isArchive l) as [(E & F)|(B & (x & G & P) & F)].
  - left. split; [exact E|]. intros j it G S. apply isArchive_sentinel in S.
    rewrite (F j it G) in S. discriminate.
  - right. split; [exact B|]. split.
    + exists x. split; [exact G|]. apply isArchive_sentinel. exact P.
    + intros j it Hj Gj S. apply isArchive_sentinel in S.
      rewrite (F j it Hj Gj) in S. discriminate.
Qed.

Lemma continuesBlock_child (it : Item) :
  indent_ok it -> (ItemUtils.continuesBlock it = true <-> is_child it).
Proof.
  unfold ItemUtils.continuesBlock, is_child, indent_ok, is_heading,
    Constants.INDENT_PARENT.
  intros [E|E]; rewrite E; destruct (type it); cbn; intuition congruence.
Qed.

Lemma get_model (l : list Item) (j : Z) (it : Item) :
  Forall indent_ok l -> get l j = Some it -> indent_ok it.
Proof.
  intros F G. unfold get in G. destruct (j <? 0); [discriminate|].
  apply nth_error_In in G. rewrite Forall_forall in F. auto.
Qed.

(** [getChildCount] counts up to the end of the parent's block. *)
Lemma getChildCount_block (l : list Item) (a : Z) (active : Item) :
  Forall indent_ok l ->
  get l a = Some active -> is_parent active ->
  after_block l a (a + 1 + ItemUtils.getChildCount l a).
Proof.
  intros M G (Ht & Hi). pose proof (get_Some_bounds _ _ _ G) as B.
  pose proof (getChildCount_bounds l a B) as C.
  unfold ItemUtils.getChildCount in *. rewrite G in *.
  destruct (Z.ltb_spec a 0); [lia|]. destruct (Z.geb_spec a (len l)); [lia|].
  cbn [orb] in *. unfold is_heading, Constants.INDENT_PARENT in *. rewrite Ht, Hi in *.
  cbn [ItemType_eqb Z.eqb negb orb] in *.
  destruct (run_length_ends ItemUtils.continuesBlock (drop (a + 1) l)) as (R1 & R2).
  set (c := run_length ItemUtils.continuesBlock (drop (a + 1) l)) in *.
  split; [lia|]. split.
  - intros j Hj. destruct (get_in_range l j) as (it & Gj); [lia|].
    exists it. split; [exact Gj|].
    apply continuesBlock_child; [eapply get_model; eassumption|].
    apply (R1 (j - (a + 1))); [lia|]. rewrite get_skip by lia. rewrite <- Gj. f_equal. lia.
  - intros it Gp Hc.
    apply continuesBlock_child in Hc; [|eapply get_model; eassumption].
    rewrite (R2 it) in Hc; [discriminate|].
    rewrite get_skip by lia. rewrite <- Gp. f_equal.
Qed.

Lemma after_block_unique (l : list Item) (a p p' : Z) :
  after_block l a p -> after_block l a p' -> p = p'.
Proof.
  intros (B & In & End) (B' & In' & End').
  destruct (Z.lt_trichotomy p p') as [L|[E|L]]; [|exact E|].
  - destruct (In' p) as (it & G & C); [lia|]. exfalso. exact (End it G C).
  - destruct (In p') as (it & G & C); [lia|]. exfalso. exact (End' it G C).
Qed.

Lemma paste_target_unique (l : list Item) (a q q' : Z) :
  paste_target l a q -> paste_target l a q' -> q = q'.
Proof.
  unfold paste_target. destruct (a <? 0); [congruence|].
  intros (x & G & H) (x' & G' & H'). rewrite G in G'. injection G' as <-.
  destruct H as [(P & A)|(P & ->)]; destruct H' as [(P' & A')|(P' & ->)];
    try contradiction; [|reflexivity].
  eapply after_block_unique; eassumption.
Qed.

Lemma archive_heading_unique (l : list Item) (k k' : Z) :
  archive_heading_at l k -> archive_heading_at l k' -> k = k'.
Proof.
  intros ((x & G & S) & F) ((x' & G' & S') & F').
  destruct (Z.lt_trichotomy k k') as [L|[E|L]]; [|exact E|].
  - exfalso. exact (F' k x L G S).
  - exfalso. exact (F k' x' L G' S').
Qed.

(** The words of the specification name one position. *)
Lemma spec_paste_position_unique (l : list Item) (a p p' : Z) :
  spec_paste_position l a p -> spec_paste_position l a p' -> p = p'.
Proof.
  intros (q & T & H) (q' & T' & H').
  rewrite (paste_target_unique l a q' q T' T) in H'.
  destruct H as [(N & ->)|(k & K & ->)]; destruct H' as [(N' & ->)|(k' & K' & ->)].
  - reflexivity.
  - destruct K' as ((x & G & S) & _). exfalso. exact (N k' x G S).
  - destruct K as ((x & G & S) & _). exfalso. exact (N' k x G S).
  - rewrite (archive_heading_unique l k k' K K'). reflexivity.
Qed.

(** The index [pasteItems] computes is the position the specification
    describes. *)
Lemma paste_insertIndex_spec (s : State) :
  activeIndex s < len (items s) ->
  Forall indent_ok (items s) ->
  exists p,
    paste_insertIndex s = Some p
    /\ 0 <= p <= len (items s)
    /\ spec_paste_position (items s) (activeIndex s) p.
Proof.
  intros Hact M. unfold paste_insertIndex, bind.
  pose proof (len_nonneg (items s)) as Hn.
  assert (T : exists q, paste_rawIndex s = Some q
                        /\ 0 <= q <= len (items s)
                        /\ paste_target (items s) (activeIndex s) q).
  { unfold paste_rawIndex, paste_target, bind.
    destruct (Z.geb_spec (activeIndex s) 0) as [Hge|Hlt];
      destruct (Z.ltb_spec (activeIndex s) 0) as [Hl|Hl]; try lia.
    - destruct (get_in_range (items s) (activeIndex s)) as (it & G); [lia|].
      rewrite G. unfold Constants.INDENT_PARENT.
      pose proof (getChildCount_bounds (items s) (activeIndex s) ltac:(lia)) as HC.
      destruct (Z.eqb_spec (indent it) 0) as [E0|E0].
      + destruct (is_heading it) eqn:Hh.
        * rewrite (getChildCount_heading _ _ _ G Hh).
          exists (activeIndex s + 1). split; [f_equal; lia|]. split; [lia|].
          exists it. split; [reflexivity|]. right. split; [|reflexivity].
          intros (Ht & _). unfold is_heading in Hh. rewrite Ht in Hh. discriminate.
        * assert (P : is_parent it).
          { split; [|exact E0]. unfold is_heading in Hh.
            destruct (type it); [reflexivity|discriminate]. }
          eexists. split; [reflexivity|]. split; [lia|].
          exists it. split; [reflexivity|]. left. split; [exact P|].
          apply (getChildCount_block (items s) (activeIndex s) it M G P).
      + exists (activeIndex s + 1). split; [reflexivity|]. split; [lia|].
        exists it. split; [reflexivity|]. right. split; [|reflexivity].
        intros (_ & Hi). contradiction.
    - exists (len (items s)). split; [reflexivity|]. split; [lia|]. reflexivity. }
  destruct T as (q & Eq & Bq & Tq). rewrite Eq.
  destruct (findArchiveIndex_spec (items s)) as [(E & N)|(B & K)].
  - rewrite E. cbn [Z.eqb negb andb]. exists q. split; [reflexivity|]. split; [lia|].
    exists q. split; [exact Tq|]. left. split; [exact N|reflexivity].
  - set (k := ItemUtils.findArchiveIndex (items s)) in *.
    destruct (Z.eqb_spec k (-1)) as [E|_]; [lia|]. cbn [negb andb].
    destruct (Z.gtb_spec q k) as [Hgt|Hle].
    + exists k. split; [reflexivity|]. split; [lia|].
      exists q. split; [exact Tq|]. right. exists k. split; [exact K|lia].
    + exists q. split; [reflexivity|]. split; [lia|].
      exists q. split; [exact Tq|]. right. exists k. split; [exact K|lia].
Qed.

(** C6. With a non-empty clipboard and a list whose indents are 0 or 1,
    Paste inserts clones of the clipboard (new ids, the first one repaired
    when it would be an orphan) at the one position the specification
    describes: after the block of the active item when it is a parent, right
    after the active item otherwise, at the end of the list when no item is
    active, and at the Archive heading instead when that position lies after
    it.  With clipboard [todo X], items [heading H] and no active item the
    result is [heading H; todo X]. *)
Theorem paste_position :
  (forall s,
      len (clipboard s) > 0 ->
      activeIndex s < len (items s) ->
      Forall indent_ok (items s) ->
      exists p copies pasted s',
        pasteItems s = Some s'
        /\ spec_paste_position (items s) (activeIndex s) p
        /\ (forall p', spec_paste_position (items s) (activeIndex s) p' -> p' = p)
        /\ Forall2 clone_of (clipboard s) copies
        /\ ItemUtils.adjustOrphanedIndent copies (items s) p = Some pasted
        /\ items s' = take p (items s) ++ pasted ++ drop p (items s))
  /\ (forall s idH idX cH cX nH nX,
         items s = [mkItem idH heading (lit "H") 0 cH nH] ->
         clipboard s = [mkItem idX todo (lit "X") 0 cX nX] ->
         activeIndex s = -1 ->
         exists s',
           pasteItems s = Some s'
           /\ items s' = [mkItem idH heading (lit "H") 0 cH nH;
                          mkItem (nextId s) todo (lit "X") 0 cX nX]).
Proof.
  split.
  - intros s Hclip Hact M. unfold pasteItems.
    destruct (Z.eqb_spec (len (clipboard s)) 0) as [E|_]; [lia|]. cbv zeta.
    destruct (save_fields s) as (Ei & _ & _ & Ea & Ec & _).
    assert (Hact' : activeIndex (saveState s) < len (items (saveState s)))
      by (rewrite Ei, Ea; assumption).
    assert (M' : Forall indent_ok (items (saveState s))) by (rewrite Ei; assumption).
    destruct (paste_insertIndex_spec (saveState s) Hact' M') as (p & Epos & Hpos & Sp).
    rewrite Ei in Hpos, Sp. rewrite Ea in Sp.
    rewrite Epos. cbn [bind]. unfold ItemUtils.deepCopyItems.
    pose proof (deepCopyItems_new_spec (clipboard (saveState s)) (saveState s)) as D.
    destruct (ItemUtils.deepCopyItems_new (clipboard (saveState s)) (saveState s))
      as [copies s2].
    cbn [fst snd] in D. destruct D as (F & I2 & _).
    rewrite Ec in F. rewrite Ei in I2.
    destruct (adjustOrphanedIndent_total copies (items s) p Hpos) as (pasted & EA & _).
    rewrite I2, EA. cbn [bind].
    exists p, copies, pasted. eexists. split; [reflexivity|].
    split; [exact Sp|]. split.
    { intros p' Sp'. eapply spec_paste_position_unique; eassumption. }
    split; [assumption|]. split; [exact EA|].
    unfold insert_and_select. cbv zeta. rewrite selectItem1_items. cbn [items set_items
      set_selectedIndices set_anchorIndex set_activeIndex]. rewrite I2. reflexivity.
  - intros s idH idX cH cX nH nX Hi Hc Ha.
    destruct (isUndoingRedoing s) eqn:Hu; destruct s; cbn in Hi, Hc, Ha, Hu; subst;
      unfold pasteItems, saveState, HistoryManager.save; cbv;
      eexists; split; reflexivity.
Qed.

(** ** A new item abandoned with an empty title *)

Lemma splice_insert_one {A : Type} (l : list A) (i : Z) (x : A) :
  exists l1 l2, l = l1 ++ l2 /\ splice_insert l i [x] = l1 ++ x :: l2.
Proof.
  exists (take i l), (drop i l). split; [|reflexivity].
  unfold take, drop. symmetry. apply firstn_skipn.
Qed.

Lemma splice_remove_middle {A : Type} (l1 l2 : list A) (x : A) :
  splice_remove (l1 ++ x :: l2) (len l1) 1 = l1 ++ l2.
Proof.
  unfold splice_remove, take, drop, len. rewrite Nat2Z.id.
  rewrite firstn_app, Nat.sub_diag, firstn_all. cbn [firstn]. rewrite app_nil_r.
  replace (Z.to_nat (Z.of_nat (List.length l1) + Z.max 0 1)) with (S (List.length l1)) by lia.
  rewrite skipn_app. replace (S (List.length l1) - List.length l1)%nat with 1%nat by lia.
  rewrite skipn_all2 by lia. reflexivity.
Qed.

Lemma findIndex_from_fresh (p : Item -> bool) (l1 l2 : list Item) (x : Item) (i : Z) :
  Forall (fun y => p y = false) l1 -> p x = true ->
  findIndex_from p (l1 ++ x :: l2) i = i + len l1.
Proof.
  unfold len. intros F Hx. revert i. induction F as [|y l1 Hy F IH]; intros i; cbn.
  - rewrite Hx. lia.
  - rewrite Hy, IH. lia.
Qed.

Lemma deleteSingle_spec (index : Z) (s : State) (l1 l2 : list Item) (x : Item) :
  items s = l1 ++ x :: l2 -> index = len l1 ->
  items (DeleteManager.deleteSingle index s) = l1 ++ l2
  /\ stacks_view (DeleteManager.deleteSingle index s) = stacks_view s
  /\ editingId (DeleteManager.deleteSingle index s) = editingId s
  /\ isNewItem (DeleteManager.deleteSingle index s) = isNewItem s.
Proof.
  intros Hi ->. unfold DeleteManager.deleteSingle. rewrite Hi, get_middle. cbv zeta.
  unfold selectItem1, DeleteManager.resetSelectionAfterDelete. cbv zeta.
  cbn [items set_items set_selectedIndices set_activeIndex set_anchorIndex].
  rewrite splice_remove_middle.
  break_match_goal; cbn; auto.
Qed.

Lemma push_capped_below (h : list Snapshot) (x : Snapshot) :
  len h < Constants.MAX_HISTORY_SIZE -> HistoryManager.push_capped h x = h ++ [x].
Proof.
  unfold HistoryManager.push_capped, Constants.MAX_HISTORY_SIZE. intros H.
  rewrite len_app. unfold len at 2. cbn.
  destruct (Z.gtb_spec (len h + 1) 50); [lia|reflexivity].
Qed.

Lemma addItem_created ty insertIndex indent_ s s1 :
  isUndoingRedoing s = false ->
  addItem ty insertIndex indent_ s = Some s1 ->
  len (items s1) = len (items s) + 1 ->
  exists i newItem,
    id newItem = nextId s
    /\ items s1 = splice_insert (items s) i [newItem]
    /\ editingId s1 = Some (nextId s)
    /\ isNewItem s1 = true
    /\ history s1 = HistoryManager.push_capped (history s) (HistoryManager.snapshot s)
    /\ isUndoingRedoing s1 = false.
Proof.
  intros Hflag H Hlen. unfold addItem, saveState, HistoryManager.save in H.
  rewrite Hflag in H. cbv zeta in H. unfold ItemUtils.generateId, bind in H.
  cbn [nextId set_nextId set_future set_history items activeIndex] in H.
  match type of H with
  | match ?m with Some _ => _ | None => _ end = _ => destruct m as [i|]; [|discriminate]
  end.
  match type of H with
  | (if ?c then _ else _) = _ => destruct c
  end.
  - injection H as <-. cbn in Hlen. lia.
  - injection H as <-.
    match goal with
    | |- context [splice_insert (items s) i [?x]] => set (newItem := x)
    end.
    exists i, newItem. unfold startEditing.
    cbn [items editingId isNewItem history isUndoingRedoing set_isNewItem set_editingId].
    pose proof (selectItem1_view i) as V. unfold stacks_view in V.
    match goal with
    | |- context [selectItem1 i ?t] =>
      specialize (V t); injection V as _ Vh _ Vu; rewrite Vh, Vu, selectItem1_items
    end.
    cbn. rewrite Hflag. unfold newItem. destruct ty; repeat split; reflexivity.
Qed.

Lemma addItem_view ty insertIndex indent_ s s' :
  addItem ty insertIndex indent_ s = Some s' ->
  stacks_view s' = stacks_view (saveState s).
Proof.
  intros H. unfold addItem, ItemUtils.generateId, bind in H. cbv zeta in H.
  match type of H with
  | match ?m with Some _ => _ | None => _ end = _ => destruct m; [|discriminate]
  end.
  match type of H with
  | (if ?c then _ else _) = _ => destruct c
  end; injection H as <-; [reflexivity|].
  unfold startEditing, stacks_view.
  cbn [archivedItems history future isUndoingRedoing set_isNewItem set_editingId].
  match goal with
  | |- context [selectItem1 ?i ?t] =>
    pose proof (selectItem1_view i t) as V; unfold stacks_view in V; rewrite V
  end.
  reflexivity.
Qed.

(** The archive list after [addItem] is the one before. *)
Lemma addItem_archived ty insertIndex indent_ s s1 :
  addItem ty insertIndex indent_ s = Some s1 -> archivedItems s1 = archivedItems s.
Proof.
  intros H. apply addItem_view in H. unfold stacks_view in H.
  injection H as Ha _ _ _. rewrite Ha. apply save_fields.
Qed.

(** Deleting the item under edit does not depend on the title the
    [onEnter] callback has stored in it. *)
Lemma deleteSingle_retitled (t : State) (l1 l2 : list Item) (x : Item) (v : str) :
  items t = l1 ++ x :: l2 ->
  DeleteManager.deleteSingle (len l1)
    (set_items (update (items t) (len l1) (set_title v)) t)
  = DeleteManager.deleteSingle (len l1) t.
Proof.
  intros Hi. rewrite Hi, update_split. unfold DeleteManager.deleteSingle.
  cbn [items set_items]. rewrite Hi, !get_middle. cbv zeta.
  rewrite !splice_remove_middle. reflexivity.
Qed.

Lemma deleteSingle_out_silent (index : Z) (s : State) :
  deleteSingle_out index false s = [].
Proof. unfold deleteSingle_out. destruct (get (items s) index); reflexivity. Qed.

(** The new item under edit, committed with a blank input by leaving the
    input: [_cancelNewItem] runs, and nothing is sent out. *)
Lemma blank_commit_cancels (value : str) (t : State) (l1 l2 : list Item) (x : Item) :
  isUndoingRedoing t = false ->
  editingId t = Some (id x) ->
  isNewItem t = true ->
  items t = l1 ++ x :: l2 ->
  Forall (fun y => Nat.eqb (id y) (id x) = false) l1 ->
  trim value = [] ->
  stopEditing true value t = Some (EditingManager._cancelNewItem (len l1) t)
  /\ stopEditing_out true value t = Some [].
Proof.
  intros Hflag Hed Hnew Hi Hfresh Hval.
  assert (Hidx : findIndex (fun y => Nat.eqb (id y) (id x)) (items t) = len l1).
  { rewrite Hi. unfold findIndex. rewrite findIndex_from_fresh; [lia|assumption|].
    apply Nat.eqb_refl. }
  pose proof (len_nonneg l1).
  unfold stopEditing, stopEditing_out. rewrite Hflag, Hed, Hidx, Hval.
  destruct (Z.eqb_spec (len l1) (-1)); [lia|].
  unfold EditingManager.saveEdit, saveEdit_out. rewrite Hnew. cbn [str_eqb andb].
  unfold _cancelNewItem_out. rewrite deleteSingle_out_silent. auto.
Qed.

(** C9, as the code has it.  A new item committed with a blank title, with
    Enter or by leaving the input, is deleted again, which gives back the
    active list; nothing is sent out, neither the message that makes the
    host write the file nor a toast; [popLast] drops the newest entry of the
    past stack, which gives back the past stack of before the creation when
    that stack held fewer than 50 entries and leaves it without its oldest
    entry when it held 50; no title is being edited afterwards. *)
Theorem abandoned_new_item_restores
        (ty : ItemType) (insertIndex indent_ : option Z) (value : str) (s s1 : State) :
  isUndoingRedoing s = false ->
  ids_below_counter s ->
  addItem ty insertIndex indent_ s = Some s1 ->
  len (items s1) = len (items s) + 1 ->
  trim value = [] ->
  exists s2,
    handle (EditEnter value) s1 = Some s2
    /\ handle (EditBlur value) s1 = Some s2
    /\ editEnter_out value s1 = Some []
    /\ stopEditing_out true value s1 = Some []
    /\ items s2 = items s
    /\ archivedItems s2 = archivedItems s
    /\ editingId s2 = None
    /\ isNewItem s2 = false
    /\ history s2 = history (HistoryManager.popLast s1)
    /\ history s2 = removelast (history s1)
    /\ history s2 = (if len (history s) <? Constants.MAX_HISTORY_SIZE
                     then history s else tl (history s)).
Proof.
  intros Hflag Hids Hadd Hlen Hval.
  destruct (addItem_created _ _ _ _ _ Hflag Hadd Hlen)
    as (i & newItem & Hid & Hitems & Hed & Hnew & Hhist & Hflag1).
  pose proof (addItem_archived _ _ _ _ _ Hadd) as Harch.
  destruct (splice_insert_one (items s) i newItem) as (l1 & l2 & El & Es).
  rewrite Es in Hitems. rewrite <- Hid in Hed.
  assert (Hfresh : Forall (fun y => Nat.eqb (id y) (id newItem) = false) l1).
  { unfold ids_below_counter in Hids. rewrite El in Hids.
    apply Forall_app in Hids. destruct Hids as [F _].
    eapply Forall_impl; [|exact F]. cbn. intros y Hy. apply Nat.eqb_neq. lia. }
  assert (Hidx : index_of_id (items s1) (id newItem) = len l1).
  { rewrite Hitems. unfold index_of_id, findIndex.
    rewrite findIndex_from_fresh; [lia|assumption|]. apply Nat.eqb_refl. }
  destruct (blank_commit_cancels value s1 l1 l2 newItem Hflag1 Hed Hnew Hitems Hfresh Hval)
    as (Eblur & Oblur).
  set (s1e := set_items (update (items s1) (len l1) (set_title value)) s1).
  assert (Hitems_e : items s1e = l1 ++ set_title value newItem :: l2).
  { unfold s1e. cbn [items set_items]. rewrite Hitems. apply update_split. }
  destruct (blank_commit_cancels value s1e l1 l2 (set_title value newItem)
              Hflag1 Hed Hnew Hitems_e Hfresh Hval) as (Eenter & Oenter).
  assert (Esame : EditingManager._cancelNewItem (len l1) s1e
                  = EditingManager._cancelNewItem (len l1) s1).
  { unfold EditingManager._cancelNewItem, deleteItem, s1e.
    rewrite (deleteSingle_retitled s1 l1 l2 newItem value Hitems). reflexivity. }
  exists (EditingManager._cancelNewItem (len l1) s1).
  split. { cbn [handle]. unfold editEnter. rewrite Hed, Hidx. fold s1e.
           rewrite Eenter, Esame. reflexivity. }
  split. { exact Eblur. }
  split. { unfold editEnter_out. rewrite Hed, Hidx. fold s1e. exact Oenter. }
  split. { exact Oblur. }
  unfold EditingManager._cancelNewItem, deleteItem.
  destruct (deleteSingle_spec (len l1) s1 l1 l2 newItem Hitems eq_refl) as (Di & Dv & _).
  unfold stacks_view in Dv. injection Dv as Da Dh _ _.
  set (D := DeleteManager.deleteSingle (len l1) s1) in *.
  assert (Hnewest : history s1
                    = (if len (history s) <? Constants.MAX_HISTORY_SIZE
                       then history s else tl (history s))
                      ++ [HistoryManager.snapshot s]).
  { rewrite Hhist. apply push_capped_newest. }
  assert (Epop : forall t, history t = history s1 ->
                           history (HistoryManager.popLast t)
                           = (if len (history s) <? Constants.MAX_HISTORY_SIZE
                              then history s else tl (history s))).
  { intros t Ht. unfold HistoryManager.popLast. rewrite Ht, Hnewest, len_app.
    change (len [HistoryManager.snapshot s]) with 1.
    pose proof (len_nonneg (if len (history s) <? Constants.MAX_HISTORY_SIZE
                            then history s else tl (history s))).
    destruct (Z.gtb_spec (len (if len (history s) <? Constants.MAX_HISTORY_SIZE
                               then history s else tl (history s)) + 1) 0); [|lia].
    cbn [history set_history]. apply removelast_last. }
  unfold EditingManager._resetEditingState.
  cbn [items archivedItems editingId isNewItem history set_isNewItem set_editingId].
  assert (Ei : items (HistoryManager.popLast D) = items s).
  { unfold HistoryManager.popLast. destruct (_ >? _); cbn [items set_history];
      rewrite Di, <- El; reflexivity. }
  assert (Ea : archivedItems (HistoryManager.popLast D) = archivedItems s).
  { unfold HistoryManager.popLast. destruct (_ >? _); cbn [archivedItems set_history];
      rewrite Da; assumption. }
  split; [assumption|]. split; [assumption|]. split; [reflexivity|]. split; [reflexivity|].
  rewrite (Epop D Dh), (Epop s1 eq_refl).
  split; [reflexivity|]. split; [|reflexivity].
  rewrite Hnewest, removelast_last. reflexivity.
Qed.

(** C9 as stated fails when the past stack is full: the snapshot pushed
    by the creation evicts the oldest entry, and [popLast] then leaves 49
    entries. *)
Lemma abandoned_new_item_at_full_history :
  exists s s1 s2,
    run full_history_trace initialState = Some s
    /\ handle ClickAddTodo s = Some s1
    /\ handle (EditEnter []) s1 = Some s2
    /\ items s2 = items s
    /\ len (history s) = 50
    /\ len (history s2) = 49
    /\ history s2 <> history s.
Proof.
  destruct (run full_history_trace initialState) as [s|] eqn:E;
    [|vm_compute in E; discriminate].
  destruct (handle ClickAddTodo s) as [s1|] eqn:E1;
    [|vm_compute in E; injection E as <-; vm_compute in E1; discriminate].
  destruct (handle (EditEnter []) s1) as [s2|] eqn:E2;
    [|vm_compute in E; injection E as <-; vm_compute in E1; injection E1 as <-;
      vm_compute in E2; discriminate].
  exists s, s1, s2.
  vm_compute in E. injection E as <-.
  vm_compute in E1. injection E1 as <-.
  vm_compute in E2. injection E2 as <-.
  repeat split; try reflexivity.
  intros H. apply (f_equal (@List.length Snapshot)) in H. vm_compute in H. discriminate.
Qed.

(** ** Archived items are checked *)

Lemma checked_of_view (s s' : State) :
  stacks_view s' = stacks_view s -> archive_checked s -> archive_checked s'.
Proof.
  unfold stacks_view, archive_checked. intros V. injection V as -> -> -> _. auto.
Qed.

Lemma Forall_tl {A : Type} (P : A -> Prop) (l : list A) : Forall P l -> Forall P (tl l).
Proof. intros H. destruct H; cbn; auto. Qed.

Lemma Forall_removelast {A : Type} (P : A -> Prop) (l : list A) :
  Forall P l -> Forall P (removelast l).
Proof.
  induction l as [|x l IH]; intros H; [constructor|].
  inversion H; subst. cbn. destruct l; [constructor|]. constructor; auto.
Qed.

Lemma Forall_take {A : Type} (P : A -> Prop) (i : Z) (l : list A) :
  Forall P l -> Forall P (take i l).
Proof.
  unfold take. generalize (Z.to_nat i). intros n H. revert n.
  induction H; intros [|n]; cbn; auto.
Qed.

Lemma Forall_drop {A : Type} (P : A -> Prop) (i : Z) (l : list A) :
  Forall P l -> Forall P (drop i l).
Proof.
  unfold drop. generalize (Z.to_nat i). intros n H. revert n.
  induction H; intros [|n]; cbn; auto.
Qed.

Lemma Forall_splice_remove {A : Type} (P : A -> Prop) (l : list A) (i n : Z) :
  Forall P l -> Forall P (splice_remove l i n).
Proof.
  intros H. unfold splice_remove. apply Forall_app. split.
  - apply Forall_take. assumption.
  - apply Forall_drop. assumption.
Qed.

Lemma save_checked (s : State) : archive_checked s -> archive_checked (saveState s).
Proof.
  unfold archive_checked, saveState, HistoryManager.save. intros (A & H & F).
  destruct (isUndoingRedoing s); [auto|]. cbn. repeat split; auto.
  unfold HistoryManager.push_capped.
  assert (Forall snapshot_checked (history s ++ [HistoryManager.snapshot s])).
  { apply Forall_app. split; [assumption|]. constructor; [exact A|constructor]. }
  destruct (_ >? _); [apply Forall_tl|]; assumption.
Qed.

Lemma popLast_checked (s : State) :
  archive_checked s -> archive_checked (HistoryManager.popLast s).
Proof.
  unfold archive_checked, HistoryManager.popLast. intros (A & H & F).
  destruct (_ >? _); cbn; repeat split; auto. apply Forall_removelast. assumption.
Qed.

Lemma Forall_rev_inv {A : Type} (P : A -> Prop) (l : list A) (x : A) (r : list A) :
  Forall P l -> rev l = x :: r -> P x /\ Forall P (rev r).
Proof.
  intros H E. apply Forall_rev in H. rewrite E in H. inversion H; subst.
  split; [assumption|]. apply Forall_rev. assumption.
Qed.

Lemma undo_checked (s : State) : archive_checked s -> archive_checked (undo s).
Proof.
  unfold undo, HistoryManager.undo. intros C.
  destruct (isUndoingRedoing s); [exact C|].
  destruct (rev (history s)) as [|prev older] eqn:E; [exact C|]. cbn [snd].
  destruct C as (A & H & F).
  destruct (Forall_rev_inv _ _ _ _ H E) as (Hp & Ho).
  match goal with |- archive_checked (HistoryManager._validateSelection ?t) =>
    destruct (validateSelection_snapshot t) as (E1 & E2 & E3 & _);
    unfold archive_checked; rewrite E2, E3;
    replace (archivedItems (HistoryManager._validateSelection t))
      with (snap_archivedItems (HistoryManager.snapshot (HistoryManager._validateSelection t)))
      by reflexivity;
    rewrite E1
  end.
  cbn. repeat split; auto.
  apply Forall_app. split; [assumption|]. constructor; [exact A|constructor].
Qed.

Lemma redo_checked (s : State) : archive_checked s -> archive_checked (redo s).
Proof.
  unfold redo, HistoryManager.redo. intros C.
  destruct (isUndoingRedoing s); [exact C|].
  destruct (rev (future s)) as [|next older] eqn:E; [exact C|]. cbn [snd].
  destruct C as (A & H & F).
  destruct (Forall_rev_inv _ _ _ _ F E) as (Hp & Ho).
  match goal with |- archive_checked (HistoryManager._validateSelection ?t) =>
    destruct (validateSelection_snapshot t) as (E1 & E2 & E3 & _);
    unfold archive_checked; rewrite E2, E3;
    replace (archivedItems (HistoryManager._validateSelection t))
      with (snap_archivedItems (HistoryManager.snapshot (HistoryManager._validateSelection t)))
      by reflexivity;
    rewrite E1
  end.
  cbn. repeat split; auto.
  apply Forall_app. split; [assumption|]. constructor; [exact A|constructor].
Qed.

Lemma selectItem_view index toggle extend isKeyboard s s' :
  selectItem index toggle extend isKeyboard s = Some s' ->
  stacks_view s' = stacks_view s.
Proof.
  intros H.
  unfold selectItem, handleExtendSelection, handleToggleSelection,
    findSelectionEndpoint, bind in H.
  cbv zeta in H. break_all; break_match_goal; reflexivity.
Qed.

Lemma changeIndent_loop_view delta indices :
  forall s s', IndentManager.changeIndent_loop delta indices s = Some s' ->
               stacks_view s' = stacks_view s.
Proof.
  induction indices as [|i r IH]; intros s s' H; cbn in H.
  - injection H as <-. reflexivity.
  - unfold bind in H. destruct (get (items s) i); [|discriminate].
    destruct (IndentManager.canChangeIndent _ _ _ _ _) as [[|]|]; [| |discriminate];
      apply IH in H; rewrite H; reflexivity.
Qed.

Lemma deleteSingle_view index s :
  stacks_view (DeleteManager.deleteSingle index s) = stacks_view s.
Proof.
  unfold DeleteManager.deleteSingle. destruct (get (items s) index); [|reflexivity].
  cbv zeta. rewrite selectItem1_view. unfold DeleteManager.resetSelectionAfterDelete.
  cbv zeta. break_match_goal; reflexivity.
Qed.

Lemma deleteMultiple_view s s' :
  DeleteManager.deleteMultiple s = Some s' -> stacks_view s' = stacks_view s.
Proof.
  intros H. unfold DeleteManager.deleteMultiple, bind in H.
  destruct (_ =? _); [injection H as <-; reflexivity|].
  destruct (DeleteManager.collectIndicesToDelete _ _); [|discriminate].
  unfold DeleteManager.deleteByIndices, bind in H.
  destruct (DeleteManager.types_of _ _); [|discriminate].
  cbv zeta in H. injection H as <-. rewrite selectItem1_view.
  unfold DeleteManager.resetSelectionAfterDelete. cbv zeta. break_match_goal; reflexivity.
Qed.

Lemma addItem_saved_first ty insertIndex indent_ s s' :
  isUndoingRedoing s = false ->
  addItem ty insertIndex indent_ s = Some s' ->
  saved_first s s'.
Proof.
  intros Hflag H. apply addItem_view in H. rewrite (save_view s Hflag) in H.
  unfold stacks_view in H. injection H as _ Vh _ Vu.
  rewrite push_capped_newest in Vh. split; assumption.
Qed.

Lemma set_items_checked v s : archive_checked s -> archive_checked (set_items v s).
Proof. apply checked_of_view. reflexivity. Qed.

Lemma resetEditing_checked s :
  archive_checked s -> archive_checked (EditingManager._resetEditingState s).
Proof. apply checked_of_view. reflexivity. Qed.

Lemma deleteItem_checked index s :
  archive_checked s -> archive_checked (deleteItem index s).
Proof. apply checked_of_view. apply deleteSingle_view. Qed.

Lemma cancelNewItem_checked index s :
  archive_checked s -> archive_checked (EditingManager._cancelNewItem index s).
Proof.
  intros C. unfold EditingManager._cancelNewItem.
  apply resetEditing_checked, popLast_checked, deleteItem_checked, C.
Qed.

Lemma stopEditing_checked save value s s' :
  stopEditing save value s = Some s' -> archive_checked s -> archive_checked s'.
Proof.
  intros H C. unfold stopEditing in H.
  destruct (isUndoingRedoing s); [injection H as <-; exact C|].
  destruct (editingId s); [|injection H as <-; exact C].
  destruct (_ =? -1).
  { injection H as <-. revert C. apply checked_of_view. reflexivity. }
  destruct save.
  - unfold EditingManager.saveEdit in H.
    destruct (_ && _); [injection H as <-; apply cancelNewItem_checked, C|].
    destruct (str_eqb _ _).
    + injection H as <-. apply resetEditing_checked, deleteItem_checked, save_checked, C.
    + unfold EditingManager._saveTitle, bind in H.
      destruct (get _ _); [|discriminate]. cbv zeta in H. injection H as <-.
      apply resetEditing_checked.
      destruct (negb (str_eqb _ _)); [|exact C].
      apply set_items_checked. destruct (negb (isNewItem s)); [|exact C].
      apply save_checked, C.
  - injection H as <-. unfold EditingManager.cancelEdit.
    destruct (isNewItem s); [apply cancelNewItem_checked|apply resetEditing_checked]; exact C.
Qed.

Lemma editEnter_checked value s s' :
  editEnter value s = Some s' -> archive_checked s -> archive_checked s'.
Proof.
  intros H C. unfold editEnter in H.
  destruct (editingId s) eqn:E; [|injection H as <-; exact C].
  eapply stopEditing_checked; [exact H|]. apply set_items_checked, C.
Qed.

Lemma editTab_view isShift value s s' :
  editTab isShift value s = Some s' -> stacks_view s' = stacks_view s.
Proof.
  intros H. unfold editTab, bind in H. cbv zeta in H.
  break_all; break_match_goal; reflexivity.
Qed.

Lemma deepCopyItems_view l b s :
  stacks_view (snd (ItemUtils.deepCopyItems l b s)) = stacks_view s.
Proof.
  unfold ItemUtils.deepCopyItems. destruct b; [|reflexivity].
  apply (deepCopyItems_new_spec l s).
Qed.

Lemma insert_and_select_view i l s :
  stacks_view (insert_and_select i l s) = stacks_view s.
Proof. unfold insert_and_select. cbv zeta. rewrite selectItem1_view. reflexivity. Qed.

Lemma pasteItems_checked s s' :
  pasteItems s = Some s' -> archive_checked s -> archive_checked s'.
Proof.
  intros H C. unfold pasteItems, bind in H.
  destruct (_ =? 0); [injection H as <-; exact C|]. cbv zeta in H.
  destruct (paste_insertIndex _); [|discriminate].
  pose proof (deepCopyItems_view (clipboard (saveState s)) true (saveState s)) as V.
  destruct (ItemUtils.deepCopyItems _ _ _) as [pasted s2]. cbn [snd] in V.
  destruct (ItemUtils.adjustOrphanedIndent _ _ _); [|discriminate].
  injection H as <-.
  eapply checked_of_view; [apply insert_and_select_view|].
  eapply checked_of_view; [exact V|]. apply save_checked, C.
Qed.

Lemma duplicateItems_checked s s' :
  duplicateItems s = Some s' -> archive_checked s -> archive_checked s'.
Proof.
  intros H C. unfold duplicateItems, bind in H.
  destruct (max_of _); [|injection H as <-; exact C]. cbv zeta in H.
  match type of H with
  | context [ItemUtils.deepCopyItems ?l ?b ?t] =>
    pose proof (deepCopyItems_view l b t) as V;
      destruct (ItemUtils.deepCopyItems l b t) as [dup s2]
  end.
  cbn [snd] in V.
  destruct (ItemUtils.adjustOrphanedIndent _ _ _); [|discriminate].
  injection H as <-.
  eapply checked_of_view; [apply insert_and_select_view|].
  eapply checked_of_view; [exact V|]. apply save_checked, C.
Qed.

Lemma cutItems_checked s s' :
  cutItems s = Some s' -> archive_checked s -> archive_checked s'.
Proof.
  intros H C. unfold cutItems, deleteItems in H. cbv zeta in H.
  destruct (_ =? 0); [injection H as <-; exact C|].
  eapply checked_of_view; [eapply deleteMultiple_view; exact H|].
  apply save_checked. revert C. apply checked_of_view. reflexivity.
Qed.

Lemma select_active_view s : stacks_view (select_active_if_empty s) = stacks_view s.
Proof. unfold select_active_if_empty. destruct (_ && _); reflexivity. Qed.

Lemma restoreState_view l c s :
  stacks_view (SelectionManager.restoreState l c s) = stacks_view s.
Proof.
  unfold SelectionManager.restoreState. destruct c as [ids [a|]]; [|reflexivity].
  cbv zeta. destruct (negb _); reflexivity.
Qed.

Lemma moveToHeading_checked step chk s s' :
  moveToHeading step chk s = Some s' -> archive_checked s -> archive_checked s'.
Proof.
  intros H C. unfold moveToHeading in H. cbv zeta in H.
  assert (C0 : archive_checked (select_active_if_empty s))
    by (revert C; apply checked_of_view, select_active_view).
  destruct (_ =? 0); [injection H as <-; exact C0|].
  destruct (heading_loop _ _ _ _) as [items' moved].
  apply save_checked in C0.
  destruct (negb moved); [injection H as <-; apply set_items_checked, C0|].
  destruct (_ && _); [discriminate|]. injection H as <-.
  eapply checked_of_view; [|apply (set_items_checked items'), C0].
  break_match_goal; reflexivity.
Qed.

Lemma toggleChecked_checked s : archive_checked s -> archive_checked (toggleChecked s).
Proof.
  intros C. unfold toggleChecked. destruct (_ =? 0); [exact C|]. cbv zeta.
  apply set_items_checked, save_checked, C.
Qed.

Lemma saveNote_checked a b s : archive_checked s -> archive_checked (saveNote a b s).
Proof.
  intros C. unfold saveNote.
  match goal with
  | |- context [match ?x with Some _ => _ | None => _ end] => destruct x
  end; [|exact C].
  cbv zeta.
  destruct (negb _); [|exact C].
  apply set_items_checked, save_checked, set_items_checked, C.
Qed.

Lemma moveItem_checked direction s s' :
  moveItem direction s = Some s' -> archive_checked s -> archive_checked s'.
Proof.
  intros H C. unfold moveItem in H.
  destruct (_ <? 0); [injection H as <-; exact C|].
  destruct (ItemUtils.isArchiveHeading _); [injection H as <-; exact C|].
  cbv zeta in H. apply save_checked in C.
  destruct (_ >? 1).
  - eapply checked_of_view; [eapply moveMultipleItems_view; exact H|exact C].
  - eapply checked_of_view; [eapply moveSingleItem_view; exact H|exact C].
Qed.

Lemma archive_loop_checked (toMove : list Item) :
  forall itemList moved,
    all_checked moved -> all_checked (snd (archive_loop toMove itemList moved)).
Proof.
  induction toMove as [|x r IH]; intros itemList moved H; cbn [archive_loop]; [exact H|].
  destruct (_ =? -1); [apply IH, H|].
  destruct (ItemUtils.getItemWithChildren _ _) as [moving count].
  apply IH. apply Forall_app. split; [exact H|].
  apply Forall_map. apply Forall_forall. intros; reflexivity.
Qed.

Lemma moveToArchive_checked s s' :
  moveToArchive s = Some s' -> archive_checked s -> archive_checked s'.
Proof.
  intros H C. unfold moveToArchive, bind in H. cbv zeta in H.
  assert (C0 : archive_checked (select_active_if_empty s))
    by (revert C; apply checked_of_view, select_active_view).
  destruct (_ =? 0); [injection H as <-; exact C0|].
  apply save_checked in C0. set (s1 := saveState (select_active_if_empty s)) in *.
  destruct (ItemUtils.collectItemsToProcess _ _ _) as [|x toMove];
    [injection H as <-; exact C0|].
  destruct (min_of _); [|injection H as <-; exact C0].
  destruct (DeleteManager.types_of _ _); [|discriminate].
  pose proof (archive_loop_checked (sort_by_index_desc (items s1) (x :: toMove))
                                   (items s1) [] (Forall_nil _)) as HM.
  destruct (archive_loop _ _ _) as [items' moved]. cbn [snd] in HM.
  injection H as <-. destruct C0 as (A & Hh & Hf).
  unfold archive_checked. cbn. repeat split; try assumption.
  apply Forall_app. split; assumption.
Qed.

Lemma restore_remove_spec (indices : list Z) :
  forall archived moved,
    (all_checked archived -> all_checked (fst (restore_remove indices archived moved)))
    /\ (all_unchecked moved -> all_unchecked (snd (restore_remove indices archived moved))).
Proof.
  induction indices as [|i r IH]; intros archived moved; cbn [restore_remove]; [auto|].
  match goal with
  | |- context [match ?x with Some _ => _ | None => _ end] => destruct x as [item|]
  end.
  - destruct (IH (splice_remove archived i 1) (moved ++ [set_isChecked false item]))
      as (I1 & I2).
    split; intros H.
    + apply I1, Forall_splice_remove, H.
    + apply I2, Forall_app. split; [exact H|]. constructor; [reflexivity|constructor].
  - apply IH.
Qed.

(** What [moveFromArchive] appends to the active list: the items it took
    out of the archive, all unchecked. *)
Lemma moveFromArchive_spec s s' :
  moveFromArchive s = Some s' ->
  (archive_checked s -> archive_checked s')
  /\ exists restored, items s' = items s ++ restored /\ all_unchecked restored.
Proof.
  intros H. unfold moveFromArchive, bind in H. cbv zeta in H.
  destruct (_ =? 0).
  { injection H as <-. split; [auto|]. exists []. rewrite app_nil_r. split; constructor. }
  destruct (restore_collect _ _ _) as [toRestore|]; [|discriminate].
  destruct (restore_remove_spec (sort_desc toRestore)
                                (archivedItems (saveState s)) []) as (R1 & R2).
  destruct (restore_remove _ _ _) as [archived' moved]. cbn [fst snd] in R1, R2.
  injection H as <-. split.
  - intros C. apply save_checked in C. destruct C as (A & Hh & Hf).
    unfold archive_checked. cbn. repeat split; auto.
  - exists (rev moved). cbn. destruct (save_fields s) as (Ei & _). rewrite Ei.
    split; [reflexivity|]. apply Forall_rev, R2. constructor.
Qed.

Lemma fold_splice_remove_checked (indices : list Z) :
  forall l, all_checked l ->
            all_checked (fold_left (fun l index => splice_remove l index 1) indices l).
Proof.
  induction indices as [|i r IH]; intros l H; cbn; [exact H|].
  apply IH, Forall_splice_remove, H.
Qed.

Lemma deleteArchivedItems_checked s s' :
  deleteArchivedItems s = Some s' -> archive_checked s -> archive_checked s'.
Proof.
  intros H C. unfold deleteArchivedItems, ArchiveDeleteManager.deleteMultiple, bind in H.
  destruct (_ =? 0); [injection H as <-; exact C|].
  destruct (ArchiveDeleteManager.collectIndicesToDelete _ _) as [toDelete|]; [|discriminate].
  unfold ArchiveDeleteManager.deleteByIndices in H. injection H as <-.
  destruct C as (A & Hh & Hf).
  unfold ArchiveDeleteManager.resetSelectionAfterDelete. cbv zeta.
  destruct (_ >? 0); unfold archive_checked; cbn; repeat split; auto;
    apply fold_splice_remove_checked, A.
Qed.

Lemma clearArchive_checked s : archive_checked s -> archive_checked (clearArchive s).
Proof.
  intros C. apply save_checked in C. destruct C as (A & Hh & Hf).
  unfold clearArchive, archive_checked. cbn. repeat split; auto. constructor.
Qed.

Lemma set_last_note_checked v l : all_checked l -> all_checked (set_last_note v l).
Proof.
  intros H. unfold set_last_note. destruct (rev l) as [|x r] eqn:E; [exact H|].
  destruct (Forall_rev_inv _ _ _ _ H E) as (Hx & Hr).
  apply Forall_app. split; [exact Hr|]. constructor; [exact Hx|constructor].
Qed.

Lemma parse_line_checked st line :
  all_checked (p_archivedItems st) -> all_checked (p_archivedItems (parse_line st line)).
Proof.
  intros H. unfold parse_line. destruct st as [its arch cur coll lastI inArch nid].
  cbn [p_archivedItems] in H.
  break_match_goal; cbn [p_archivedItems]; try assumption.
  - apply set_last_note_checked, H.
  - apply Forall_app. split; [exact H|]. constructor; [reflexivity|constructor].
Qed.

(** The reader puts checked items only in the archive. *)
Lemma parse_lines_checked lines :
  forall st, all_checked (p_archivedItems st) ->
             all_checked (p_archivedItems (parse_lines lines st)).
Proof.
  unfold parse_lines. induction lines as [|l r IH]; intros st H; cbn; [exact H|].
  apply IH, parse_line_checked, H.
Qed.

Lemma handle_checked e s s' :
  handle e s = Some s' -> archive_checked s -> archive_checked s'.
Proof.
  intros H C. destruct e; cbn [handle] in H;
    unfold KeyboardHandler.handleKeydown, bind in H;
    try (destruct (editingId s) eqn:Eed; [injection H as <-; exact C|]).
  - (* ClickAddTodo *)
    eapply checked_of_view; [eapply addItem_view; exact H|]. apply save_checked, C.
  - (* ClickAddHeading *)
    eapply checked_of_view; [eapply addItem_view; exact H|]. apply save_checked, C.
  - (* KeyNewItem *)
    unfold KeyboardHandler.handleEnter_new in H.
    destruct (isArchiveHeaderSelected s);
      [injection H as <-; revert C; apply checked_of_view; reflexivity|].
    destruct (isArchiveActive s); [injection H as <-; exact C|].
    destruct (_ >=? 0);
      (eapply checked_of_view; [eapply addItem_view; exact H|]; apply save_checked, C).
  - (* KeyEditItem *)
    unfold KeyboardHandler.handleEnter_edit, bind in H.
    revert C. apply checked_of_view. break_all; reflexivity.
  - (* DoubleClick *)
    revert C. apply checked_of_view. break_all; reflexivity.
  - (* EditEnter *) eapply editEnter_checked; eassumption.
  - (* EditBlur *) eapply stopEditing_checked; eassumption.
  - (* EditEscape *) eapply stopEditing_checked; eassumption.
  - (* EditTab *)
    eapply checked_of_view; [eapply editTab_view; exact H|exact C].
  - (* KeyTab *)
    unfold KeyboardHandler.handleTab, changeIndent, IndentManager.changeIndent in H.
    destruct (isArchiveActive s); [injection H as <-; exact C|].
    destruct (_ >? 0); [|injection H as <-; exact C].
    eapply checked_of_view; [eapply changeIndent_loop_view; exact H|].
    apply save_checked, C.
  - (* KeyDelete *)
    unfold KeyboardHandler.handleDelete in H.
    destruct (isArchiveActive s).
    + destruct (_ >? 0); [|injection H as <-; exact C].
      eapply deleteArchivedItems_checked; [exact H|]. apply save_checked, C.
    + destruct (_ >? 0); [|injection H as <-; exact C].
      eapply checked_of_view; [eapply deleteMultiple_view; exact H|].
      apply save_checked, C.
  - (* KeySpace *)
    injection H as <-. unfold KeyboardHandler.handleSpace.
    destruct (isArchiveActive s); [exact C|]. apply toggleChecked_checked, C.
  - (* KeyMove *)
    unfold KeyboardHandler.handleArrow_cmd in H.
    destruct (_ && _); [|injection H as <-; exact C].
    eapply moveItem_checked; eassumption.
  - (* KeyMoveToNextHeading *)
    unfold KeyboardHandler.handleArrowRight_cmd in H.
    destruct (isArchiveActive s); [injection H as <-; exact C|].
    eapply moveToHeading_checked; eassumption.
  - (* KeyMoveToPrevHeading *)
    unfold KeyboardHandler.handleArrowLeft_cmd in H.
    destruct (negb _); [|injection H as <-; exact C].
    eapply moveToHeading_checked; eassumption.
  - (* KeyArchive *)
    unfold KeyboardHandler.handleArrowRight_cmd in H.
    destruct (isArchiveActive s); [injection H as <-; exact C|].
    eapply moveToArchive_checked; eassumption.
  - (* KeyRestore *)
    unfold KeyboardHandler.handleArrowLeft_cmd in H.
    apply (proj1 (moveFromArchive_spec s s' H)), C.
  - (* KeyUndo *) injection H as <-. apply undo_checked, C.
  - (* KeyRedo *) injection H as <-. apply redo_checked, C.
  - (* KeyCopy *)
    injection H as <-. revert C. apply checked_of_view.
    unfold copyItems. destruct (_ =? 0); reflexivity.
  - (* KeyCut *) eapply cutItems_checked; eassumption.
  - (* KeyPaste *) eapply pasteItems_checked; eassumption.
  - (* KeyDuplicate *) eapply duplicateItems_checked; eassumption.
  - (* ClickCheckbox *)
    destruct (get _ _); [|discriminate]. injection H as <-.
    revert C. apply checked_of_view. reflexivity.
  - (* ClickItem *)
    destruct (get _ _); [|discriminate]. unfold clickItem in H. cbv zeta in H.
    assert (V : stacks_view s' = stacks_view s).
    { destruct extend; [|destruct toggle];
        (erewrite selectItem_view; [|exact H]; reflexivity). }
    revert C. apply checked_of_view, V.
  - (* ClickArchiveHeader *)
    destruct (_ >? 0); [|discriminate]. injection H as <-.
    revert C. apply checked_of_view. reflexivity.
  - (* ClickArchivedItem *)
    destruct (isArchiveHidden s); [discriminate|].
    destruct (get _ _); [|discriminate]. injection H as <-.
    revert C. apply checked_of_view. unfold clickArchivedItem. cbv zeta.
    destruct mode; break_match_goal; reflexivity.
  - (* Navigate *)
    injection H as <-. revert C. apply checked_of_view. reflexivity.
  - (* SaveNote *) injection H as <-. apply saveNote_checked, C.
  - (* MsgUpdate *)
    injection H as <-. destruct C as (A & Hh & Hf).
    unfold loadOutline. cbv zeta.
    assert (P : all_checked (p_archivedItems (parseMarkdown content (nextId s)))).
    { apply parse_lines_checked. constructor. }
    unfold archive_checked. destruct (_ >=? _); cbn; repeat split; assumption.
  - (* MsgClearArchiveConfirmed *)
    injection H as <-. apply clearArchive_checked, C.
Qed.

Lemma run_checked events :
  forall s s', run events s = Some s' -> archive_checked s -> archive_checked s'.
Proof.
  induction events as [|e r IH]; intros s s' H C; cbn [run] in H.
  - injection H as <-. exact C.
  - unfold bind in H. destruct (handle e s) as [s1|] eqn:E; [|discriminate].
    eapply IH; [exact H|]. eapply handle_checked; eassumption.
Qed.

(** C7. In every state the webview can reach, every archived item is
    checked; and the items [moveFromArchive] appends to the active list are
    unchecked. *)
Theorem archived_items_checked :
  (forall s, reachable s -> all_checked (archivedItems s))
  /\ (forall s s',
         moveFromArchive s = Some s' ->
         exists restored,
           items s' = items s ++ restored /\ all_unchecked restored).
Proof.
  split.
  - intros s (events & H).
    assert (C : archive_checked initialState)
      by (unfold archive_checked; cbn; repeat split; constructor).
    exact (proj1 (run_checked events initialState s H C)).
  - intros s s' H. exact (proj2 (moveFromArchive_spec s s' H)).
Qed.

(** ** Reading back what the writer wrote *)

(** C4 as stated fails: each of these documents is made of heading lines,
    todo lines and note blocks only, and none comes back byte for byte. *)
Lemma roundtrip_changes_text :
  roundtrip doc_unchecked_archived <> Some doc_unchecked_archived
  /\ roundtrip doc_empty_note <> Some doc_empty_note
  /\ roundtrip doc_space_indent <> Some doc_space_indent
  /\ roundtrip doc_no_final_newline <> Some doc_no_final_newline
  /\ roundtrip doc_indented_note <> Some doc_indented_note
  /\ roundtrip doc_empty_archive <> Some doc_empty_archive.
Proof. repeat split; vm_compute; discriminate. Qed.

Lemma trimStart_spaces (pre s : str) :
  forallb is_space pre = true -> trimStart (pre ++ s) = trimStart s.
Proof.
  induction pre as [|c pre IH]; intros H; [reflexivity|].
  cbn in H. apply andb_prop in H. destruct H as [Hc Hp].
  cbn [app trimStart]. rewrite Hc. apply IH, Hp.
Qed.

Lemma trimStart_nonspace (c : ascii) (r : str) :
  is_space c = false -> trimStart (c :: r) = c :: r.
Proof. intros H. cbn [trimStart]. rewrite H. reflexivity. Qed.

Lemma trimStart_head (x : str) (c : ascii) (r : str) :
  trimStart x = c :: r -> is_space c = false.
Proof.
  induction x as [|d x IH]; cbn [trimStart]; [discriminate|].
  destruct (is_space d) eqn:E; [exact IH|]. intros H. injection H as <- _. exact E.
Qed.

Lemma trimStart_snoc (l : str) (c : ascii) :
  is_space c = false -> exists m, trimStart (l ++ [c]) = m ++ [c].
Proof.
  intros H. induction l as [|d l IH].
  - exists []. cbn. rewrite H. reflexivity.
  - cbn [app trimStart]. destruct (is_space d); [exact IH|].
    exists (d :: l). reflexivity.
Qed.

Lemma trim_spaces_prefix (pre s : str) :
  forallb is_space pre = true -> trim (pre ++ s) = trim s.
Proof. intros H. unfold trim. rewrite trimStart_spaces by assumption. reflexivity. Qed.

Lemma trim_head (c : ascii) (r : str) :
  is_space c = false -> exists m, trim (c :: r) = c :: m.
Proof.
  intros H. unfold trim. rewrite trimStart_nonspace by assumption.
  cbn [rev]. destruct (trimStart_snoc (rev r) c H) as (m & E).
  rewrite E, rev_app_distr. cbn. eauto.
Qed.

Lemma trim_fixed_last (s : str) :
  trim s = s -> s <> [] -> exists m c, s = m ++ [c] /\ is_space c = false.
Proof.
  intros H Hn. unfold trim in H.
  assert (E : trimStart (rev (trimStart s)) = rev s).
  { rewrite <- H at 2. rewrite rev_involutive. reflexivity. }
  destruct (rev s) as [|c m] eqn:R.
  - apply (f_equal (@rev ascii)) in R. rewrite rev_involutive in R. contradiction.
  - exists (rev m), c. split.
    + apply (f_equal (@rev ascii)) in R. rewrite rev_involutive in R. exact R.
    + eapply trimStart_head. exact E.
Qed.

Lemma trim_both_ends (c d : ascii) (m : str) :
  is_space c = false -> is_space d = false -> trim (c :: m ++ [d]) = c :: m ++ [d].
Proof.
  intros Hc Hd. unfold trim. rewrite trimStart_nonspace by assumption.
  change (c :: m ++ [d]) with ((c :: m) ++ [d]). rewrite rev_app_distr. cbn [rev app].
  rewrite trimStart_nonspace by assumption.
  change (d :: rev m ++ [c]) with (rev [d] ++ rev (c :: m)).
  rewrite <- rev_app_distr, rev_involutive. reflexivity.
Qed.

Lemma startsWith_app (p q s : str) :
  startsWith (p ++ q) s = true -> startsWith p s = true.
Proof.
  revert s. induction p as [|c p IH]; intros s H; [reflexivity|].
  destruct s as [|d s]; [discriminate|]. cbn in *.
  apply andb_prop in H. destruct H as [H1 H2]. rewrite H1. cbn. apply IH, H2.
Qed.

Lemma split_nonempty (s : str) : split nl s <> [].
Proof.
  induction s as [|c s IH]; cbn [split]; [intros H; discriminate H|].
  destruct (Ascii.eqb c nl); [intros H; discriminate H|].
  destruct (split nl s); intros H; discriminate H.
Qed.

Lemma split_app_nl (l rest : str) :
  no_nl l -> split nl (l ++ nl :: rest) = l :: split nl rest.
Proof.
  unfold no_nl. induction l as [|c l IH]; intros H.
  - cbn. reflexivity.
  - cbn [forallb] in H. apply andb_prop in H. destruct H as [Hc Hl].
    cbn [app split]. apply negb_true_iff in Hc. rewrite Hc, IH by assumption. reflexivity.
Qed.

Lemma split_unlines (ls : list str) :
  Forall no_nl ls -> split nl (unlines ls) = ls ++ [[]].
Proof.
  induction 1 as [|l ls Hl _ IH]; [reflexivity|].
  cbn [unlines flat_map]. rewrite <- app_assoc. cbn [app].
  rewrite split_app_nl by assumption. fold (unlines ls). rewrite IH. reflexivity.
Qed.

Lemma join_split (s : str) : join [nl] (split nl s) = s.
Proof.
  induction s as [|c s IH]; [reflexivity|]. cbn [split].
  destruct (Ascii.eqb c nl) eqn:E.
  - apply Ascii.eqb_eq in E. subst c.
    pose proof (split_nonempty s) as Hn.
    destruct (split nl s) as [|x xs]; [contradiction|].
    change (join [nl] ([] :: x :: xs)) with ([] ++ [nl] ++ join [nl] (x :: xs)).
    rewrite IH. reflexivity.
  - destruct (split nl s) as [|x xs]; [cbn in IH; subst; reflexivity|].
    destruct xs as [|y ys].
    + cbn [join] in *. subst. reflexivity.
    + change (join [nl] ((c :: x) :: y :: ys))
        with (c :: (x ++ [nl] ++ join [nl] (y :: ys))).
      change (join [nl] (x :: y :: ys)) with (x ++ [nl] ++ join [nl] (y :: ys)) in IH.
      rewrite IH. reflexivity.
Qed.

Lemma split_no_nl (s : str) : Forall no_nl (split nl s).
Proof.
  unfold no_nl. induction s as [|c s IH]; cbn [split].
  - constructor; [reflexivity|constructor].
  - destruct (Ascii.eqb c nl) eqn:E.
    + constructor; [reflexivity|exact IH].
    + destruct (split nl s) as [|x xs];
        [constructor; [cbn [forallb]; rewrite E; reflexivity|constructor]|].
      inversion IH; subst. constructor; [|assumption].
      cbn [forallb]. rewrite E. cbn [negb andb]. assumption.
Qed.

Lemma fold_left_append (f : str -> str) (ls : list str) (acc : str) :
  fold_left (fun result line => result ++ f line) ls acc = acc ++ flat_map f ls.
Proof.
  revert acc. induction ls as [|l ls IH]; intros acc; cbn.
  - rewrite app_nil_r. reflexivity.
  - rewrite IH, <- app_assoc. reflexivity.
Qed.

Lemma unlines_app (a b : list str) : unlines (a ++ b) = unlines a ++ unlines b.
Proof. unfold unlines. apply flat_map_app. Qed.

Lemma unlines_map_app (pre : str) (ls : list str) :
  unlines (map (app pre) ls) = flat_map (fun line => pre ++ line ++ [nl]) ls.
Proof.
  induction ls as [|l ls IH]; [reflexivity|].
  cbn [map unlines flat_map]. fold (unlines (map (app pre) ls)).
  rewrite IH, <- !app_assoc. reflexivity.
Qed.

Lemma unlines_cons (l : str) (ls : list str) : unlines (l :: ls) = l ++ [nl] ++ unlines ls.
Proof. unfold unlines. cbn [flat_map]. rewrite <- app_assoc. reflexivity. Qed.

Lemma note_block_lines (it : Item) : note_block it = unlines (note_lines it).
Proof.
  unfold note_block, note_lines. destruct (_ >? 0); [|reflexivity].
  generalize (lit "    ```plane"), (lit "    "), (lit "    ```"). intros P I E.
  rewrite (fold_left_append (fun line => I ++ line ++ [nl])).
  rewrite unlines_cons, unlines_app, unlines_map_app, unlines_cons.
  cbn [unlines flat_map]. rewrite ?app_nil_r, <- ?app_assoc. reflexivity.
Qed.

Lemma stringify_active_lines (it : Item) :
  active_ok it = true -> stringify_active it = Some (unlines (active_lines it)).
Proof.
  unfold active_ok, stringify_active, active_lines. intros H.
  apply andb_prop in H. destruct H as [H _]. rewrite note_block_lines, unlines_cons.
  destruct (type it).
  - unfold todo_ok in H. apply andb_prop in H. destruct H as [Hi _].
    unfold repeat_tab, bind.
    assert (E : (indent it <? 0) = false).
    { apply orb_prop in Hi. destruct Hi as [Hi|Hi]; apply Z.eqb_eq in Hi; rewrite Hi;
        reflexivity. }
    rewrite E, <- !app_assoc. reflexivity.
  - rewrite <- !app_assoc. reflexivity.
Qed.

Lemma stringify_archived_lines (it : Item) :
  archived_ok it = true -> stringify_archived it = Some (unlines (archived_lines it)).
Proof.
  unfold archived_ok, stringify_archived, archived_lines. intros H.
  apply andb_prop in H. destruct H as [H _]. apply andb_prop in H. destruct H as [Ht H].
  rewrite note_block_lines. destruct (type it); [|discriminate].
  unfold todo_ok in H. apply andb_prop in H. destruct H as [Hi _].
  unfold repeat_tab, bind.
  assert (E : (indent it <? 0) = false).
  { apply orb_prop in Hi. destruct Hi as [Hi|Hi]; apply Z.eqb_eq in Hi; rewrite Hi;
      reflexivity. }
  rewrite E, unlines_app. cbn [unlines flat_map]. rewrite app_nil_r, <- !app_assoc.
  reflexivity.
Qed.

Lemma stringify_loop_lines (f : Item -> option str) (lines_of : Item -> list str)
      (l : list Item) :
  Forall (fun it => f it = Some (unlines (lines_of it))) l ->
  forall acc, stringify_loop f l acc = Some (acc ++ unlines (flat_map lines_of l)).
Proof.
  induction 1 as [|it l Hit _ IH]; intros acc; cbn [stringify_loop flat_map].
  - rewrite app_nil_r. reflexivity.
  - rewrite Hit. cbn [bind]. rewrite IH, unlines_app, app_assoc. reflexivity.
Qed.

Lemma stringifyItems_lines (itemList archived : list Item) :
  canonical itemList archived = true ->
  stringifyItems itemList archived = Some (unlines (doc_lines itemList archived)).
Proof.
  unfold canonical, stringifyItems, doc_lines. intros H.
  apply andb_prop in H. destruct H as [HI HA].
  rewrite forallb_forall in HI, HA.
  rewrite (stringify_loop_lines stringify_active active_lines).
  2:{ apply Forall_forall. intros it Hin. apply stringify_active_lines, HI, Hin. }
  cbn [bind app]. destruct archived as [|a archived].
  - cbn. rewrite app_nil_r. reflexivity.
  - replace (len (a :: archived) >? 0) with true
      by (unfold len; cbn [List.length]; symmetry; apply Z.gtb_lt; lia).
    rewrite (stringify_loop_lines stringify_archived archived_lines).
    2:{ apply Forall_forall. intros it Hin. apply stringify_archived_lines, HA, Hin. }
    rewrite unlines_app, unlines_cons, <- !app_assoc. reflexivity.
Qed.

Lemma note_block_reread nid sec it : note_block (reread nid sec it) = note_block it.
Proof.
  unfold note_block, reread. cbn [note].
  destruct (len (trim (note it)) >? 0) eqn:E; [rewrite E; reflexivity|reflexivity].
Qed.

Lemma stringify_active_reread nid it :
  stringify_active (reread nid false it) = stringify_active it.
Proof.
  unfold stringify_active. rewrite note_block_reread. unfold reread. cbn.
  destruct (type it); reflexivity.
Qed.

Lemma stringify_archived_reread nid it :
  stringify_archived (reread nid true it) = stringify_archived it.
Proof.
  unfold stringify_archived. rewrite note_block_reread. unfold reread. cbn.
  destruct (type it); reflexivity.
Qed.

Lemma stringify_loop_reread (f : Item -> option str) (sec : bool) (l : list Item) :
  (forall nid it, f (reread nid sec it) = f it) ->
  forall nid acc, stringify_loop f (reread_all nid sec l) acc = stringify_loop f l acc.
Proof.
  intros Hf. induction l as [|it l IH]; intros nid acc; cbn [reread_all stringify_loop];
    [reflexivity|].
  rewrite Hf. destruct (f it); [|reflexivity]. cbn [bind]. apply IH.
Qed.

Lemma len_reread_all nid sec l : len (reread_all nid sec l) = len l.
Proof.
  unfold len. f_equal. revert nid. induction l as [|it l IH]; intros nid; cbn; auto.
Qed.

Lemma stringifyItems_reread n m itemList archived :
  stringifyItems (reread_all n false itemList) (reread_all m true archived)
  = stringifyItems itemList archived.
Proof.
  unfold stringifyItems.
  rewrite (stringify_loop_reread stringify_active false itemList stringify_active_reread).
  destruct (stringify_loop stringify_active itemList []); [|reflexivity]. cbn [bind].
  rewrite len_reread_all. destruct (_ >? 0); [|reflexivity].
  apply (stringify_loop_reread stringify_archived true archived stringify_archived_reread).
Qed.

(** *** What the reader does on the writer's lines *)

Lemma span_space_prefix (tabs : str) (c : ascii) (r : str) :
  forallb is_space tabs = true -> is_space c = false ->
  span_space (tabs ++ c :: r) = (tabs, c :: r).
Proof.
  intros Ht Hc. induction tabs as [|t tabs IH].
  - cbn [app span_space]. rewrite Hc. reflexivity.
  - cbn [forallb] in Ht. apply andb_prop in Ht. destruct Ht as [H1 H2].
    cbn [app span_space]. rewrite H1, IH by assumption. reflexivity.
Qed.

Lemma matchTodo_line (tabs : str) (mark : ascii) (t : str) :
  forallb is_space tabs = true ->
  mark = " "%char \/ mark = "x"%char ->
  forallb (fun c => negb (is_line_terminator c)) t = true ->
  matchTodo (tabs ++ "-"%char :: " "%char :: "["%char :: mark :: "]"%char :: " "%char :: t)
  = Some (tabs, mark, t).
Proof.
  intros Ht Hm Hl. unfold matchTodo.
  rewrite span_space_prefix by (assumption || reflexivity).
  cbv beta iota. rewrite Hl. destruct Hm; subst mark; reflexivity.
Qed.

Lemma todo_line_trim (tabs : str) (r : str) :
  forallb is_space tabs = true ->
  exists m, trim (tabs ++ "-"%char :: r) = "-"%char :: m.
Proof.
  intros H. rewrite trim_spaces_prefix by assumption. apply trim_head. reflexivity.
Qed.

Lemma tabs_are_space (n : nat) : forallb is_space (repeat tab n) = true.
Proof. induction n as [|n IH]; [reflexivity|]. cbn [repeat forallb]. rewrite IH. reflexivity. Qed.

Lemma heading_line_trim (t : str) :
  trim t = t -> t <> [] -> trim (lit "## " ++ t) = lit "## " ++ t.
Proof.
  intros Ht Hn. destruct (trim_fixed_last t Ht Hn) as (m & d & -> & Hd).
  change (lit "## " ++ m ++ [d]) with ("#"%char :: ("#"%char :: " "%char :: m) ++ [d]).
  apply trim_both_ends; [reflexivity|assumption].
Qed.

(** The title line of an item of the active list. *)
Lemma parse_active_title (it : Item) its arch cur last nid :
  active_ok it = true ->
  parse_line (mkParseState its arch cur false last false nid) (hd [] (active_lines it))
  = mkParseState (its ++ [set_note [] (reread nid false it)]) arch cur false
                 lastOfItems false (S nid).
Proof.
  intros H. unfold active_ok in H. apply andb_prop in H. destruct H as [H _].
  destruct it as [i ty t ind chk n]. unfold active_lines, reread. cbn [type title indent
    isChecked note hd set_note id] in *.
  destruct ty.
  - unfold todo_ok in H. cbn [indent title] in H.
    apply andb_prop in H. destruct H as [Hi Hl].
    assert (Hs : forallb is_space (repeat tab (Z.to_nat ind)) = true) by apply tabs_are_space.
    assert (Hind : todo_indent (repeat tab (Z.to_nat ind)) = ind).
    { apply orb_prop in Hi. destruct Hi as [Hi|Hi]; apply Z.eqb_eq in Hi; subst ind;
        reflexivity. }
    set (mark := if chk then "x"%char else " "%char).
    assert (Eline : repeat tab (Z.to_nat ind) ++ lit "- ["
                           ++ (if chk then lit "x" else lit " ") ++ lit "] " ++ t
                    = repeat tab (Z.to_nat ind)
                             ++ "-"%char :: " "%char :: "["%char :: mark :: "]"%char
                             :: " "%char :: t).
    { unfold mark. destruct chk; reflexivity. }
    rewrite Eline. unfold parse_line.
    destruct (todo_line_trim (repeat tab (Z.to_nat ind))
                             (" "%char :: "["%char :: mark :: "]"%char :: " "%char :: t) Hs)
      as (m & Em).
    rewrite Em. cbv beta iota zeta.
    change (startsWith (lit "```plane") ("-"%char :: m)) with false.
    change (startsWith (lit "## ") ("-"%char :: m)) with false.
    cbv beta iota.
    rewrite matchTodo_line; [|assumption|unfold mark; destruct chk; auto|assumption].
    rewrite Hind. unfold mark. destruct chk; reflexivity.
  - unfold heading_ok in H. cbn [title] in H.
    apply andb_prop in H. destruct H as [H Ha].
    apply andb_prop in H. destruct H as [H Hnl].
    apply andb_prop in H. destruct H as [Hne Htr].
    apply str_eqb_eq in Htr.
    assert (Hn : t <> []).
    { intros ->. discriminate Hne. }
    unfold parse_line. rewrite heading_line_trim by assumption. cbv beta iota zeta.
    change (startsWith (lit "```plane") (lit "## " ++ t)) with false.
    change (startsWith (lit "## ") (lit "## " ++ t)) with true.
    change (drop 3 (lit "## " ++ t)) with t.
    cbv beta iota. rewrite Htr. apply negb_true_iff in Ha. rewrite Ha. reflexivity.
Qed.

Lemma parse_lines_app (a b : list str) (st : ParseState) :
  parse_lines (a ++ b) st = parse_lines b (parse_lines a st).
Proof. unfold parse_lines. apply fold_left_app. Qed.

Lemma set_last_note_snoc (v : str) (l : list Item) (x : Item) :
  set_last_note v (l ++ [x]) = l ++ [set_note v x].
Proof.
  unfold set_last_note. rewrite rev_app_distr. cbn [rev app]. rewrite rev_involutive.
  reflexivity.
Qed.

Definition note_line_ok (line : str) : Prop :=
  trim line = line /\ startsWith (lit "```") line = false.

Lemma note_ok_lines (n : str) :
  note_ok n = true -> (len (trim n) >? 0) = true -> Forall note_line_ok (split nl n).
Proof.
  unfold note_ok. intros H Hb.
  assert (E : (len (trim n) =? 0) = false).
  { apply Z.gtb_lt in Hb. apply Z.eqb_neq. lia. }
  rewrite E in H. cbn [orb] in H. rewrite forallb_forall in H.
  apply Forall_forall. intros line Hin. specialize (H line Hin).
  apply andb_prop in H. destruct H as [H1 H2]. split.
  - apply str_eqb_eq, H1.
  - apply negb_true_iff, H2.
Qed.

Lemma parse_lines_cons (a : str) (r : list str) (st : ParseState) :
  parse_lines (a :: r) st = parse_lines r (parse_line st a).
Proof. reflexivity. Qed.

Lemma parse_note_line (l : str) its arch cur last inArch nid :
  note_line_ok l ->
  parse_line (mkParseState its arch cur true last inArch nid) (lit "    " ++ l)
  = mkParseState its arch (cur ++ [l]) true last inArch nid.
Proof.
  intros [Ht Hf].
  assert (Etrim : trim (lit "    " ++ l) = l).
  { rewrite trim_spaces_prefix by reflexivity. assumption. }
  assert (Eopen : startsWith (lit "```plane") l = false).
  { destruct (startsWith (lit "```plane") l) eqn:E; [|reflexivity].
    change (lit "```plane") with (lit "```" ++ lit "plane") in E.
    apply startsWith_app in E. congruence. }
  unfold parse_line. rewrite Etrim. cbv beta iota zeta. rewrite Eopen, Hf. reflexivity.
Qed.

(** The lines of a note, read while collecting. *)
Lemma parse_note_body (ls : list str) :
  Forall note_line_ok ls ->
  forall its arch cur last inArch nid,
    parse_lines (map (app (lit "    ")) ls) (mkParseState its arch cur true last inArch nid)
    = mkParseState its arch (cur ++ ls) true last inArch nid.
Proof.
  induction 1 as [|l ls Hl _ IH]; intros its arch cur last inArch nid.
  - cbn. rewrite app_nil_r. reflexivity.
  - cbn [map]. rewrite parse_lines_cons, parse_note_line by assumption.
    rewrite IH, <- app_assoc. reflexivity.
Qed.

(** A note block read after the item it belongs to; [which] tells the list
    the item was pushed to. *)
Lemma parse_note_block (it : Item) (which : LastItem) its arch cur inArch nid :
  note_ok (note it) = true ->
  which <> noItem ->
  exists cur',
    parse_lines (note_lines it) (mkParseState its arch cur false which inArch nid)
    = mkParseState
        (match which with
         | lastOfItems =>
           if len (trim (note it)) >? 0 then set_last_note (note it) its else its
         | _ => its
         end)
        (match which with
         | lastOfArchived =>
           if len (trim (note it)) >? 0 then set_last_note (note it) arch else arch
         | _ => arch
         end)
        cur' false which inArch nid.
Proof.
  intros Hok Hw. unfold note_lines. destruct (len (trim (note it)) >? 0) eqn:Hb.
  - pose proof (note_ok_lines _ Hok Hb) as Hls.
    exists (split nl (note it)).
    change (lit "    ```plane" :: map (app (lit "    ")) (split nl (note it))
                ++ [lit "    ```"])
      with ([lit "    ```plane"] ++ map (app (lit "    ")) (split nl (note it))
                                 ++ [lit "    ```"]).
    rewrite !parse_lines_app.
    change (parse_lines [lit "    ```plane"]
                        (mkParseState its arch cur false which inArch nid))
      with (mkParseState its arch [] true which inArch nid).
    rewrite parse_note_body by assumption. cbn [app].
    rewrite parse_lines_cons. change (parse_lines [] ?x) with x. unfold parse_line.
    change (trim (lit "    ```")) with (lit "```"). cbv beta iota zeta.
    change (startsWith (lit "```plane") (lit "```")) with false.
    change (startsWith (lit "```") (lit "```")) with true.
    cbv beta iota. rewrite join_split. destruct which; [contradiction| |]; reflexivity.
  - exists cur. destruct which; [contradiction| |]; reflexivity.
Qed.

Lemma reread_note (nid : Id) (sec : bool) (it : Item) :
  (if len (trim (note it)) >? 0
   then set_note (note it) (set_note [] (reread nid sec it))
   else set_note [] (reread nid sec it))
  = reread nid sec it.
Proof. unfold reread, set_note. cbn. destruct (_ >? 0); reflexivity. Qed.

Lemma parse_active_item (it : Item) its arch cur last nid :
  active_ok it = true ->
  exists cur',
    parse_lines (active_lines it) (mkParseState its arch cur false last false nid)
    = mkParseState (its ++ [reread nid false it]) arch cur' false lastOfItems false (S nid).
Proof.
  intros H. pose proof (parse_active_title it its arch cur last nid H) as T.
  unfold active_ok in H. apply andb_prop in H. destruct H as [_ Hn].
  unfold active_lines in *. cbn [hd] in T.
  rewrite parse_lines_cons, T.
  destruct (parse_note_block it lastOfItems
              (its ++ [set_note [] (reread nid false it)]) arch cur false (S nid) Hn)
    as (cur' & E); [discriminate|].
  exists cur'. rewrite E. f_equal.
  rewrite <- (reread_note nid false it) at 3.
  destruct (_ >? 0); [apply set_last_note_snoc|reflexivity].
Qed.

Lemma parse_archived_item (it : Item) its arch cur last nid :
  archived_ok it = true ->
  exists cur',
    parse_lines (archived_lines it) (mkParseState its arch cur false last true nid)
    = mkParseState its (arch ++ [reread nid true it]) cur' false lastOfArchived true (S nid).
Proof.
  intros H. unfold archived_ok in H.
  apply andb_prop in H. destruct H as [H Hn]. apply andb_prop in H. destruct H as [Hty H].
  assert (T : parse_line (mkParseState its arch cur false last true nid)
                         (repeat tab (Z.to_nat (indent it)) ++ lit "- [x] " ++ title it)
              = mkParseState its (arch ++ [set_note [] (reread nid true it)]) cur false
                             lastOfArchived true (S nid)).
  { destruct it as [i ty t ind chk n]. unfold reread.
    cbn [type title indent isChecked note set_note id] in *.
    destruct ty; [|discriminate]. unfold todo_ok in H. cbn [indent title] in H.
    apply andb_prop in H. destruct H as [Hi Hl].
    assert (Hs : forallb is_space (repeat tab (Z.to_nat ind)) = true) by apply tabs_are_space.
    assert (Hind : todo_indent (repeat tab (Z.to_nat ind)) = ind).
    { apply orb_prop in Hi. destruct Hi as [Hi|Hi]; apply Z.eqb_eq in Hi; subst ind;
        reflexivity. }
    change (repeat tab (Z.to_nat ind) ++ lit "- [x] " ++ t)
      with (repeat tab (Z.to_nat ind)
                   ++ "-"%char :: " "%char :: "["%char :: "x"%char :: "]"%char
                   :: " "%char :: t).
    unfold parse_line.
    destruct (todo_line_trim (repeat tab (Z.to_nat ind))
                             (" "%char :: "["%char :: "x"%char :: "]"%char :: " "%char :: t) Hs)
      as (m & Em).
    rewrite Em. cbv beta iota zeta.
    change (startsWith (lit "```plane") ("-"%char :: m)) with false.
    change (startsWith (lit "## ") ("-"%char :: m)) with false.
    cbv beta iota. rewrite matchTodo_line; [|assumption|auto|assumption].
    rewrite Hind. reflexivity. }
  unfold archived_lines. destruct (type it); [|discriminate]. cbn [app].
  rewrite parse_lines_cons, T.
  destruct (parse_note_block it lastOfArchived its
              (arch ++ [set_note [] (reread nid true it)]) cur true (S nid) Hn)
    as (cur' & E); [discriminate|].
  exists cur'. rewrite E. f_equal.
  rewrite <- (reread_note nid true it) at 3.
  destruct (_ >? 0); [apply set_last_note_snoc|reflexivity].
Qed.

Lemma parse_active_items (l : list Item) :
  forallb active_ok l = true ->
  forall its arch cur last nid,
  exists cur' last',
    parse_lines (flat_map active_lines l) (mkParseState its arch cur false last false nid)
    = mkParseState (its ++ reread_all nid false l) arch cur' false last' false
                   (List.length l + nid)%nat.
Proof.
  induction l as [|it l IH]; intros H its arch cur last nid.
  - exists cur, last. cbn. rewrite app_nil_r. reflexivity.
  - cbn [forallb] in H. apply andb_prop in H. destruct H as [Hit Hl].
    cbn [flat_map]. rewrite parse_lines_app.
    destruct (parse_active_item it its arch cur last nid Hit) as (cur1 & E1).
    rewrite E1.
    destruct (IH Hl (its ++ [reread nid false it]) arch cur1 lastOfItems (S nid))
      as (cur' & last' & E).
    exists cur', last'. rewrite E. cbn [reread_all List.length].
    rewrite <- app_assoc. cbn [app]. f_equal. lia.
Qed.

Lemma parse_archived_items (l : list Item) :
  forallb archived_ok l = true ->
  forall its arch cur last nid,
  exists cur' last',
    parse_lines (flat_map archived_lines l) (mkParseState its arch cur false last true nid)
    = mkParseState its (arch ++ reread_all nid true l) cur' false last' true
                   (List.length l + nid)%nat.
Proof.
  induction l as [|it l IH]; intros H its arch cur last nid.
  - exists cur, last. cbn. rewrite app_nil_r. reflexivity.
  - cbn [forallb] in H. apply andb_prop in H. destruct H as [Hit Hl].
    cbn [flat_map]. rewrite parse_lines_app.
    destruct (parse_archived_item it its arch cur last nid Hit) as (cur1 & E1).
    rewrite E1.
    destruct (IH Hl its (arch ++ [reread nid true it]) cur1 lastOfArchived (S nid))
      as (cur' & last' & E).
    exists cur', last'. rewrite E. cbn [reread_all List.length].
    rewrite <- app_assoc. cbn [app]. f_equal. lia.
Qed.

Lemma no_nl_app (a b : str) : no_nl a -> no_nl b -> no_nl (a ++ b).
Proof. unfold no_nl. intros Ha Hb. rewrite forallb_app, Ha, Hb. reflexivity. Qed.

Lemma no_nl_tabs (n : nat) : no_nl (repeat tab n).
Proof.
  unfold no_nl. induction n as [|n IH]; [reflexivity|]. cbn [repeat forallb]. rewrite IH.
  reflexivity.
Qed.

Lemma no_nl_of_terminators (t : str) :
  forallb (fun c => negb (is_line_terminator c)) t = true -> no_nl t.
Proof.
  unfold no_nl, is_line_terminator. intros H. rewrite forallb_forall in *.
  intros c Hin. specialize (H c Hin). apply negb_true_iff in H.
  apply orb_false_iff in H. destruct H as [H _]. rewrite H. reflexivity.
Qed.

Lemma no_nl_of_existsb (t : str) :
  negb (existsb (Ascii.eqb nl) t) = true -> no_nl t.
Proof.
  unfold no_nl. intros H. apply negb_true_iff in H. rewrite forallb_forall. intros c Hin.
  apply negb_true_iff. destruct (Ascii.eqb c nl) eqn:E; [|reflexivity].
  apply Ascii.eqb_eq in E. subst c.
  assert (X : existsb (Ascii.eqb nl) t = true).
  { apply existsb_exists. exists nl. split; [assumption|apply Ascii.eqb_refl]. }
  congruence.
Qed.

Lemma note_lines_no_nl (it : Item) : Forall no_nl (note_lines it).
Proof.
  unfold note_lines. destruct (_ >? 0); [|constructor].
  constructor; [reflexivity|]. apply Forall_app. split.
  - apply Forall_map. eapply Forall_impl; [|apply split_no_nl].
    intros l Hl. apply no_nl_app; [reflexivity|assumption].
  - constructor; [reflexivity|constructor].
Qed.

Lemma active_lines_no_nl (it : Item) : active_ok it = true -> Forall no_nl (active_lines it).
Proof.
  unfold active_ok, active_lines. intros H. apply andb_prop in H. destruct H as [H _].
  constructor; [|apply note_lines_no_nl].
  destruct (type it).
  - unfold todo_ok in H. apply andb_prop in H. destruct H as [_ Hl].
    apply no_nl_app; [apply no_nl_tabs|]. apply no_nl_app; [reflexivity|].
    apply no_nl_app; [destruct (isChecked it); reflexivity|].
    apply no_nl_app; [reflexivity|]. apply no_nl_of_terminators, Hl.
  - unfold heading_ok in H. apply andb_prop in H. destruct H as [H _].
    apply andb_prop in H. destruct H as [_ Hnl].
    apply no_nl_app; [reflexivity|]. apply no_nl_of_existsb, Hnl.
Qed.

Lemma archived_lines_no_nl (it : Item) :
  archived_ok it = true -> Forall no_nl (archived_lines it).
Proof.
  unfold archived_ok, archived_lines. intros H.
  apply andb_prop in H. destruct H as [H _]. apply andb_prop in H. destruct H as [Hty H].
  apply Forall_app. split; [|apply note_lines_no_nl].
  destruct (type it); [|constructor]. constructor; [|constructor].
  unfold todo_ok in H. apply andb_prop in H. destruct H as [_ Hl].
  apply no_nl_app; [apply no_nl_tabs|]. apply no_nl_app; [reflexivity|].
  apply no_nl_of_terminators, Hl.
Qed.

Lemma Forall_flat_map {A B : Type} (P : B -> Prop) (f : A -> list B) (l : list A) :
  (forall x, In x l -> Forall P (f x)) -> Forall P (flat_map f l).
Proof.
  induction l as [|x l IH]; intros H; cbn [flat_map]; [constructor|].
  apply Forall_app. split; [apply H; left; reflexivity|].
  apply IH. intros y Hy. apply H. right. assumption.
Qed.

Lemma doc_lines_no_nl (itemList archived : list Item) :
  canonical itemList archived = true -> Forall no_nl (doc_lines itemList archived).
Proof.
  unfold canonical, doc_lines. intros H. apply andb_prop in H. destruct H as [HI HA].
  rewrite forallb_forall in HI, HA. apply Forall_app. split.
  - apply Forall_flat_map. intros x Hx. apply active_lines_no_nl, HI, Hx.
  - destruct archived as [|a archived]; [constructor|].
    constructor; [reflexivity|].
    apply Forall_flat_map. intros x Hx. apply archived_lines_no_nl, HA, Hx.
Qed.

(** The reader on the writer's output: the items come back as written, up
    to their ids. *)
Lemma parse_written (itemList archived : list Item) (nid : Id) :
  canonical itemList archived = true ->
  let st := parseMarkdown (unlines (doc_lines itemList archived)) nid in
  p_items st = reread_all nid false itemList
  /\ p_archivedItems st = reread_all (List.length itemList + nid)%nat true archived.
Proof.
  intros H. unfold parseMarkdown.
  rewrite split_unlines by (apply doc_lines_no_nl; assumption).
  unfold canonical in H. apply andb_prop in H. destruct H as [HI HA].
  unfold doc_lines, parse_init. rewrite !parse_lines_app.
  destruct (parse_active_items itemList HI [] [] [] noItem nid) as (cur1 & last1 & E1).
  rewrite E1. cbn [app]. destruct archived as [|a archived].
  - cbn. auto.
  - rewrite (parse_lines_cons (lit "## Archive")).
    change (parse_line (mkParseState (reread_all nid false itemList) [] cur1 false last1
                                     false (List.length itemList + nid)%nat)
                       (lit "## Archive"))
      with (mkParseState (reread_all nid false itemList) [] cur1 false last1
                         true (List.length itemList + nid)%nat).
    destruct (parse_archived_items (a :: archived) HA (reread_all nid false itemList) []
                                   cur1 last1 (List.length itemList + nid)%nat)
      as (cur2 & last2 & E2).
    rewrite E2. cbn. auto.
Qed.

(** C4, as the code has it.  A text that the writer produces from lists in
    canonical form (heading titles not empty, trimmed, without line feed and
    other than "Archive"; todos of indent 0 or 1 with titles free of line
    terminators; todos only in the archive; notes blank or made of trimmed
    lines that do not begin with a code fence) is reproduced byte for byte by
    reading it and writing it again. *)
Theorem roundtrip_canonical (itemList archived : list Item) (text : str) (nid : Id) :
  canonical itemList archived = true ->
  stringifyItems itemList archived = Some text ->
  let st := parseMarkdown text nid in
  stringifyItems (p_items st) (p_archivedItems st) = Some text.
Proof.
  intros H Htext. pose proof Htext as Hw.
  rewrite stringifyItems_lines in Hw by assumption. injection Hw as <-.
  cbv zeta. destruct (parse_written itemList archived nid H) as (EI & EA).
  rewrite EI, EA, stringifyItems_reread. assumption.
Qed.

(** * Instances *)

Lemma archive_scenario_witness :
  exists s',
    moveToArchive scenario_archive_state = Some s'
    /\ items s' = [mkItem 0%nat heading (lit "A") 0 false []]
    /\ archivedItems s' = [mkItem 1%nat todo (lit "x") 0 true [];
                           mkItem 2%nat todo (lit "y") 1 true []] ++ [].
Proof.
  apply (archive_scenario 0%nat 1%nat 2%nat false false false [] [] [] []
                          scenario_archive_state).
  - lia.
  - reflexivity.
  - reflexivity.
  - reflexivity.
Defined.

Lemma roundtrip_canonical_witness :
  stringifyItems (p_items (parseMarkdown sample_text 10%nat))
                 (p_archivedItems (parseMarkdown sample_text 10%nat))
  = Some sample_text.
Proof.
  apply (roundtrip_canonical sample_items sample_archived sample_text 10%nat).
  - vm_compute. reflexivity.
  - vm_compute. reflexivity.
Defined.

(** Paste on a parent with two children: the clone goes after the second
    child. *)
Lemma paste_position_witness :
  exists p copies pasted s',
    pasteItems family_state = Some s'
    /\ spec_paste_position (items family_state) 0 p
    /\ (forall p', spec_paste_position (items family_state) 0 p' -> p' = p)
    /\ Forall2 clone_of [mkItem 9%nat todo (lit "X") 0 false []] copies
    /\ ItemUtils.adjustOrphanedIndent copies (items family_state) p = Some pasted
    /\ items s' = take p (items family_state) ++ pasted ++ drop p (items family_state)
    /\ items s' = [mkItem 0%nat todo (lit "p") 0 false [];
                   mkItem 1%nat todo (lit "c") 1 false [];
                   mkItem 2%nat todo (lit "d") 1 true [];
                   mkItem 10%nat todo (lit "X") 0 false [];
                   mkItem 3%nat todo (lit "q") 0 false [];
                   mkItem 4%nat heading (lit "H") 0 false []].
Proof.
  assert (Hclip : len (clipboard family_state) > 0) by (vm_compute; reflexivity).
  assert (Hact : activeIndex family_state < len (items family_state))
    by (vm_compute; reflexivity).
  assert (M : Forall indent_ok (items family_state))
    by (repeat constructor; vm_compute; auto).
  destruct (proj1 paste_position family_state Hclip Hact M)
    as (p & copies & pasted & s' & E & H1 & H2 & H3 & H4 & H5).
  exists p, copies, pasted, s'. split; [exact E|].
  repeat (split; [assumption|]).
  vm_compute in E. injection E as <-. reflexivity.
Defined.

Lemma archived_items_checked_witness :
  exists s,
    run archive_one_trace initialState = Some s
    /\ archivedItems s = [mkItem 0%nat todo (lit "x") 0 true []]
    /\ all_checked (archivedItems s).
Proof.
  eexists. split; [vm_compute; reflexivity|]. split; [reflexivity|].
  apply (proj1 archived_items_checked). exists archive_one_trace. vm_compute. reflexivity.
Defined.

Lemma indent_then_outdent_witness :
  exists s1 s2,
    changeIndent 1 two_todos_state = Some s1
    /\ get (items s1) 1 = Some (set_indent (0 + 1) (mkItem 1%nat todo (lit "y") 0 false []))
    /\ changeIndent (-1) s1 = Some s2
    /\ items s2 = items two_todos_state
    /\ get (items s2) 1 = Some (mkItem 1%nat todo (lit "y") 0 false []).
Proof.
  apply (indent_then_outdent two_todos_state 1
                             (mkItem 1%nat todo (lit "y") 0 false [])
                             (mkItem 0%nat todo (lit "x") 0 false [])).
  - reflexivity.
  - reflexivity.
  - left. reflexivity.
  - reflexivity.
  - cbn. lia.
  - lia.
  - reflexivity.
  - reflexivity.
Defined.

(** A second todo is created below a first one and abandoned with a blank
    title. *)
Lemma abandoned_new_item_restores_witness :
  exists s2,
    handle (EditEnter (lit "  ")) second_todo_state = Some s2
    /\ handle (EditBlur (lit "  ")) second_todo_state = Some s2
    /\ editEnter_out (lit "  ") second_todo_state = Some []
    /\ stopEditing_out true (lit "  ") second_todo_state = Some []
    /\ items s2 = [mkItem 0%nat todo (lit "x") 0 false []]
    /\ archivedItems s2 = []
    /\ editingId s2 = None
    /\ isNewItem s2 = false
    /\ history s2 = history (HistoryManager.popLast second_todo_state)
    /\ history s2 = removelast (history second_todo_state)
    /\ history s2 = [].
Proof.
  apply (abandoned_new_item_restores todo (Some 1) None (lit "  ")
                                     lone_todo_state second_todo_state).
  - reflexivity.
  - repeat constructor.
  - vm_compute. reflexivity.
  - vm_compute. reflexivity.
  - vm_compute. reflexivity.
Defined.

(** A move up at the top of the list, after an undo: the snapshot of the
    unchanged list is pushed and the entry that redo would have brought back
    is gone. *)
Lemma rejected_move_leaves_snapshot_witness :
  future undone_state = [mkSnapshot [mkItem 0%nat todo (lit "x") 0 false [];
                                     mkItem 1%nat todo (lit "y") 0 false []] []]
  /\ exists s',
       moveItem up undone_state = Some s'
       /\ items s' = items undone_state
       /\ archivedItems s' = archivedItems undone_state
       /\ history s' = [mkSnapshot [] []]
                       ++ [mkSnapshot [mkItem 0%nat todo (lit "x") 0 false []] []]
       /\ HistoryManager.canUndo s' = true
       /\ future s' = []
       /\ HistoryManager.canRedo s' = false.
Proof.
  split; [vm_compute; reflexivity|].
  apply (rejected_move_leaves_snapshot up undone_state).
  - vm_compute. reflexivity.
  - vm_compute. discriminate.
  - vm_compute. reflexivity.
  - apply (reject_top_single up undone_state (mkItem 0%nat todo (lit "x") 0 false [])).
    + vm_compute. discriminate.
    + reflexivity.
    + vm_compute. reflexivity.
    + vm_compute. reflexivity.
Defined.
(** * Further properties of the code *)

(** ** The reader on any text *)

Lemma trimStart_idem (l : str) : trimStart (trimStart l) = trimStart l.
Proof.
  induction l as [|c l IH]; [reflexivity|]. cbn [trimStart].
  destruct (is_space c) eqn:E; [exact IH|]. cbn [trimStart]. rewrite E. reflexivity.
Qed.

Lemma trim_idem (l : str) : trim (trim l) = trim l.
Proof.
  unfold trim.
  destruct (trimStart l) as [|x a] eqn:Ea; [reflexivity|].
  pose proof (trimStart_head l x a Ea) as Hx.
  cbn [rev]. destruct (trimStart_snoc (rev a) x Hx) as (m & Em).
  pose proof (trimStart_idem (rev a ++ [x])) as Hi.
  rewrite Em in *. rewrite rev_app_distr. cbn [rev app].
  rewrite (trimStart_nonspace x (rev m) Hx).
  cbn [rev]. rewrite rev_involutive, Hi, rev_app_distr. reflexivity.
Qed.

Lemma trim_nonempty (m : str) (c : ascii) : is_space c = false -> trim (m ++ [c]) <> [].
Proof.
  intros Hc. unfold trim. destruct (trimStart_snoc m c Hc) as (m' & E). rewrite E.
  rewrite rev_app_distr. cbn [rev app]. rewrite trimStart_nonspace by assumption.
  cbn [rev]. intros H. apply app_eq_nil in H. destruct H as [_ H]. discriminate H.
Qed.

Lemma forallb_trimStart (p : ascii -> bool) (l : str) :
  forallb p l = true -> forallb p (trimStart l) = true.
Proof.
  induction l as [|c l IH]; intros H; [reflexivity|]. cbn [trimStart].
  destruct (is_space c); [|exact H].
  cbn [forallb] in H. apply andb_prop in H. apply IH, H.
Qed.

Lemma forallb_rev {A : Type} (p : A -> bool) (l : list A) :
  forallb p l = true -> forallb p (rev l) = true.
Proof.
  rewrite !forallb_forall. intros H x Hin. apply H. apply in_rev. exact Hin.
Qed.

Lemma forallb_trim (p : ascii -> bool) (l : str) :
  forallb p l = true -> forallb p (trim l) = true.
Proof.
  intros H. unfold trim.
  apply forallb_rev, forallb_trimStart, forallb_rev, forallb_trimStart, H.
Qed.

Lemma forallb_skipn {A : Type} (p : A -> bool) (n : nat) (l : list A) :
  forallb p l = true -> forallb p (skipn n l) = true.
Proof.
  revert l. induction n as [|n IH]; intros [|x l] H; cbn [skipn]; try assumption.
  cbn [forallb] in H. apply andb_prop in H. apply IH, H.
Qed.

Lemma startsWith_eq (p s : str) : startsWith p s = true -> exists r, s = p ++ r.
Proof.
  revert s. induction p as [|c p IH]; intros s H; [exists s; reflexivity|].
  destruct s as [|d s]; [discriminate|]. cbn [startsWith] in H.
  apply andb_prop in H. destruct H as [H1 H2]. apply Ascii.eqb_eq in H1. subst d.
  destruct (IH s H2) as (r & ->). exists r. reflexivity.
Qed.

Lemma split_join (ls : list str) :
  Forall no_nl ls -> ls <> [] -> split nl (join [nl] ls) = ls.
Proof.
  induction 1 as [|l ls Hl Hls IH]; intros Hn; [contradiction|].
  destruct ls as [|l2 ls].
  - cbn [join]. clear IH Hn Hls. unfold no_nl in Hl.
    induction l as [|c l IHl]; [reflexivity|].
    cbn [forallb] in Hl. apply andb_prop in Hl. destruct Hl as [Hc Hl].
    apply negb_true_iff in Hc. cbn [split]. rewrite Hc, (IHl Hl). reflexivity.
  - change (join [nl] (l :: l2 :: ls)) with (l ++ nl :: join [nl] (l2 :: ls)).
    rewrite split_app_nl by assumption. rewrite IH by discriminate. reflexivity.
Qed.

Lemma note_ok_join (cur : list str) : Forall kept_note_line cur -> note_ok (join [nl] cur) = true.
Proof.
  intros H. unfold note_ok. destruct cur as [|l cur]; [reflexivity|].
  apply orb_true_iff. right.
  rewrite split_join; [|eapply Forall_impl; [|exact H]; intros a (_ & _ & Ha); exact Ha
                        |discriminate].
  apply forallb_forall. intros x Hin. rewrite Forall_forall in H.
  destruct (H x Hin) as (Ht & Hf & _). rewrite Ht, Hf.
  replace (str_eqb x x) with true by (symmetry; apply str_eqb_eq; reflexivity).
  reflexivity.
Qed.

Lemma set_last_note_ok (ok : Item -> bool) (v : str) (l : list Item) :
  (forall it, ok it = true -> ok (set_note v it) = true) ->
  forallb ok l = true -> forallb ok (set_last_note v l) = true.
Proof.
  intros Hok H. unfold set_last_note. destruct (rev l) as [|x r] eqn:R; [exact H|].
  apply (f_equal (@rev Item)) in R. rewrite rev_involutive in R. cbn [rev] in R. subst l.
  rewrite forallb_app in *. apply andb_prop in H. destruct H as [H1 H2].
  rewrite H1. cbn [forallb andb] in *. rewrite andb_true_r in *. apply Hok, H2.
Qed.

Lemma todo_indent_range (indentStr : str) :
  todo_indent indentStr = 0 \/ todo_indent indentStr = 1.
Proof.
  unfold todo_indent. destruct (existsb (Ascii.eqb tab) indentStr) eqn:E.
  - destruct (Z.gtb_spec (len (split tab indentStr) - 1) 1); [right; reflexivity|].
    assert (len (split tab indentStr) >= 2); [|lia].
    clear -E. induction indentStr as [|c s IH]; [discriminate|].
    cbn [existsb] in E. cbn [split]. rewrite Ascii.eqb_sym in E.
    destruct (Ascii.eqb c tab) eqn:Ec.
    + assert (0 < len (split tab s)); [|unfold len in *; cbn [List.length]; lia].
      destruct s; cbn [split]; [cbn; lia|].
      destruct (Ascii.eqb a tab); [unfold len; cbn [List.length]; lia|].
      destruct (split tab s); unfold len; cbn [List.length]; lia.
    + cbn [orb] in E. specialize (IH E).
      destruct (split tab s) as [|x xs]; [unfold len in IH; cbn in IH; lia|].
      unfold len in *. cbn [List.length] in *. lia.
  - pose proof (Z.div_pos (len indentStr) 4) as Hd.
    assert (0 <= len indentStr) by (unfold len; lia).
    destruct (Z.gtb_spec (len indentStr / 4) 1); [right; reflexivity|]. lia.
Qed.

Lemma matchTodo_title (line indentStr titleStr : str) (mark : ascii) :
  matchTodo line = Some (indentStr, mark, titleStr) ->
  forallb (fun c => negb (is_line_terminator c)) titleStr = true.
Proof.
  unfold matchTodo. destruct (span_space line) as (w, rest).
  destruct rest as [|dash [|s1 [|lb [|mk [|rb [|s2 t]]]]]]; try discriminate.
  destruct (_ && _) eqn:E; [|discriminate].
  intros H. injection H as _ _ <-. apply andb_prop in E. apply E.
Qed.

Lemma parse_line_inv (st : ParseState) (line : str) :
  no_nl line -> parse_inv st -> parse_inv (parse_line st line).
Proof.
  intros Hline (HI & HA & HC). destruct st as [its arch cur coll lastI inArch nid].
  cbn [p_items p_archivedItems p_currentNote] in *. unfold parse_line.
  destruct (startsWith (lit "```plane") (trim line)) eqn:Eplane.
  { repeat split; cbn; auto. }
  destruct coll.
  { destruct (startsWith (lit "```") (trim line)) eqn:Efence.
    - pose proof (note_ok_join cur HC) as Hnote.
      destruct lastI; repeat split; cbn [p_items p_archivedItems p_currentNote]; auto.
      + apply set_last_note_ok; [|assumption]. intros it.
        unfold active_ok, heading_ok, todo_ok, set_note. cbn [type title indent note].
        rewrite Hnote, !andb_true_r. intros H. apply andb_prop in H. apply H.
      + apply set_last_note_ok; [|assumption]. intros it.
        unfold archived_ok, todo_ok, set_note. cbn [type title indent note].
        rewrite Hnote, !andb_true_r. intros H. apply andb_prop in H. apply H.
    - repeat split; cbn [p_items p_archivedItems p_currentNote]; auto.
      apply Forall_app. split; [assumption|]. constructor; [|constructor].
      repeat split; [apply trim_idem|assumption|apply forallb_trim, Hline]. }
  destruct (startsWith (lit "## ") (trim line)) eqn:Ehead.
  { destruct (str_eqb (trim (drop 3 (trim line))) (lit "Archive")) eqn:Earch.
    - repeat split; cbn; auto.
    - repeat split; cbn [p_items p_archivedItems p_currentNote]; auto.
      rewrite forallb_app, HI. cbn [forallb andb]. rewrite andb_true_r.
      unfold active_ok, heading_ok. cbn [type title note].
      destruct (startsWith_eq _ _ Ehead) as (rest & Erest).
      assert (Hdrop : drop 3 (trim line) = rest) by (rewrite Erest; reflexivity).
      rewrite Hdrop in *. rewrite Earch. cbn [negb].
      assert (Hne : trim rest <> []).
      { assert (Hfix : trim (trim line) = trim line) by apply trim_idem.
        assert (Hn0 : trim line <> []) by (rewrite Erest; discriminate).
        destruct (trim_fixed_last _ Hfix Hn0) as (m & c & Em & Hc).
        rewrite Erest in Em. destruct rest as [|r0 rest'] using rev_ind.
        - cbn in Em. destruct m as [|m0 [|m1 [|m2 m']]]; cbn in Em; try discriminate.
          + injection Em as _ _ <-. discriminate Hc.
          + injection Em as _ _ _ Em. destruct m'; discriminate Em.
        - apply trim_nonempty. clear IHrest'.
          change (lit "## " ++ rest' ++ [r0]) with ((lit "## " ++ rest') ++ [r0]) in Em.
          apply app_inj_tail in Em. destruct Em as [_ ->]. exact Hc. }
      assert (Hnl : no_nl (trim rest)).
      { apply forallb_trim. rewrite <- Hdrop. apply forallb_skipn, forallb_trim, Hline. }
      replace (str_eqb (trim rest) []) with false.
      2:{ symmetry. destruct (str_eqb (trim rest) []) eqn:E; [|reflexivity].
          apply str_eqb_eq in E. contradiction. }
      rewrite trim_idem.
      replace (str_eqb (trim rest) (trim rest)) with true
        by (symmetry; apply str_eqb_eq; reflexivity).
      replace (existsb (Ascii.eqb nl) (trim rest)) with false; [reflexivity|].
      symmetry. destruct (existsb (Ascii.eqb nl) (trim rest)) eqn:E; [|reflexivity].
      apply existsb_exists in E. destruct E as (c & Hin & Hc).
      apply Ascii.eqb_eq in Hc. subst c. unfold no_nl in Hnl.
      rewrite forallb_forall in Hnl. specialize (Hnl nl Hin).
      rewrite Ascii.eqb_refl in Hnl. discriminate Hnl. }
  destruct (matchTodo line) as [[[indentStr mark] titleStr]|] eqn:Em.
  2:{ repeat split; assumption. }
  pose proof (matchTodo_title _ _ _ _ Em) as Htitle.
  assert (Hind : (todo_indent indentStr =? 0) || (todo_indent indentStr =? 1) = true).
  { destruct (todo_indent_range indentStr) as [-> | ->]; reflexivity. }
  destruct inArch; repeat split; cbn [p_items p_archivedItems p_currentNote]; auto.
  - rewrite forallb_app, HA. cbn [forallb andb]. rewrite andb_true_r.
    unfold archived_ok, todo_ok. cbn. rewrite Hind, Htitle. reflexivity.
  - rewrite forallb_app, HI. cbn [forallb andb]. rewrite andb_true_r.
    unfold active_ok, todo_ok. cbn. rewrite Hind, Htitle. reflexivity.
Qed.

Lemma parse_lines_inv (lines : list str) :
  Forall no_nl lines -> forall st, parse_inv st -> parse_inv (parse_lines lines st).
Proof.
  unfold parse_lines. induction 1 as [|l r Hl _ IH]; intros st H; cbn [fold_left];
    [exact H|].
  apply IH, parse_line_inv; assumption.
Qed.

Lemma parseMarkdown_canonical (content : str) (nid : Id) :
  canonical (p_items (parseMarkdown content nid))
            (p_archivedItems (parseMarkdown content nid)) = true.
Proof.
  destruct (parse_lines_inv (split nl content) (split_no_nl content) (parse_init nid))
    as (HI & HA & _).
  - repeat split; constructor.
  - unfold canonical, parseMarkdown. rewrite HI, HA. reflexivity.
Qed.

(** X1. Whatever the text, the lists [parseMarkdown] returns are well
    shaped: an active heading has a non-empty, trimmed title other than
    "Archive"; every todo has indent 0 or 1; the archive holds todos only,
    all of them checked. *)
Theorem parseMarkdown_shape (content : str) (nid : Id) :
  let st := parseMarkdown content nid in
  Forall (fun it => match type it with
                    | heading => title it <> [] /\ trim (title it) = title it
                                 /\ title it <> lit "Archive"
                    | todo => indent it = 0 \/ indent it = 1
                    end) (p_items st)
  /\ Forall (fun it => type it = todo /\ isChecked it = true
                       /\ (indent it = 0 \/ indent it = 1)) (p_archivedItems st).
Proof.
  intros st. pose proof (parseMarkdown_canonical content nid) as C. fold st in C.
  unfold canonical in C. apply andb_prop in C. destruct C as [HI HA].
  rewrite forallb_forall in HI, HA.
  assert (Hchk : all_checked (p_archivedItems st)).
  { apply parse_lines_checked. constructor. }
  unfold all_checked in Hchk. rewrite Forall_forall in Hchk.
  assert (Hind : forall it, todo_ok it = true -> indent it = 0 \/ indent it = 1).
  { intros it H. unfold todo_ok in H. apply andb_prop in H. destruct H as [H _].
    apply orb_true_iff in H. destruct H as [H|H]; apply Z.eqb_eq in H; auto. }
  split; apply Forall_forall; intros it Hin.
  - specialize (HI it Hin). unfold active_ok in HI. apply andb_prop in HI.
    destruct HI as [HI _]. destruct (type it); [apply Hind, HI|].
    unfold heading_ok in HI. repeat (apply andb_prop in HI; destruct HI as [HI ?]).
    repeat split.
    + intros E. rewrite E in HI. discriminate HI.
    + apply str_eqb_eq. assumption.
    + intros E. rewrite E in *. discriminate.
  - specialize (HA it Hin). unfold archived_ok in HA.
    repeat (apply andb_prop in HA; destruct HA as [HA ?]).
    repeat split.
    + destruct (type it); [reflexivity|discriminate HA].
    + apply Hchk, Hin.
    + apply Hind. assumption.
Qed.

(** X2. Reading any text and writing the result never throws, and the text
    written is a fixed point: reading it and writing again reproduces it
    byte for byte, so the normalisation of a file settles after one save. *)
Theorem written_text_is_fixed_point (content : str) (nid nid' : Id) :
  exists text,
    stringifyItems (p_items (parseMarkdown content nid))
                   (p_archivedItems (parseMarkdown content nid)) = Some text
    /\ stringifyItems (p_items (parseMarkdown text nid'))
                      (p_archivedItems (parseMarkdown text nid')) = Some text.
Proof.
  pose proof (parseMarkdown_canonical content nid) as C.
  set (st := parseMarkdown content nid) in *.
  exists (unlines (doc_lines (p_items st) (p_archivedItems st))).
  pose proof (stringifyItems_lines _ _ C) as W. split; [exact W|].
  destruct (parse_written (p_items st) (p_archivedItems st) nid' C) as (EI & EA).
  rewrite EI, EA, stringifyItems_reread. exact W.
Qed.

(** X3. Writing lists in canonical form and reading the text back returns
    the same items in the same order under new ids: type, title and todo
    indent as written; an archived todo checked; a heading at indent 0 and
    unchecked; a note as written unless it is blank, which comes back
    empty. *)
Theorem written_items_are_read_back (itemList archived : list Item) (text : str)
        (nid : Id) :
  canonical itemList archived = true ->
  stringifyItems itemList archived = Some text ->
  p_items (parseMarkdown text nid) = reread_all nid false itemList
  /\ p_archivedItems (parseMarkdown text nid)
     = reread_all (List.length itemList + nid)%nat true archived.
Proof.
  intros C W. rewrite stringifyItems_lines in W by assumption. injection W as <-.
  exact (parse_written itemList archived nid C).
Qed.

Lemma written_items_are_read_back_witness :
  p_items (parseMarkdown sample_text 10%nat) = reread_all 10%nat false sample_items
  /\ p_archivedItems (parseMarkdown sample_text 10%nat)
     = reread_all (List.length sample_items + 10)%nat true sample_archived.
Proof.
  apply (written_items_are_read_back sample_items sample_archived sample_text 10%nat).
  - vm_compute. reflexivity.
  - vm_compute. reflexivity.
Defined.

(** ** HistoryManager *)

Lemma undo_spec (s : State) (h : list Snapshot) (x : Snapshot) :
  isUndoingRedoing s = false ->
  history s = h ++ [x] ->
  HistoryManager.snapshot (undo s) = x
  /\ history (undo s) = h
  /\ future (undo s) = future s ++ [HistoryManager.snapshot s]
  /\ isUndoingRedoing (undo s) = false.
Proof.
  intros Hflag Hh. unfold undo, HistoryManager.undo. rewrite Hflag, Hh, rev_app_distr.
  cbn [rev app snd].
  match goal with |- context [HistoryManager._validateSelection ?t] =>
    destruct (validateSelection_snapshot t) as (E1 & E2 & E3 & E4) end.
  rewrite E1, E2, E3, E4. cbn. rewrite rev_involutive. destruct x; auto.
Qed.

Lemma redo_spec (s : State) (f : list Snapshot) (x : Snapshot) :
  isUndoingRedoing s = false ->
  future s = f ++ [x] ->
  HistoryManager.snapshot (redo s) = x
  /\ history (redo s) = history s ++ [HistoryManager.snapshot s]
  /\ future (redo s) = f
  /\ isUndoingRedoing (redo s) = false.
Proof.
  intros Hflag Hf. unfold redo, HistoryManager.redo. rewrite Hflag, Hf, rev_app_distr.
  cbn [rev app snd].
  match goal with |- context [HistoryManager._validateSelection ?t] =>
    destruct (validateSelection_snapshot t) as (E1 & E2 & E3 & E4) end.
  rewrite E1, E2, E3, E4. cbn. rewrite rev_involutive. destruct x; auto.
Qed.

Lemma nonempty_last {A : Type} (l : list A) : len l > 0 -> exists h x, l = h ++ [x].
Proof.
  intros H. destruct (exists_last (l := l)) as (h & x & E).
  - intros ->. unfold len in H. cbn in H. lia.
  - eauto.
Qed.

(** X4. Undo takes the newest snapshot off the past stack, makes its two
    lists the current ones and puts the lists it replaces on the future
    stack; redo after it is the identity on the data: when there is
    something to undo, [undo()] followed by [redo()] gives back the two
    lists and both stacks exactly as they were. *)
Theorem undo_then_redo (s : State) :
  isUndoingRedoing s = false ->
  HistoryManager.canUndo s = true ->
  (exists older previous,
      history s = older ++ [previous]
      /\ items (undo s) = snap_items previous
      /\ archivedItems (undo s) = snap_archivedItems previous
      /\ history (undo s) = older
      /\ future (undo s) = future s ++ [mkSnapshot (items s) (archivedItems s)])
  /\ items (redo (undo s)) = items s
  /\ archivedItems (redo (undo s)) = archivedItems s
  /\ history (redo (undo s)) = history s
  /\ future (redo (undo s)) = future s.
Proof.
  intros Hflag Hcan. unfold HistoryManager.canUndo in Hcan.
  apply Z.gtb_lt in Hcan.
  destruct (nonempty_last (history s)) as (h & x & Hh); [lia|].
  destruct (undo_spec s h x Hflag Hh) as (U1 & U2 & U3 & U4).
  destruct (redo_spec (undo s) (future s) (HistoryManager.snapshot s) U4 U3)
    as (R1 & R2 & R3 & _).
  split.
  { exists h, x. split; [exact Hh|]. split; [rewrite <- U1; reflexivity|].
    split; [rewrite <- U1; reflexivity|]. split; [exact U2|exact U3]. }
  unfold HistoryManager.snapshot in R1. injection R1 as Ri Ra.
  rewrite R2, U1, U2. auto.
Qed.

Lemma undo_then_redo_witness :
  (exists older previous,
      history new_todo_state = older ++ [previous]
      /\ items (undo new_todo_state) = snap_items previous
      /\ archivedItems (undo new_todo_state) = snap_archivedItems previous
      /\ history (undo new_todo_state) = older
      /\ future (undo new_todo_state)
         = future new_todo_state
           ++ [mkSnapshot (items new_todo_state) (archivedItems new_todo_state)])
  /\ items (redo (undo new_todo_state)) = items new_todo_state
  /\ archivedItems (redo (undo new_todo_state)) = archivedItems new_todo_state
  /\ history (redo (undo new_todo_state)) = history new_todo_state
  /\ future (redo (undo new_todo_state)) = future new_todo_state.
Proof.
  apply (undo_then_redo new_todo_state).
  - reflexivity.
  - reflexivity.
Defined.

(** X5. Redo takes the newest snapshot off the future stack, makes its two
    lists the current ones and puts the lists it replaces on the past stack,
    without a cap; undo after it is the identity on the data: when there is
    something to redo, [redo()] followed by [undo()] gives back the two
    lists and both stacks exactly as they were. *)
Theorem redo_then_undo (s : State) :
  isUndoingRedoing s = false ->
  HistoryManager.canRedo s = true ->
  (exists later next,
      future s = later ++ [next]
      /\ items (redo s) = snap_items next
      /\ archivedItems (redo s) = snap_archivedItems next
      /\ future (redo s) = later
      /\ history (redo s) = history s ++ [mkSnapshot (items s) (archivedItems s)])
  /\ items (undo (redo s)) = items s
  /\ archivedItems (undo (redo s)) = archivedItems s
  /\ history (undo (redo s)) = history s
  /\ future (undo (redo s)) = future s.
Proof.
  intros Hflag Hcan. unfold HistoryManager.canRedo in Hcan.
  apply Z.gtb_lt in Hcan.
  destruct (nonempty_last (future s)) as (f & x & Hf); [lia|].
  destruct (redo_spec s f x Hflag Hf) as (R1 & R2 & R3 & R4).
  destruct (undo_spec (redo s) (history s) (HistoryManager.snapshot s) R4 R2)
    as (U1 & U2 & U3 & _).
  split.
  { exists f, x. split; [exact Hf|]. split; [rewrite <- R1; reflexivity|].
    split; [rewrite <- R1; reflexivity|]. split; [exact R3|exact R2]. }
  unfold HistoryManager.snapshot in U1. injection U1 as Ui Ua.
  rewrite U3, R1, R3. auto.
Qed.

Lemma redo_then_undo_witness :
  (exists later next,
      future (undo new_todo_state) = later ++ [next]
      /\ items (redo (undo new_todo_state)) = snap_items next
      /\ archivedItems (redo (undo new_todo_state)) = snap_archivedItems next
      /\ future (redo (undo new_todo_state)) = later
      /\ history (redo (undo new_todo_state))
         = history (undo new_todo_state)
           ++ [mkSnapshot (items (undo new_todo_state))
                          (archivedItems (undo new_todo_state))])
  /\ items (undo (redo (undo new_todo_state))) = items (undo new_todo_state)
  /\ archivedItems (undo (redo (undo new_todo_state))) = archivedItems (undo new_todo_state)
  /\ history (undo (redo (undo new_todo_state))) = history (undo new_todo_state)
  /\ future (undo (redo (undo new_todo_state))) = future (undo new_todo_state).
Proof.
  apply (redo_then_undo (undo new_todo_state)).
  - reflexivity.
  - reflexivity.
Defined.

Lemma min_of_below (n : Z) (l : IndexSet) (m : Z) :
  Forall (fun idx => idx < n) l -> min_of l = Some m -> m < n.
Proof.
  intros Hl Hm. destruct l as [|x r]; [discriminate|]. cbn in Hm.
  injection Hm as <-. inversion Hl as [|? ? Hx Hr]; subst. clear Hl.
  revert x Hx. induction r as [|y r IH]; intros x Hx; cbn; [exact Hx|].
  inversion Hr; subst. apply IH; [assumption|lia].
Qed.

Lemma filter_below (n : Z) (l : IndexSet) :
  Forall (fun idx => idx < n) (filter (fun idx => idx <? n) l).
Proof.
  apply Forall_forall. intros x Hx. apply filter_In in Hx.
  destruct Hx as [_ Hx]. apply Z.ltb_lt, Hx.
Qed.

Ltac state_fields :=
  cbn [items archivedItems archivedSelectedIndices archivedActiveIndex archivedAnchorIndex
       history future activeIndex anchorIndex selectedIndices editingId isNewItem
       isUndoingRedoing isArchiveHidden clipboard isArchiveActive isArchiveHeaderSelected
       nextId set_items set_archivedItems set_archivedSelectedIndices
       set_archivedActiveIndex set_archivedAnchorIndex set_history set_future
       set_activeIndex set_anchorIndex set_selectedIndices set_editingId set_isNewItem
       set_isUndoingRedoing set_isArchiveHidden set_clipboard set_isArchiveActive
       set_isArchiveHeaderSelected set_nextId] in *.

Ltac no_if t :=
  lazymatch t with
  | context [if _ then _ else _] => fail
  | context [match _ with Some _ => _ | None => _ end] => fail
  | _ => idtac
  end.

(** Case analysis on the integer tests of the goal, innermost first. *)
Ltac split_tests :=
  repeat (state_fields;
          match goal with
          | |- context [?a >=? ?b] => no_if a; no_if b; destruct (Z.geb_spec a b)
          | |- context [?a >? ?b] => no_if a; no_if b; destruct (Z.gtb_spec a b)
          | |- context [?a <? ?b] => no_if a; no_if b; destruct (Z.ltb_spec a b)
          | |- context [?a =? ?b] => no_if a; no_if b; destruct (Z.eqb_spec a b)
          end).

Lemma validateSelection_valid (s : State) :
  selection_valid (HistoryManager._validateSelection s).
Proof.
  destruct s as [its arch asel aact aanch h f act anch sel ed new flag hid clip aa ahs nid].
  unfold selection_valid, HistoryManager._validateSelection. cbv zeta. state_fields.
  pose proof (len_nonneg its) as Hi. pose proof (len_nonneg arch) as Ha.
  pose proof (filter_below (len arch) asel) as Hfil.
  split_tests;
    try (destruct (min_of (filter (fun idx => idx <? len arch) asel)) eqn:Em;
         [pose proof (min_of_below _ _ _ Hfil Em)|]);
    state_fields; repeat split; auto; try lia.
  all: match goal with |- if ?a >=? ?b then _ else _ => destruct (Z.geb_spec a b) end;
    auto; lia.
Qed.
(** X6. After an undo or a redo that was performed, the selection fits the
    restored lists: the active index is below the length of the list and is
    the only selected index (nothing is selected when it is negative), and
    the archive cursor and every selected archive index are below the length
    of the archive. *)
Theorem undo_redo_selection_valid (s s' : State) :
  HistoryManager.undo s = (true, s') \/ HistoryManager.redo s = (true, s') ->
  selection_valid s'.
Proof.
  unfold HistoryManager.undo, HistoryManager.redo. intros [H|H];
    destruct (isUndoingRedoing s); try discriminate H.
  - destruct (rev (history s)); [discriminate H|]. injection H as <-.
    apply validateSelection_valid.
  - destruct (rev (future s)); [discriminate H|]. injection H as <-.
    apply validateSelection_valid.
Qed.

Lemma undo_redo_selection_valid_witness :
  selection_valid (undo new_todo_state).
Proof.
  apply (undo_redo_selection_valid new_todo_state (undo new_todo_state)).
  left. vm_compute. reflexivity.
Defined.

(** *** The bound on the two stacks *)

Lemma bounded_of_view (s s' : State) :
  stacks_view s' = stacks_view s -> history_bounded s -> history_bounded s'.
Proof.
  unfold stacks_view, history_bounded. intros V. injection V as _ -> -> ->. auto.
Qed.

Lemma save_bounded (s : State) : history_bounded s -> history_bounded (saveState s).
Proof.
  unfold history_bounded, saveState, HistoryManager.save. intros (F & B).
  rewrite F. state_fields. split; [assumption|].
  unfold HistoryManager.push_capped, Constants.MAX_HISTORY_SIZE in *.
  pose proof (len_nonneg (future s)).
  set (h' := history s ++ [HistoryManager.snapshot s]).
  assert (Hl : len h' = len (history s) + 1) by (unfold h'; rewrite len_app; reflexivity).
  change (len (@nil Snapshot)) with 0.
  destruct (Z.gtb_spec (len h') 50); [|lia].
  assert (len (tl h') = len h' - 1); [|lia].
  destruct h'; unfold len in *; cbn [tl List.length] in *; lia.
Qed.

Lemma len_removelast {A : Type} (l : list A) : len (removelast l) <= len l.
Proof.
  unfold len. induction l as [|x l IH]; [cbn; lia|].
  cbn [removelast]. destruct l; cbn [List.length] in *; lia.
Qed.

Lemma popLast_bounded (s : State) :
  history_bounded s -> history_bounded (HistoryManager.popLast s).
Proof.
  unfold history_bounded, HistoryManager.popLast. intros (F & B).
  destruct (_ >? 0); state_fields; split; auto.
  pose proof (len_removelast (history s)). lia.
Qed.

Lemma undo_bounded (s : State) : history_bounded s -> history_bounded (undo s).
Proof.
  intros (F & B). destruct (history s) as [|x0 l0] eqn:E.
  - unfold undo. rewrite undo_empty by assumption. split; [assumption|].
    rewrite E. exact B.
  - destruct (nonempty_last (history s)) as (h & x & Hh).
    { rewrite E. unfold len. cbn [List.length]. lia. }
    destruct (undo_spec s h x F Hh) as (_ & U2 & U3 & U4).
    split; [assumption|]. rewrite U2, U3. rewrite <- E, Hh, !len_app in B.
    rewrite len_app. unfold len in *. cbn [List.length] in *. lia.
Qed.

Lemma redo_bounded (s : State) : history_bounded s -> history_bounded (redo s).
Proof.
  intros (F & B). destruct (future s) as [|x0 l0] eqn:E.
  - unfold redo, HistoryManager.redo. rewrite F, E. cbn. split; [assumption|].
    rewrite E. exact B.
  - destruct (nonempty_last (future s)) as (f & x & Hf).
    { rewrite E. unfold len. cbn [List.length]. lia. }
    destruct (redo_spec s f x F Hf) as (_ & R2 & R3 & R4).
    split; [assumption|]. rewrite R2, R3. rewrite <- E, Hf, !len_app in B.
    rewrite len_app. unfold len in *. cbn [List.length] in *. lia.
Qed.

Lemma stopEditing_bounded save value s s' :
  stopEditing save value s = Some s' -> history_bounded s -> history_bounded s'.
Proof.
  intros H C. unfold stopEditing in H.
  destruct (isUndoingRedoing s); [injection H as <-; exact C|].
  destruct (editingId s); [|injection H as <-; exact C].
  destruct (_ =? -1).
  { injection H as <-. revert C. apply bounded_of_view. reflexivity. }
  assert (Hcancel : forall idx, history_bounded (EditingManager._cancelNewItem idx s)).
  { intros idx. unfold EditingManager._cancelNewItem.
    eapply bounded_of_view; [reflexivity|]. apply popLast_bounded.
    eapply bounded_of_view; [apply deleteSingle_view|exact C]. }
  destruct save.
  - unfold EditingManager.saveEdit in H.
    destruct (_ && _); [injection H as <-; apply Hcancel|].
    destruct (str_eqb _ _).
    + injection H as <-. eapply bounded_of_view; [reflexivity|].
      eapply bounded_of_view; [apply deleteSingle_view|]. apply save_bounded, C.
    + unfold EditingManager._saveTitle, bind in H.
      destruct (get _ _); [|discriminate]. cbv zeta in H. injection H as <-.
      eapply bounded_of_view; [reflexivity|].
      destruct (negb (str_eqb _ _)); [|exact C].
      eapply bounded_of_view; [reflexivity|]. destruct (negb (isNewItem s)); [|exact C].
      apply save_bounded, C.
  - injection H as <-. unfold EditingManager.cancelEdit.
    destruct (isNewItem s); [apply Hcancel|]. revert C. apply bounded_of_view. reflexivity.
Qed.

Lemma moveToHeading_bounded step chk s s' :
  moveToHeading step chk s = Some s' -> history_bounded s -> history_bounded s'.
Proof.
  intros H C. unfold moveToHeading in H. cbv zeta in H.
  assert (C0 : history_bounded (select_active_if_empty s))
    by (revert C; apply bounded_of_view, select_active_view).
  destruct (_ =? 0); [injection H as <-; exact C0|].
  destruct (heading_loop _ _ _ _) as [items' moved].
  apply save_bounded in C0.
  destruct (negb moved); [injection H as <-; exact C0|].
  destruct (_ && _); [discriminate|]. injection H as <-.
  eapply bounded_of_view; [|exact C0].
  break_match_goal; reflexivity.
Qed.

Lemma moveToArchive_bounded s s' :
  moveToArchive s = Some s' -> history_bounded s -> history_bounded s'.
Proof.
  intros H C. unfold moveToArchive, bind in H. cbv zeta in H.
  assert (C0 : history_bounded (select_active_if_empty s))
    by (revert C; apply bounded_of_view, select_active_view).
  destruct (_ =? 0); [injection H as <-; exact C0|].
  apply save_bounded in C0.
  destruct (ItemUtils.collectItemsToProcess _ _ _) as [|x toMove];
    [injection H as <-; exact C0|].
  destruct (min_of _); [|injection H as <-; exact C0].
  destruct (DeleteManager.types_of _ _); [|discriminate].
  destruct (archive_loop _ _ _) as [items' moved].
  injection H as <-. exact C0.
Qed.

Lemma moveFromArchive_bounded s s' :
  moveFromArchive s = Some s' -> history_bounded s -> history_bounded s'.
Proof.
  intros H C. unfold moveFromArchive, bind in H. cbv zeta in H.
  destruct (_ =? 0); [injection H as <-; exact C|].
  destruct (restore_collect _ _ _) as [toRestore|]; [|discriminate].
  destruct (restore_remove _ _ _) as [archived' moved].
  injection H as <-. apply save_bounded in C. exact C.
Qed.

Lemma pasteItems_bounded s s' :
  pasteItems s = Some s' -> history_bounded s -> history_bounded s'.
Proof.
  intros H C. unfold pasteItems, bind in H.
  destruct (_ =? 0); [injection H as <-; exact C|]. cbv zeta in H.
  destruct (paste_insertIndex _); [|discriminate].
  pose proof (deepCopyItems_view (clipboard (saveState s)) true (saveState s)) as V.
  destruct (ItemUtils.deepCopyItems _ _ _) as [pasted s2]. cbn [snd] in V.
  destruct (ItemUtils.adjustOrphanedIndent _ _ _); [|discriminate].
  injection H as <-.
  eapply bounded_of_view; [apply insert_and_select_view|].
  eapply bounded_of_view; [exact V|]. apply save_bounded, C.
Qed.

Lemma duplicateItems_bounded s s' :
  duplicateItems s = Some s' -> history_bounded s -> history_bounded s'.
Proof.
  intros H C. unfold duplicateItems, bind in H.
  destruct (max_of _); [|injection H as <-; exact C]. cbv zeta in H.
  match type of H with
  | context [ItemUtils.deepCopyItems ?l ?b ?t] =>
    pose proof (deepCopyItems_view l b t) as V;
      destruct (ItemUtils.deepCopyItems l b t) as [dup s2]
  end.
  cbn [snd] in V.
  destruct (ItemUtils.adjustOrphanedIndent _ _ _); [|discriminate].
  injection H as <-.
  eapply bounded_of_view; [apply insert_and_select_view|].
  eapply bounded_of_view; [exact V|]. apply save_bounded, C.
Qed.

Lemma cutItems_bounded s s' :
  cutItems s = Some s' -> history_bounded s -> history_bounded s'.
Proof.
  intros H C. unfold cutItems, deleteItems in H. cbv zeta in H.
  destruct (_ =? 0); [injection H as <-; exact C|].
  eapply bounded_of_view; [eapply deleteMultiple_view; exact H|].
  apply save_bounded. revert C. apply bounded_of_view. reflexivity.
Qed.

Lemma saveNote_bounded a b s : history_bounded s -> history_bounded (saveNote a b s).
Proof.
  intros C. unfold saveNote.
  match goal with
  | |- context [match ?x with Some _ => _ | None => _ end] => destruct x
  end; [|exact C].
  cbv zeta.
  destruct (negb _); [|exact C].
  eapply bounded_of_view; [reflexivity|]. apply save_bounded.
  revert C. apply bounded_of_view. reflexivity.
Qed.

Lemma handle_bounded e s s' :
  handle e s = Some s' -> history_bounded s -> history_bounded s'.
Proof.
  intros H C. destruct e; cbn [handle] in H;
    unfold KeyboardHandler.handleKeydown, bind in H;
    try (destruct (editingId s) eqn:Eed; [injection H as <-; exact C|]).
  - (* ClickAddTodo *)
    eapply bounded_of_view; [eapply addItem_view; exact H|]. apply save_bounded, C.
  - (* ClickAddHeading *)
    eapply bounded_of_view; [eapply addItem_view; exact H|]. apply save_bounded, C.
  - (* KeyNewItem *)
    unfold KeyboardHandler.handleEnter_new in H.
    destruct (isArchiveHeaderSelected s);
      [injection H as <-; revert C; apply bounded_of_view; reflexivity|].
    destruct (isArchiveActive s); [injection H as <-; exact C|].
    destruct (_ >=? 0);
      (eapply bounded_of_view; [eapply addItem_view; exact H|]; apply save_bounded, C).
  - (* KeyEditItem *)
    unfold KeyboardHandler.handleEnter_edit, bind in H.
    revert C. apply bounded_of_view. break_all; reflexivity.
  - (* DoubleClick *)
    revert C. apply bounded_of_view. break_all; reflexivity.
  - (* EditEnter *)
    unfold editEnter in H. destruct (editingId s) eqn:E; [|injection H as <-; exact C].
    eapply stopEditing_bounded; [exact H|]. revert C. apply bounded_of_view. reflexivity.
  - (* EditBlur *) eapply stopEditing_bounded; eassumption.
  - (* EditEscape *) eapply stopEditing_bounded; eassumption.
  - (* EditTab *)
    eapply bounded_of_view; [eapply editTab_view; exact H|exact C].
  - (* KeyTab *)
    unfold KeyboardHandler.handleTab, changeIndent, IndentManager.changeIndent in H.
    destruct (isArchiveActive s); [injection H as <-; exact C|].
    destruct (_ >? 0); [|injection H as <-; exact C].
    eapply bounded_of_view; [eapply changeIndent_loop_view; exact H|].
    apply save_bounded, C.
  - (* KeyDelete *)
    unfold KeyboardHandler.handleDelete in H.
    destruct (isArchiveActive s).
    + destruct (_ >? 0); [|injection H as <-; exact C].
      apply save_bounded in C.
      unfold deleteArchivedItems, ArchiveDeleteManager.deleteMultiple, bind in H.
      destruct (_ =? 0); [injection H as <-; exact C|].
      destruct (ArchiveDeleteManager.collectIndicesToDelete _ _); [|discriminate].
      unfold ArchiveDeleteManager.deleteByIndices in H. injection H as <-.
      unfold ArchiveDeleteManager.resetSelectionAfterDelete. cbv zeta.
      destruct (_ >? 0); exact C.
    + destruct (_ >? 0); [|injection H as <-; exact C].
      eapply bounded_of_view; [eapply deleteMultiple_view; exact H|].
      apply save_bounded, C.
  - (* KeySpace *)
    injection H as <-. unfold KeyboardHandler.handleSpace.
    destruct (isArchiveActive s); [exact C|]. unfold toggleChecked.
    destruct (_ =? 0); [exact C|]. cbv zeta.
    eapply bounded_of_view; [reflexivity|]. apply save_bounded, C.
  - (* KeyMove *)
    unfold KeyboardHandler.handleArrow_cmd in H.
    destruct (_ && _); [|injection H as <-; exact C].
    unfold moveItem in H.
    destruct (_ <? 0); [injection H as <-; exact C|].
    destruct (ItemUtils.isArchiveHeading _); [injection H as <-; exact C|].
    cbv zeta in H. apply save_bounded in C.
    destruct (_ >? 1).
    + eapply bounded_of_view; [eapply moveMultipleItems_view; exact H|exact C].
    + eapply bounded_of_view; [eapply moveSingleItem_view; exact H|exact C].
  - (* KeyMoveToNextHeading *)
    unfold KeyboardHandler.handleArrowRight_cmd in H.
    destruct (isArchiveActive s); [injection H as <-; exact C|].
    eapply moveToHeading_bounded; eassumption.
  - (* KeyMoveToPrevHeading *)
    unfold KeyboardHandler.handleArrowLeft_cmd in H.
    destruct (negb _); [|injection H as <-; exact C].
    eapply moveToHeading_bounded; eassumption.
  - (* KeyArchive *)
    unfold KeyboardHandler.handleArrowRight_cmd in H.
    destruct (isArchiveActive s); [injection H as <-; exact C|].
    eapply moveToArchive_bounded; eassumption.
  - (* KeyRestore *)
    unfold KeyboardHandler.handleArrowLeft_cmd in H.
    eapply moveFromArchive_bounded; eassumption.
  - (* KeyUndo *) injection H as <-. apply undo_bounded, C.
  - (* KeyRedo *) injection H as <-. apply redo_bounded, C.
  - (* KeyCopy *)
    injection H as <-. revert C. apply bounded_of_view.
    unfold copyItems. destruct (_ =? 0); reflexivity.
  - (* KeyCut *) eapply cutItems_bounded; eassumption.
  - (* KeyPaste *) eapply pasteItems_bounded; eassumption.
  - (* KeyDuplicate *) eapply duplicateItems_bounded; eassumption.
  - (* ClickCheckbox *)
    destruct (get _ _); [|discriminate]. injection H as <-.
    revert C. apply bounded_of_view. reflexivity.
  - (* ClickItem *)
    destruct (get _ _); [|discriminate]. unfold clickItem in H. cbv zeta in H.
    assert (V : stacks_view s' = stacks_view s).
    { destruct extend; [|destruct toggle];
        (erewrite selectItem_view; [|exact H]; reflexivity). }
    revert C. apply bounded_of_view, V.
  - (* ClickArchiveHeader *)
    destruct (_ >? 0); [|discriminate]. injection H as <-.
    revert C. apply bounded_of_view. reflexivity.
  - (* ClickArchivedItem *)
    destruct (isArchiveHidden s); [discriminate|].
    destruct (get _ _); [|discriminate]. injection H as <-.
    revert C. apply bounded_of_view. unfold clickArchivedItem. cbv zeta.
    destruct mode; break_match_goal; reflexivity.
  - (* Navigate *)
    injection H as <-. revert C. apply bounded_of_view. reflexivity.
  - (* SaveNote *) injection H as <-. apply saveNote_bounded, C.
  - (* MsgUpdate *)
    injection H as <-. unfold loadOutline. cbv zeta.
    destruct (_ >=? _); exact C.
  - (* MsgClearArchiveConfirmed *)
    injection H as <-. apply save_bounded in C. exact C.
Qed.

(** X7. In every state the webview can reach, the undo stack and the redo
    stack together hold at most [MAX_HISTORY_SIZE] (50) snapshots, and the
    guard flag of undo and redo is down. *)
Theorem reachable_history_bounded (s : State) :
  reachable s -> history_bounded s.
Proof.
  intros (events & H).
  assert (C : history_bounded initialState) by (split; [reflexivity|vm_compute; discriminate]).
  revert H C. generalize initialState. induction events as [|e r IH]; intros s0 H C.
  - cbn in H. injection H as <-. exact C.
  - cbn [run] in H. unfold bind in H. destruct (handle e s0) as [s1|] eqn:E; [|discriminate].
    eapply IH; [exact H|]. eapply handle_bounded; eassumption.
Qed.

Lemma reachable_history_bounded_witness : history_bounded new_todo_state.
Proof.
  apply (reachable_history_bounded new_todo_state).
  exists [ClickAddTodo]. reflexivity.
Defined.

(** ** Moving items: nothing is lost *)

Lemma take_drop {A : Type} (i : Z) (l : list A) : take i l ++ drop i l = l.
Proof. apply firstn_skipn. Qed.

Lemma splice_insert_perm {A : Type} (m : list A) (j : Z) (xs : list A) :
  Permutation (xs ++ m) (splice_insert m j xs).
Proof.
  unfold splice_insert. rewrite <- (take_drop j m) at 1.
  apply Permutation_app_swap_app.
Qed.

Lemma slice_remove_perm {A : Type} (l : list A) (a n : Z) :
  0 <= a -> 0 <= n -> Permutation l (slice l a (a + n) ++ splice_remove l a n).
Proof.
  intros Ha Hn. unfold slice, splice_remove, take, drop.
  replace (Z.to_nat (a + n - a)) with (Z.to_nat n) by lia.
  replace (Z.to_nat (a + Z.max 0 n)) with (Z.to_nat n + Z.to_nat a)%nat by lia.
  rewrite <- skipn_skipn.
  transitivity (firstn (Z.to_nat a) l
                ++ firstn (Z.to_nat n) (skipn (Z.to_nat a) l)
                ++ skipn (Z.to_nat n) (skipn (Z.to_nat a) l)).
  - rewrite !firstn_skipn. reflexivity.
  - apply Permutation_app_swap_app.
Qed.

Lemma block_moved_perm (l l' : list Item) : block_moved l l' -> Permutation l l'.
Proof.
  intros [->|(a & n & j & Ha & Hn & ->)]; [reflexivity|].
  etransitivity; [apply (slice_remove_perm l a n Ha Hn)|]. apply splice_insert_perm.
Qed.

Lemma slice_one {A : Type} (l : list A) (i : Z) (x : A) :
  get l i = Some x -> slice l i (i + 1) = [x].
Proof.
  intros H. pose proof (get_Some_bounds l i x H) as B.
  destruct (get_split l i x H) as (l1 & l2 & -> & L & _ & _).
  unfold slice, take, drop. replace (Z.to_nat (i + 1 - i)) with 1%nat by lia.
  unfold len in L. replace (Z.to_nat i) with (List.length l1 + 0)%nat by lia.
  rewrite skipn_app, skipn_all2 by lia.
  replace (List.length l1 + 0 - List.length l1)%nat with 0%nat by lia. reflexivity.
Qed.

Lemma moveSingleItem_block direction s s' :
  moveSingleItem direction s = Some s' -> block_moved (items s) (items s').
Proof.
  intros H. unfold moveSingleItem, bind in H.
  destruct (get (items s) (activeIndex s)) as [item|] eqn:G; [|discriminate].
  pose proof (get_Some_bounds _ _ _ G) as B.
  destruct (MoveUtils.getBlockCount (items s) (activeIndex s)) as [count|] eqn:Ec;
    [|discriminate].
  assert (Hc : 0 <= count).
  { unfold MoveUtils.getBlockCount in Ec. rewrite G in Ec. cbn [bind] in Ec.
    injection Ec as <-.
    pose proof (run_length_bounds (fun i => negb (is_heading i))
                                  (drop (activeIndex s + 1) (items s))).
    pose proof (run_length_bounds ItemUtils.continuesBlock
                                  (drop (activeIndex s + 1) (items s))).
    break_match_goal; lia. }
  pose proof (slice_one _ _ _ G) as S1.
  destruct direction;
    [unfold moveSingleUp, bind in H|unfold moveSingleDown, bind in H];
    cbv zeta in H;
    break_all; try (left; reflexivity); rewrite selectItem1_items; state_fields; right;
      solve [ eexists (activeIndex s), count, _; repeat split; lia
            | eexists (activeIndex s), 1, _; rewrite S1; repeat split; lia ].
Qed.

Lemma expand_loop_in_range (l : list Item) (indices : list Z) :
  forall acc r, MoveUtils.expand_loop l indices acc = Some r ->
                Forall (fun i => 0 <= i) indices.
Proof.
  induction indices as [|i rest IH]; intros acc r H; [constructor|].
  cbn [MoveUtils.expand_loop] in H. unfold bind in H.
  destruct (get l i) eqn:G; [|discriminate].
  constructor; [apply (get_Some_bounds _ _ _ G)|]. eapply IH. exact H.
Qed.

Lemma moveMultipleItems_block direction s s' :
  moveMultipleItems direction s = Some s' -> block_moved (items s) (items s').
Proof.
  intros H. unfold moveMultipleItems, bind in H. cbv zeta in H.
  destruct (MoveUtils.expandSelectionWithChildren _ _) as [finalIndices|]; [|discriminate].
  destruct (get (items s) (hd 0 finalIndices)) as [first|] eqn:G; [|discriminate].
  pose proof (get_Some_bounds _ _ _ G) as B.
  pose proof (len_nonneg finalIndices) as Hc.
  destruct (_ && _); [injection H as <-; left; reflexivity|].
  destruct (negb _); [injection H as <-; left; reflexivity|].
  destruct direction.
  - unfold moveMultipleUp, bind in H. cbv zeta in H.
    break_all; try (left; reflexivity); state_fields; right;
      eexists (hd 0 finalIndices), (len finalIndices), _; repeat split; lia || auto.
  - unfold moveMultipleDown, bind in H. cbv zeta in H.
    break_all; try (left; reflexivity); state_fields; right;
      eexists (hd 0 finalIndices), (len finalIndices), _; repeat split; lia || auto.
Qed.

(** X8. [moveItem] never loses, duplicates or alters an item: when it
    returns, the active list is the old one with at most one block of
    consecutive items taken out and put back elsewhere, hence a permutation
    of it, and the archive is untouched. *)
Theorem moveItem_permutes (direction : Direction) (s s' : State) :
  moveItem direction s = Some s' ->
  block_moved (items s) (items s')
  /\ Permutation (items s) (items s')
  /\ archivedItems s' = archivedItems s.
Proof.
  intros H.
  assert (Hb : block_moved (items s) (items s') /\ archivedItems s' = archivedItems s).
  { unfold moveItem in H.
    destruct (_ <? 0); [injection H as <-; split; [left|]; reflexivity|].
    destruct (ItemUtils.isArchiveHeading _); [injection H as <-; split; [left|]; reflexivity|].
    cbv zeta in H. destruct (save_fields s) as (Ei & Ea & _). rewrite <- Ei, <- Ea.
    destruct (_ >? 1).
    - split; [eapply moveMultipleItems_block; exact H|].
      apply moveMultipleItems_view in H. unfold stacks_view in H. congruence.
    - split; [eapply moveSingleItem_block; exact H|].
      apply moveSingleItem_view in H. unfold stacks_view in H. congruence. }
  destruct Hb as [Hb Ha]. repeat split; [exact Hb|apply block_moved_perm, Hb|exact Ha].
Qed.
Lemma moveItem_permutes_witness :
  block_moved (items two_todos_state) (items two_todos_moved)
  /\ Permutation (items two_todos_state) (items two_todos_moved)
  /\ archivedItems two_todos_moved = archivedItems two_todos_state.
Proof.
  apply (moveItem_permutes up two_todos_state two_todos_moved).
  vm_compute. reflexivity.
Defined.

(** ** Archive, restore and the moves to a heading: nothing is lost *)

Lemma index_of_id_range (l : list Item) (i : Id) :
  index_of_id l i <> -1 -> 0 <= index_of_id l i < len l.
Proof.
  unfold index_of_id. intros H. destruct (findIndex_bounds (fun x => Nat.eqb (id x) i) l);
    [contradiction|assumption].
Qed.

Lemma getItemWithChildren_slice (l : list Item) (index : Z) (moving : list Item) (count : Z) :
  ItemUtils.getItemWithChildren l index = (moving, count) ->
  moving = slice l index (index + count) /\ 0 <= count.
Proof.
  unfold ItemUtils.getItemWithChildren. intros H.
  destruct (_ || _); [injection H as <- <-; split; [|lia]|].
  { unfold slice, take. replace (Z.to_nat (index + 0 - index)) with 0%nat by lia.
    reflexivity. }
  destruct (get l index); [|injection H as <- <-; split; [|lia]].
  2:{ unfold slice, take. replace (Z.to_nat (index + 0 - index)) with 0%nat by lia.
      reflexivity. }
  injection H as <- <-. split; [reflexivity|].
  pose proof (run_length_bounds (fun i => negb (is_heading i)) (drop (index + 1) l)).
  pose proof (run_length_bounds ItemUtils.continuesBlock (drop (index + 1) l)).
  break_match_goal; lia.
Qed.

Lemma archive_loop_conserves (toMove : list Item) :
  forall l m l' m',
    archive_loop toMove l m = (l', m') ->
    exists taken, m' = m ++ map (set_isChecked true) taken /\ Permutation l (l' ++ taken).
Proof.
  induction toMove as [|x r IH]; intros l m l' m' H; cbn [archive_loop] in H.
  - injection H as <- <-. exists []. rewrite !app_nil_r. split; reflexivity.
  - destruct (Z.eqb_spec (index_of_id l (id x)) (-1)) as [E|E]; [eapply IH; exact H|].
    apply index_of_id_range in E.
    destruct (ItemUtils.getItemWithChildren l (index_of_id l (id x))) as [moving count] eqn:G.
    apply getItemWithChildren_slice in G. destruct G as [-> Hc].
    apply IH in H. destruct H as (taken & -> & P).
    eexists (_ ++ taken). rewrite map_app, app_assoc. split; [reflexivity|].
    etransitivity; [apply (slice_remove_perm l (index_of_id l (id x)) count); lia|].
    rewrite P. rewrite !app_assoc. apply Permutation_app_tail, Permutation_app_comm.
Qed.

(** X9. Archive splits the active list into what stays and what goes: when
    [moveToArchive] returns, the old active list is a permutation of the new
    one together with the items taken, and the archive is the items taken,
    each set checked, in front of the old archive. *)
Theorem moveToArchive_conserves (s s' : State) :
  moveToArchive s = Some s' ->
  exists taken,
    archivedItems s' = map (set_isChecked true) taken ++ archivedItems s
    /\ Permutation (items s) (items s' ++ taken).
Proof.
  intros H. unfold moveToArchive, bind in H. cbv zeta in H.
  assert (E0 : items (select_active_if_empty s) = items s
               /\ archivedItems (select_active_if_empty s) = archivedItems s).
  { unfold select_active_if_empty. destruct (_ && _); split; reflexivity. }
  destruct E0 as [Ei Ea].
  destruct (save_fields (select_active_if_empty s)) as (Si & Sa & _).
  assert (Hsame : forall t, items t = items s -> archivedItems t = archivedItems s ->
                            exists taken,
                              archivedItems t = map (set_isChecked true) taken ++ archivedItems s
                              /\ Permutation (items s) (items t ++ taken)).
  { intros t Hi Ha. exists []. rewrite Hi, Ha, app_nil_r. split; reflexivity. }
  destruct (_ =? 0); [injection H as <-; apply Hsame; assumption|].
  destruct (ItemUtils.collectItemsToProcess _ _ _) as [|x toMove];
    [injection H as <-; apply Hsame; congruence|].
  destruct (min_of _); [|injection H as <-; apply Hsame; congruence].
  destruct (DeleteManager.types_of _ _); [|discriminate].
  destruct (archive_loop _ _ _) as [items' moved] eqn:L.
  apply archive_loop_conserves in L. destruct L as (taken & -> & P).
  injection H as <-. state_fields. exists taken. rewrite Sa, Ea. split; [reflexivity|].
  rewrite <- Ei, <- Si. exact P.
Qed.

Lemma restore_remove_conserves (indices : list Z) :
  forall archived moved archived' moved',
    restore_remove indices archived moved = (archived', moved') ->
    exists taken, moved' = moved ++ map (set_isChecked false) taken
                  /\ Permutation archived (archived' ++ taken).
Proof.
  induction indices as [|i r IH]; intros archived moved archived' moved' H;
    cbn [restore_remove] in H.
  - injection H as <- <-. exists []. rewrite !app_nil_r. split; reflexivity.
  - destruct ((i >=? 0) && (i <? len archived)) eqn:B; [|eapply IH; exact H].
    destruct (get archived i) as [item|] eqn:G; [|eapply IH; exact H].
    apply IH in H. destruct H as (taken & -> & P).
    exists (item :: taken). cbn [map]. rewrite <- app_assoc. split; [reflexivity|].
    pose proof (get_Some_bounds _ _ _ G) as Hb.
    etransitivity; [apply (slice_remove_perm archived i 1); lia|].
    rewrite (slice_one _ _ _ G), P. cbn [app]. apply Permutation_middle.
Qed.

(** X10. Restore splits the archive into what stays and what goes: when
    [moveFromArchive] returns, the old archive is a permutation of the new
    one together with the items taken, and the active list is the old one
    followed by the items taken, each set unchecked. *)
Theorem moveFromArchive_conserves (s s' : State) :
  moveFromArchive s = Some s' ->
  exists taken,
    items s' = items s ++ map (set_isChecked false) taken
    /\ Permutation (archivedItems s) (archivedItems s' ++ taken).
Proof.
  intros H. unfold moveFromArchive, bind in H. cbv zeta in H.
  destruct (_ =? 0).
  { injection H as <-. exists []. rewrite !app_nil_r. split; reflexivity. }
  destruct (restore_collect _ _ _) as [toRestore|]; [|discriminate].
  destruct (restore_remove _ _ _) as [archived' moved] eqn:R.
  apply restore_remove_conserves in R. destruct R as (taken & -> & P).
  injection H as <-. state_fields. destruct (save_fields s) as (Si & Sa & _).
  rewrite Si, Sa in *. exists (rev taken). cbn [app]. rewrite map_rev. split; [reflexivity|].
  rewrite P. apply Permutation_app_head, Permutation_rev.
Qed.
Lemma moveToArchive_conserves_witness :
  exists taken,
    archivedItems scenario_archived
    = map (set_isChecked true) taken ++ archivedItems scenario_archive_state
    /\ Permutation (items scenario_archive_state) (items scenario_archived ++ taken).
Proof.
  apply (moveToArchive_conserves scenario_archive_state scenario_archived).
  vm_compute. reflexivity.
Defined.

Lemma moveFromArchive_conserves_witness :
  exists taken,
    items scenario_restored
    = items scenario_archive_selected ++ map (set_isChecked false) taken
    /\ Permutation (archivedItems scenario_archive_selected)
                   (archivedItems scenario_restored ++ taken).
Proof.
  apply (moveFromArchive_conserves scenario_archive_selected scenario_restored).
  vm_compute. reflexivity.
Defined.

Lemma map_promote_root (l : list Item) :
  map (set_indent 0) (promote_root l) = map (set_indent 0) l.
Proof.
  unfold promote_root. destruct l as [|root rest]; [reflexivity|].
  destruct (_ =? _); reflexivity.
Qed.

Lemma promoted_block_perm (l : list Item) (a n j : Z) :
  0 <= a -> 0 <= n ->
  Permutation (map (set_indent 0) l)
              (map (set_indent 0)
                   (splice_insert (splice_remove l a n) j (promote_root (slice l a (a + n))))).
Proof.
  intros Ha Hn. unfold splice_insert. rewrite !map_app, map_promote_root, <- !map_app.
  apply Permutation_map.
  etransitivity; [apply (slice_remove_perm l a n); assumption|].
  apply splice_insert_perm.
Qed.

Lemma next_heading_step_perm (l l' : list Item) (item : Item) :
  next_heading_step l item = Some l' ->
  Permutation (map (set_indent 0) l) (map (set_indent 0) l').
Proof.
  unfold next_heading_step. cbv zeta.
  destruct (Z.eqb_spec (index_of_id l (id item)) (-1)) as [E|E]; [discriminate|].
  apply index_of_id_range in E.
  destruct (ItemUtils.getItemWithChildren l (index_of_id l (id item))) as [moving count] eqn:G.
  apply getItemWithChildren_slice in G. destruct G as [-> Hc].
  destruct (_ =? -1); [discriminate|].
  destruct (ItemUtils.isArchiveHeading _); [discriminate|].
  intros H. injection H as <-. apply promoted_block_perm; lia.
Qed.

Lemma prev_heading_step_perm (l l' : list Item) (item : Item) :
  prev_heading_step l item = Some l' ->
  Permutation (map (set_indent 0) l) (map (set_indent 0) l').
Proof.
  unfold prev_heading_step. cbv zeta.
  destruct (Z.eqb_spec (index_of_id l (id item)) (-1)) as [E|E]; [discriminate|].
  apply index_of_id_range in E.
  destruct (ItemUtils.getItemWithChildren l (index_of_id l (id item))) as [moving count] eqn:G.
  apply getItemWithChildren_slice in G. destruct G as [-> Hc].
  destruct (_ =? _); [discriminate|].
  intros H. injection H as <-. apply promoted_block_perm; lia.
Qed.

Lemma heading_loop_perm (step : list Item -> Item -> option (list Item)) :
  (forall l l' item, step l item = Some l' ->
                     Permutation (map (set_indent 0) l) (map (set_indent 0) l')) ->
  forall toMove l moved,
    Permutation (map (set_indent 0) l)
                (map (set_indent 0) (fst (heading_loop step toMove l moved))).
Proof.
  intros Hstep. induction toMove as [|x r IH]; intros l moved; cbn [heading_loop fst];
    [reflexivity|].
  destruct (step l x) as [l1|] eqn:E; [|apply IH].
  etransitivity; [eapply Hstep; exact E|]. apply IH.
Qed.

Lemma moveToHeading_perm step chk s s' :
  (forall l l' item, step l item = Some l' ->
                     Permutation (map (set_indent 0) l) (map (set_indent 0) l')) ->
  moveToHeading step chk s = Some s' ->
  Permutation (map (set_indent 0) (items s)) (map (set_indent 0) (items s'))
  /\ archivedItems s' = archivedItems s.
Proof.
  intros Hstep H. unfold moveToHeading in H. cbv zeta in H.
  assert (E0 : items (select_active_if_empty s) = items s
               /\ archivedItems (select_active_if_empty s) = archivedItems s).
  { unfold select_active_if_empty. destruct (_ && _); split; reflexivity. }
  destruct E0 as [Ei Ea].
  destruct (save_fields (select_active_if_empty s)) as (Si & Sa & _).
  destruct (_ =? 0); [injection H as <-; rewrite Ei, Ea; split; reflexivity|].
  match type of H with
  | context [heading_loop step ?t ?l ?m] =>
    pose proof (heading_loop_perm step Hstep t l m) as P;
      destruct (heading_loop step t l m) as [items' moved]
  end.
  cbn [fst] in P. rewrite Si, Ei in P.
  destruct (negb moved).
  { injection H as <-. state_fields. split; [exact P|congruence]. }
  destruct (_ && _); [discriminate|]. injection H as <-.
  unfold SelectionManager.restoreState, SelectionManager.captureState.
  split.
  - break_match_goal; state_fields; exact P.
  - break_match_goal; state_fields; congruence.
Qed.

(** X11. The moves to the next and to the previous heading never lose or
    duplicate an item and change nothing of an item but its indent: when
    either returns, the active list is a permutation of the old one up to
    the indent of the items, and the archive is untouched. *)
Theorem moveToHeading_conserves (s s' : State) :
  moveToNextHeading s = Some s' \/ moveToPrevHeading s = Some s' ->
  Permutation (map (set_indent 0) (items s)) (map (set_indent 0) (items s'))
  /\ archivedItems s' = archivedItems s.
Proof.
  intros [H|H].
  - eapply moveToHeading_perm; [exact next_heading_step_perm|exact H].
  - eapply moveToHeading_perm; [exact prev_heading_step_perm|exact H].
Qed.
Lemma moveToHeading_conserves_witness :
  Permutation (map (set_indent 0) (items todo_then_heading_state))
              (map (set_indent 0) (items todo_then_heading_moved))
  /\ archivedItems todo_then_heading_moved = archivedItems todo_then_heading_state.
Proof.
  apply (moveToHeading_conserves todo_then_heading_state todo_then_heading_moved).
  left. vm_compute. reflexivity.
Defined.

(** ** IndentManager *)

Lemma noChild_app (b : bool) (l1 : list Item) (x : Item) (l2 : list Item) :
  noChildAtSectionStart_from b (l1 ++ x :: l2)
  = noChildAtSectionStart_from b l1
    && negb (match rev l1 with [] => b | p :: _ => is_heading p end
             && ItemType_eqb (type x) todo && (indent x =? 1))
    && noChildAtSectionStart_from (is_heading x) l2.
Proof.
  revert b. induction l1 as [|y l1 IH]; intros b.
  - cbn. reflexivity.
  - cbn [app noChildAtSectionStart_from]. rewrite IH. rewrite <- !andb_assoc.
    f_equal. f_equal. f_equal. f_equal. f_equal. cbn [rev].
    destruct (rev l1) as [|p r] eqn:R; [|reflexivity].
    reflexivity.
Qed.

Lemma get_prev_last (l1 l2 : list Item) (x prev : Item) :
  get (l1 ++ x :: l2) (len l1 - 1) = Some prev ->
  exists r, rev l1 = prev :: r.
Proof.
  intros G. pose proof (get_Some_bounds _ _ _ G) as B.
  destruct l1 as [|y l1] using rev_ind; [unfold len in B; cbn in B; lia|].
  clear IHl1. rewrite rev_app_distr. cbn [rev app]. exists (rev l1).
  rewrite len_app in G. unfold len in G at 2. cbn [List.length] in G.
  replace (len l1 + Z.of_nat 1 - 1) with (len l1) in G by lia.
  rewrite <- app_assoc in G. cbn [app] in G. rewrite get_middle in G.
  injection G as <-. reflexivity.
Qed.

Lemma changeIndent_step (delta index : Z) (s : State) (item : Item) :
  get (items s) index = Some item ->
  IndentManager.canChangeIndent s item index delta (indent item + delta) = Some true ->
  exists l1 l2,
    items s = l1 ++ item :: l2
    /\ update (items s) index (set_indent (indent item + delta))
       = l1 ++ set_indent (indent item + delta) item :: l2
    /\ type item = todo
    /\ indent_ok (set_indent (indent item + delta) item)
    /\ (indent_ok item -> indent item + delta = 1 ->
        delta = 0 \/ exists p r, rev l1 = p :: r /\ is_heading p = false).
Proof.
  intros G C. destruct (get_split _ _ _ G) as (l1 & l2 & E & L & _ & _).
  exists l1, l2. rewrite E at 2. rewrite <- L, update_split.
  unfold IndentManager.canChangeIndent, bind in C.
  destruct (is_heading item) eqn:Hh; [discriminate|].
  destruct (Z.ltb_spec (indent item + delta) Constants.INDENT_PARENT); [discriminate|].
  destruct (Z.gtb_spec (indent item + delta) Constants.INDENT_MAX); [discriminate|].
  cbn [orb] in C. unfold Constants.INDENT_PARENT, Constants.INDENT_MAX in *.
  repeat split; auto.
  - revert Hh. unfold is_heading. destruct (type item); [reflexivity|discriminate].
  - unfold indent_ok. cbn. lia.
  - intros Hok H1. destruct (Z.gtb_spec delta 0).
    + right. destruct (Z.eqb_spec index 0); [discriminate|].
      destruct (get (items s) (index - 1)) as [prev|] eqn:Gp; [|discriminate].
      injection C as C. apply negb_true_iff in C.
      rewrite E, <- L in Gp. destruct (get_prev_last _ _ _ _ Gp) as (r & R).
      exists prev, r. auto.
    + left. destruct Hok; lia.
Qed.

Lemma changeIndent_loop_spec (delta : Z) (indices : list Z) :
  forall s s',
    IndentManager.changeIndent_loop delta indices s = Some s' ->
    Forall2 indent_changed (items s) (items s')
    /\ (Forall indent_ok (items s) ->
        Forall indent_ok (items s')
        /\ (noChildAtSectionStart (items s) = true ->
            noChildAtSectionStart (items s') = true)).
Proof.
  induction indices as [|index rest IH]; intros s s' H;
    cbn [IndentManager.changeIndent_loop] in H.
  - injection H as <-. split; [|auto].
    induction (items s); constructor; [left; reflexivity|assumption].
  - unfold bind in H. destruct (get (items s) index) as [item|] eqn:G; [|discriminate].
    destruct (IndentManager.canChangeIndent s item index delta (indent item + delta))
      as [[|]|] eqn:C; [| |discriminate].
    2:{ apply IH, H. }
    destruct (changeIndent_step _ _ _ _ G C) as (l1 & l2 & E & U & Ht & Hok & Hprev).
    apply IH in H. state_fields. rewrite U in H. destruct H as (F2 & Hrest).
    rewrite E. split.
    + apply Forall2_app_inv_l in F2. destruct F2 as (r1 & r2 & F1 & F2 & ->).
      inversion F2 as [|? y ? r2' Hy F2']; subst. apply Forall2_app; [assumption|].
      constructor; [|assumption].
      right. destruct Hy as [->|(_ & -> & Hy)].
      * repeat split; auto.
      * repeat split; auto.
    + intros Hall. apply Forall_app in Hall. destruct Hall as (A1 & A2).
      inversion A2 as [|? ? Hitem A2']; subst.
      destruct Hrest as (R1 & R2).
      { apply Forall_app. split; [assumption|]. constructor; assumption. }
      split; [exact R1|]. intros N. apply R2. clear R1 R2 IH F2.
      unfold noChildAtSectionStart in *. rewrite noChild_app in *.
      apply andb_prop in N. destruct N as [N N3]. apply andb_prop in N.
      destruct N as [N1 N2]. rewrite N1. change (is_heading (set_indent _ item))
        with (is_heading item). rewrite N3, andb_true_r. cbn [andb].
      apply negb_true_iff. cbn [type indent set_indent].
      destruct (Z.eqb_spec (indent item + delta) 1) as [E1|E1];
        [|rewrite andb_false_r; reflexivity].
      destruct (Hprev Hitem E1) as [->|(p & r & -> & Hp)].
      * apply negb_true_iff in N2. rewrite Z.add_0_r in E1. rewrite E1 in N2. exact N2.
      * rewrite Hp. reflexivity.
Qed.

(** X12. Indent and outdent change nothing but indents: when
    [changeIndent] returns, every item is the old one or the same todo
    under a new indent of 0 or 1, so headings are never touched; if every
    indent was 0 or 1 before it is so after, and then no todo of indent 1 is
    made the first item of the list or of a section. *)
Theorem changeIndent_keeps_outline (delta : Z) (s s' : State) :
  changeIndent delta s = Some s' ->
  Forall2 indent_changed (items s) (items s')
  /\ (Forall indent_ok (items s) ->
      Forall indent_ok (items s')
      /\ (noChildAtSectionStart (items s) = true ->
          noChildAtSectionStart (items s') = true)).
Proof.
  unfold changeIndent, IndentManager.changeIndent. apply changeIndent_loop_spec.
Qed.

Lemma changeIndent_keeps_outline_witness :
  Forall2 indent_changed (items two_todos_state) (items two_todos_indented)
  /\ (Forall indent_ok (items two_todos_state) ->
      Forall indent_ok (items two_todos_indented)
      /\ (noChildAtSectionStart (items two_todos_state) = true ->
          noChildAtSectionStart (items two_todos_indented) = true)).
Proof.
  apply (changeIndent_keeps_outline 1 two_todos_state two_todos_indented).
  vm_compute. reflexivity.
Defined.
(** ** DeleteManager *)

Lemma reset_then_select_valid (ref : Z) (types : list DeletedType) (s : State) :
  -1 <= ref ->
  let t := DeleteManager.resetSelectionAfterDelete ref types s in
  cursor_valid (selectItem1 (activeIndex t) t) /\ items (selectItem1 (activeIndex t) t) = items s.
Proof.
  intros Href t.
  set (a := DeleteManager.adjustCursorAfterDeletion (items s) ref types).
  assert (Ha : if len (items s) =? 0 then a = -1 else 0 <= a < len (items s)).
  { unfold a, DeleteManager.adjustCursorAfterDeletion, DeleteManager.clampCursor.
    cbv zeta. pose proof (len_nonneg (items s)) as Hl.
    destruct (Z.eqb_spec (len (items s)) 0) as [E|E].
    - rewrite E. replace (Z.min ref (0 - 1)) with (-1) by lia. cbn.
      destruct (get (items s) (-1)) eqn:G; [|reflexivity].
      apply get_Some_bounds in G. lia.
    - replace ((Z.min ref (len (items s) - 1) <? 0) && (len (items s) >? 0))
        with (Z.min ref (len (items s) - 1) <? 0)
        by (destruct (Z.gtb_spec (len (items s)) 0); [rewrite andb_true_r; reflexivity|lia]).
      set (adj := if Z.min ref (len (items s) - 1) <? 0 then 0
                  else Z.min ref (len (items s) - 1)).
      assert (Hadj : 0 <= adj < len (items s)).
      { unfold adj. destruct (Z.ltb_spec (Z.min ref (len (items s) - 1)) 0); lia. }
      destruct (get (items s) adj); [|exact Hadj].
      destruct (_ && _).
      + destruct (Z.gtb_spec adj 0); lia.
      + destruct (_ && _); [|exact Hadj].
        replace ((Z.min (adj - 1) (len (items s) - 1) <? 0) && (len (items s) >? 0))
          with (Z.min (adj - 1) (len (items s) - 1) <? 0)
          by (destruct (Z.gtb_spec (len (items s)) 0); [rewrite andb_true_r; reflexivity|lia]).
        destruct (Z.ltb_spec (Z.min (adj - 1) (len (items s) - 1)) 0); lia. }
  assert (Et : activeIndex t = a /\ items t = items s).
  { unfold t, DeleteManager.resetSelectionAfterDelete. cbv zeta. state_fields. fold a.
    destruct (a >=? 0); split; reflexivity. }
  destruct Et as [Eact Eit]. rewrite Eact.
  unfold cursor_valid, selectItem1, SelectionManager.clear, SelectionManager.setSingle.
  rewrite Eit.
  destruct (Z.eqb_spec (len (items s)) 0) as [E|E].
  - subst a. rewrite Ha. cbn [Z.ltb Z.compare orb]. state_fields. rewrite Eit, E.
    cbn. auto.
  - destruct (Z.ltb_spec a 0); [lia|]. destruct (Z.geb_spec a (len (items s))); [lia|].
    cbn [orb]. state_fields. rewrite Eit. destruct (Z.eqb_spec (len (items s)) 0); [lia|].
    destruct (Z.geb_spec a 0); [|lia]. repeat split; auto; lia.
Qed.

Lemma In_insert_sorted (le : Z -> Z -> bool) (x y : Z) (l : list Z) :
  In y (insert_sorted le x l) <-> y = x \/ In y l.
Proof.
  induction l as [|z l IH]; cbn [insert_sorted].
  - cbn. intuition.
  - destruct (le x z); cbn [In]; [intuition|]. rewrite IH. intuition.
Qed.

Lemma In_sort_desc (y : Z) (l : list Z) : In y (sort_desc l) <-> In y l.
Proof.
  unfold sort_desc. induction l as [|x l IH]; cbn [fold_right]; [reflexivity|].
  rewrite In_insert_sorted, IH. cbn. intuition.
Qed.

Lemma In_sort_asc (y : Z) (l : list Z) : In y (sort_asc l) <-> In y l.
Proof.
  unfold sort_asc. induction l as [|x l IH]; cbn [fold_right]; [reflexivity|].
  rewrite In_insert_sorted, IH. cbn. intuition.
Qed.

Lemma In_add (y i : Z) (acc : IndexSet) : In y (add i acc) <-> y = i \/ In y acc.
Proof.
  unfold add. destruct (has i acc) eqn:E.
  - split; [auto|]. intros [->|H]; [|exact H]. unfold has in E.
    apply existsb_exists in E. destruct E as (z & Hz & Ez). apply Z.eqb_eq in Ez.
    subst z. exact Hz.
  - rewrite in_app_iff. cbn. intuition.
Qed.

Lemma In_add_all (y : Z) (idxs : list Z) :
  forall acc, In y (add_all idxs acc) <-> In y idxs \/ In y acc.
Proof.
  unfold add_all. induction idxs as [|i r IH]; intros acc; cbn [fold_left].
  - cbn. intuition.
  - rewrite IH, In_add. cbn. intuition.
Qed.

Lemma In_range (y a b : Z) : In y (range a b) <-> a <= y <= b.
Proof.
  unfold range. rewrite in_map_iff. split.
  - intros (k & <- & Hk). apply in_seq in Hk. lia.
  - intros H. exists (Z.to_nat (y - a)). split; [lia|]. apply in_seq. lia.
Qed.

Lemma delete_collect_nonneg (l : list Item) (sorted : list Z) :
  forall acc r,
    DeleteManager.collect_loop l sorted acc = Some r ->
    Forall (fun i => 0 <= i) acc -> Forall (fun i => 0 <= i) r.
Proof.
  induction sorted as [|index rest IH]; intros acc r H Hacc;
    cbn [DeleteManager.collect_loop] in H.
  - injection H as <-. exact Hacc.
  - destruct (has index acc); [eapply IH; eassumption|].
    unfold bind in H. destruct (get l index) as [item|] eqn:G; [|discriminate].
    apply get_Some_bounds in G. eapply IH; [exact H|].
    assert (Hadd : Forall (fun i => 0 <= i) (add index acc)).
    { apply Forall_forall. intros y Hy. apply In_add in Hy. rewrite Forall_forall in Hacc.
      destruct Hy as [->|Hy]; [lia|auto]. }
    destruct (_ && _); [|exact Hadd].
    apply Forall_forall. intros y Hy. apply In_add_all in Hy.
    rewrite Forall_forall in Hadd. destruct Hy as [Hy|Hy]; [|auto].
    apply In_range in Hy. lia.
Qed.

Lemma last_In_or_default (l : list Z) (d : Z) : last l d = d \/ In (last l d) l.
Proof.
  induction l as [|x l IH]; [left; reflexivity|].
  destruct l as [|y l]; [right; left; reflexivity|].
  change (last (x :: y :: l) d) with (last (y :: l) d).
  destruct IH as [IH|IH]; [left; exact IH|right; right; exact IH].
Qed.

(** X13. After a deletion the cursor is on the list.  [deleteItem] at an
    index in range removes exactly the item at that index; after it, and
    after [deleteItems] on a non-empty selection, the active index is an index
    of the new list and the only selected one, with the anchor on it; when
    the list has become empty, the active index is -1 and nothing is
    selected. *)
Theorem delete_leaves_cursor_valid (s : State) :
  (forall index item,
      get (items s) index = Some item ->
      cursor_valid (deleteItem index s)
      /\ items (deleteItem index s) = splice_remove (items s) index 1)
  /\ (forall s',
         size (selectedIndices s) > 0 -> deleteItems s = Some s' -> cursor_valid s').
Proof.
  split.
  - intros index item G. unfold deleteItem, DeleteManager.deleteSingle. rewrite G.
    cbv zeta.
    apply (reset_then_select_valid index [deletedType_of item]
             (set_items (splice_remove (items s) index 1) s)).
    apply get_Some_bounds in G. lia.
  - intros s' Hsize H.
    unfold deleteItems, DeleteManager.deleteMultiple, bind in H.
    destruct (Z.eqb_spec (size (selectedIndices s)) 0); [lia|].
    destruct (DeleteManager.collectIndicesToDelete _ _) as [toDelete|] eqn:C;
      [|discriminate].
    unfold DeleteManager.deleteByIndices, bind in H.
    destruct (DeleteManager.types_of _ _); [|discriminate].
    cbv zeta in H. injection H as <-. apply reset_then_select_valid.
    unfold DeleteManager.collectIndicesToDelete in C.
    apply delete_collect_nonneg in C; [|constructor].
    destruct (last_In_or_default (sort_desc toDelete) 0) as [->|Hin]; [lia|].
    apply (proj1 (In_sort_desc _ _)) in Hin. rewrite Forall_forall in C.
    specialize (C _ Hin). lia.
Qed.

Lemma delete_leaves_cursor_valid_witness :
  cursor_valid (deleteItem 1 two_todos_state)
  /\ items (deleteItem 1 two_todos_state) = splice_remove (items two_todos_state) 1 1.
Proof.
  apply (proj1 (delete_leaves_cursor_valid two_todos_state) 1
               (mkItem 1%nat todo (lit "y") 0 false [])).
  reflexivity.
Defined.
(** ** The Space key *)

Lemma get_update {A : Type} (l : list A) (i j : Z) (f : A -> A) :
  get (update l j f) i = if i =? j then option_map f (get l i) else get l i.
Proof.
  unfold update. destruct (get l j) as [x|] eqn:G.
  - destruct (get_split l j x G) as (l1 & l2 & -> & L & E1 & E2).
    rewrite E1, E2. destruct (Z.eqb_spec i j) as [->|N].
    + rewrite <- L, !get_middle. reflexivity.
    + unfold get. destruct (Z.ltb_spec i 0); [reflexivity|].
      unfold len in L. destruct (Z.ltb_spec i j).
      * rewrite !nth_error_app1 by lia. reflexivity.
      * rewrite !nth_error_app2 by lia.
        destruct (Z.to_nat i - List.length l1)%nat as [|k] eqn:K; [lia|]. reflexivity.
  - destruct (Z.eqb_spec i j) as [->|N]; [rewrite G; reflexivity|reflexivity].
Qed.

Lemma toggle_fold (b : bool) (l0 : list Item) (sel : list Z) :
  forall l,
    (forall i, option_map type (get l i) = option_map type (get l0 i)) ->
    forall i,
      get (fold_left (fun l index =>
                        if match get l0 index with
                           | Some it => ItemType_eqb (type it) todo
                           | None => false
                           end
                        then update l index (set_isChecked b)
                        else l) sel l) i
      = option_map (fun it => if has i sel && ItemType_eqb (type it) todo
                              then set_isChecked b it else it) (get l i).
Proof.
  induction sel as [|j sel IH]; intros l Ht i; cbn [fold_left].
  - cbn. destruct (get l i); reflexivity.
  - rewrite IH.
    2:{ intros k. rewrite <- Ht. destruct (match get l0 j with Some _ => _ | None => _ end);
          [|reflexivity].
        rewrite get_update. destruct (k =? j); [|reflexivity].
        destruct (get l k); reflexivity. }
    unfold has. cbn [existsb]. fold (has i sel).
    specialize (Ht j).
    destruct (Z.eqb_spec i j) as [->|N].
    + destruct (get l0 j) as [it0|] eqn:G0; destruct (get l j) as [it|] eqn:G;
        cbn in Ht; try discriminate; cbn [orb option_map].
      * injection Ht as Ht. rewrite <- Ht.
        destruct (ItemType_eqb (type it) todo) eqn:T.
        -- rewrite get_update, Z.eqb_refl, G. cbn [option_map].
           change (type (set_isChecked b it)) with (type it). rewrite T, andb_true_r.
           destruct (has j sel); reflexivity.
        -- rewrite G. cbn [option_map]. rewrite T, !andb_false_r. reflexivity.
      * reflexivity.
    + cbn [orb].
      destruct (match get l0 j with Some _ => _ | None => _ end); [|reflexivity].
      rewrite get_update. destruct (Z.eqb_spec i j); [contradiction|]. reflexivity.
Qed.

(** X14. The Space key sets every selected todo to one state.  Outside
    the archive and with a non-empty selection, [handleSpace] pushes one
    snapshot and leaves at every index the item that was there, except that
    a selected todo is checked when some selected todo was unchecked, and
    unchecked when all of them were checked; headings and unselected items
    are untouched. *)
Theorem handleSpace_sets_one_state (s : State) :
  isArchiveActive s = false ->
  size (selectedIndices s) > 0 ->
  isUndoingRedoing s = false ->
  let hasUnchecked :=
    existsb (fun index => match get (items s) index with
                          | Some it => ItemType_eqb (type it) todo && negb (isChecked it)
                          | None => false
                          end) (selectedIndices s) in
  let s' := KeyboardHandler.handleSpace s in
  (forall i,
      get (items s') i
      = option_map (fun it => if has i (selectedIndices s) && ItemType_eqb (type it) todo
                              then set_isChecked hasUnchecked it else it)
                   (get (items s) i))
  /\ saved_first s s'.
Proof.
  intros Harch Hsize Hflag hasUnchecked s'.
  unfold s', KeyboardHandler.handleSpace, toggleChecked. rewrite Harch.
  destruct (Z.eqb_spec (size (selectedIndices s)) 0); [lia|]. cbv zeta.
  destruct (save_fields s) as (Ei & _ & Es & _). rewrite Ei, Es. state_fields. split.
  - intros i. apply toggle_fold. reflexivity.
  - unfold saved_first. state_fields.
    pose proof (save_view s Hflag) as V. unfold stacks_view in V.
    injection V as _ Vh _ Vu. rewrite push_capped_newest in Vh. auto.
Qed.

Lemma handleSpace_sets_one_state_witness :
  (forall i,
      get (items (KeyboardHandler.handleSpace two_todos_state)) i
      = option_map (fun it => if has i [1] && ItemType_eqb (type it) todo
                              then set_isChecked true it else it)
                   (get (items two_todos_state) i))
  /\ saved_first two_todos_state (KeyboardHandler.handleSpace two_todos_state).
Proof.
  apply (handleSpace_sets_one_state two_todos_state).
  - reflexivity.
  - vm_compute. reflexivity.
  - reflexivity.
Defined.
(** ** Selection *)

Lemma add_non_headings_spec (l : list Item) (idxs : list Z) :
  forall sel r,
    add_non_headings l idxs sel = Some r ->
    forall i, In i r <-> In i sel
                         \/ (In i idxs /\ exists it, get l i = Some it /\ is_heading it = false).
Proof.
  induction idxs as [|j rest IH]; intros sel r H i; cbn [add_non_headings] in H.
  - injection H as <-. cbn. intuition.
  - unfold bind in H. destruct (get l j) as [it|] eqn:G; [|discriminate].
    rewrite (IH _ _ H i). cbn [In]. destruct (is_heading it) eqn:Hh.
    + split; [intuition|]. intros [Hs|([<-|Hin] & x & Gx & Hx)]; auto.
      * rewrite G in Gx. injection Gx as <-. congruence.
      * right. eauto.
    + rewrite In_add. split.
      * intros [[->|Hs]|(Hin & Hx)]; auto. right. split; [auto|]. eauto.
      * intros [Hs|([<-|Hin] & Hx)]; auto.
Qed.

(** X15. Shift+Arrow replaces the selection by the todos between the
    anchor and the target: when the keyboard branch of
    [handleExtendSelection] returns, the target is the active index, the
    anchor is the old one (the target when there was none), and an index is
    selected exactly when it lies between the two and does not hold a
    heading; the lists are untouched. *)
Theorem keyboard_extend_selection (index : Z) (s s' : State) :
  handleExtendSelection index true s = Some s' ->
  let anchor := if anchorIndex s =? -1 then index else anchorIndex s in
  activeIndex s' = index
  /\ anchorIndex s' = anchor
  /\ items s' = items s
  /\ forall i, In i (selectedIndices s')
               <-> Z.min anchor index <= i <= Z.max anchor index
                   /\ exists it, get (items s) i = Some it /\ is_heading it = false.
Proof.
  intros H anchor. unfold handleExtendSelection, bind in H. cbv zeta in H.
  assert (Ea : anchorIndex (if anchorIndex s =? -1 then set_anchorIndex index s else s)
               = anchor)
    by (unfold anchor; destruct (anchorIndex s =? -1); reflexivity).
  assert (Ei : items (if anchorIndex s =? -1 then set_anchorIndex index s else s)
               = items s)
    by (destruct (anchorIndex s =? -1); reflexivity).
  rewrite Ea, Ei in H.
  destruct (add_non_headings (items s) (range (Z.min anchor index) (Z.max anchor index)) [])
    as [sel|] eqn:A; [|discriminate].
  injection H as <-. state_fields.
  split; [reflexivity|]. split; [exact Ea|]. split; [exact Ei|].
  intros i. rewrite (add_non_headings_spec _ _ _ _ A i), In_range. cbn [In]. tauto.
Qed.

Lemma keyboard_extend_selection_witness :
  activeIndex two_sections_extended = 3
  /\ anchorIndex two_sections_extended = 4
  /\ items two_sections_extended = items two_sections_state
  /\ forall i, In i (selectedIndices two_sections_extended)
               <-> Z.min 4 3 <= i <= Z.max 4 3
                   /\ exists it, get (items two_sections_state) i = Some it
                                 /\ is_heading it = false.
Proof.
  apply (keyboard_extend_selection 3 two_sections_state two_sections_extended).
  vm_compute. reflexivity.
Defined.

Lemma findIndex_from_spec {A : Type} (p : A -> bool) (l : list A) :
  forall base,
    let r := findIndex_from p l base in
    (r = -1 /\ Forall (fun x => p x = false) l)
    \/ (base <= r < base + len l
        /\ (exists x, nth_error l (Z.to_nat (r - base)) = Some x /\ p x = true)
        /\ forall k x, (k < Z.to_nat (r - base))%nat -> nth_error l k = Some x -> p x = false).
Proof.
  induction l as [|y l IH]; intros base; cbn [findIndex_from].
  - left. split; [reflexivity|constructor].
  - destruct (p y) eqn:Py.
    + right. unfold len. cbn [List.length]. split; [lia|]. rewrite Z.sub_diag. split.
      * exists y. split; [reflexivity|exact Py].
      * intros k x Hk. cbn in Hk. lia.
    + destruct (IH (base + 1)) as [(E & F)|(B & (x & Gx & Px) & Hbefore)].
      * left. split; [exact E|]. constructor; assumption.
      * right. unfold len in *. cbn [List.length]. split; [lia|].
        replace (Z.to_nat (findIndex_from p l (base + 1) - base))
          with (S (Z.to_nat (findIndex_from p l (base + 1) - (base + 1)))) by lia.
        split; [exists x; split; assumption|].
        intros [|k] z Hk Hz; cbn in Hz; [injection Hz as <-; exact Py|].
        eapply Hbefore; [|exact Hz]. lia.
Qed.


Lemma scan_up_total (p : Item -> bool) (l : list Item) (d : Z) (n : nat) :
  (n <= List.length l)%nat -> exists r, scan_up p l n d = Some r.
Proof.
  induction n as [|n IH]; intros H; cbn [scan_up]; [eauto|].
  destruct (nth_error l n) eqn:G; [|apply nth_error_None in G; lia].
  cbn [bind]. destruct (p i); [eauto|]. apply IH. lia.
Qed.

Lemma get_nth (l : list Item) (i : Z) : 0 <= i -> get l i = nth_error l (Z.to_nat i).
Proof. intros H. unfold get. destruct (Z.ltb_spec i 0); [lia|reflexivity]. Qed.

Lemma nth_error_drop (l : list Item) (a : Z) (k : nat) :
  0 <= a -> nth_error (drop a l) k = get l (a + Z.of_nat k).
Proof.
  intros H. rewrite get_nth by lia. unfold drop. rewrite nth_error_skipn. f_equal. lia.
Qed.


(** ** SelectionManager *)

Lemma has_id_In (i : Id) (ids : list Id) : SelectionManager.has_id i ids = true <-> In i ids.
Proof.
  unfold SelectionManager.has_id. rewrite existsb_exists. split.
  - intros (x & Hx & E). apply Nat.eqb_eq in E. subst x. exact Hx.
  - intros H. exists i. split; [exact H|apply Nat.eqb_refl].
Qed.

Lemma indices_of_ids_spec (ids : list Id) (l : list Item) :
  forall base i,
    In i (SelectionManager.indices_of_ids l ids base)
    <-> base <= i
        /\ exists it, nth_error l (Z.to_nat (i - base)) = Some it /\ In (id it) ids.
Proof.
  induction l as [|x l IH]; intros base i; cbn [SelectionManager.indices_of_ids].
  - split; [intros []|]. intros (_ & it & G & _). destruct (Z.to_nat (i - base)); discriminate.
  - assert (Hrest : In i (SelectionManager.indices_of_ids l ids (base + 1))
                    <-> base + 1 <= i
                        /\ exists it, nth_error (x :: l) (Z.to_nat (i - base)) = Some it
                                      /\ In (id it) ids).
    { rewrite IH. split; intros (B & it & G & Hin); (split; [exact B|]); exists it;
        (split; [|exact Hin]).
      - replace (Z.to_nat (i - base)) with (S (Z.to_nat (i - (base + 1)))) by lia. exact G.
      - replace (Z.to_nat (i - base)) with (S (Z.to_nat (i - (base + 1)))) in G by lia.
        exact G. }
    destruct (SelectionManager.has_id (id x) ids) eqn:Hx.
    + apply has_id_In in Hx. cbn [In]. rewrite Hrest. split.
      * intros [<-|(B & E)]; [|split; [lia|exact E]].
        split; [lia|]. exists x. rewrite Z.sub_diag. split; [reflexivity|exact Hx].
      * intros (B & it & G & Hin). destruct (Z.eq_dec base i) as [E|N]; [left; exact E|].
        right. split; [lia|]. eauto.
    + rewrite Hrest. split.
      * intros (B & E). split; [lia|exact E].
      * intros (B & it & G & Hin). destruct (Z.eq_dec base i) as [<-|N].
        -- rewrite Z.sub_diag in G. cbn in G. injection G as <-.
           apply has_id_In in Hin. congruence.
        -- split; [lia|]. eauto.
Qed.

(** X17. A selection captured by ids follows its items.  After
    [restoreState] on a list [l'] with the state captured on [l], an index
    of [l'] is selected exactly when its item has the id of an item that was
    selected in [l]; and when the active item of [l] has its id in [l'], the
    new active index holds an item of that id. *)
Theorem selection_follows_ids (l l' : list Item) (s : State) :
  let s' := SelectionManager.restoreState l' (SelectionManager.captureState l s) s in
  (forall i it',
      get l' i = Some it' ->
      (In i (selectedIndices s')
       <-> exists j it, In j (selectedIndices s) /\ get l j = Some it /\ id it = id it'))
  /\ (forall a,
         0 <= activeIndex s -> get l (activeIndex s) = Some a ->
         In (id a) (map id l') ->
         exists a', get l' (activeIndex s') = Some a' /\ id a' = id a).
Proof.
  intros s'. unfold s', SelectionManager.restoreState, SelectionManager.captureState.
  set (ids := flat_map (fun index => match get l index with
                                     | Some it => [id it]
                                     | None => []
                                     end) (selectedIndices s)).
  assert (Hids : forall x, In x ids
                           <-> exists j it, In j (selectedIndices s) /\ get l j = Some it
                                            /\ id it = x).
  { intros x. unfold ids. rewrite in_flat_map. split.
    - intros (j & Hj & Hx). destruct (get l j) as [it|] eqn:G; [|destruct Hx].
      destruct Hx as [<-|[]]. eauto.
    - intros (j & it & Hj & G & <-). exists j. rewrite G. split; [exact Hj|left; reflexivity]. }
  assert (Hsel : forall t i it',
             selectedIndices t = SelectionManager.indices_of_ids l' ids 0 ->
             get l' i = Some it' ->
             (In i (selectedIndices t)
              <-> exists j it, In j (selectedIndices s) /\ get l j = Some it
                               /\ id it = id it')).
  { intros t i it' Et G. rewrite Et, indices_of_ids_spec, Z.sub_0_r.
    pose proof (get_Some_bounds _ _ _ G) as B. rewrite get_nth in G by lia. rewrite G.
    rewrite <- Hids. split.
    - intros (_ & x & E & Hin). injection E as <-. exact Hin.
    - intros Hin. split; [lia|]. eauto. }
  split.
  - intros i it' G. apply Hsel; [|exact G].
    destruct (activeIndex s >=? 0); [|reflexivity].
    destruct (option_map id (get l (activeIndex s))); [|reflexivity].
    cbv zeta. destruct (negb _); reflexivity.
  - intros a Hact Ga Hin. destruct (Z.geb_spec (activeIndex s) 0); [|lia].
    rewrite Ga. cbn [option_map]. cbv zeta.
    destruct (findIndex_from_spec (fun i => Nat.eqb (id i) (id a)) l' 0)
      as [(E & F)|(B & (x & Gx & Px) & _)].
    + exfalso. apply in_map_iff in Hin. destruct Hin as (y & Ey & Hy).
      rewrite Forall_forall in F. specialize (F y Hy). cbn in F.
      rewrite Ey, Nat.eqb_refl in F. discriminate F.
    + unfold findIndex. rewrite Z.sub_0_r in Gx. rewrite <- get_nth in Gx by lia.
      destruct (Z.eqb_spec (findIndex_from (fun i => Nat.eqb (id i) (id a)) l' 0) (-1));
        [lia|].
      cbn [negb]. state_fields. exists x. split; [exact Gx|]. apply Nat.eqb_eq, Px.
Qed.

Lemma selection_follows_ids_witness :
  In 1 (selectedIndices
          (SelectionManager.restoreState
             (items todo_then_heading_moved)
             (SelectionManager.captureState (items todo_then_heading_state)
                                            todo_then_heading_state)
             todo_then_heading_state))
  <-> exists j it,
      In j (selectedIndices todo_then_heading_state)
      /\ get (items todo_then_heading_state) j = Some it
      /\ id it = id (mkItem 0%nat todo (lit "x") 0 false []).
Proof.
  apply (proj1 (selection_follows_ids (items todo_then_heading_state)
                                      (items todo_then_heading_moved)
                                      todo_then_heading_state)
               1 (mkItem 0%nat todo (lit "x") 0 false [])).
  vm_compute. reflexivity.
Defined.
(** ** Editing a title *)

Lemma push_capped_last (h : list Snapshot) (x : Snapshot) :
  exists h', HistoryManager.push_capped h x = h' ++ [x].
Proof.
  unfold HistoryManager.push_capped, Constants.MAX_HISTORY_SIZE.
  destruct (Z.gtb_spec (len (h ++ [x])) 50) as [G|G]; [|eauto].
  destruct h as [|y h]; [unfold len in G; cbn in G; lia|]. exists h. reflexivity.
Qed.

Lemma findIndex_update (p : Item -> bool) (f : Item -> Item) (l : list Item) (i : Z) :
  (forall x, p (f x) = p x) -> findIndex p (update l i f) = findIndex p l.
Proof.
  intros Hp. unfold update. destruct (get l i) as [x|] eqn:G; [|reflexivity].
  destruct (get_split l i x G) as (l1 & l2 & -> & L & E1 & E2). rewrite E1, E2.
  unfold findIndex. generalize 0. clear - Hp. induction l1 as [|y l1 IH]; intros b; cbn.
  - rewrite Hp. reflexivity.
  - destruct (p y); [reflexivity|apply IH].
Qed.

(** X18. Creating an item and giving it a title is one undo step.  After
    [addItem] has inserted a new item, committing a non-blank title with
    Enter stores the trimmed title in the new item and ends the edit without
    pushing a second snapshot: the past stack holds the one snapshot of the
    state before the creation, and [undo()] brings back the lists as they
    were before it. *)
Theorem named_new_item_is_one_undo_step
        (ty : ItemType) (insertIndex indent_ : option Z) (value : str) (s s1 : State) :
  isUndoingRedoing s = false ->
  ids_below_counter s ->
  addItem ty insertIndex indent_ s = Some s1 ->
  len (items s1) = len (items s) + 1 ->
  trim value <> [] ->
  exists s2,
    editEnter value s1 = Some s2
    /\ (exists i newItem,
           items s2 = splice_insert (items s) i [newItem]
           /\ id newItem = nextId s /\ title newItem = trim value)
    /\ history s2 = with_newest (history s) (mkSnapshot (items s) (archivedItems s))
    /\ editingId s2 = None
    /\ items (undo s2) = items s /\ archivedItems (undo s2) = archivedItems s.
Proof.
  intros Hflag Hids Hadd Hlen Hval.
  destruct (addItem_created _ _ _ _ _ Hflag Hadd Hlen)
    as (i & newItem & Hid & Hitems & Hed & Hnew & Hhist & Hflag1).
  set (l1 := take i (items s)) in *. set (l2 := drop i (items s)) in *.
  assert (El : items s = l1 ++ l2) by (symmetry; apply take_drop).
  assert (Es : forall x, splice_insert (items s) i [x] = l1 ++ x :: l2) by reflexivity.
  rewrite Es in Hitems.
  assert (Hfresh : Forall (fun y => Nat.eqb (id y) (nextId s) = false) l1).
  { unfold ids_below_counter in Hids. rewrite El in Hids.
    apply Forall_app in Hids. destruct Hids as [F _].
    eapply Forall_impl; [|exact F]. cbn. intros y Hy. apply Nat.eqb_neq. lia. }
  assert (Hidx : index_of_id (items s1) (nextId s) = len l1).
  { rewrite Hitems. unfold index_of_id, findIndex. rewrite findIndex_from_fresh; [lia| |].
    - exact Hfresh.
    - rewrite Hid. apply Nat.eqb_refl. }
  pose proof (len_nonneg l1) as Hl1.
  unfold editEnter. rewrite Hed, Hidx, Hitems, update_split.
  unfold stopEditing. state_fields. rewrite Hflag1, Hed.
  replace (findIndex (fun i0 => Nat.eqb (id i0) (nextId s)) (l1 ++ set_title value newItem :: l2))
    with (len l1).
  2:{ unfold findIndex. rewrite findIndex_from_fresh; [lia|exact Hfresh|].
      cbn. rewrite Hid. apply Nat.eqb_refl. }
  destruct (Z.eqb_spec (len l1) (-1)); [lia|].
  unfold EditingManager.saveEdit.
  replace (str_eqb (trim value) []) with false.
  2:{ symmetry. destruct (str_eqb (trim value) []) eqn:E; [|reflexivity].
      apply str_eqb_eq in E. contradiction. }
  cbn [andb]. unfold EditingManager._saveTitle, bind. state_fields.
  rewrite get_middle. state_fields. rewrite Hnew. cbn [negb].
  eexists. split; [reflexivity|].
  match goal with
  | |- context [EditingManager._resetEditingState ?t] => set (s2 := t)
  end.
  assert (Hstate : items s2 = l1 ++ set_title (trim value) newItem :: l2
                   /\ history s2 = history s1
                   /\ isUndoingRedoing s2 = false).
  { unfold s2.
    destruct (str_eqb (title (set_title value newItem)) (trim value)) eqn:E; cbn [negb].
    - apply str_eqb_eq in E. cbn in E. state_fields. rewrite <- E. auto.
    - state_fields. rewrite update_split. auto. }
  destruct Hstate as (Ei & Eh & Eu). clearbody s2.
  unfold EditingManager._resetEditingState. state_fields.
  split.
  { exists i, (set_title (trim value) newItem). rewrite Ei, Es.
    repeat split. exact Hid. }
  split; [rewrite Eh, Hhist; apply push_capped_newest|]. split; [reflexivity|].
  destruct (push_capped_last (history s) (HistoryManager.snapshot s)) as (h' & Eh').
  apply snapshot_lists.
  apply (undo_spec (set_isNewItem false (set_editingId None s2)) h'
                   (HistoryManager.snapshot s)).
  - exact Eu.
  - state_fields. congruence.
Qed.

Lemma named_new_item_is_one_undo_step_witness :
  exists s2,
    editEnter (lit "x") new_todo_state = Some s2
    /\ (exists i newItem,
           items s2 = splice_insert (items initialState) i [newItem]
           /\ id newItem = nextId initialState /\ title newItem = trim (lit "x"))
    /\ history s2 = [mkSnapshot [] []]
    /\ editingId s2 = None
    /\ items (undo s2) = [] /\ archivedItems (undo s2) = [].
Proof.
  apply (named_new_item_is_one_undo_step todo None None (lit "x") initialState
                                         new_todo_state).
  - reflexivity.
  - constructor.
  - vm_compute. reflexivity.
  - vm_compute. reflexivity.
  - vm_compute. discriminate.
Defined.

(** X19. Whether a rename can be undone depends on how it is committed.
    For an item that already existed, and a new title that is trimmed, not
    empty and different from the old one: committing by leaving the input
    ([stopEditing(true)]) pushes a snapshot of the old list before it changes
    the title, so undo restores the old title; committing with Enter writes
    the title first and then finds nothing to save, so the same new list is
    reached with both stacks unchanged. *)
Theorem rename_commit_and_history (value : str) (e : Id) (idx : Z) (it : Item) (s : State) :
  isUndoingRedoing s = false ->
  editingId s = Some e ->
  isNewItem s = false ->
  index_of_id (items s) e = idx ->
  get (items s) idx = Some it ->
  trim value = value -> value <> [] -> value <> title it ->
  (exists s',
      stopEditing true value s = Some s'
      /\ items s' = update (items s) idx (set_title value)
      /\ saved_first s s'
      /\ items (undo s') = items s /\ archivedItems (undo s') = archivedItems s)
  /\ (exists s',
         editEnter value s = Some s'
         /\ items s' = update (items s) idx (set_title value)
         /\ history s' = history s /\ future s' = future s).
Proof.
  intros Hflag Hed Hnew Hidx G Htrim Hne Hdiff.
  pose proof (get_Some_bounds _ _ _ G) as B.
  assert (Hempty : str_eqb value [] = false).
  { destruct (str_eqb value []) eqn:E; [|reflexivity]. apply str_eqb_eq in E. contradiction. }
  split.
  - unfold stopEditing. rewrite Hflag, Hed. unfold index_of_id in Hidx. rewrite Hidx.
    destruct (Z.eqb_spec idx (-1)); [lia|]. rewrite Htrim.
    unfold EditingManager.saveEdit. rewrite Hempty. cbn [andb].
    unfold EditingManager._saveTitle, bind. rewrite G. rewrite Hnew. cbn [negb].
    replace (str_eqb (title it) value) with false.
    2:{ symmetry. destruct (str_eqb (title it) value) eqn:E; [|reflexivity].
        apply str_eqb_eq in E. congruence. }
    cbn [negb]. eexists. split; [reflexivity|].
    unfold EditingManager._resetEditingState. state_fields.
    destruct (save_fields s) as (Ei & _). fold (saveState s). rewrite Ei.
    pose proof (save_view s Hflag) as V. unfold stacks_view in V. injection V as _ Vh Vf Vu.
    split; [reflexivity|].
    split; [split; [rewrite <- push_capped_newest; assumption|assumption]|].
    destruct (push_capped_last (history s) (HistoryManager.snapshot s)) as (h' & Eh').
    apply snapshot_lists.
    eapply (undo_spec _ h' (HistoryManager.snapshot s)).
    + state_fields. exact Vu.
    + state_fields. congruence.
  - unfold editEnter. rewrite Hed, Hidx. unfold stopEditing. state_fields.
    rewrite Hflag, Hed.
    change (findIndex (fun i => Nat.eqb (id i) e)
                      (update (items s) idx (set_title value)))
      with (findIndex (fun i => Nat.eqb (id i) e)
                      (update (items s) idx (set_title value))).
    rewrite findIndex_update by reflexivity. unfold index_of_id in Hidx. rewrite Hidx.
    destruct (Z.eqb_spec idx (-1)); [lia|]. rewrite Htrim.
    unfold EditingManager.saveEdit. rewrite Hempty. cbn [andb].
    unfold EditingManager._saveTitle, bind. state_fields.
    rewrite (get_update_same _ _ _ _ G). cbn [title set_title].
    replace (str_eqb value value) with true by (symmetry; apply str_eqb_eq; reflexivity).
    cbn [negb]. eexists. split; [reflexivity|]. cbn. auto.
Qed.

Lemma rename_commit_and_history_witness :
  (exists s',
      stopEditing true (lit "z") renaming_state = Some s'
      /\ items s' = update (items renaming_state) 1 (set_title (lit "z"))
      /\ saved_first renaming_state s'
      /\ items (undo s') = items renaming_state
      /\ archivedItems (undo s') = archivedItems renaming_state)
  /\ (exists s',
         editEnter (lit "z") renaming_state = Some s'
         /\ items s' = update (items renaming_state) 1 (set_title (lit "z"))
         /\ history s' = history renaming_state /\ future s' = future renaming_state).
Proof.
  apply (rename_commit_and_history (lit "z") 1%nat 1
                                   (mkItem 1%nat todo (lit "y") 0 false [])
                                   renaming_state).
  - reflexivity.
  - reflexivity.
  - reflexivity.
  - reflexivity.
  - reflexivity.
  - reflexivity.
  - discriminate.
  - discriminate.
Defined.
(** ** The indent of every item is 0 or 1 *)

Lemma ok_of_data_view (s s' : State) :
  data_view s' = data_view s -> state_indents_ok s -> state_indents_ok s'.
Proof.
  unfold data_view, state_indents_ok. intros V. injection V as -> -> -> -> ->. auto.
Qed.

Lemma ok_set_items (l : list Item) (s : State) :
  indents_ok l -> state_indents_ok s -> state_indents_ok (set_items l s).
Proof. intros Hl (_ & A & C & H & F). repeat split; assumption. Qed.

Lemma Forall_splice_insert {A : Type} (P : A -> Prop) (l : list A) (i : Z) (xs : list A) :
  Forall P l -> Forall P xs -> Forall P (splice_insert l i xs).
Proof.
  intros Hl Hx. unfold splice_insert. apply Forall_app. split; [apply Forall_take, Hl|].
  apply Forall_app. split; [exact Hx|apply Forall_drop, Hl].
Qed.

Lemma Forall_slice {A : Type} (P : A -> Prop) (l : list A) (a b : Z) :
  Forall P l -> Forall P (slice l a b).
Proof. intros H. unfold slice. apply Forall_take, Forall_drop, H. Qed.

Lemma Forall_update {A : Type} (P : A -> Prop) (l : list A) (i : Z) (f : A -> A) :
  (forall x, P x -> P (f x)) -> Forall P l -> Forall P (update l i f).
Proof.
  intros Hf H. unfold update. destruct (get l i) as [x|] eqn:G; [|exact H].
  destruct (get_split l i x G) as (l1 & l2 & -> & _ & -> & ->).
  apply Forall_app in H. destruct H as [H1 H2]. inversion H2; subst.
  apply Forall_app. split; [exact H1|]. constructor; auto.
Qed.

Lemma Forall_fold_splice_remove {A : Type} (P : A -> Prop) (indices : list Z) :
  forall l : list A, Forall P l ->
                     Forall P (fold_left (fun l index => splice_remove l index 1) indices l).
Proof.
  induction indices as [|i r IH]; intros l H; cbn; [exact H|].
  apply IH, Forall_splice_remove, H.
Qed.

Lemma save_indents_ok (s : State) : state_indents_ok s -> state_indents_ok (saveState s).
Proof.
  unfold state_indents_ok, saveState, HistoryManager.save. intros (I & A & C & H & F).
  destruct (isUndoingRedoing s); [auto|]. state_fields. repeat split; auto.
  unfold HistoryManager.push_capped.
  assert (Forall snapshot_indents_ok (history s ++ [HistoryManager.snapshot s])).
  { apply Forall_app. split; [assumption|]. constructor; [split; assumption|constructor]. }
  destruct (_ >? _); [apply Forall_tl|]; assumption.
Qed.

Lemma popLast_indents_ok (s : State) :
  state_indents_ok s -> state_indents_ok (HistoryManager.popLast s).
Proof.
  unfold state_indents_ok, HistoryManager.popLast. intros (I & A & C & H & F).
  destruct (_ >? _); state_fields; repeat split; auto. apply Forall_removelast. assumption.
Qed.

Lemma validateSelection_data (s : State) :
  data_view (HistoryManager._validateSelection s) = data_view s.
Proof.
  unfold HistoryManager._validateSelection, data_view.
  repeat match goal with
         | |- context [if ?c then _ else _] => destruct c
         | |- context [match ?c with Some _ => _ | None => _ end] => destruct c
         end; reflexivity.
Qed.

Lemma undo_indents_ok (s : State) : state_indents_ok s -> state_indents_ok (undo s).
Proof.
  unfold undo, HistoryManager.undo. intros C.
  destruct (isUndoingRedoing s); [exact C|].
  destruct (rev (history s)) as [|prev older] eqn:E; [exact C|]. cbn [snd].
  eapply ok_of_data_view; [apply validateSelection_data|].
  destruct C as (I & A & Cl & H & F).
  destruct (Forall_rev_inv _ _ _ _ H E) as ((Hp1 & Hp2) & Ho).
  unfold state_indents_ok. state_fields. repeat split; auto.
  apply Forall_app. split; [assumption|]. constructor; [split; assumption|constructor].
Qed.

Lemma redo_indents_ok (s : State) : state_indents_ok s -> state_indents_ok (redo s).
Proof.
  unfold redo, HistoryManager.redo. intros C.
  destruct (isUndoingRedoing s); [exact C|].
  destruct (rev (future s)) as [|next older] eqn:E; [exact C|]. cbn [snd].
  eapply ok_of_data_view; [apply validateSelection_data|].
  destruct C as (I & A & Cl & H & F).
  destruct (Forall_rev_inv _ _ _ _ F E) as ((Hp1 & Hp2) & Ho).
  unfold state_indents_ok. state_fields. repeat split; auto.
  apply Forall_app. split; [assumption|]. constructor; [split; assumption|constructor].
Qed.

Lemma selectItem1_data index s : data_view (selectItem1 index s) = data_view s.
Proof. unfold selectItem1. break_match_goal; reflexivity. Qed.

Lemma selectItem_data index toggle extend isKeyboard s s' :
  selectItem index toggle extend isKeyboard s = Some s' -> data_view s' = data_view s.
Proof.
  intros H.
  unfold selectItem, handleExtendSelection, handleToggleSelection,
    findSelectionEndpoint, bind in H.
  cbv zeta in H. break_all; break_match_goal; reflexivity.
Qed.

Lemma reset_after_delete_data ref types s :
  data_view (DeleteManager.resetSelectionAfterDelete ref types s) = data_view s.
Proof.
  unfold DeleteManager.resetSelectionAfterDelete. cbv zeta. break_match_goal; reflexivity.
Qed.

Lemma deleteSingle_indents_ok index s :
  state_indents_ok s -> state_indents_ok (DeleteManager.deleteSingle index s).
Proof.
  intros C. unfold DeleteManager.deleteSingle. destruct (get (items s) index); [|exact C].
  cbv zeta. eapply ok_of_data_view; [apply selectItem1_data|].
  eapply ok_of_data_view; [apply reset_after_delete_data|].
  apply ok_set_items; [|exact C]. apply Forall_splice_remove, C.
Qed.

Lemma deleteMultiple_indents_ok s s' :
  DeleteManager.deleteMultiple s = Some s' -> state_indents_ok s -> state_indents_ok s'.
Proof.
  intros H C. unfold DeleteManager.deleteMultiple, bind in H.
  destruct (_ =? _); [injection H as <-; exact C|].
  destruct (DeleteManager.collectIndicesToDelete _ _); [|discriminate].
  unfold DeleteManager.deleteByIndices, bind in H.
  destruct (DeleteManager.types_of _ _); [|discriminate].
  cbv zeta in H. injection H as <-.
  eapply ok_of_data_view; [apply selectItem1_data|].
  eapply ok_of_data_view; [apply reset_after_delete_data|].
  apply ok_set_items; [|exact C]. apply Forall_fold_splice_remove, C.
Qed.

Lemma ok_of_rest_view (s s' : State) :
  rest_view s' = rest_view s -> indents_ok (items s') ->
  state_indents_ok s -> state_indents_ok s'.
Proof.
  unfold rest_view, state_indents_ok. intros V Hi (_ & A & C & H & F).
  injection V as -> -> -> ->. auto.
Qed.

Lemma changeIndent_loop_rest delta indices :
  forall s s', IndentManager.changeIndent_loop delta indices s = Some s' ->
               rest_view s' = rest_view s.
Proof.
  induction indices as [|i r IH]; intros s s' H; cbn in H.
  - injection H as <-. reflexivity.
  - unfold bind in H. destruct (get (items s) i); [|discriminate].
    destruct (IndentManager.canChangeIndent _ _ _ _ _) as [[|]|]; [| |discriminate];
      apply IH in H; rewrite H; reflexivity.
Qed.

Lemma changeIndent_indents_ok delta s s' :
  changeIndent delta s = Some s' -> state_indents_ok s -> state_indents_ok s'.
Proof.
  intros H C. unfold changeIndent, IndentManager.changeIndent in H.
  eapply ok_of_rest_view; [eapply changeIndent_loop_rest; exact H| |exact C].
  apply (proj2 (changeIndent_loop_spec _ _ _ _ H)), C.
Qed.

Lemma addItem_indents_ok ty insertIndex s s' :
  addItem ty insertIndex None s = Some s' -> state_indents_ok s -> state_indents_ok s'.
Proof.
  intros H C. apply save_indents_ok in C. unfold addItem, ItemUtils.generateId, bind in H.
  cbv zeta in H.
  match type of H with
  | match ?m with Some _ => _ | None => _ end = _ => destruct m; [|discriminate]
  end.
  match type of H with
  | (if ?c then _ else _) = _ => destruct c
  end; injection H as <-; [revert C; apply ok_of_data_view; reflexivity|].
  unfold startEditing.
  eapply ok_of_data_view; [reflexivity|].
  eapply ok_of_data_view; [apply selectItem1_data|].
  state_fields.
  match goal with
  | |- state_indents_ok (set_items ?l ?t) =>
    apply (ok_of_rest_view (saveState s) (set_items l t)); [reflexivity| |exact C]
  end.
  state_fields. apply Forall_splice_insert; [apply C|].
  constructor; [|constructor]. unfold indent_ok. cbn [indent set_indent].
  destruct ty; [|left; reflexivity].
  destruct C as (I & _). unfold indents_ok in I. rewrite Forall_forall in I.
  assert (Hget : forall i it, get (items (saveState s)) i = Some it -> indent_ok it).
  { intros i it G. apply I. unfold get in G. destruct (i <? 0); [discriminate|].
    eapply nth_error_In. exact G. }
  match goal with
  | |- (if ?n >? 1 then 1 else ?n) = 0 \/ _ =>
    assert (Hn : n = 0 \/ n = 1); [|destruct Hn as [-> | ->]; cbn; auto]
  end.
  destruct (activeIndex (saveState s) >=? 0); cbv iota; [|left; reflexivity].
  destruct (get (items (saveState s)) (activeIndex (saveState s))) as [sel|] eqn:G;
    [|left; reflexivity].
  destruct (Z.eqb_spec (indent sel) 0); [|exact (Hget _ _ G)].
  destruct (_ <? _); cbv iota; [|left; reflexivity].
  destruct (get (items (saveState s)) (activeIndex (saveState s) + 1));
    [|left; reflexivity].
  destruct (_ =? 1); auto.
Qed.

Lemma indent_ok_set_title v it : indent_ok it -> indent_ok (set_title v it).
Proof. auto. Qed.

Lemma indent_ok_set_note v it : indent_ok it -> indent_ok (set_note v it).
Proof. auto. Qed.

Lemma indent_ok_set_isChecked v it : indent_ok it -> indent_ok (set_isChecked v it).
Proof. auto. Qed.

Lemma indent_ok_set_id v it : indent_ok it -> indent_ok (set_id v it).
Proof. auto. Qed.

Lemma ok_update (f : Item -> Item) (i : Z) (s : State) :
  (forall x, indent_ok x -> indent_ok (f x)) ->
  state_indents_ok s -> state_indents_ok (set_items (update (items s) i f) s).
Proof.
  intros Hf C. apply ok_set_items; [|exact C]. apply Forall_update; [exact Hf|apply C].
Qed.

Lemma stopEditing_indents_ok save value s s' :
  stopEditing save value s = Some s' -> state_indents_ok s -> state_indents_ok s'.
Proof.
  intros H C. unfold stopEditing in H.
  destruct (isUndoingRedoing s); [injection H as <-; exact C|].
  destruct (editingId s); [|injection H as <-; exact C].
  destruct (_ =? -1).
  { injection H as <-. revert C. apply ok_of_data_view. reflexivity. }
  assert (Hcancel : forall idx, state_indents_ok (EditingManager._cancelNewItem idx s)).
  { intros idx. unfold EditingManager._cancelNewItem.
    eapply ok_of_data_view; [reflexivity|]. apply popLast_indents_ok.
    apply deleteSingle_indents_ok, C. }
  destruct save.
  - unfold EditingManager.saveEdit in H.
    destruct (_ && _); [injection H as <-; apply Hcancel|].
    destruct (str_eqb _ _).
    + injection H as <-. eapply ok_of_data_view; [reflexivity|].
      apply deleteSingle_indents_ok, save_indents_ok, C.
    + unfold EditingManager._saveTitle, bind in H.
      destruct (get _ _); [|discriminate]. cbv zeta in H. injection H as <-.
      eapply ok_of_data_view; [reflexivity|].
      destruct (negb (str_eqb _ _)); [|exact C].
      apply ok_update; [apply indent_ok_set_title|].
      destruct (negb (isNewItem s)); [|exact C].
      apply save_indents_ok, C.
  - injection H as <-. unfold EditingManager.cancelEdit.
    destruct (isNewItem s); [apply Hcancel|]. revert C. apply ok_of_data_view. reflexivity.
Qed.

Lemma editEnter_indents_ok value s s' :
  editEnter value s = Some s' -> state_indents_ok s -> state_indents_ok s'.
Proof.
  intros H C. unfold editEnter in H.
  destruct (editingId s) eqn:E; [|injection H as <-; exact C].
  eapply stopEditing_indents_ok; [exact H|].
  apply ok_update; [apply indent_ok_set_title|exact C].
Qed.

Lemma editTab_indents_ok isShift value s s' :
  editTab isShift value s = Some s' -> state_indents_ok s -> state_indents_ok s'.
Proof.
  intros H C. unfold editTab, bind in H. cbv zeta in H.
  destruct (editingId s); [|injection H as <-; exact C].
  destruct (get (items s) (index_of_id (items s) i)) as [item|]; [|discriminate].
  assert (C1 : state_indents_ok
                 (set_items (update (items s) (index_of_id (items s) i) (set_title value)) s))
    by (apply ok_update; [apply indent_ok_set_title|exact C]).
  destruct (Z.geb_spec (indent item + (if isShift then -1 else 1)) Constants.INDENT_PARENT);
    [|injection H as <-; exact C1].
  destruct (Z.leb_spec (indent item + (if isShift then -1 else 1)) Constants.INDENT_MAX);
    [|injection H as <-; exact C1].
  cbn [andb] in H.
  assert (C2 : state_indents_ok
                 (set_items
                    (update (items (set_items (update (items s) (index_of_id (items s) i)
                                                      (set_title value)) s))
                            (index_of_id (items s) i)
                            (set_indent (indent item + (if isShift then -1 else 1))))
                    (set_items (update (items s) (index_of_id (items s) i) (set_title value))
                               s))).
  { apply ok_update; [|exact C1]. intros x _. unfold indent_ok. cbn.
    unfold Constants.INDENT_PARENT, Constants.INDENT_MAX in *. lia. }
  destruct (negb isShift); [|injection H as <-; exact C2].
  match type of H with
  | match ?x with Some _ => _ | None => _ end = _ => destruct x; [|injection H as <-; exact C1]
  end.
  injection H as <-. destruct (negb _); assumption.
Qed.

Lemma Forall_fold_update (P : Item -> Prop) (g : Z -> bool) (f : Item -> Item) (sel : list Z) :
  (forall x, P x -> P (f x)) ->
  forall l, Forall P l ->
            Forall P (fold_left (fun l index => if g index then update l index f else l) sel l).
Proof.
  intros Hf. induction sel as [|i r IH]; intros l H; cbn [fold_left]; [exact H|].
  apply IH. destruct (g i); [apply Forall_update; assumption|exact H].
Qed.

Lemma toggleChecked_indents_ok s : state_indents_ok s -> state_indents_ok (toggleChecked s).
Proof.
  intros C. unfold toggleChecked. destruct (_ =? 0); [exact C|]. cbv zeta.
  apply save_indents_ok in C. apply ok_set_items; [|exact C].
  apply (Forall_fold_update indent_ok
           (fun index => match get (items (saveState s)) index with
                         | Some it => ItemType_eqb (type it) todo
                         | None => false
                         end)).
  - apply indent_ok_set_isChecked.
  - apply C.
Qed.

Lemma saveNote_indents_ok a b s : state_indents_ok s -> state_indents_ok (saveNote a b s).
Proof.
  intros C. unfold saveNote.
  match goal with
  | |- context [match ?x with Some _ => _ | None => _ end] => destruct x
  end; [|exact C].
  cbv zeta.
  destruct (negb _); [|exact C].
  apply ok_update; [apply indent_ok_set_note|]. apply save_indents_ok.
  apply ok_update; [apply indent_ok_set_note|exact C].
Qed.

Lemma moveItem_indents_ok direction s s' :
  moveItem direction s = Some s' -> state_indents_ok s -> state_indents_ok s'.
Proof.
  intros H C. unfold moveItem in H.
  destruct (_ <? 0); [injection H as <-; exact C|].
  destruct (ItemUtils.isArchiveHeading _); [injection H as <-; exact C|].
  cbv zeta in H. apply save_indents_ok in C.
  assert (Hb : block_moved (items (saveState s)) (items s')
               /\ stacks_view s' = stacks_view (saveState s)
               /\ clipboard s' = clipboard (saveState s)).
  { destruct (_ >? 1).
    - split; [eapply moveMultipleItems_block; exact H|].
      split; [eapply moveMultipleItems_view; exact H|].
      unfold moveMultipleItems, moveMultipleUp, moveMultipleDown, bind in H.
      cbv zeta in H. destruct direction; break_all; reflexivity.
    - split; [eapply moveSingleItem_block; exact H|].
      split; [eapply moveSingleItem_view; exact H|].
      unfold moveSingleItem, moveSingleUp, moveSingleDown, bind in H.
      cbv zeta in H.
      destruct direction; break_all; try reflexivity;
        match goal with
        | |- clipboard (selectItem1 ?i ?t) = _ =>
          pose proof (selectItem1_data i t) as V; unfold data_view in V;
            injection V as _ _ V _ _; rewrite V; reflexivity
        end. }
  destruct Hb as (Hb & Hv & Hc). unfold stacks_view in Hv. injection Hv as Va Vh Vf _.
  eapply ok_of_rest_view; [| |exact C].
  - unfold rest_view. congruence.
  - eapply Permutation_Forall; [apply block_moved_perm, Hb|apply C].
Qed.

Lemma promote_root_indents_ok (l : list Item) : indents_ok l -> indents_ok (promote_root l).
Proof.
  intros H. unfold promote_root. destruct l as [|root rest]; [exact H|].
  destruct (_ =? _); [|exact H]. inversion H; subst.
  constructor; [left; reflexivity|assumption].
Qed.

Lemma getItemWithChildren_indents_ok (l : list Item) (index : Z) :
  indents_ok l -> indents_ok (fst (ItemUtils.getItemWithChildren l index)).
Proof.
  intros H. destruct (ItemUtils.getItemWithChildren l index) as [moving count] eqn:G.
  apply getItemWithChildren_slice in G. destruct G as [-> _]. apply Forall_slice, H.
Qed.

Lemma heading_step_indents_ok (step : list Item -> Item -> option (list Item)) :
  step = next_heading_step \/ step = prev_heading_step ->
  forall l l' item, step l item = Some l' -> indents_ok l -> indents_ok l'.
Proof.
  intros Hstep l l' item H Hl.
  destruct Hstep as [-> | ->]; [unfold next_heading_step in H|unfold prev_heading_step in H];
    cbv zeta in H;
    (destruct (_ =? -1); [discriminate|]);
    pose proof (getItemWithChildren_indents_ok l (index_of_id l (id item)) Hl) as Hm;
    destruct (ItemUtils.getItemWithChildren l (index_of_id l (id item))) as [moving count];
    cbn [fst] in Hm.
  - destruct (_ =? -1); [discriminate|].
    destruct (ItemUtils.isArchiveHeading _); [discriminate|]. injection H as <-.
    apply Forall_splice_insert; [apply Forall_splice_remove, Hl|].
    apply promote_root_indents_ok, Hm.
  - destruct (_ =? _); [discriminate|]. injection H as <-.
    apply Forall_splice_insert; [apply Forall_splice_remove, Hl|].
    apply promote_root_indents_ok, Hm.
Qed.

Lemma heading_loop_indents_ok (step : list Item -> Item -> option (list Item)) :
  (forall l l' item, step l item = Some l' -> indents_ok l -> indents_ok l') ->
  forall toMove l moved,
    indents_ok l -> indents_ok (fst (heading_loop step toMove l moved)).
Proof.
  intros Hstep. induction toMove as [|x r IH]; intros l moved Hl; cbn [heading_loop fst];
    [exact Hl|].
  destruct (step l x) as [l1|] eqn:E; [|apply IH, Hl].
  apply IH. eapply Hstep; eassumption.
Qed.

Lemma moveToHeading_indents_ok step chk s s' :
  step = next_heading_step \/ step = prev_heading_step ->
  moveToHeading step chk s = Some s' -> state_indents_ok s -> state_indents_ok s'.
Proof.
  intros Hstep H C. unfold moveToHeading in H. cbv zeta in H.
  assert (C0 : state_indents_ok (select_active_if_empty s)).
  { revert C. apply ok_of_data_view. unfold select_active_if_empty.
    destruct (_ && _); reflexivity. }
  destruct (_ =? 0); [injection H as <-; exact C0|].
  apply save_indents_ok in C0.
  match type of H with
  | context [heading_loop step ?t ?l ?m] =>
    pose proof (heading_loop_indents_ok step (heading_step_indents_ok step Hstep) t l m
                                        (proj1 C0)) as P;
      destruct (heading_loop step t l m) as [items' moved]
  end.
  cbn [fst] in P.
  assert (C1 : state_indents_ok
                 (set_items items' (saveState (select_active_if_empty s))))
    by (apply ok_set_items; assumption).
  destruct (negb moved); [injection H as <-; exact C1|].
  destruct (_ && _); [discriminate|]. injection H as <-.
  eapply ok_of_data_view; [|exact C1].
  unfold SelectionManager.restoreState, SelectionManager.captureState.
  break_match_goal; reflexivity.
Qed.

Lemma moveToArchive_indents_ok s s' :
  moveToArchive s = Some s' -> state_indents_ok s -> state_indents_ok s'.
Proof.
  intros H C. unfold moveToArchive, bind in H. cbv zeta in H.
  assert (C0 : state_indents_ok (select_active_if_empty s)).
  { revert C. apply ok_of_data_view. unfold select_active_if_empty.
    destruct (_ && _); reflexivity. }
  destruct (_ =? 0); [injection H as <-; exact C0|].
  apply save_indents_ok in C0. set (s1 := saveState (select_active_if_empty s)) in *.
  destruct (ItemUtils.collectItemsToProcess _ _ _) as [|x toMove];
    [injection H as <-; exact C0|].
  destruct (min_of _); [|injection H as <-; exact C0].
  destruct (DeleteManager.types_of _ _); [|discriminate].
  destruct (archive_loop _ _ _) as [items' moved] eqn:L.
  apply archive_loop_conserves in L. destruct L as (taken & -> & P).
  injection H as <-. destruct C0 as (I & A & Cl & Hh & Hf).
  assert (Hall : indents_ok (items' ++ taken))
    by (eapply Permutation_Forall; [exact P|exact I]).
  apply Forall_app in Hall. destruct Hall as [Hi Ht].
  unfold state_indents_ok. state_fields. repeat split; try assumption.
  apply Forall_app. split; [|exact A]. cbn [app].
  apply Forall_map. eapply Forall_impl; [|exact Ht]. intros a Ha. exact Ha.
Qed.

Lemma moveFromArchive_indents_ok s s' :
  moveFromArchive s = Some s' -> state_indents_ok s -> state_indents_ok s'.
Proof.
  intros H C. unfold moveFromArchive, bind in H. cbv zeta in H.
  destruct (_ =? 0); [injection H as <-; exact C|].
  destruct (restore_collect _ _ _) as [toRestore|]; [|discriminate].
  destruct (restore_remove _ _ _) as [archived' moved] eqn:R.
  apply restore_remove_conserves in R. destruct R as (taken & -> & P).
  injection H as <-. apply save_indents_ok in C. destruct C as (I & A & Cl & Hh & Hf).
  assert (Hall : indents_ok (archived' ++ taken))
    by (eapply Permutation_Forall; [exact P|exact A]).
  apply Forall_app in Hall. destruct Hall as [Ha Ht].
  unfold state_indents_ok. state_fields. repeat split; try assumption.
  apply Forall_app. split; [exact I|]. cbn [app]. apply Forall_rev.
  apply Forall_map. eapply Forall_impl; [|exact Ht]. intros a Hx. exact Hx.
Qed.

Lemma deleteArchivedItems_indents_ok s s' :
  deleteArchivedItems s = Some s' -> state_indents_ok s -> state_indents_ok s'.
Proof.
  intros H C. unfold deleteArchivedItems, ArchiveDeleteManager.deleteMultiple, bind in H.
  destruct (_ =? 0); [injection H as <-; exact C|].
  destruct (ArchiveDeleteManager.collectIndicesToDelete _ _) as [toDelete|]; [|discriminate].
  unfold ArchiveDeleteManager.deleteByIndices in H. injection H as <-.
  destruct C as (I & A & Cl & Hh & Hf).
  unfold ArchiveDeleteManager.resetSelectionAfterDelete. cbv zeta.
  destruct (_ >? 0); unfold state_indents_ok; state_fields; repeat split; auto;
    apply Forall_fold_splice_remove, A.
Qed.

Lemma blocks_of_indents_ok (l toProcess : list Item) :
  indents_ok l -> indents_ok (blocks_of l toProcess).
Proof.
  intros H. unfold blocks_of, indents_ok. apply Forall_flat_map. intros x _.
  destruct (_ =? -1); [constructor|]. apply getItemWithChildren_indents_ok, H.
Qed.

Lemma copyItems_indents_ok s : state_indents_ok s -> state_indents_ok (copyItems s).
Proof.
  intros C. unfold copyItems. destruct (_ =? 0); [exact C|]. cbv zeta.
  destruct C as (I & A & Cl & Hh & Hf). unfold state_indents_ok. state_fields.
  repeat split; auto. apply blocks_of_indents_ok, I.
Qed.

Lemma cutItems_indents_ok s s' :
  cutItems s = Some s' -> state_indents_ok s -> state_indents_ok s'.
Proof.
  intros H C. unfold cutItems, deleteItems in H. cbv zeta in H.
  destruct (_ =? 0); [injection H as <-; exact C|].
  eapply deleteMultiple_indents_ok; [exact H|]. apply save_indents_ok.
  destruct C as (I & A & Cl & Hh & Hf). unfold state_indents_ok. state_fields.
  repeat split; auto. apply blocks_of_indents_ok, I.
Qed.

Lemma deepCopyItems_new_indents_ok (l : list Item) :
  forall s, indents_ok l ->
            indents_ok (fst (ItemUtils.deepCopyItems_new l s))
            /\ data_view (snd (ItemUtils.deepCopyItems_new l s)) = data_view s.
Proof.
  induction l as [|x l IH]; intros s H; cbn [ItemUtils.deepCopyItems_new].
  - split; [constructor|reflexivity].
  - inversion H; subst. unfold ItemUtils.generateId.
    destruct (IH (set_nextId (S (nextId s)) s)) as (I1 & I2); [assumption|].
    destruct (ItemUtils.deepCopyItems_new l (set_nextId (S (nextId s)) s)) as [copies s2].
    cbn [fst snd] in *. split; [constructor; assumption|]. rewrite I2. reflexivity.
Qed.

Lemma adjustOrphanedIndent_indents_ok (toInsert target r : list Item) (pos : Z) :
  ItemUtils.adjustOrphanedIndent toInsert target pos = Some r ->
  indents_ok toInsert -> indents_ok r.
Proof.
  unfold ItemUtils.adjustOrphanedIndent, bind. intros H Hl.
  destruct toInsert as [|first rest]; [injection H as <-; exact Hl|].
  inversion Hl; subst.
  assert (Hp : indents_ok (set_indent Constants.INDENT_PARENT first :: rest))
    by (constructor; [left; reflexivity|assumption]).
  destruct (negb _); [injection H as <-; exact Hl|].
  destruct (pos =? 0); [injection H as <-; exact Hp|].
  destruct (ItemUtils.hasParentAbove target pos) as [[|]|]; [| |discriminate];
    injection H as <-; assumption.
Qed.

Lemma insert_and_select_indents_ok i l s :
  indents_ok l -> state_indents_ok s -> state_indents_ok (insert_and_select i l s).
Proof.
  intros Hl C. unfold insert_and_select. cbv zeta.
  eapply ok_of_data_view; [apply selectItem1_data|].
  eapply ok_of_data_view; [reflexivity|].
  apply ok_set_items; [|exact C]. apply Forall_splice_insert; [apply C|exact Hl].
Qed.

Lemma pasteItems_indents_ok s s' :
  pasteItems s = Some s' -> state_indents_ok s -> state_indents_ok s'.
Proof.
  intros H C. unfold pasteItems, bind in H.
  destruct (_ =? 0); [injection H as <-; exact C|]. cbv zeta in H.
  destruct (paste_insertIndex _); [|discriminate].
  apply save_indents_ok in C. unfold ItemUtils.deepCopyItems in H.
  destruct (deepCopyItems_new_indents_ok (clipboard (saveState s)) (saveState s))
    as (I1 & I2); [apply C|].
  destruct (ItemUtils.deepCopyItems_new _ _) as [pasted s2]. cbn [fst snd] in I1, I2.
  destruct (ItemUtils.adjustOrphanedIndent _ _ _) as [adjusted|] eqn:Ea; [|discriminate].
  injection H as <-. apply insert_and_select_indents_ok.
  - eapply adjustOrphanedIndent_indents_ok; eassumption.
  - eapply ok_of_data_view; eassumption.
Qed.

Lemma duplicateItems_indents_ok s s' :
  duplicateItems s = Some s' -> state_indents_ok s -> state_indents_ok s'.
Proof.
  intros H C. unfold duplicateItems, bind in H.
  destruct (max_of _); [|injection H as <-; exact C]. cbv zeta in H.
  apply save_indents_ok in C. unfold ItemUtils.deepCopyItems in H.
  match type of H with
  | context [ItemUtils.deepCopyItems_new ?l ?t] =>
    destruct (deepCopyItems_new_indents_ok l t) as (I1 & I2);
      [apply blocks_of_indents_ok, C|];
      destruct (ItemUtils.deepCopyItems_new l t) as [dup s2]
  end.
  cbn [fst snd] in I1, I2.
  destruct (ItemUtils.adjustOrphanedIndent _ _ _) as [adjusted|] eqn:Ea; [|discriminate].
  injection H as <-. apply insert_and_select_indents_ok.
  - eapply adjustOrphanedIndent_indents_ok; eassumption.
  - eapply ok_of_data_view; eassumption.
Qed.

Lemma set_last_note_indents_ok v l : indents_ok l -> indents_ok (set_last_note v l).
Proof.
  intros H. unfold set_last_note. destruct (rev l) as [|x r] eqn:E; [exact H|].
  destruct (Forall_rev_inv _ _ _ _ H E) as (Hx & Hr).
  apply Forall_app. split; [exact Hr|]. constructor; [exact Hx|constructor].
Qed.

Lemma parse_line_indents_ok (st : ParseState) (line : str) :
  indents_ok (p_items st) /\ indents_ok (p_archivedItems st) ->
  indents_ok (p_items (parse_line st line))
  /\ indents_ok (p_archivedItems (parse_line st line)).
Proof.
  intros (HI & HA). destruct st as [its arch cur coll lastI inArch nid].
  cbn [p_items p_archivedItems] in *. unfold parse_line.
  destruct (startsWith (lit "```plane") (trim line)); [split; assumption|].
  destruct coll.
  { destruct (startsWith (lit "```") (trim line)); [|split; assumption].
    destruct lastI; cbn [p_items p_archivedItems]; split;
      try assumption; apply set_last_note_indents_ok; assumption. }
  destruct (startsWith (lit "## ") (trim line)).
  { destruct (str_eqb _ _); cbn [p_items p_archivedItems]; split; try assumption.
    apply Forall_app. split; [assumption|]. constructor; [left; reflexivity|constructor]. }
  destruct (matchTodo line) as [[[indentStr mark] titleStr]|]; [|split; assumption].
  destruct inArch; cbn [p_items p_archivedItems]; split; try assumption;
    (apply Forall_app; split; [assumption|]); (constructor; [|constructor]);
    unfold indent_ok; cbn [indent set_isChecked]; apply todo_indent_range.
Qed.

Lemma parseMarkdown_indents_ok (content : str) (nid : Id) :
  indents_ok (p_items (parseMarkdown content nid))
  /\ indents_ok (p_archivedItems (parseMarkdown content nid)).
Proof.
  unfold parseMarkdown, parse_lines.
  assert (H : indents_ok (p_items (parse_init nid))
              /\ indents_ok (p_archivedItems (parse_init nid)))
    by (split; constructor).
  revert H. generalize (parse_init nid).
  induction (split nl content) as [|l r IH]; intros st H; cbn [fold_left]; [exact H|].
  apply IH, parse_line_indents_ok, H.
Qed.

Lemma handle_indents_ok e s s' :
  handle e s = Some s' -> state_indents_ok s -> state_indents_ok s'.
Proof.
  intros H C. destruct e; cbn [handle] in H;
    unfold KeyboardHandler.handleKeydown, bind in H;
    try (destruct (editingId s) eqn:Eed; [injection H as <-; exact C|]).
  - (* ClickAddTodo *) eapply addItem_indents_ok; eassumption.
  - (* ClickAddHeading *) eapply addItem_indents_ok; eassumption.
  - (* KeyNewItem *)
    unfold KeyboardHandler.handleEnter_new in H.
    destruct (isArchiveHeaderSelected s);
      [injection H as <-; revert C; apply ok_of_data_view; reflexivity|].
    destruct (isArchiveActive s); [injection H as <-; exact C|].
    destruct (_ >=? 0); eapply addItem_indents_ok; eassumption.
  - (* KeyEditItem *)
    unfold KeyboardHandler.handleEnter_edit, bind in H.
    revert C. apply ok_of_data_view. break_all; reflexivity.
  - (* DoubleClick *)
    revert C. apply ok_of_data_view. break_all; reflexivity.
  - (* EditEnter *) eapply editEnter_indents_ok; eassumption.
  - (* EditBlur *) eapply stopEditing_indents_ok; eassumption.
  - (* EditEscape *) eapply stopEditing_indents_ok; eassumption.
  - (* EditTab *) eapply editTab_indents_ok; eassumption.
  - (* KeyTab *)
    unfold KeyboardHandler.handleTab in H.
    destruct (isArchiveActive s); [injection H as <-; exact C|].
    destruct (_ >? 0); [|injection H as <-; exact C].
    eapply changeIndent_indents_ok; [exact H|]. apply save_indents_ok, C.
  - (* KeyDelete *)
    unfold KeyboardHandler.handleDelete in H.
    destruct (isArchiveActive s).
    + destruct (_ >? 0); [|injection H as <-; exact C].
      eapply deleteArchivedItems_indents_ok; [exact H|]. apply save_indents_ok, C.
    + destruct (_ >? 0); [|injection H as <-; exact C].
      eapply deleteMultiple_indents_ok; [exact H|]. apply save_indents_ok, C.
  - (* KeySpace *)
    injection H as <-. unfold KeyboardHandler.handleSpace.
    destruct (isArchiveActive s); [exact C|]. apply toggleChecked_indents_ok, C.
  - (* KeyMove *)
    unfold KeyboardHandler.handleArrow_cmd in H.
    destruct (_ && _); [|injection H as <-; exact C].
    eapply moveItem_indents_ok; eassumption.
  - (* KeyMoveToNextHeading *)
    unfold KeyboardHandler.handleArrowRight_cmd in H.
    destruct (isArchiveActive s); [injection H as <-; exact C|].
    eapply (moveToHeading_indents_ok next_heading_step); [left; reflexivity|exact H|exact C].
  - (* KeyMoveToPrevHeading *)
    unfold KeyboardHandler.handleArrowLeft_cmd in H.
    destruct (negb _); [|injection H as <-; exact C].
    eapply (moveToHeading_indents_ok prev_heading_step); [right; reflexivity|exact H|exact C].
  - (* KeyArchive *)
    unfold KeyboardHandler.handleArrowRight_cmd in H.
    destruct (isArchiveActive s); [injection H as <-; exact C|].
    eapply moveToArchive_indents_ok; eassumption.
  - (* KeyRestore *)
    unfold KeyboardHandler.handleArrowLeft_cmd in H.
    eapply moveFromArchive_indents_ok; eassumption.
  - (* KeyUndo *) injection H as <-. apply undo_indents_ok, C.
  - (* KeyRedo *) injection H as <-. apply redo_indents_ok, C.
  - (* KeyCopy *) injection H as <-. apply copyItems_indents_ok, C.
  - (* KeyCut *) eapply cutItems_indents_ok; eassumption.
  - (* KeyPaste *) eapply pasteItems_indents_ok; eassumption.
  - (* KeyDuplicate *) eapply duplicateItems_indents_ok; eassumption.
  - (* ClickCheckbox *)
    destruct (get _ _); [|discriminate]. injection H as <-.
    unfold clickCheckbox. apply ok_update; [|exact C].
    intros x Hx. apply indent_ok_set_isChecked, Hx.
  - (* ClickItem *)
    destruct (get _ _); [|discriminate]. unfold clickItem in H. cbv zeta in H.
    assert (V : data_view s' = data_view s).
    { destruct extend; [|destruct toggle];
        (erewrite selectItem_data; [|exact H]; reflexivity). }
    revert C. apply ok_of_data_view, V.
  - (* ClickArchiveHeader *)
    destruct (_ >? 0); [|discriminate]. injection H as <-.
    revert C. apply ok_of_data_view. reflexivity.
  - (* ClickArchivedItem *)
    destruct (isArchiveHidden s); [discriminate|].
    destruct (get _ _); [|discriminate]. injection H as <-.
    revert C. apply ok_of_data_view. unfold clickArchivedItem. cbv zeta.
    destruct mode; break_match_goal; reflexivity.
  - (* Navigate *)
    injection H as <-. revert C. apply ok_of_data_view. reflexivity.
  - (* SaveNote *) injection H as <-. apply saveNote_indents_ok, C.
  - (* MsgUpdate *)
    injection H as <-. destruct C as (I & A & Cl & Hh & Hf).
    destruct (parseMarkdown_indents_ok content (nextId s)) as (PI & PA).
    unfold loadOutline. cbv zeta.
    destruct (_ >=? _); unfold state_indents_ok; state_fields; repeat split; assumption.
  - (* MsgClearArchiveConfirmed *)
    injection H as <-. apply save_indents_ok in C. destruct C as (I & A & Cl & Hh & Hf).
    unfold clearArchive, state_indents_ok. state_fields. repeat split; auto. constructor.
Qed.

Lemma stringify_loop_total (f : Item -> option str) (l : list Item) :
  (forall it, In it l -> exists piece, f it = Some piece) ->
  forall acc, exists r, stringify_loop f l acc = Some r.
Proof.
  induction l as [|x l IH]; intros Hf acc; cbn [stringify_loop]; [eauto|].
  destruct (Hf x (or_introl eq_refl)) as (piece & ->). cbn [bind].
  apply IH. intros it Hin. apply Hf. right. exact Hin.
Qed.

Lemma stringifyItems_total (itemList archived : list Item) :
  Forall (fun it => 0 <= indent it) itemList ->
  Forall (fun it => 0 <= indent it) archived ->
  exists text, stringifyItems itemList archived = Some text.
Proof.
  intros HI HA. unfold stringifyItems.
  assert (Hact : forall l, Forall (fun it => 0 <= indent it) l ->
                           forall it, In it l -> exists piece, stringify_active it = Some piece).
  { intros l Hl it Hin. rewrite Forall_forall in Hl. specialize (Hl it Hin).
    unfold stringify_active, repeat_tab. destruct (type it); [|eauto].
    destruct (Z.ltb_spec (indent it) 0); [lia|]. cbn [bind]. eauto. }
  assert (Harc : forall l, Forall (fun it => 0 <= indent it) l ->
                           forall it, In it l -> exists piece, stringify_archived it = Some piece).
  { intros l Hl it Hin. rewrite Forall_forall in Hl. specialize (Hl it Hin).
    unfold stringify_archived, repeat_tab. destruct (type it); [|eauto].
    destruct (Z.ltb_spec (indent it) 0); [lia|]. cbn [bind]. eauto. }
  destruct (stringify_loop_total stringify_active itemList (Hact _ HI) []) as (r & ->).
  cbn [bind]. destruct (_ >? 0); [|eauto].
  apply stringify_loop_total, (Harc _ HA).
Qed.

(** X20. In every state the webview can reach, every item has indent 0 or
    1: the items of the active list and of the archive, those on the
    clipboard and those kept in the snapshots of both stacks.  Writing the
    two lists of such a state with [stringifyItems] therefore never throws. *)
Theorem reachable_indents_ok (s : State) :
  reachable s ->
  state_indents_ok s
  /\ exists text, stringifyItems (items s) (archivedItems s) = Some text.
Proof.
  intros (events & H).
  assert (C : state_indents_ok s).
  { assert (C0 : state_indents_ok initialState) by (repeat split; constructor).
    revert H C0. generalize initialState.
    induction events as [|e r IH]; intros s0 H C0.
    - cbn in H. injection H as <-. exact C0.
    - cbn [run] in H. unfold bind in H.
      destruct (handle e s0) as [s1|] eqn:E; [|discriminate].
      eapply IH; [exact H|]. eapply handle_indents_ok; eassumption. }
  split; [exact C|]. destruct C as (I & A & _).
  apply stringifyItems_total; (eapply Forall_impl; [|eassumption]);
    intros it [E|E]; rewrite E; lia.
Qed.

Lemma reachable_indents_ok_witness :
  state_indents_ok new_todo_state
  /\ exists text, stringifyItems (items new_todo_state) (archivedItems new_todo_state)
                  = Some text.
Proof.
  apply (reachable_indents_ok new_todo_state).
  exists [ClickAddTodo]. reflexivity.
Defined.
(** ** Deleting a selection removes it with the children of its parents *)

Lemma has_In (i : Z) (l : IndexSet) : has i l = true <-> In i l.
Proof.
  unfold has. rewrite existsb_exists. split.
  - intros (x & Hx & E). apply Z.eqb_eq in E. subst x. exact Hx.
  - intros H. exists i. split; [exact H|apply Z.eqb_refl].
Qed.

Lemma NoDup_add (i : Z) (acc : IndexSet) : NoDup acc -> NoDup (add i acc).
Proof.
  intros H. unfold add. destruct (has i acc) eqn:E; [exact H|].
  apply NoDup_app; [exact H|repeat constructor; intros []|].
  intros x Hx [<-|[]]. apply has_In in Hx. congruence.
Qed.

Lemma NoDup_add_all (idxs : list Z) : forall acc, NoDup acc -> NoDup (add_all idxs acc).
Proof.
  unfold add_all. induction idxs as [|i r IH]; intros acc H; cbn [fold_left]; [exact H|].
  apply IH, NoDup_add, H.
Qed.

Lemma insert_descending (x : Z) (l : list Z) :
  descending l -> ~ In x l -> descending (insert_sorted Z.geb x l).
Proof.
  induction l as [|y r IH]; intros Hd Hn; cbn [insert_sorted].
  - cbn. auto.
  - destruct Hd as [Hy Hr]. destruct (Z.geb_spec x y).
    + assert (x <> y) by (intros ->; apply Hn; left; reflexivity).
      cbn [descending]. repeat split; auto.
      constructor; [lia|]. eapply Forall_impl; [|exact Hy]. cbn. intros; lia.
    + cbn [descending]. split.
      * apply Forall_forall. intros z Hz. apply In_insert_sorted in Hz.
        destruct Hz as [->|Hz]; [lia|]. rewrite Forall_forall in Hy. auto.
      * apply IH; [exact Hr|]. intros Hin. apply Hn. right. exact Hin.
Qed.

Lemma sort_desc_descending (l : list Z) : NoDup l -> descending (sort_desc l).
Proof.
  unfold sort_desc. induction 1 as [|x l Hx Hl IH]; cbn [fold_right]; [exact I|].
  apply insert_descending; [exact IH|]. intros Hin.
  apply (proj1 (In_sort_desc x l)) in Hin. contradiction.
Qed.

Lemma remove_indices_below (idxs : IndexSet) (l : list Item) :
  forall b, Forall (fun j => j < b) idxs -> remove_indices idxs b l = l.
Proof.
  induction l as [|x r IH]; intros b H; cbn [remove_indices]; [reflexivity|].
  destruct (has b idxs) eqn:E.
  - apply has_In in E. rewrite Forall_forall in H. specialize (H b E). lia.
  - rewrite IH; [reflexivity|]. eapply Forall_impl; [|exact H]. cbn. intros; lia.
Qed.

Lemma splice_remove_cons (x : Item) (r : list Item) (k : Z) :
  0 < k -> splice_remove (x :: r) k 1 = x :: splice_remove r (k - 1) 1.
Proof.
  intros H. unfold splice_remove, take, drop.
  replace (Z.to_nat k) with (S (Z.to_nat (k - 1))) by lia.
  replace (Z.to_nat (k + Z.max 0 1)) with (S (Z.to_nat (k - 1 + Z.max 0 1))) by lia.
  reflexivity.
Qed.

Lemma remove_one_more (i0 : Z) (rest : IndexSet) (l : list Item) :
  Forall (fun j => j < i0) rest ->
  forall b, b <= i0 ->
            remove_indices rest b (splice_remove l (i0 - b) 1)
            = remove_indices (i0 :: rest) b l.
Proof.
  intros Hrest. induction l as [|x r IH]; intros b Hb.
  - unfold splice_remove, take, drop. rewrite firstn_nil, skipn_nil. reflexivity.
  - cbn [remove_indices]. change (has b (i0 :: rest)) with ((b =? i0) || has b rest).
    destruct (Z.eqb_spec b i0) as [->|N].
    + rewrite Z.sub_diag. cbn [orb].
      change (splice_remove (x :: r) 0 1) with r.
      rewrite remove_indices_below by exact Hrest.
      rewrite remove_indices_below; [reflexivity|].
      constructor; [lia|]. eapply Forall_impl; [|exact Hrest]. cbn. intros; lia.
    + cbn [orb]. rewrite splice_remove_cons by lia.
      cbn [remove_indices]. replace (i0 - b - 1) with (i0 - (b + 1)) by lia.
      rewrite IH by lia. reflexivity.
Qed.

Lemma fold_remove_descending (d : list Z) :
  descending d -> Forall (fun j => 0 <= j) d ->
  forall l, fold_left (fun l index => splice_remove l index 1) d l = remove_indices d 0 l.
Proof.
  induction d as [|i0 rest IH]; intros Hd Hpos l; cbn [fold_left].
  - symmetry. apply remove_indices_below. constructor.
  - destruct Hd as [Hlt Hd]. inversion Hpos; subst.
    rewrite IH by assumption.
    replace i0 with (i0 - 0) at 1 by lia. apply remove_one_more; [exact Hlt|lia].
Qed.

Lemma remove_indices_ext (a b : IndexSet) (l : list Item) :
  (forall i, In i a <-> In i b) ->
  forall base, remove_indices a base l = remove_indices b base l.
Proof.
  intros H. induction l as [|x r IH]; intros base; cbn [remove_indices]; [reflexivity|].
  replace (has base b) with (has base a).
  - rewrite IH. reflexivity.
  - destruct (has base a) eqn:Ea; destruct (has base b) eqn:Eb; try reflexivity.
    + apply has_In, H, has_In in Ea. congruence.
    + apply has_In, H, has_In in Eb. congruence.
Qed.

Lemma run_length_inside {A : Type} (p : A -> bool) (l : list A) :
  forall k x, (Z.of_nat k < run_length p l) -> nth_error l k = Some x -> p x = true.
Proof.
  induction l as [|y l IH]; intros k x Hk G; cbn [run_length] in Hk.
  - destruct k; discriminate G.
  - destruct (p y) eqn:Py; [|lia]. destruct k as [|k]; cbn in G.
    + injection G as <-. exact Py.
    + apply (IH k); [lia|exact G].
Qed.

Lemma child_is_no_parent (l : list Item) (p i : Z) :
  child_of l p i -> forall q, ~ child_of l i q.
Proof.
  intros (parentItem & Gp & _ & _ & Hr) q (it & Gi & Hind & Hhead & _).
  pose proof (get_Some_bounds _ _ _ Gp) as Bp.
  assert (Hpred : negb ((indent it =? Constants.INDENT_PARENT) || is_heading it) = true).
  { apply (run_length_inside
             (fun it => negb ((indent it =? Constants.INDENT_PARENT) || is_heading it))
             (drop (p + 1) l) (Z.to_nat (i - (p + 1)))); [lia|].
    rewrite nth_error_drop by lia. rewrite <- Gi. f_equal. lia. }
  rewrite Hind, Hhead in Hpred. discriminate Hpred.
Qed.

Lemma delete_collect_spec (l : list Item) (sorted : list Z) :
  forall acc r,
    DeleteManager.collect_loop l sorted acc = Some r ->
    NoDup acc ->
    (forall p i, In p acc -> child_of l p i -> In i acc) ->
    NoDup r
    /\ forall i, In i r <-> In i acc \/ In i sorted
                          \/ exists p, In p sorted /\ child_of l p i.
Proof.
  induction sorted as [|index rest IH]; intros acc r H Hnd Hclosed;
    cbn [DeleteManager.collect_loop] in H.
  - injection H as <-. split; [exact Hnd|]. intros i. cbn [In].
    split; [auto|]. intros [Hi|[[]|(p & [] & _)]]. exact Hi.
  - destruct (has index acc) eqn:Ehas.
    + apply has_In in Ehas. destruct (IH _ _ H Hnd Hclosed) as (N & Hspec).
      split; [exact N|]. intros i. rewrite Hspec. cbn [In]. split.
      * intros [Hi|[Hi|(p & Hp & Hc)]]; auto. right. right. exists p. auto.
      * intros [Hi|[[<-|Hi]|(p & [<-|Hp] & Hc)]]; auto.
        -- left. eapply Hclosed; eassumption.
        -- right. right. exists p. auto.
    + unfold bind in H. destruct (get l index) as [item|] eqn:G; [|discriminate].
      pose proof (get_Some_bounds _ _ _ G) as B.
      set (n := run_length (fun i => negb ((indent i =? Constants.INDENT_PARENT)
                                           || is_heading i))
                           (drop (index + 1) l)) in *.
      set (acc2 := if (indent item =? Constants.INDENT_PARENT) && negb (is_heading item)
                   then add_all (range (index + 1) (index + n)) (add index acc)
                   else add index acc) in *.
      assert (Hin2 : forall i, In i acc2 <-> In i acc \/ i = index \/ child_of l index i).
      { intros i. unfold acc2.
        destruct ((indent item =? Constants.INDENT_PARENT) && negb (is_heading item)) eqn:P.
        - apply andb_prop in P. destruct P as [P1 P2]. apply Z.eqb_eq in P1.
          apply negb_true_iff in P2.
          rewrite In_add_all, In_range, In_add. split.
          + intros [Hr|[->|Hi]]; auto. right. right. exists item. fold n.
            repeat split; auto; lia.
          + intros [Hi|[->|(it & Gi & _ & _ & Hr)]]; auto. left. fold n in Hr. lia.
        - rewrite In_add. split.
          + intros [->|Hi]; auto.
          + intros [Hi|[->|(it & Gi & Hind & Hhead & _)]]; auto.
            rewrite G in Gi. injection Gi as <-.
            rewrite Hind, Hhead, Z.eqb_refl in P. discriminate P. }
      assert (Hnd2 : NoDup acc2).
      { unfold acc2. destruct (_ && _); [apply NoDup_add_all|]; apply NoDup_add, Hnd. }
      destruct (IH _ _ H Hnd2) as (N & Hspec).
      { intros p i Hp Hc. apply Hin2. apply Hin2 in Hp.
        destruct Hp as [Hp|[->|Hp]].
        - left. eapply Hclosed; eassumption.
        - right. right. exact Hc.
        - exfalso. exact (child_is_no_parent l index p Hp i Hc). }
      split; [exact N|]. intros i. rewrite Hspec, Hin2. cbn [In]. split.
      * intros [[Hi|[->|Hc]]|[Hi|(p & Hp & Hc)]]; auto.
        -- right. right. exists index. auto.
        -- right. right. exists p. auto.
      * intros [Hi|[[<-|Hi]|(p & [<-|Hp] & Hc)]]; auto.
        right. right. exists p. auto.
Qed.

(** X21. Delete removes the selection together with the children of its
    parents, and nothing else.  When [deleteItems] returns on a non-empty
    selection, the new active list is the old one without the items at the
    collected indices, the other items keeping their order; and an index is
    collected exactly when it is selected or is a child of a selected parent
    todo. *)
Theorem deleteItems_removes_families (s s' : State) :
  size (selectedIndices s) > 0 ->
  deleteItems s = Some s' ->
  exists toDelete,
    DeleteManager.collectIndicesToDelete (selectedIndices s) s = Some toDelete
    /\ items s' = remove_indices toDelete 0 (items s)
    /\ forall i, In i toDelete
                 <-> In i (selectedIndices s)
                     \/ exists p, In p (selectedIndices s) /\ child_of (items s) p i.
Proof.
  intros Hsize H. unfold deleteItems, DeleteManager.deleteMultiple, bind in H.
  destruct (Z.eqb_spec (size (selectedIndices s)) 0); [lia|].
  destruct (DeleteManager.collectIndicesToDelete _ _) as [toDelete|] eqn:C; [|discriminate].
  unfold DeleteManager.deleteByIndices, bind in H.
  destruct (DeleteManager.types_of _ _); [|discriminate].
  cbv zeta in H. injection H as <-. exists toDelete. split; [reflexivity|].
  unfold DeleteManager.collectIndicesToDelete in C.
  pose proof (delete_collect_nonneg _ _ _ _ C (Forall_nil _)) as Hpos.
  destruct (delete_collect_spec _ _ _ _ C (NoDup_nil _)) as (N & Hspec);
    [intros p i []|].
  split.
  - match goal with
    | |- items (selectItem1 (activeIndex ?t) ?t) = _ =>
      pose proof (selectItem1_data (activeIndex t) t) as V
    end.
    unfold data_view in V. injection V as V _ _ _ _. rewrite V.
    pose proof (reset_after_delete_data
                  (last (sort_desc toDelete) 0) l
                  (set_items (fold_left (fun l0 index => splice_remove l0 index 1)
                                        (sort_desc toDelete) (items s)) s)) as V2.
    unfold data_view in V2. injection V2 as V2 _ _ _ _. rewrite V2. state_fields.
    rewrite fold_remove_descending.
    + apply remove_indices_ext. intros i. apply In_sort_desc.
    + apply sort_desc_descending, N.
    + apply Forall_forall. intros j Hj. apply (proj1 (In_sort_desc _ _)) in Hj.
      rewrite Forall_forall in Hpos. auto.
  - intros i. rewrite Hspec. cbn [In]. split.
    + intros [[]|[Hi|(p & Hp & Hc)]].
      * left. apply (proj1 (In_sort_asc _ _)), Hi.
      * right. exists p. split; [apply (proj1 (In_sort_asc _ _)), Hp|exact Hc].
    + intros [Hi|(p & Hp & Hc)].
      * right. left. apply In_sort_asc, Hi.
      * right. right. exists p. split; [apply In_sort_asc, Hp|exact Hc].
Qed.

Lemma deleteItems_removes_families_witness :
  exists toDelete,
    DeleteManager.collectIndicesToDelete (selectedIndices scenario_archive_state)
                                         scenario_archive_state = Some toDelete
    /\ items scenario_deleted = remove_indices toDelete 0 (items scenario_archive_state)
    /\ forall i, In i toDelete
                 <-> In i (selectedIndices scenario_archive_state)
                     \/ exists p, In p (selectedIndices scenario_archive_state)
                                  /\ child_of (items scenario_archive_state) p i.
Proof.
  apply (deleteItems_removes_families scenario_archive_state scenario_deleted).
  - vm_compute. reflexivity.
  - vm_compute. reflexivity.
Defined.

(** ** The writer's only failure, and a line the reader drops *)




(** X23. The reader drops a todo line that ends in a carriage return.  The
    pattern of a todo line takes the title up to the end of the input with
    the dot, which does not match a carriage return: a line made of white
    space, a dash, a check box, a space and a title, when followed by a
    carriage return as in a file with Windows line ends, is not recognised,
    and outside a note block it leaves the reader's state as it was. *)
Theorem todo_line_with_cr_is_dropped (tabs titleStr : str) (mark : ascii) (st : ParseState) :
  forallb is_space tabs = true ->
  p_collectingNote st = false ->
  let line := tabs ++ "-"%char :: " "%char :: "["%char :: mark :: "]"%char :: " "%char
                   :: titleStr ++ [cr] in
  matchTodo line = None /\ parse_line st line = st.
Proof.
  intros Htabs Hcoll line.
  assert (Hm : matchTodo line = None).
  { unfold matchTodo, line. rewrite span_space_prefix by (assumption || reflexivity).
    cbv beta iota.
    replace (forallb (fun c => negb (is_line_terminator c)) (titleStr ++ [cr])) with false.
    - rewrite !andb_false_r. reflexivity.
    - rewrite forallb_app. cbn. rewrite andb_false_r. reflexivity. }
  split; [exact Hm|].
  destruct (todo_line_trim tabs (" "%char :: "["%char :: mark :: "]"%char :: " "%char
                                    :: titleStr ++ [cr]) Htabs) as (m & Et).
  fold line in Et. destruct st as [its arch cur coll lastI inArch nid].
  cbn [p_collectingNote] in Hcoll. subst coll.
  unfold parse_line. rewrite Et, Hm. reflexivity.
Qed.

Lemma todo_line_with_cr_is_dropped_witness :
  matchTodo (lit "- [ ] a" ++ [cr]) = None
  /\ parse_line (parse_init 0%nat) (lit "- [ ] a" ++ [cr]) = parse_init 0%nat.
Proof.
  apply (todo_line_with_cr_is_dropped [] (lit "a") " "%char (parse_init 0%nat)).
  - reflexivity.
  - reflexivity.
Defined.
